(* ===== verification/_CoqProject ===== *)
-Q . S2P
Prelude.v
GoStrings.v
Json.v
GoTime.v
Api.v
Effects.v
Backups.v
Recovery.v
Retention.v
Secrets.v
Memory.v
DeepCopy.v
Storage.v
Config.v
Client.v
ConfigFile.v
Webhook.v
BackupCtl.v
Deletion.v
DeletionWorkers.v
Status.v
Protection.v
Roles.v
Lifecycle.v
Process.v
Command.v
Reaper.v
Instance.v
Cache.v
Start.v
Cli.v
Threads.v
Requests.v
Promises.v
Permissions.v
World.v
Completion.v
System.v
Scenario.v
