(* ===== verification/Prelude.v ===== *)
(** * A verification library for cnpg-plugin-wal-g

    cnpg-plugin-wal-g is a CloudNativePG plugin that archives WAL and takes, restores and
    deletes backups of PostgreSQL clusters with the [wal-g] executable.  It runs in two
    places: an operator, whose controllers reconcile BackupConfig and Backup objects with
    what is in the object storage, and a sidecar of every PostgreSQL pod, which calls [wal-g].
    This library models the logic of both and the code they share, and proves what makes it
    correct.

    ** The program and this library

    - [Prelude] (this file): notations, tactics, hint databases, Go's error values, and the
      list functions of [samber/lo] as plain list functions; the weight of a map and the
      argument that steps which use up work come to rest.
    - [GoStrings], [GoTime]: what the program uses of Go's [strings], [strconv], [time] and
      [path]: prefixes, splitting, number parsing at 64 bits, durations and calendar dates.
      Times are nanoseconds since the epoch in UTC; local time zones are not modelled.
    - [Api]: the BackupConfig objects of [api/v1beta1] and, of the Kubernetes and CloudNativePG
      objects, the fields the plugin reads or writes.
    - [Effects]: programs.  A handler is a tree of calls ([prog]) to the API server, [wal-g],
      the clock, the file system, the caches and the deletion queues, branching on the answers.
    - [Backups], [Recovery] ([pkg/walg/backups.go], [recovery.go]): wal-g's backup metadata, the
      dependency graph of delta backups, and which backup a recovery starts from.
    - [Storage], [Config], [Client] ([pkg/walg]): the parser of storage listings, the
      configuration of [wal-g] with its credential files and their caches, and the commands.
    - [Json], [ConfigFile] ([pkg/walg/config.go], [internal/cmd/dump_config.go]): the text of
      strings and objects that [encoding/json] writes; the configuration as such a text, its
      hash, the file it is written to, and the command [dump-config].
    - [Secrets], [Webhook] ([api/v1beta1], [internal/common], [internal/webhook]): finding the
      BackupConfig of a cluster or a Backup, filling it with secret data, setting its defaults
      and validating it.
    - [Memory], [DeepCopy] ([zz_generated.deepcopy.go], [copyInto] of the caching client): a heap
      with typed cells, what values pointers into it represent, the contract of a copy, and the
      generated copies of the types of the API.
    - [Retention], [BackupCtl], [Deletion], [Status], [Protection] ([internal/controller]): the
      retention controller, the Backup reconciler, the deletion controller with its queues, the
      status controller with its worker pool, the BackupConfig reconciler and the two
      reconcilers that guard Secrets and ConfigMaps.
    - [DeletionWorkers] ([backup_delete_controller.go] again): the goroutines behind the queues of
      [Deletion], and the shutdown of the deletion controller.
    - [Roles], [Lifecycle] ([internal/operator], [internal/controller/backupconfig_roles.go]):
      the hook run before a cluster is reconciled (encryption key, role, role binding) and the
      hook that injects the sidecar into pods and jobs.
    - [Process], [Command], [Reaper] ([internal/util/cmd]): what a finished process is reported as
      and the environment it runs with; the builder of commands, whose copies share a map; how an
      exit status gets from the zombie reaper to the caller.
    - [Instance] ([internal/instance]): the gRPC services of the sidecar for WAL, backup,
      restore and metrics, with the user data a backup is tagged with ([encoding/json]), and
      the identities of both plugins.
    - [Cache], [Requests] ([pkg/resourcecachingclient]): the client of the sidecar, which answers
      reads from objects it watches; one read with its requests, each of which can fail, and
      whether the role of the sidecar allows them.
    - [Start], [Cli] ([cmd/main.go], [internal/cmd], [pkg/version], the two [manager.go]): the flags
      and their bindings, the start of operator and sidecar, the commands and the exit status.
    - [Permissions] (the RBAC markers of [internal/controller]): what the operator may do against
      what its handlers do, and which handler deletes objects.
    - [Threads], [Promises], [World], [Completion], [System], [Scenario]: all handlers together.
      Threads of [prog]s over a shared world with a rely-guarantee rule; what each handler
      promises about its calls; the API server, the deletion requests and the object storage
      they share; runs of deletions that nothing stands in the way of; what holds in every state
      that their interleavings, users and stale caches can reach; and one run from an empty
      world to the removal of everything, on which the theorems are tried.

    The parts interact as in the program.  The Backup reconciler ([BackupCtl]) enqueues deleted
    Backups with the deletion controller ([Deletion]); its worker deletes them with [Client],
    on the configuration that [Secrets] and [Config] make, and only then releases the finalizer.
    The retention controller ([Retention]) deletes Backup objects, which sets that machinery in
    motion.  The BackupConfig reconciler ([Protection]) enqueues a BackupConfig once no Backup
    is left, and guards the Secrets that [Secrets] reads.  [Roles] lets the sidecar read them.
    The services of the sidecar ([Instance]) resolve their BackupConfig with [Secrets], run the
    commands of [Client] and pick a backup with [Recovery]; every command of [Client] is the chain
    of [Command], a run of [Process] whose status [Reaper] delivers, and every read of theirs
    goes through [Cache] with the requests of [Requests].
    In [Effects] those two appear as the calls [OExec] and [OGet], with any answer.  [Start] puts
    the parts under a manager: controllers, reaper, webhook and the servers of the hooks.

    ** How effects are modelled

    The environment of a handler is open: the answer to each call is arbitrary.  A theorem
    about a handler therefore covers every interleaving with other controllers, users and
    failures that shows in the answers.  [exec p t r] says that [p] can run with the trace [t]
    of calls and answers and end with [r], a value or a panic (nil dereferences are panics);
    [wp] is the matching weakest precondition; [safe] and [emits] are its special cases for
    properties of single calls.  Logging, metrics and context values are left out, as they
    influence nothing.  A context's cancellation shows only where the code asks for it.

    [System] closes that environment: the calls of all handlers go to one [World], where an
    answer follows from what the others did.  A handler proved to keep its promise at every call
    of every run ([Threads.justified], on [Effects]) is thereby safe in any interleaving
    ([Threads.Guarantee]).

    Everywhere but in [Memory], [DeepCopy] and [Command] a Go struct or map is a value.  [DeepCopy]
    is what makes this right for objects of the API that the code copies before it changes them;
    where it does not copy, [DeepCopy.copyInto_shares] and [Command.with_env_shared] show what is
    shared, and [Cache] taints an entry that a reader may have changed.

    Six more parts are concurrent and are step relations with reachability and invariants by rule
    induction: [Deletion.Queues] (one queue and one worker per BackupConfig, one semaphore),
    [DeletionWorkers] (the goroutines that implement it, their contexts and the clean-up),
    [Status.Workers] (the in-flight set, the bounded queue and the ticker), [Retention.Loop] (the
    ticker of the retention controller), [Reaper] (callers, reaper, subscriptions and the kernel's
    processes) and [Cache] (reads, watches and their goroutines, handlers and the API server).  In
    the last three, steps are split into what the
    environment does ([external]) and what the code does by itself ([internal]); the latter use
    up work, so that the code comes to rest.  The kernel and the API server follow their
    documentation there: a process ends once and stays a zombie until waited for, Go waits for
    its own process through a pidfd, and a watch delivers every change in order.
    The deadline of a deletion request ([Deletion.Queues]), the calls of event handlers
    ([Cache]; each is a goroutine of its own) and descendants that hold the output pipes of a
    process open ([Reaper]; [cmd.Wait] waits for them) are steps of their own.

    ** What is a parameter

    Code that is not in the repository is a parameter with documented laws, each with an
    instance on which the witnesses run: [GoSort] ([sort.Slice] and [slices.SortFunc] sort when
    the comparison is a strict weak order), [GoMapRange] (the order of [range] over a map is any
    order), [StatusConditions] and [ConflictRetry] ([Status]), [FinalizerUtil] ([Protection]),
    [StringSets] ([Roles]), [Machinery] ([Requests]: the text of a field selector fixes the name the
    server authorizes a watch for), [Library] and [LibraryCopies] ([DeepCopy]: the types of
    Kubernetes inside ours, whose own copies keep the contract), [Build] ([Cli]: what the linker
    sets), the command that cobra finds ([Cli]), and the decoders of JSON, of PostgreSQL versions, LSNs and target
    times, the SHA-256 sum and [equality.Semantic.DeepEqual] where they are used (on roles it is
    equality up to nil and empty maps, [Roles.role_equiv]).
    [Cache] is about objects of any type.  viper is the calls [OViperString] and its like; what
    [BindPFlag] promises is the hypothesis [Start.bound].

    ** What the theorems show

    - Nothing is deleted too early: finalizers wait for the data ([Deletion], [Protection]),
      retention deletes only expired backups and keeps the minimum of completed ones, full or
      incremental ([Retention]), and the
      cleanup of a BackupConfig waits for its Backups.  In the whole system no interleaving
      takes the finalizer off a Backup whose data, or a BackupConfig whose storage, is still to
      be deleted, and wal-g deletes only what was asked for, in the storage of the right
      BackupConfig; and from every state the deletion of what nothing stands in the way of can
      complete ([System]).
    - The right things are found: dependents are the transitive closure of the dependency
      relation ([Backups], [BackupCtl]), a recovery starts from the last backup that
      finished by its target, on whatever timeline ([Recovery]), resolved secrets are those the references name ([Secrets]).
    - Validation is enough: an accepted BackupConfig resolves and configures [wal-g] without a
      panic ([Webhook]).  The role made for it allows what resolving reads in the namespace of the
      role ([Roles]), down to every query and watch of the caching client
      ([Requests.requests_authorized]), if it has no storage section left besides its own.
    - Protection of Secrets and ConfigMaps: those named for credentials, CA certificate and
      encryption key carry a finalizer as long as a BackupConfig names them, and lose it then;
      sources of prefix, region and endpoint never get one ([Protection]).
    - Permissions are enough: the operator holds the verbs all of its handlers need and the ones it
      hands out, and nothing but an expired Backup is ever deleted by it ([Permissions]).
    - Commands and copies: wal-g gets exactly the configuration of its client
      ([Command.client_command]), and the generated copies share nothing with the original
      ([DeepCopy.deep_copies_independent]).
    - Status is coherent: the phase follows from the conditions, scans are throttled, and
      results are merged into the object as it was last read ([Status]).
    - Concurrency is safe: deletions of one BackupConfig are in order, one at a time, and the
      queues can always drain; a request ends with its handler, or, only when its deadline has
      passed while it waited for the semaphore, without ([Deletion.Queues]); no BackupConfig is reconciled by two status workers at once.
    - The sidecar does what it is asked: a backup is pushed only by the newest instance of the
      database the backups belong to and answered with the backup just pushed, a restore
      fetches the selected backup only, and archiving succeeds exactly when the push did
      ([Instance]).
    - Refinement: the reaper and the callers of [Run] implement a specification in which every
      call returns the status of its own process or gives up ([Reaper.runner_refines]), and the
      goroutines of the deletion controller implement [Deletion.Queues] until the manager stops
      ([DeletionWorkers.workers_refine_queues]); a read of the caching client is a run of [Cache]
      ([Requests.call_is_steps]).
    - Termination: closing over dependencies, draining the deletion queues, the shutdown of the
      deletion controller, and the steps of reaper, callers and caching client between two
      events from outside.
    - Round trips: the environment of wal-g, its JSON file and its hash determine the
      configuration ([Config.ToEnvMap_inj], [ConfigFile.config_text_determines]).
    - Start-up: the operator and the sidecar make the calls of their plan in order and stop at
      the first failure; the flags reach the operator, with two exceptions ([Start]).  A process
      ends as its command does ([Cli.process_end]).
    - The cache catches up with the API server, and each handler is called exactly once for
      every change, with the objects before and after it, but in no particular order ([Cache]).
    - Idempotence: a second retention pass deletes nothing more, and injecting the sidecar
      twice is injecting it once.
    - Where the code does not do what it means to, a theorem exhibits it (for instance
      [Recovery.recovery_ignores_timeline], [BackupCtl.deletion_stuck],
      [Config.credentials_file_shared], [Protection.sources_unprotected],
      [Recovery.wrong_timeline], [Retention.last_full_deleted],
      [Deletion.Queues.given_up_at_rest], [Roles.leftover_section_denied], [Roles.nothing_to_name],
      [DeepCopy.reader_changes_cache], [Lifecycle.nil_operation_panics],
      [Instance.unconfigured_panics], [Cache.cache_stays_wrong], [ConfigFile.ToFile_contents],
      [DeletionWorkers.late_request_escapes], [Start.operator_flags_reach]).

    ** Bounds and fuel

    [Backups.process_queue] runs on fuel, twice the number of backups: a backup enters the
    queue only when it is first known, and the closure theorem shows that the fuel never runs
    out.  [Json.escape] runs on the length of its text, and takes at least one byte per
    round.  Sizes and hour counts wrap at 64 bits where Go's do, and the numbers of metrics are
    rounded as [float64] rounds them.

    ** What is not modelled, and why

    The parsing of command lines (cobra), loggers, and the registration of types, watches and
    webhooks inside controller-runtime: calls into libraries without logic of the program.  What
    is printed, but by the command [version] and by [main].  In [Deletion.Queues] and
    [DeletionWorkers] a deadline that passes is a step that may come at any time.  In [World] users are trusted to leave the
    cleanup finalizers alone, and the names of deleted backups are not used again.  RBAC is
    the rules of a role; wildcards, aggregation and other bindings do not occur in them. *)
From stdpp Require Import base tactics option list gmap strings sorting relations.

Declare Scope go_scope.
Delimit Scope go_scope with go.

(** ** Hint databases and tactics of the development *)

Create HintDb golib discriminated.
Create Rewrite HintDb gorw.
#[export] Hint Constants Opaque : golib.
#[export] Hint Variables Opaque : golib.

(** Case analysis on every [match]/[if] scrutinee of the goal, then cleanup. *)
Ltac go_cases := repeat (case_match; simplify_eq/=).

(** Boolean tests to propositions, in hypotheses and goal. *)
Ltac bool_to_prop :=
  repeat match goal with
  | H : (_ && _)%bool = true |- _ => apply andb_true_iff in H as [? ?]
  | H : (_ || _)%bool = false |- _ => apply orb_false_iff in H as [? ?]
  | H : negb _ = true |- _ => apply negb_true_iff in H
  | H : negb _ = false |- _ => apply negb_false_iff in H
  | H : bool_decide _ = true |- _ => apply bool_decide_eq_true in H
  | H : bool_decide _ = false |- _ => apply bool_decide_eq_false in H
  | H : String.eqb _ _ = true |- _ => apply String.eqb_eq in H
  | H : String.eqb _ _ = false |- _ => apply String.eqb_neq in H
  | H : Nat.ltb _ _ = true |- _ => apply Nat.ltb_lt in H
  | H : Nat.ltb _ _ = false |- _ => apply Nat.ltb_ge in H
  | H : Nat.eqb _ _ = true |- _ => apply Nat.eqb_eq in H
  | H : Nat.eqb _ _ = false |- _ => apply Nat.eqb_neq in H
  | H : Z.ltb _ _ = true |- _ => apply Z.ltb_lt in H
  | H : Z.ltb _ _ = false |- _ => apply Z.ltb_ge in H
  | H : Z.leb _ _ = true |- _ => apply Z.leb_le in H
  | H : Z.leb _ _ = false |- _ => apply Z.leb_gt in H
  | H : Z.eqb _ _ = true |- _ => apply Z.eqb_eq in H
  | H : Z.eqb _ _ = false |- _ => apply Z.eqb_neq in H
  end.

(** ** Errors: Go's [error] values

    The code distinguishes three things of an error: whether it is nil, whether
    [apierrors.IsNotFound] / conflict holds of it (through [%w] wrapping), and its
    text.  [fmt.Errorf("...: %w", err)] keeps the class and prefixes the text. *)
Inductive err_kind := ENotFound | EConflict | EOther.

#[export] Instance err_kind_eq_dec : EqDecision err_kind.
Proof. solve_decision. Defined.

Record err := mkErr { ekind : err_kind; emsg : string }.

#[export] Instance err_eq_dec : EqDecision err.
Proof. solve_decision. Defined.

Definition errorf (msg : string) : err := mkErr EOther msg.
Definition wrapf (prefix : string) (e : err) : err :=
  mkErr (ekind e) (prefix +:+ emsg e).
(** [fmt.Errorf] with [%w] on an error that may be nil, under [if err != nil]. *)
Definition wrap_opt (prefix : string) (e : option err) : option err :=
  match e with Some e => Some (wrapf prefix e) | None => None end.
Definition is_not_found (e : err) : bool := bool_decide (ekind e = ENotFound).
Definition is_conflict (e : err) : bool := bool_decide (ekind e = EConflict).

(** A Go pair [(T, error)] of which only one half is meaningful. *)
Inductive res (A : Type) := Ok (a : A) | Err (e : err).
Arguments Ok {A} a.
Arguments Err {A} e.

#[export] Instance res_ret : MRet res := λ A a, Ok a.
#[export] Instance res_bind : MBind res := λ A B f m,
  match m with Ok a => f a | Err e => Err e end.

(** [client.IgnoreNotFound(err)] on the nil-able error. *)
Definition ignore_not_found (e : err) : option err :=
  if is_not_found e then None else Some e.

Lemma wrapf_not_found p e : is_not_found (wrapf p e) = is_not_found e.
Proof. reflexivity. Qed.
#[export] Hint Rewrite wrapf_not_found : gorw.

(** ** Sorting: [sort.Slice] and [slices.SortFunc]

    Go promises a permutation of the input, sorted when [less] is a strict weak order on
    the elements of the slice.  Nothing is promised for an inconsistent [less], and the
    sort is not stable. *)
Record strict_weak_order {A} (less : A → A → bool) (P : A → Prop) : Prop := {
  swo_irrefl : ∀ x, P x → less x x = false;
  swo_trans : ∀ x y z, P x → P y → P z → less x y = true → less y z = true → less x z = true;
  swo_neg_trans : ∀ x y z, P x → P y → P z →
    less x y = false → less y z = false → less x z = false;
}.

Definition not_after {A} (less : A → A → bool) (x y : A) : Prop := less y x = false.

Class GoSort := {
  sort_slice : ∀ {A}, (A → A → bool) → list A → list A;
  sort_slice_perm : ∀ A (less : A → A → bool) l, sort_slice less l ≡ₚ l;
  sort_slice_sorted : ∀ A (less : A → A → bool) l,
    strict_weak_order less (λ x, x ∈ l) → StronglySorted (not_after less) (sort_slice less l);
}.

(** The insertion sort Go runs on slices of up to twelve elements: the element
    moves left while it is less than its left neighbour. *)
Fixpoint insert_sorted {A} (less : A → A → bool) (x : A) (rev_prefix : list A) : list A :=
  match rev_prefix with
  | [] => [x]
  | y :: ys => if less x y then y :: insert_sorted less x ys else x :: y :: ys
  end.

Definition insertion_sort {A} (less : A → A → bool) (l : list A) : list A :=
  reverse (foldl (λ acc x, insert_sorted less x acc) [] l).

Lemma insert_sorted_perm {A} (less : A → A → bool) x l :
  insert_sorted less x l ≡ₚ x :: l.
Proof.
  induction l as [|y l IH]; simpl; [done|]. case_match; [|done].
  rewrite IH. apply Permutation_swap.
Qed.

Lemma insertion_fold_perm {A} (less : A → A → bool) l acc :
  foldl (λ acc x, insert_sorted less x acc) acc l ≡ₚ acc ++ l.
Proof.
  revert acc. induction l as [|x l IH]; intros acc; simpl; [by rewrite app_nil_r|].
  rewrite IH, insert_sorted_perm. apply Permutation_middle.
Qed.

Lemma insertion_sort_perm {A} (less : A → A → bool) l : insertion_sort less l ≡ₚ l.
Proof. unfold insertion_sort. by rewrite reverse_Permutation, insertion_fold_perm. Qed.

Lemma insert_sorted_Forall {A} (less : A → A → bool) (P : A → Prop) x l :
  P x → Forall P l → Forall P (insert_sorted less x l).
Proof. intros ??. rewrite insert_sorted_perm. by constructor. Qed.

Lemma insert_sorted_sorted {A} (less : A → A → bool) (P : A → Prop) x l :
  strict_weak_order less P → P x → Forall P l →
  StronglySorted (λ a b, less a b = false) l →
  StronglySorted (λ a b, less a b = false) (insert_sorted less x l).
Proof.
  intros Hswo Px Pl. induction 1 as [|y l Hl IH Hy]; simpl.
  { constructor; constructor. }
  apply Forall_cons in Pl as [Py Pl]. destruct (less x y) eqn:Hxy.
  - constructor; [by apply IH|]. apply insert_sorted_Forall; [|done].
    destruct (less y x) eqn:Hyx; [|done].
    pose proof (swo_trans _ _ Hswo x y x Px Py Px Hxy Hyx).
    pose proof (swo_irrefl _ _ Hswo x Px). congruence.
  - constructor; [by constructor|]. constructor; [done|].
    rewrite Forall_forall in Hy, Pl |- *. intros z Hz.
    apply (swo_neg_trans _ _ Hswo x y z); auto.
Qed.

Lemma StronglySorted_snoc {A} (R : A → A → Prop) l x :
  StronglySorted R l → Forall (λ y, R y x) l → StronglySorted R (l ++ [x]).
Proof.
  induction 1 as [|y l Hl IH Hy]; intros Hx; simpl; [repeat constructor|].
  inversion Hx; simplify_eq. constructor; [auto|]. apply Forall_app; auto.
Qed.

Lemma StronglySorted_reverse {A} (R : A → A → Prop) l :
  StronglySorted R l → StronglySorted (flip R) (reverse l).
Proof.
  induction 1 as [|x l Hl IH Hx]; [constructor|].
  rewrite reverse_cons. apply StronglySorted_snoc; [done|].
  by rewrite reverse_Permutation.
Qed.

Lemma insertion_fold_sorted {A} (less : A → A → bool) (P : A → Prop) l acc :
  strict_weak_order less P → Forall P l → Forall P acc →
  StronglySorted (λ a b, less a b = false) acc →
  StronglySorted (λ a b, less a b = false) (foldl (λ acc x, insert_sorted less x acc) acc l).
Proof.
  intros Hswo. revert acc. induction l as [|x l IH]; intros acc Pl Pacc Hacc; simpl; [done|].
  apply Forall_cons in Pl as [Px Pl].
  apply IH; [done|by apply insert_sorted_Forall|by eapply insert_sorted_sorted].
Qed.

Lemma insertion_sort_sorted {A} (less : A → A → bool) l :
  strict_weak_order less (λ x, x ∈ l) →
  StronglySorted (not_after less) (insertion_sort less l).
Proof.
  intros Hswo. unfold insertion_sort.
  apply (StronglySorted_reverse (λ a b, less a b = false)).
  apply (insertion_fold_sorted less (λ x, x ∈ l)); [done| |constructor|constructor].
  by apply Forall_forall.
Qed.

(** The instance the witnesses run on. *)
Definition insertion_go_sort : GoSort := {|
  sort_slice := @insertion_sort;
  sort_slice_perm := @insertion_sort_perm;
  sort_slice_sorted := @insertion_sort_sorted;
|}.

(** ** Map iteration: Go leaves the order of [range m] unspecified *)
Class GoMapRange := {
  map_range : ∀ {V}, gmap string V → list (string * V);
  map_range_perm : ∀ V (m : gmap string V), map_range m ≡ₚ map_to_list m;
}.

Definition canonical_map_range : GoMapRange := {|
  map_range := λ V m, map_to_list m;
  map_range_perm := λ V m, reflexivity _;
|}.

(** ** Lists *)

(** [lo.Find], and the loop [for i := range l { if p(l[i]) { return l[i] } }]. *)
Fixpoint find_first {A} (p : A → bool) (l : list A) : option A :=
  match l with
  | [] => None
  | x :: l => if p x then Some x else find_first p l
  end.

(** [lo.FindLastIndexOf], and the loop [for i := len(l) - 1; i >= 0; i--]. *)
Definition find_last {A} (p : A → bool) (l : list A) : option A :=
  find_first p (reverse l).

(** [lo.ContainsBy], [lo.CountBy], [lo.Filter]. *)
Definition contains_by {A} (p : A → bool) (l : list A) : bool := existsb p l.
Definition filter_by {A} (p : A → bool) (l : list A) : list A := List.filter p l.
Definition count_by {A} (p : A → bool) (l : list A) : nat := length (filter_by p l).

Lemma find_first_Some {A} (p : A → bool) l x :
  find_first p l = Some x ↔
  ∃ l1 l2, l = l1 ++ x :: l2 ∧ p x = true ∧ Forall (λ y, p y = false) l1.
Proof.
  induction l as [|y l IH]; simpl.
  { split; [done|]. by intros ([|??] & ? & ? & _). }
  destruct (p y) eqn:Hy.
  - split.
    + intros [= ->]. by exists [], l.
    + intros ([|z l1] & l2 & ? & Hx & Hl1); simplify_eq/=; [done|].
      inversion Hl1; congruence.
  - rewrite IH. split.
    + intros (l1 & l2 & -> & ? & ?). exists (y :: l1), l2. by rewrite Forall_cons.
    + intros ([|z l1] & l2 & ? & Hx & Hl1); simplify_eq/=; [congruence|].
      inversion Hl1; simplify_eq. by exists l1, l2.
Qed.

Lemma find_first_None {A} (p : A → bool) l :
  find_first p l = None ↔ Forall (λ y, p y = false) l.
Proof.
  induction l as [|y l IH]; simpl; [by split|].
  rewrite Forall_cons. destruct (p y); [|rewrite IH]; split; intros; destruct_and?; done.
Qed.

Lemma find_last_Some {A} (p : A → bool) l x :
  find_last p l = Some x ↔
  ∃ l1 l2, l = l1 ++ x :: l2 ∧ p x = true ∧ Forall (λ y, p y = false) l2.
Proof.
  unfold find_last. rewrite find_first_Some. split.
  - intros (l1 & l2 & Heq & ? & ?). exists (reverse l2), (reverse l1).
    apply (f_equal reverse) in Heq. rewrite reverse_involutive in Heq.
    rewrite Heq, reverse_app, reverse_cons, <-app_assoc. split_and!; [done..|].
    by rewrite reverse_Permutation.
  - intros (l1 & l2 & -> & ? & ?). exists (reverse l2), (reverse l1).
    rewrite reverse_app, reverse_cons, <-app_assoc. split_and!; [done..|].
    by rewrite reverse_Permutation.
Qed.

Lemma find_last_None {A} (p : A → bool) l :
  find_last p l = None ↔ Forall (λ y, p y = false) l.
Proof. unfold find_last. by rewrite find_first_None, reverse_Permutation. Qed.

Lemma find_first_elem {A} (p : A → bool) l x :
  find_first p l = Some x → x ∈ l ∧ p x = true.
Proof. intros (l1 & l2 & -> & ? & _)%find_first_Some. set_solver. Qed.

Lemma find_last_elem {A} (p : A → bool) l x :
  find_last p l = Some x → x ∈ l ∧ p x = true.
Proof. intros (l1 & l2 & -> & ? & _)%find_last_Some. set_solver. Qed.

Lemma contains_by_true {A} (p : A → bool) l :
  contains_by p l = true ↔ ∃ x, x ∈ l ∧ p x = true.
Proof.
  unfold contains_by. rewrite existsb_exists. by setoid_rewrite <-list_elem_of_In.
Qed.

Lemma contains_by_false {A} (p : A → bool) l :
  contains_by p l = false ↔ ∀ x, x ∈ l → p x = false.
Proof.
  rewrite <-not_true_iff_false, contains_by_true. split.
  - intros H x Hx. apply not_true_iff_false. eauto.
  - intros H (x & Hx & Hp). specialize (H _ Hx). congruence.
Qed.

Lemma elem_of_filter_by {A} (p : A → bool) l x :
  x ∈ filter_by p l ↔ x ∈ l ∧ p x = true.
Proof. unfold filter_by. by rewrite !list_elem_of_In, filter_In. Qed.

Lemma filter_by_cons {A} (p : A → bool) x l :
  filter_by p (x :: l) = if p x then x :: filter_by p l else filter_by p l.
Proof. reflexivity. Qed.

Lemma filter_by_app {A} (p : A → bool) l k :
  filter_by p (l ++ k) = filter_by p l ++ filter_by p k.
Proof. apply List.filter_app. Qed.

Lemma filter_by_reverse {A} (p : A → bool) l :
  filter_by p (reverse l) = reverse (filter_by p l).
Proof.
  induction l as [|x l IH]; [done|]. rewrite reverse_cons, filter_by_app, IH, !filter_by_cons.
  destruct (p x); [by rewrite reverse_cons|by rewrite app_nil_r].
Qed.

Lemma filter_by_sublist {A} (p : A → bool) l : filter_by p l `sublist_of` l.
Proof.
  induction l as [|x l IH]; simpl; [constructor|].
  destruct (p x); by constructor.
Qed.

Lemma filter_by_sublist_mono {A} (p : A → bool) l k :
  l `sublist_of` k → filter_by p l `sublist_of` filter_by p k.
Proof. induction 1; simpl; repeat case_match; try done; by constructor. Qed.

Lemma count_by_app {A} (p : A → bool) l k :
  count_by p (l ++ k) = count_by p l + count_by p k.
Proof. unfold count_by. by rewrite filter_by_app, length_app. Qed.

#[export] Instance filter_by_Permutation {A} (p : A → bool) :
  Proper (Permutation ==> Permutation) (filter_by p).
Proof.
  induction 1 as [|x l k ? IH|x y l|]; simpl; [done| | |by etrans].
  - destruct (p x); by rewrite ?IH.
  - destruct (p x), (p y); try done. by rewrite Permutation_swap.
Qed.

#[export] Instance count_by_Permutation {A} (p : A → bool) :
  Proper (Permutation ==> eq) (count_by p).
Proof. intros l k Hlk. unfold count_by. by rewrite Hlk. Qed.

Lemma StronglySorted_filter_by {A} (R : A → A → Prop) (p : A → bool) l :
  StronglySorted R l → StronglySorted R (filter_by p l).
Proof.
  induction 1 as [|x l Hl IH Hx]; simpl; [constructor|].
  destruct (p x); [|done]. constructor; [done|].
  rewrite Forall_forall in Hx |- *. intros y [Hy _]%elem_of_filter_by. auto.
Qed.

#[export] Hint Rewrite @contains_by_true @contains_by_false @elem_of_filter_by : gorw.
#[export] Hint Resolve find_first_elem find_last_elem sort_slice_perm map_range_perm : golib.

(** A list has at least as many elements as names. *)
Lemma size_list_to_set_le (l : list string) : size (list_to_set (C := gset string) l) ≤ length l.
Proof.
  induction l as [|x l IH]; simpl; [done|].
  rewrite size_union_alt, size_singleton.
  etrans; [apply Nat.add_le_mono_l, subseteq_size, subseteq_difference_l; reflexivity|]. lia.
Qed.

(** ** The total weight of the values of a map: the measure of several components *)

Definition map_weight `{Countable K} {V} (w : V → nat) (m : gmap K V) : nat :=
  map_fold (λ _ v n, w v + n) 0 m.

Section weight.
Context `{Countable K} {V : Type} (w : V → nat).
Implicit Types (m : gmap K V).

Lemma map_weight_insert m k v :
  m !! k = None → map_weight w (<[k := v]> m) = w v + map_weight w m.
Proof.
  intros Hk. unfold map_weight. apply (map_fold_insert_L (λ _ v n, w v + n)); [|done].
  intros; lia.
Qed.

Lemma map_weight_delete m k v :
  m !! k = Some v → map_weight w m = w v + map_weight w (delete k m).
Proof.
  intros Hk. rewrite <-(insert_delete_id m k v) at 1 by done.
  by rewrite map_weight_insert by apply lookup_delete_eq.
Qed.

Lemma map_weight_replace m k v v' :
  m !! k = Some v → map_weight w (<[k := v']> m) + w v = map_weight w m + w v'.
Proof.
  intros Hk. rewrite (map_weight_delete m k v Hk), <-(insert_delete_eq m k v').
  rewrite map_weight_insert by apply lookup_delete_eq. lia.
Qed.

Lemma map_weight_le m k v : m !! k = Some v → w v ≤ map_weight w m.
Proof. intros Hk. rewrite (map_weight_delete m k v Hk). lia. Qed.
End weight.

(** ** Steps that use up work *)

Section work.
Context {S : Type} (R : relation S) (I : S → Prop) (work : S → nat).
Hypothesis uses_work : ∀ s s', I s → R s s' → I s' ∧ work s' < work s.

(** Every run is bounded by the work there is. *)
Lemma bounded_steps n s s' : I s → nsteps R n s s' → n + work s' ≤ work s.
Proof.
  intros Hi Hs. revert Hi. induction Hs as [|n s1 s2 s3 H _ IH]; intros Hi; [lia|].
  destruct (uses_work _ _ Hi H) as [Hi2 Hw]. specialize (IH Hi2). lia.
Qed.

(** If it can be told whether a state has a next step, some run comes to rest. *)
Lemma comes_to_rest s :
  (∀ s, I s → (∃ s', R s s') ∨ ∀ s', ¬ R s s') →
  I s → ∃ s', rtc R s s' ∧ ∀ s'', ¬ R s' s''.
Proof.
  intros Hdec. remember (work s) as n eqn:Hn. revert s Hn.
  induction n as [n IH] using lt_wf_ind. intros s -> Hi.
  destruct (Hdec s Hi) as [[s1 H]|Hq]; [|exists s; split; [apply rtc_refl|done]].
  destruct (uses_work _ _ Hi H) as [Hi1 Hw].
  destruct (IH (work s1) Hw s1 eq_refl Hi1) as (s2 & Hs & Hq). exists s2.
  split; [by eapply rtc_l|done].
Qed.
End work.
