(* ===== verification/GoStrings.v ===== *)
(** Go's [strings] and [strconv], as far as the plugin uses them, on byte strings.

    [split], [contains], [trim_prefix], [trim_right_slash], [join] are the functions of
    package strings; [parse_int], [atoi] and [format_int] those of strconv on 64-bit
    integers, with their two errors (a bad character, a value out of range) and the value
    Go returns beside each error. *)
From stdpp Require Import base list strings numbers.
From Stdlib Require Import Ascii DecimalString DecimalFacts DecimalZ.
From Stdlib Require Decimal.
From S2P Require Import Prelude.
Local Open Scope string_scope.
Local Open Scope nat_scope.

(** ** strings *)

Fixpoint drop_prefix (p s : string) : option string :=
  match p, s with
  | EmptyString, _ => Some s
  | String a p, String b s => if Ascii.eqb a b then drop_prefix p s else None
  | String _ _, EmptyString => None
  end.

Definition has_prefix (s p : string) : bool :=
  match drop_prefix p s with Some _ => true | None => false end.

Definition trim_prefix (s p : string) : string :=
  match drop_prefix p s with Some r => r | None => s end.

Fixpoint contains (s sub : string) : bool :=
  has_prefix s sub ||
  match s with EmptyString => false | String _ s => contains s sub end.

Fixpoint has_suffix (s suf : string) : bool :=
  String.eqb s suf ||
  match s with EmptyString => false | String _ s => has_suffix s suf end.

(** [strings.Split(s, sep)] for a non-empty [sep]; [skip] counts the bytes of a separator
    that was found and is being passed over. *)
Fixpoint split_from (sep s : string) (skip : nat) : list string :=
  match s with
  | EmptyString => [""]
  | String c s' =>
      match skip with
      | S k => split_from sep s' k
      | O => if has_prefix s sep
             then "" :: split_from sep s' (String.length sep - 1)
             else match split_from sep s' 0 with
                  | [] => []
                  | h :: t => String c h :: t
                  end
      end
  end.

Definition split (s sep : string) : list string := split_from sep s 0.

(** [strings.SplitN(s, sep, 2)]: at most one cut, at the first separator. *)
Fixpoint cut (s sep : string) : option (string * string) :=
  match drop_prefix sep s with
  | Some r => Some ("", r)
  | None => match s with
            | EmptyString => None
            | String c s' => match cut s' sep with
                             | Some (a, b) => Some (String c a, b)
                             | None => None
                             end
            end
  end.

(** The double quote. *)
Definition dquote : string := String (ascii_of_nat 34) "".

Definition join (sep : string) (l : list string) : string := String.concat sep l.

(** [hex.EncodeToString]. *)
Definition hex_digit (n : nat) : ascii :=
  ascii_of_nat (if (n <? 10)%nat then 48 + n else 87 + n).
Fixpoint hex_encode (s : string) : string :=
  match s with
  | "" => ""
  | String c s =>
      let n := nat_of_ascii c in
      String (hex_digit (n / 16)) (String (hex_digit (n mod 16)) (hex_encode s))
  end.

(** [strings.TrimRight(s, cutset)] for the one-byte cutset [c]. *)
Fixpoint trim_right (c : ascii) (s : string) : string :=
  match s with
  | EmptyString => ""
  | String d s' => match trim_right c s' with
                   | EmptyString => if Ascii.eqb c d then "" else String d ""
                   | r => String d r
                   end
  end.

Lemma append_cons c a b : String c a +:+ b = String c (a +:+ b).
Proof. reflexivity. Qed.

Lemma append_nil_l a : "" +:+ a = a.
Proof. reflexivity. Qed.

Lemma append_nil_r a : a +:+ "" = a.
Proof. induction a as [|c a IH]; [done|]. by rewrite append_cons, IH. Qed.

Lemma append_assoc a b c : a +:+ (b +:+ c) = (a +:+ b) +:+ c.
Proof. induction a as [|x a IH]; [done|]. by rewrite !append_cons, IH. Qed.

Lemma length_append a b : String.length (a +:+ b) = String.length a + String.length b.
Proof. induction a as [|x a IH]; [done|]. rewrite append_cons. simpl. by rewrite IH. Qed.

Lemma append_inj a b c d :
  String.length a = String.length c → a +:+ b = c +:+ d → a = c ∧ b = d.
Proof.
  revert c. induction a as [|x a IH]; intros [|y c]; try done.
  rewrite !append_cons. intros [= Hl] [= -> H]. by destruct (IH c Hl H) as [-> ->].
Qed.

#[export] Hint Rewrite append_cons append_nil_l append_nil_r length_append : gorw.

Lemma drop_prefix_Some p s r : drop_prefix p s = Some r ↔ s = p +:+ r.
Proof.
  revert s. induction p as [|a p IH]; intros s; simpl; [rewrite append_nil_l; split; congruence|].
  destruct s as [|b s]; [by split|].
  destruct (Ascii.eqb_spec a b) as [->|]; [rewrite IH|]; rewrite append_cons; split; congruence.
Qed.

Lemma has_prefix_true s p : has_prefix s p = true ↔ ∃ r, s = p +:+ r.
Proof.
  unfold has_prefix. setoid_rewrite <-drop_prefix_Some.
  destruct (drop_prefix p s); split; [eauto|done|done|by intros [? ?]].
Qed.

Lemma contains_true s sub : contains s sub = true ↔ ∃ a b, s = a +:+ sub +:+ b.
Proof.
  split.
  - induction s as [|c s IH]; simpl; intros [H|H]%orb_true_iff.
    + apply has_prefix_true in H as [r Hr]. by exists "", r.
    + done.
    + apply has_prefix_true in H as [r Hr]. by exists "", r.
    + destruct (IH H) as (a & b & ->). by exists (String c a), b.
  - intros (a & b & ->). induction a as [|c a IH].
    + rewrite append_nil_l. assert (has_prefix (sub +:+ b) sub = true) as Hp by (apply has_prefix_true; eauto).
      destruct (sub +:+ b); simpl in *; by rewrite Hp.
    + rewrite append_cons. simpl. by rewrite IH, orb_true_r.
Qed.

Lemma split_from_cons sep s k : ∃ h t, split_from sep s k = h :: t.
Proof.
  revert k. induction s as [|c s IH]; intros k; simpl; [eauto|].
  destruct k as [|k]; [|apply IH].
  destruct (has_prefix (String c s) sep); [eauto|].
  destruct (IH 0) as (h & t & ->). eauto.
Qed.

Lemma split_no_sep sep s : contains s sep = false → split s sep = [s].
Proof.
  unfold split. induction s as [|c s IH]; simpl; [done|].
  intros [-> Hc]%orb_false_iff. by rewrite IH.
Qed.

Lemma split_skip sep a s k :
  String.length a = k → split_from sep (a +:+ s) k = split_from sep s 0.
Proof.
  revert a. induction k as [|k IH]; intros [|c a]; try done.
  intros [= Ha]. rewrite append_cons. simpl. by apply IH.
Qed.

(** The first separator ends the first piece. *)
Lemma split_first sep a s :
  sep ≠ "" →
  (∀ x y, a = x +:+ y → y ≠ "" → has_prefix (y +:+ sep +:+ s) sep = false) →
  split (a +:+ sep +:+ s) sep = a :: split s sep.
Proof.
  intros Hsep. unfold split. induction a as [|c a IH]; intros Hno.
  - destruct sep as [|d sep]; [done|]. rewrite append_nil_l, append_cons. simpl.
    assert (has_prefix (String d (sep +:+ s)) (String d sep) = true) as ->
      by (apply has_prefix_true; by exists s).
    rewrite Nat.sub_0_r. by rewrite split_skip.
  - pose proof (Hno "" (String c a) eq_refl ltac:(done)) as Hc.
    rewrite append_cons in Hc |- *. simpl. rewrite Hc.
    rewrite IH; [done|]. intros x y -> Hy. by apply (Hno (String c x)).
Qed.

Lemma join_split sep s : sep ≠ "" → join sep (split s sep) = s.
Proof.
  intros Hsep. unfold split, join.
  assert (∀ s k, k ≤ String.length s →
    ∃ a r, s = a +:+ r ∧ String.length a = k ∧
           String.concat sep (split_from sep s k) = r) as H; last first.
  { destruct (H s 0) as ([|??] & r & -> & ? & ->); [lia|done|done]. }
  clear s. induction s as [|c s IH]; intros k Hk; simpl in *.
  { exists "", "". destruct k; [done|lia]. }
  destruct k as [|k].
  - exists "", (String c s). split_and!; [done..|].
    destruct (has_prefix (String c s) sep) eqn:Hp.
    + apply has_prefix_true in Hp as [r Hr]. destruct sep as [|d sep]; [done|].
      rewrite append_cons in Hr. simplify_eq.
      destruct (IH (String.length sep)) as (a & r' & Ha & Hlen & Hc).
      { rewrite length_append. lia. }
      simpl. rewrite Nat.sub_0_r.
      destruct (split_from_cons (String d sep) (sep +:+ r) (String.length sep)) as (h & t & Ht).
      rewrite Ht in Hc |- *. rewrite append_nil_l, Hc, append_cons. f_equal.
      by destruct (append_inj _ _ _ _ Hlen (eq_sym Ha)) as [-> ->].
    + destruct (IH 0) as (a & r & Ha & Hlen & Hc); [lia|].
      destruct a; [|done]. rewrite append_nil_l in Ha. subst r.
      destruct (split_from_cons sep s 0) as (h & t & Ht). rewrite Ht in Hc |- *.
      destruct t; simpl in *; rewrite <-?Hc; by rewrite ?append_cons.
  - destruct (IH k) as (a & r & -> & Hlen & Hc); [lia|].
    exists (String c a), r. rewrite append_cons. simpl. by rewrite Hlen.
Qed.

Lemma contains_char_cons c a s :
  contains (String a s) (String c "") = Ascii.eqb a c || contains s (String c "").
Proof.
  simpl. f_equal. unfold has_prefix. simpl. rewrite Ascii.eqb_sym. by destruct (Ascii.eqb a c).
Qed.

(** Splitting at a one-character separator undoes joining pieces without it. *)
Lemma split_join_char c l :
  l ≠ [] → Forall (λ s, contains s (String c "") = false) l →
  split (join (String c "") l) (String c "") = l.
Proof.
  intros Hne Hl. unfold join. induction Hl as [|a l Ha Hl IH]; [done|].
  destruct l as [|b l]; [by apply split_no_sep|].
  cbn [String.concat] in IH |- *. rewrite split_first; [by rewrite IH|done|].
  intros x y -> Hy. destruct y as [|d y]; [done|].
  assert (contains (String d y) (String c "") = false) as Hd.
  { clear IH Hl Hne. revert Ha. generalize (String d y). intros y'.
    induction x as [|e x IHx]; [done|]. rewrite append_cons, contains_char_cons.
    intros [_ ?]%orb_false_iff. auto. }
  rewrite contains_char_cons in Hd. apply orb_false_iff in Hd as [Hd _].
  rewrite append_cons. unfold has_prefix. simpl. by rewrite Ascii.eqb_sym, Hd.
Qed.

(** ** The order of strings: [<] on Go strings compares bytes *)

Lemma ltb_cons a b x y :
  String.ltb (String a x) (String b y) =
  match N.compare (N_of_ascii a) (N_of_ascii b) with
  | Lt => true | Gt => false | Eq => String.ltb x y
  end.
Proof.
  unfold String.ltb; simpl. unfold Ascii.compare. by destruct (N.compare _ _).
Qed.

Lemma ltb_irrefl x : String.ltb x x = false.
Proof. induction x as [|a x IH]; [done|]. by rewrite ltb_cons, N.compare_refl. Qed.

Lemma ltb_trans x y z : String.ltb x y = true → String.ltb y z = true → String.ltb x z = true.
Proof.
  revert y z. induction x as [|a x IH]; intros [|b y] [|c z]; try done.
  rewrite !ltb_cons.
  destruct (N.compare_spec (N_of_ascii a) (N_of_ascii b)) as [Hab|Hab|Hab]; [|intros _|done];
  (destruct (N.compare_spec (N_of_ascii b) (N_of_ascii c)) as [Hbc|Hbc|Hbc]; [|intros|done]);
  destruct (N.compare_spec (N_of_ascii a) (N_of_ascii c)) as [Hac|Hac|Hac]; try done;
  try lia. apply IH.
Qed.

Lemma ltb_total x y : String.ltb x y = false → String.ltb y x = false → x = y.
Proof.
  revert y. induction x as [|a x IH]; intros [|b y]; try done. rewrite !ltb_cons.
  rewrite (N.compare_antisym (N_of_ascii a)).
  destruct (N.compare_spec (N_of_ascii a) (N_of_ascii b)) as [Hab|Hab|Hab]; try done.
  simpl. intros Hx Hy. rewrite (IH y) by done. f_equal.
  rewrite <-(ascii_N_embedding a), Hab. apply ascii_N_embedding.
Qed.

Lemma ltb_neg_trans x y z :
  String.ltb x y = false → String.ltb y z = false → String.ltb x z = false.
Proof.
  intros Hxy Hyz. destruct (String.ltb x z) eqn:Hxz; [|done].
  destruct (String.ltb y x) eqn:Hyx.
  - rewrite (ltb_trans y x z) in Hyz by done. done.
  - rewrite (ltb_total x y) in Hxz by done. congruence.
Qed.

(** ** strconv on 64-bit integers *)
Local Open Scope Z_scope.

Definition max_uint64 : Z := 2 ^ 64 - 1.
Definition max_int64 : Z := 2 ^ 63 - 1.
Definition min_int64 : Z := - 2 ^ 63.

(** Two's complement wrap-around of Go's [int64] arithmetic. *)
Definition wrap64 (z : Z) : Z := (z + 2 ^ 63) mod 2 ^ 64 - 2 ^ 63.

Lemma wrap64_id z : min_int64 ≤ z ≤ max_int64 → wrap64 z = z.
Proof.
  unfold wrap64, min_int64, max_int64. intros ?. rewrite Z.mod_small; lia.
Qed.

Lemma wrap64_bounds z : min_int64 ≤ wrap64 z ≤ max_int64.
Proof.
  unfold wrap64, min_int64, max_int64.
  pose proof (Z.mod_pos_bound (z + 2 ^ 63) (2 ^ 64)). lia.
Qed.

Lemma wrap64_add_l a b : wrap64 (wrap64 a + b) = wrap64 (a + b).
Proof.
  unfold wrap64. f_equal.
  replace ((a + 2 ^ 63) mod 2 ^ 64 - 2 ^ 63 + b + 2 ^ 63)
    with ((a + 2 ^ 63) mod 2 ^ 64 + b) by lia.
  rewrite Zplus_mod_idemp_l. f_equal. lia.
Qed.

Inductive num_error := ErrSyntax | ErrRange.

Definition digit_val (c : ascii) : option Z :=
  let n := Z.of_N (N_of_ascii c) in
  if (48 <=? n) && (n <=? 57) then Some (n - 48)
  else if (97 <=? n) && (n <=? 122) then Some (n - 87)
  else if (65 <=? n) && (n <=? 90) then Some (n - 55)
  else None.

(** The loop of [strconv.ParseUint]: a bad digit and an overflow both stop it at once. *)
Fixpoint parse_digits (base acc : Z) (s : string) : Z * option num_error :=
  match s with
  | EmptyString => (acc, None)
  | String c s =>
      match digit_val c with
      | None => (0, Some ErrSyntax)
      | Some d =>
          if base <=? d then (0, Some ErrSyntax)
          else let n := acc * base + d in
               if max_uint64 <? n then (max_uint64, Some ErrRange)
               else parse_digits base n s
      end
  end.

Definition parse_uint (base : Z) (s : string) : Z * option num_error :=
  match s with EmptyString => (0, Some ErrSyntax) | _ => parse_digits base 0 s end.

(** [strconv.ParseInt(s, base, 64)] for an explicit base (so no [0x] prefix and no
    underscore is accepted). *)
Definition parse_int (s : string) (base : Z) : Z * option num_error :=
  match s with
  | EmptyString => (0, Some ErrSyntax)
  | String c r =>
      let neg := Ascii.eqb c "-" in
      let body := if neg || Ascii.eqb c "+" then r else s in
      match parse_uint base body with
      | (_, Some ErrSyntax) => (0, Some ErrSyntax)
      | (un, _) =>
          if negb neg && (2 ^ 63 <=? un) then (max_int64, Some ErrRange)
          else if neg && (2 ^ 63 <? un) then (min_int64, Some ErrRange)
          else (if neg then - un else un, None)
      end
  end.

Definition atoi (s : string) : Z * option num_error := parse_int s 10.

(** [strconv.FormatInt(z, 10)]. *)
Definition format_int (z : Z) : string := NilEmpty.string_of_int (Z.to_int z).

Fixpoint uint_val (acc : Z) (d : Decimal.uint) : Z :=
  match d with
  | Decimal.Nil => acc
  | Decimal.D0 d => uint_val (acc * 10) d
  | Decimal.D1 d => uint_val (acc * 10 + 1) d
  | Decimal.D2 d => uint_val (acc * 10 + 2) d
  | Decimal.D3 d => uint_val (acc * 10 + 3) d
  | Decimal.D4 d => uint_val (acc * 10 + 4) d
  | Decimal.D5 d => uint_val (acc * 10 + 5) d
  | Decimal.D6 d => uint_val (acc * 10 + 6) d
  | Decimal.D7 d => uint_val (acc * 10 + 7) d
  | Decimal.D8 d => uint_val (acc * 10 + 8) d
  | Decimal.D9 d => uint_val (acc * 10 + 9) d
  end.

Lemma uint_val_ge acc d : 0 ≤ acc → acc ≤ uint_val acc d.
Proof.
  revert acc. induction d; intros acc Hacc; simpl; try lia;
    (etrans; [|apply IHd]; lia).
Qed.

Lemma uint_val_pos p d : uint_val (Zpos p) d = Zpos (Pos.of_uint_acc d p).
Proof.
  revert p. induction d; intros p; simpl; try done;
    rewrite <-IHd; f_equal; lia.
Qed.

Lemma uint_val_of_uint d : uint_val 0 d = Z.of_uint d.
Proof.
  unfold Z.of_uint. induction d; simpl; try done; by rewrite <-uint_val_pos.
Qed.

Lemma parse_digits_step c k acc s :
  digit_val c = Some k → k < 10 → acc * 10 + k ≤ max_uint64 →
  parse_digits 10 acc (String c s) = parse_digits 10 (acc * 10 + k) s.
Proof.
  intros Hc Hk Hmax. cbn [parse_digits]. rewrite Hc.
  rewrite (proj2 (Z.leb_gt _ _)) by lia. by rewrite (proj2 (Z.ltb_ge _ _)) by lia.
Qed.

Lemma parse_digits_uint d acc :
  0 ≤ acc → uint_val acc d ≤ max_uint64 →
  parse_digits 10 acc (NilEmpty.string_of_uint d) = (uint_val acc d, None).
Proof.
  revert acc. induction d; intros acc Hacc Hmax; [done|..];
    cbn [NilEmpty.string_of_uint uint_val] in *;
    match goal with
    | |- parse_digits _ _ (String ?c _) = (uint_val ?v _, _) =>
        let o := eval vm_compute in (digit_val c) in
        match o with
        | Some ?k =>
            replace v with (acc * 10 + k) in * by lia;
            rewrite (parse_digits_step c k); [apply IHd; [lia|done]|done|lia|]
        end
    end;
    (etrans; [apply (uint_val_ge _ d)|exact Hmax]; lia).
Qed.

Lemma string_of_uint_head d c r :
  NilEmpty.string_of_uint d = String c r → c ≠ "-"%char ∧ c ≠ "+"%char.
Proof. destruct d; simpl; intros; simplify_eq; done. Qed.

Lemma parse_uint_body d z :
  d ≠ Decimal.Nil → uint_val 0 d = z → z ≤ max_uint64 →
  parse_uint 10 (NilEmpty.string_of_uint d) = (z, None).
Proof.
  intros Hd <- Hmax. unfold parse_uint. rewrite <-(parse_digits_uint d 0) by done.
  by destruct d.
Qed.

(** What [FormatInt] writes, [ParseInt] reads back. *)
Lemma atoi_format_int z :
  min_int64 ≤ z ≤ max_int64 → atoi (format_int z) = (z, None).
Proof.
  unfold min_int64, max_int64. intros Hz. unfold atoi, format_int, parse_int.
  pose proof (DecimalZ.of_to z) as Hof.
  destruct (Z.to_int z) as [d|d] eqn:Hd; simpl in Hof; rewrite <-uint_val_of_uint in Hof.
  - assert (d ≠ Decimal.Nil) as Hnil.
    { intros ->. destruct z; simpl in *; try discriminate. }
    cbn [NilEmpty.string_of_int].
    pose proof (parse_uint_body d z Hnil Hof ltac:(unfold max_uint64; lia)) as Hp.
    destruct (NilEmpty.string_of_uint d) as [|c r] eqn:Hs; [by destruct d|].
    apply string_of_uint_head in Hs as [Hm Hpl].
    apply Ascii.eqb_neq in Hm as ->. apply Ascii.eqb_neq in Hpl as ->. cbn [orb negb andb].
    rewrite Hp.
    pose proof (uint_val_ge 0 d). rewrite (proj2 (Z.leb_gt _ _)) by lia. done.
  - assert (d ≠ Decimal.Nil) as Hnil.
    { intros ->. destruct z; simpl in *; try discriminate. }
    cbn [NilEmpty.string_of_int]. change (Ascii.eqb "-" "-") with true.
    cbn [orb negb andb].
    rewrite (parse_uint_body d (-z) Hnil) by (unfold max_uint64; lia).
    rewrite (proj2 (Z.ltb_ge _ _)) by lia. f_equal. lia.
Qed.
