(* ===== verification/Json.v ===== *)
(** [encoding/json]: the text of strings, and of objects with string values.

    Strings are encoded as [json.Marshal] does by default: with HTML escaping, and with the
    replacement character for bytes that are not UTF-8. *)
From Stdlib Require Import ZArith Ascii.
From stdpp Require Import base list strings gmap sorting.
From S2P Require Import Prelude GoStrings.
Local Open Scope string_scope.
Local Open Scope list_scope.
Local Open Scope Z_scope.

Definition newline : string := String "010" "".

Definition byte_of (c : ascii) : Z := Z.of_nat (nat_of_ascii c).

(** The bytes a UTF-8 sequence continues with after its first one. *)
Definition continuation (first : Z) : option (list (Z * Z)) :=
  let any := (0x80, 0xBF) in
  if first <? 0xC2 then None
  else if first <=? 0xDF then Some [any]
  else if first =? 0xE0 then Some [(0xA0, 0xBF); any]
  else if first =? 0xED then Some [(0x80, 0x9F); any]
  else if first <=? 0xEF then Some [any; any]
  else if first =? 0xF0 then Some [(0x90, 0xBF); any; any]
  else if first <=? 0xF3 then Some [any; any; any]
  else if first =? 0xF4 then Some [(0x80, 0x8F); any; any]
  else None.

Fixpoint take_ranges (ranges : list (Z * Z)) (s : string) : option (string * string) :=
  match ranges, s with
  | [], _ => Some ("", s)
  | (lo, hi) :: ranges, String c s =>
      if (lo <=? byte_of c) && (byte_of c <=? hi)
      then '(taken, rest) ← take_ranges ranges s; Some (String c taken, rest)
      else None
  | _, _ => None
  end.

Definition escape_ascii (c : ascii) : string :=
  let b := byte_of c in
  let s := String c "" in
  if String.eqb s dquote then "\" +:+ dquote
  else if String.eqb s "\" then "\\"
  else if b =? 8 then "\b"
  else if b =? 12 then "\f"
  else if b =? 10 then "\n"
  else if b =? 13 then "\r"
  else if b =? 9 then "\t"
  else if (b <? 0x20) || String.eqb s "<" || String.eqb s ">" || String.eqb s "&"
  then "\u00" +:+ hex_encode s
  else s.

Definition line_separator : string := String "226" (String "128" (String "168" "")).
Definition paragraph_separator : string := String "226" (String "128" (String "169" "")).

(** [appendString] with HTML escaping; each round takes at least one byte. *)
Fixpoint escape (fuel : nat) (s : string) : string :=
  match fuel, s with
  | S fuel, String c s =>
      if byte_of c <? 0x80 then escape_ascii c +:+ escape fuel s
      else match (ranges ← continuation (byte_of c); take_ranges ranges s) with
           | None => "\ufffd" +:+ escape fuel s
           | Some (taken, rest) =>
               let rune := String c taken in
               (if String.eqb rune line_separator then "\u2028"
                else if String.eqb rune paragraph_separator then "\u2029" else rune) +:+
               escape fuel rest
           end
  | _, _ => ""
  end.

Definition json_string (s : string) : string := dquote +:+ escape (String.length s) s +:+ dquote.

Definition key_le (x y : string * string) : Prop := String.leb (fst x) (fst y) = true.
#[export] Instance key_le_dec x y : Decision (key_le x y).
Proof. unfold key_le. apply _. Defined.

(** [json.Marshal] of a map of strings: its keys in order. *)
Definition json_object (m : gmap string string) : string :=
  "{" +:+ join "," ((λ kv, json_string (fst kv) +:+ ":" +:+ json_string (snd kv)) <$>
    merge_sort key_le (map_to_list m)) +:+ "}".

Example escaped_names :
  json_string ("a<" +:+ newline +:+ String "255" "") =
    dquote +:+ "a\u003c\n\ufffd" +:+ dquote.
Proof. reflexivity. Qed.
