(* ===== verification/GoTime.v ===== *)
(** Go's [time], as far as the plugin uses it.

    An instant is a number of nanoseconds since the Unix epoch ([Z]); [time.Local] is UTC,
    as in the plugin's container image.  [civil_from_days]/[days_from_civil] are the
    proleptic Gregorian calendar of [Time.Date] and [time.Date], [add_date] is
    [Time.AddDate] with the normalisation of [time.Date], [parse_rfc3339] is
    [time.Parse(time.RFC3339Nano, _)]. *)
From stdpp Require Import base list strings numbers.
From Stdlib Require Import Ascii.
From S2P Require Import Prelude GoStrings.
Local Open Scope string_scope.
Local Open Scope Z_scope.

Abbreviation time := Z (only parsing).

Definition nanosecond : Z := 1.
Definition second : Z := 1000000000.
Definition minute : Z := 60 * second.
Definition hour : Z := 60 * minute.
Definition day : Z := 24 * hour.

(** [time.Time{}], 1 January of year 1. *)
Definition zero_time : time := -62135596800 * second.
Definition before (t u : time) : bool := t <? u.
Definition after (t u : time) : bool := u <? t.
Definition unix (t : time) : Z := t / second.

(** [metav1.Time.Before] on pointers: false when either pointer is nil. *)
Definition meta_before (t u : option time) : bool :=
  match t, u with Some t, Some u => before t u | _, _ => false end.

(** [metav1.Time.IsZero] on a pointer: a nil pointer and the zero time. *)
Definition is_zero_ptr (t : option time) : bool :=
  match t with None => true | Some t => t =? zero_time end.

(** ** Calendar *)

(** Days since 1 March of a year divisible by 400, for month 0 = March. *)
Definition day_of_era (yoe doy : Z) : Z := 365 * yoe + yoe / 4 - yoe / 100 + doy.
Definition day_of_year (m d : Z) : Z :=
  (153 * (if 2 <? m then m - 3 else m + 9) + 2) / 5 + d - 1.

Definition days_from_civil (y m d : Z) : Z :=
  let y := if m <=? 2 then y - 1 else y in
  y / 400 * 146097 + day_of_era (y mod 400) (day_of_year m d) - 719468.

Definition year_of_era (doe : Z) : Z :=
  (doe - doe / 1460 + doe / 36524 - doe / 146096) / 365.

Definition civil_from_days (z : Z) : Z * Z * Z :=
  let z := z + 719468 in
  let era := z / 146097 in
  let doe := z mod 146097 in
  let yoe := year_of_era doe in
  let doy := doe - day_of_era yoe 0 in
  let mp := (5 * doy + 2) / 153 in
  let d := doy - (153 * mp + 2) / 5 + 1 in
  let m := if mp <? 10 then mp + 3 else mp - 9 in
  (yoe + era * 400 + (if m <=? 2 then 1 else 0), m, d).

(** [time.Date(year, month, day, ...)] normalises the month, then counts days; the
    seconds are computed modulo 2^64. *)
Definition date (y m d : Z) (sec_of_day nsec : Z) : time :=
  let y' := y + (m - 1) / 12 in
  let m' := (m - 1) mod 12 + 1 in
  wrap64 ((days_from_civil y' m' 1 + d - 1) * 86400 + sec_of_day) * second + nsec.

(** [t.AddDate(years, months, days)]. *)
Definition add_date (t : time) (years months days : Z) : time :=
  let secs := t / second in
  let '(y, m, d) := civil_from_days (secs / 86400) in
  date (y + years) (m + months) (d + days) (secs mod 86400) (t mod second).

(** ** The calendar is consistent *)

(** A property checked at each point of a range by computation. *)
Fixpoint forall_below (n : nat) (p : Z → bool) (z : Z) : bool :=
  match n with O => true | S n => p z && forall_below n p (z + 1) end.

Lemma forall_below_spec n p z x :
  forall_below n p z = true → z ≤ x < z + Z.of_nat n → p x = true.
Proof.
  revert z. induction n as [|n IH]; intros z; simpl; [lia|].
  intros [Hp Hr]%andb_true_iff Hx. destruct (decide (x = z)) as [->|]; [done|].
  apply (IH (z + 1)); [done|lia].
Qed.

Lemma year_of_era_step doe :
  0 ≤ doe < 146096 → year_of_era doe ≤ year_of_era (doe + 1).
Proof.
  intros H. unfold year_of_era. apply Z.div_le_mono; [lia|].
  destruct (decide (doe = 146095)) as [->|]; [by vm_compute|].
  rewrite !(Z.div_small _ 146096) by lia.
  pose proof (Z.div_le_mono doe (doe + 1) 36524 ltac:(lia) ltac:(lia)).
  pose proof (Z.div_le_mono (doe + 1) (doe + 1 * 1460) 1460 ltac:(lia) ltac:(lia)).
  rewrite Z.div_add in * by lia. lia.
Qed.

Lemma year_of_era_mono a b :
  0 ≤ a ≤ b → b < 146097 → year_of_era a ≤ year_of_era b.
Proof.
  intros [Ha Hab] Hb. replace b with (a + Z.of_nat (Z.to_nat (b - a))) in * by lia.
  revert Hb. generalize (Z.to_nat (b - a)) as n. clear Hab.
  induction n as [|n IH]; intros Hb; [by rewrite Z.add_0_r|].
  etrans; [apply IH; lia|]. replace (a + Z.of_nat (S n)) with (a + Z.of_nat n + 1) by lia.
  apply year_of_era_step. lia.
Qed.

Definition year_ends_ok (y : Z) : bool :=
  (year_of_era (day_of_era y 0) =? y) && (year_of_era (day_of_era (y + 1) 0 - 1) =? y).

(** The first and last day of each of the 400 years of an era fall in that year. *)
Lemma year_of_era_ends y :
  0 ≤ y < 400 →
  year_of_era (day_of_era y 0) = y ∧ year_of_era (day_of_era (y + 1) 0 - 1) = y.
Proof.
  intros Hy. assert (forall_below 400 year_ends_ok 0 = true) as Hall by (vm_compute; reflexivity).
  pose proof (forall_below_spec _ _ _ y Hall ltac:(lia)) as H. unfold year_ends_ok in H.
  bool_to_prop. split; assumption.
Qed.

Lemma year_of_era_spec doe :
  0 ≤ doe < 146097 →
  let y := year_of_era doe in
  0 ≤ y < 400 ∧ 0 ≤ doe - day_of_era y 0 < 366.
Proof.
  intros Hd y.
  assert (0 ≤ y < 400) as Hy.
  { pose proof (year_of_era_mono 0 doe ltac:(lia) ltac:(lia)) as H0.
    pose proof (year_of_era_mono doe 146096 ltac:(lia) ltac:(lia)) as H1.
    change (year_of_era 0) with 0 in H0. change (year_of_era 146096) with 399 in H1.
    fold y in H0, H1. lia. }
  split; [done|]. destruct (year_of_era_ends y Hy) as [H0 H1].
  assert (day_of_era y 0 ≤ doe) as Hlo.
  { destruct (decide (day_of_era y 0 ≤ doe)) as [|Hn]; [done|].
    destruct (decide (y = 0)) as [E|]; [rewrite E in Hn; change (day_of_era 0 0) with 0 in Hn; lia|].
    destruct (year_of_era_ends (y - 1) ltac:(lia)) as [_ H2].
    replace (y - 1 + 1) with y in H2 by lia.
    assert (day_of_era y 0 < 146097) by (unfold day_of_era; Z.div_mod_to_equations; lia).
    pose proof (year_of_era_mono doe (day_of_era y 0 - 1) ltac:(lia) ltac:(lia)) as H3.
    fold y in H3. lia. }
  assert (day_of_era (y + 1) 0 ≤ day_of_era y 0 + 366) as Hlen
    by (unfold day_of_era; Z.div_mod_to_equations; lia).
  destruct (decide (doe < day_of_era (y + 1) 0)) as [|Hn]; [lia|].
  destruct (decide (y = 399)) as [E|].
  { rewrite E in *. change (day_of_era 399 0) with 145731 in *. lia. }
  destruct (year_of_era_ends (y + 1) ltac:(lia)) as [H2 _].
  pose proof (year_of_era_mono (day_of_era (y + 1) 0) doe) as H3.
  fold y in H3. assert (0 ≤ day_of_era (y + 1) 0)
    by (unfold day_of_era; Z.div_mod_to_equations; lia). lia.
Qed.

Lemma civil_era_bounds doe :
  0 ≤ doe < 146097 →
  let yoe := year_of_era doe in
  let doy := doe - day_of_era yoe 0 in
  let mp := (5 * doy + 2) / 153 in
  let d := doy - (153 * mp + 2) / 5 + 1 in
  0 ≤ yoe < 400 ∧ 0 ≤ mp < 12 ∧ 1 ≤ d ≤ 31.
Proof.
  intros Hd yoe doy mp d. destruct (year_of_era_spec doe Hd) as [Hy Hdoy].
  fold yoe in Hy, Hdoy. fold doy in Hdoy. split; [done|].
  unfold d, mp. clearbody doy. clear - Hdoy. Z.div_mod_to_equations. lia.
Qed.

Lemma civil_month_range z :
  let '(_, m, d) := civil_from_days z in 1 ≤ m ≤ 12 ∧ 1 ≤ d ≤ 31.
Proof.
  unfold civil_from_days.
  destruct (civil_era_bounds ((z + 719468) mod 146097)) as (_ & Hmp & Hd).
  { apply Z.mod_pos_bound. lia. }
  cbv zeta in Hmp, Hd |- *. set (mp := (5 * _ + 2) / 153) in *.
  split; [|exact Hd]. case_match; bool_to_prop; lia.
Qed.

(** Counting days from the civil date of a day gives that day back. *)
Lemma days_from_civil_from_days z :
  let '(y, m, d) := civil_from_days z in days_from_civil y m d = z.
Proof.
  unfold civil_from_days, days_from_civil.
  pose proof (Z.mod_pos_bound (z + 719468) 146097 ltac:(lia)) as Hdoe.
  pose proof (Z.div_mod (z + 719468) 146097 ltac:(lia)) as Hz.
  destruct (civil_era_bounds _ Hdoe) as (Hyoe & Hmp & Hd).
  cbv zeta in Hmp, Hd |- *.
  set (doe := (z + 719468) mod 146097) in *. set (era := (z + 719468) / 146097) in *.
  set (yoe := year_of_era doe) in *. set (doy := doe - day_of_era yoe 0) in *.
  set (mp := (5 * doy + 2) / 153) in *.
  set (m := if mp <? 10 then mp + 3 else mp - 9) in *.
  replace (if m <=? 2 then yoe + era * 400 + (if m <=? 2 then 1 else 0) - 1
           else yoe + era * 400 + (if m <=? 2 then 1 else 0)) with (yoe + era * 400)
    by (destruct (m <=? 2); lia).
  rewrite Z.div_add, Z.mod_add by lia. rewrite (Z.div_small yoe), (Z.mod_small yoe) by lia.
  assert ((if 2 <? m then m - 3 else m + 9) = mp) as Hm.
  { unfold m. repeat case_match; bool_to_prop; lia. }
  unfold day_of_year. rewrite Hm. unfold day_of_era in *. lia.
Qed.

(** With the seconds in range, [AddDate(0, 0, days)] is an exact shift by whole days. *)
Lemma add_date_days t days :
  let secs := (t + days * day) / second in
  min_int64 ≤ secs ≤ max_int64 →
  add_date t 0 0 days = t + days * day.
Proof.
  intros secs Hsecs. unfold add_date, date.
  pose proof (days_from_civil_from_days (t / second / 86400)) as Hc.
  pose proof (civil_month_range (t / second / 86400)) as Hr.
  destruct (civil_from_days (t / second / 86400)) as [[y m] d].
  rewrite !Z.add_0_r. rewrite (Z.div_small (m - 1) 12), (Z.mod_small (m - 1) 12) by lia.
  replace (m - 1 + 1) with m by lia. rewrite Z.add_0_r.
  assert (days_from_civil y m 1 + (d + days) - 1 = t / second / 86400 + days) as ->.
  { rewrite <-Hc. unfold days_from_civil, day_of_era, day_of_year. lia. }
  assert ((t / second / 86400 + days) * 86400 + (t / second) mod 86400 = secs) as ->.
  { unfold secs, day, hour, minute.
    replace (days * (24 * (60 * (60 * second)))) with ((days * 86400) * second) by lia.
    rewrite Z.div_add by done. pose proof (Z.div_mod (t / second) 86400). lia. }
  rewrite wrap64_id by done. unfold secs, day, hour, minute.
  replace (days * (24 * (60 * (60 * second)))) with ((days * 86400) * second) by lia.
  rewrite Z.div_add by done. pose proof (Z.div_mod t second). unfold second in *. lia.
Qed.

(** ** [time.Parse(time.RFC3339Nano, value)] *)

Definition dec_digit (c : ascii) : option Z :=
  let n := Z.of_N (N_of_ascii c) in
  if (48 <=? n) && (n <=? 57) then Some (n - 48) else None.

(** [getnum]: two digits, or one when [fixed] is false and no second one follows. *)
Definition getnum (s : string) (fixed : bool) : option (Z * string) :=
  match s with
  | EmptyString => None
  | String c r =>
      a ← dec_digit c;
      match r with
      | EmptyString => if fixed then None else Some (a, r)
      | String c' r' =>
          match dec_digit c' with
          | Some b => Some (10 * a + b, r')
          | None => if fixed then None else Some (a, r)
          end
      end
  end.

Definition skip_byte (s : string) (c : ascii) : option string :=
  match s with String d r => if Ascii.eqb c d then Some r else None | _ => None end.

Definition get_year (s : string) : option (Z * string) :=
  match s with
  | String a (String b (String c (String d r))) =>
      a ← dec_digit a; b ← dec_digit b; c ← dec_digit c; d ← dec_digit d;
      Some (1000 * a + 100 * b + 10 * c + d, r)
  | _ => None
  end.

(** The leading run of digits, as (digits, rest). *)
Fixpoint digit_run (s : string) : list Z * string :=
  match s with
  | String c r => match dec_digit c with
                  | Some d => let '(ds, r') := digit_run r in (d :: ds, r')
                  | None => ([], s)
                  end
  | EmptyString => ([], s)
  end.

(** [parseNanoseconds]: the first nine digits count, padded with zeros. *)
Definition nanos_of (ds : list Z) : Z :=
  let ds := take 9 ds in
  foldl (λ acc d, 10 * acc + d) 0 ds * 10 ^ (9 - Z.of_nat (length ds)).

Definition get_fraction (s : string) : Z * string :=
  match s with
  | String c r =>
      if Ascii.eqb c "." || Ascii.eqb c "," then
        match digit_run r with
        | ([], _) => (0, s)
        | (ds, r') => (nanos_of ds, r')
        end
      else (0, s)
  | EmptyString => (0, s)
  end.

(** [Z] or a signed offset [hh:mm]; the offset may reach 24 hours and 60 minutes. *)
Definition get_zone (s : string) : option (Z * string) :=
  match s with
  | String "Z" r => Some (0, r)
  | String sign (String h1 (String h2 (String ":" (String m1 (String m2 r))))) =>
      '(h, _) ← getnum (String h1 (String h2 EmptyString)) true;
      '(m, _) ← getnum (String m1 (String m2 EmptyString)) true;
      if (24 <? h) || (60 <? m) then None
      else if Ascii.eqb sign "+" then Some ((h * 60 + m) * 60, r)
      else if Ascii.eqb sign "-" then Some (- ((h * 60 + m) * 60), r)
      else None
  | _ => None
  end.

Definition is_leap (y : Z) : bool :=
  (y mod 4 =? 0) && (negb (y mod 100 =? 0) || (y mod 400 =? 0)).

Definition days_in (m y : Z) : Z :=
  if m =? 2 then if is_leap y then 29 else 28
  else if (m =? 4) || (m =? 6) || (m =? 9) || (m =? 11) then 30 else 31.

Definition parse_rfc3339 (s : string) : option time :=
  '(y, s) ← get_year s; s ← skip_byte s "-";
  '(mo, s) ← getnum s true; s ← skip_byte s "-";
  '(d, s) ← getnum s true; s ← skip_byte s "T";
  '(h, s) ← getnum s false; s ← skip_byte s ":";
  '(mi, s) ← getnum s true; s ← skip_byte s ":";
  '(se, s) ← getnum s true;
  let '(nsec, s) := get_fraction s in
  '(off, s) ← get_zone s;
  if ((1 <=? mo) && (mo <=? 12) && (1 <=? d) && (d <=? days_in mo y) &&
      (h <? 24) && (mi <? 60) && (se <? 60) && String.eqb s "")%bool
  then Some ((days_from_civil y mo d * 86400 + h * 3600 + mi * 60 + se - off) * second + nsec)
  else None.

Example parse_rfc3339_utc :
  parse_rfc3339 "2026-04-27T12:18:55.841Z" = Some 1777292335841000000.
Proof. reflexivity. Qed.

Example parse_rfc3339_offset :
  parse_rfc3339 "1970-01-01T03:00:00+03:00" = Some 0.
Proof. reflexivity. Qed.

Example parse_rfc3339_bad_day : parse_rfc3339 "2025-02-29T00:00:00Z" = None.
Proof. reflexivity. Qed.
