(* ===== verification/Api.v ===== *)
(** The API objects: [api/v1beta1/backupconfig_types.go], [backup_types.go] and
    [groupversion_info.go] in full, and of the Kubernetes and CloudNativePG objects the
    fields the plugin reads or writes.

    Go pointers that may be nil are [option]s, nil-able maps are [option (gmap ..)] where
    the code tests for nil, slices are lists, [int]s are [Z].  Opaque payloads that are
    only copied (container resources) are strings. *)
From stdpp Require Import base list strings gmap.
From S2P Require Import Prelude GoStrings GoTime.
Local Open Scope string_scope.
Local Open Scope list_scope.

(** ** Kubernetes metadata *)

Record NamespacedName := mkKey { key_ns : string; key_name : string }.
Abbreviation ObjectKey := NamespacedName (only parsing).

#[export] Instance key_eq_dec : EqDecision NamespacedName.
Proof. solve_decision. Defined.

#[export] Instance key_countable : Countable NamespacedName.
Proof.
  refine (inj_countable' (λ k, (key_ns k, key_name k)) (λ p, mkKey p.1 p.2) _).
  by intros [].
Defined.

(** [types.NamespacedName.String]. *)
Definition key_string (k : NamespacedName) : string := key_ns k +:+ "/" +:+ key_name k.

Record OwnerReference := mkOwnerRef {
  or_APIVersion : string;
  or_Kind : string;
  or_Name : string;
  or_UID : string;
  or_BlockOwnerDeletion : option bool;
}.

#[export] Instance owner_ref_eq_dec : EqDecision OwnerReference.
Proof. solve_decision. Defined.

Record ObjectMeta := mkMeta {
  Name : string;
  Namespace : string;
  UID : string;
  ResourceVersion : string;
  Generation : Z;
  Labels : option (gmap string string);
  Annotations : option (gmap string string);
  Finalizers : list string;
  OwnerReferences : list OwnerReference;
  CreationTimestamp : time;
  DeletionTimestamp : option time;
}.

#[export] Instance object_meta_eq_dec : EqDecision ObjectMeta.
Proof. solve_decision. Defined.

Definition with_finalizers (m : ObjectMeta) (f : list string) : ObjectMeta :=
  mkMeta (Name m) (Namespace m) (UID m) (ResourceVersion m) (Generation m) (Labels m) (Annotations m) f
    (OwnerReferences m) (CreationTimestamp m) (DeletionTimestamp m).
Definition with_owners (m : ObjectMeta) (o : list OwnerReference) : ObjectMeta :=
  mkMeta (Name m) (Namespace m) (UID m) (ResourceVersion m) (Generation m) (Labels m) (Annotations m)
    (Finalizers m) o (CreationTimestamp m) (DeletionTimestamp m).
Definition with_marks (m : ObjectMeta) (l a : option (gmap string string)) : ObjectMeta :=
  mkMeta (Name m) (Namespace m) (UID m) (ResourceVersion m) (Generation m) l a (Finalizers m)
    (OwnerReferences m) (CreationTimestamp m) (DeletionTimestamp m).

(** Reading a map that may be nil: [m[k]] is the empty string when absent. *)
Definition str_map_get (m : option (gmap string string)) (k : string) : string :=
  default "" (m ≫= λ m, m !! k).

Record SecretKeySelector := mkSelector { sel_Name : string; sel_Key : string }.
Abbreviation ConfigMapKeySelector := SecretKeySelector (only parsing).

#[export] Instance selector_eq_dec : EqDecision SecretKeySelector.
Proof. solve_decision. Defined.

(** [sec_Type]: ["Opaque"], ["kubernetes.io/tls"], ... *)
Record Secret := mkSecret {
  sec_meta : ObjectMeta;
  sec_Type : string;
  sec_Data : gmap string string;
}.
Record ConfigMap := mkConfigMap { cm_meta : ObjectMeta; cm_Data : gmap string string }.

(** [rbacv1]. *)
Record PolicyRule := mkRule {
  APIGroups : list string;
  Verbs : list string;
  RuleResources : list string;
  ResourceNames : list string;
}.

#[export] Instance policy_rule_eq_dec : EqDecision PolicyRule.
Proof. solve_decision. Defined.

Record Role := mkRole { role_meta : ObjectMeta; Rules : list PolicyRule }.

#[export] Instance role_eq_dec : EqDecision Role.
Proof. solve_decision. Defined.

Record Subject := mkSubject {
  sub_Kind : string;
  sub_APIGroup : string;
  sub_Name : string;
  sub_Namespace : string;
}.

Record RoleRef := mkRoleRef {
  rr_APIGroup : string;
  rr_Kind : string;
  rr_Name : string;
}.

Record RoleBinding := mkRoleBinding {
  rb_meta : ObjectMeta;
  Subjects : list Subject;
  rb_RoleRef : RoleRef;
}.

(** ** Condition and metadata constants *)

Record Condition := mkCondition {
  c_Type : string;
  c_Status : string;
  c_ObservedGeneration : Z;
  c_LastTransitionTime : time;
  c_Reason : string;
  c_Message : string;
}.

Definition ConditionTrue : string := "True".
Definition ConditionFalse : string := "False".
Definition ConditionUnknown : string := "Unknown".

(** [groupversion_info.go] *)
Definition Group : string := "cnpg-extensions.yandex.cloud".
Definition Version : string := "v1beta1".
Definition BackupConfigKind : string := "BackupConfig".
Definition group_version : string := Group +:+ "/" +:+ Version.

(** [backup_types.go] *)
Definition BackupFinalizerName : string := "cnpg-plugin-wal-g.yandex.cloud/backup-cleanup".
Definition BackupPgVersionLabelName : string := "cnpg-plugin-wal-g.yandex.cloud/pg-major".
Definition BackupTypeLabelName : string := "cnpg-plugin-wal-g.yandex.cloud/backup-type".
Definition BackupAllDependentsAnnotationName : string :=
  "cnpg-plugin-wal-g.yandex.cloud/dependent-backups-all".
Definition BackupDirectDependentsAnnotationName : string :=
  "cnpg-plugin-wal-g.yandex.cloud/dependent-backups-direct".
Definition BackupTypeFull : string := "full".
Definition BackupTypeIncremental : string := "incremental".

(** [backupconfig_types.go] *)
Definition BackupConfigFinalizerName : string :=
  "cnpg-plugin-wal-g.yandex.cloud/backup-config-cleanup".
Definition BackupConfigSecretFinalizerName : string :=
  "cnpg-plugin-wal-g.yandex.cloud/backup-config-secret-protection".
Definition BackupConfigCMFinalizerName : string :=
  "cnpg-plugin-wal-g.yandex.cloud/backup-config-configmap-protection".

(** ** BackupConfig: spec *)

Record ValueFromSource := mkValueFrom {
  SecretKeyRef : option SecretKeySelector;
  ConfigMapKeyRef : option ConfigMapKeySelector;
}.

Record CustomCAReference := mkCustomCA {
  ca_Kind : string;
  ca_Name : string;
  ca_Key : string;
}.

Record S3StorageConfig := mkS3 {
  s3_Prefix : string;
  s3_PrefixFrom : option ValueFromSource;
  s3_Region : string;
  s3_RegionFrom : option ValueFromSource;
  s3_EndpointURL : string;
  s3_EndpointURLFrom : option ValueFromSource;
  s3_ForcePathStyle : bool;
  s3_StorageClass : string;
  s3_CustomCA : option CustomCAReference;
  s3_AccessKeyIDRef : option SecretKeySelector;
  s3_AccessKeySecretRef : option SecretKeySelector;
}.

Definition StorageTypeS3 : string := "s3".
Definition StorageTypeGCS : string := "gcs".

Record GCSStorageConfig := mkGCS {
  gcs_Prefix : string;
  gcs_PrefixFrom : option ValueFromSource;
  gcs_CredentialsSecretRef : option SecretKeySelector;
}.

Record StorageConfig := mkStorage {
  st_StorageType : string;
  st_S3 : option S3StorageConfig;
  st_GCS : option GCSStorageConfig;
}.

Record BackupEncryptionConfig := mkEncryption {
  enc_Method : string;
  enc_ExistingEncryptionSecretName : string;
}.

Record BackupRetentionConfig := mkRetention {
  IgnoreForBackupConfigDeletion : bool;
  IgnoreForBackupDeletion : bool;
  IgnoreForManualBackups : bool;
  MinBackupsToKeep : Z;
  DeleteBackupsAfter : string;
}.

Record BackupConfigSpec := mkBCSpec {
  DownloadConcurrency : option Z;
  UploadDiskRateLimit : option Z;
  UploadNetworkRateLimit : option Z;
  UploadConcurrency : option Z;
  UploadDiskConcurrency : option Z;
  DownloadFileRetries : Z;
  DeltaMaxSteps : Z;
  TarDisableFsync : bool;
  TarSizeThreshold : option Z;
  Retention : BackupRetentionConfig;
  Storage : StorageConfig;
  Resources : string;
  Encryption : BackupEncryptionConfig;
}.

(** ** BackupConfig: status *)

Inductive BackupConfigPhase :=
| BackupConfigPhaseNone
| BackupConfigPhaseHealthy
| BackupConfigPhaseDegraded
| BackupConfigPhaseFailed
| BackupConfigPhaseUnknown.

Definition ConditionTypeWALIntegrityCheck : string := "WALIntegrityCheckPassed".
Definition ConditionTypeCredentialsValid : string := "CredentialsValid".
Definition ConditionTypeStorageReadable : string := "StorageReadable".
Definition ConditionTypeStorageWritable : string := "StorageWritable".

Record ConsumedStorageInfo := mkConsumed {
  TotalBytes : option Z;
  Total : string;
  BackupsBytes : option Z;
  Backups : string;
  WALBytes : option Z;
  WAL : string;
}.

Record BackupConfigStatus := mkBCStatus {
  Phase : BackupConfigPhase;
  FirstRecoverabilityPoint : option time;
  LastSuccessfulBackup : option time;
  LastFailedBackup : option time;
  ConsumedStorage : option ConsumedStorageInfo;
  Conditions : list Condition;
}.

Record BackupConfig := mkBackupConfig {
  bc_meta : ObjectMeta;
  bc_Spec : BackupConfigSpec;
  bc_Status : BackupConfigStatus;
}.

Definition with_bc_meta (b : BackupConfig) (m : ObjectMeta) : BackupConfig :=
  mkBackupConfig m (bc_Spec b) (bc_Status b).
Definition with_bc_status (b : BackupConfig) (s : BackupConfigStatus) : BackupConfig :=
  mkBackupConfig (bc_meta b) (bc_Spec b) s.

(** ** CloudNativePG objects *)

Record PluginConfiguration := mkPlugin {
  plugin_Name : string;
  plugin_Parameters : option (gmap string string);
}.

#[export] Instance plugin_eq_dec : EqDecision PluginConfiguration.
Proof. solve_decision. Defined.

Inductive BackupPhase :=
| BackupPhaseNew | BackupPhasePending | BackupPhaseStarted | BackupPhaseRunning
| BackupPhaseFinalizing | BackupPhaseCompleted | BackupPhaseFailed
| BackupPhaseOther (s : string).

#[export] Instance backup_phase_eq_dec : EqDecision BackupPhase.
Proof. solve_decision. Defined.

Definition BackupMethodPlugin : string := "plugin".

Record Backup := mkBackup {
  bk_meta : ObjectMeta;
  bk_ClusterName : string;
  bk_Method : string;
  bk_PluginConfiguration : option PluginConfiguration;
  bk_Phase : BackupPhase;
  bk_StartedAt : option time;
  bk_BackupID : string;
}.

#[export] Instance backup_eq_dec : EqDecision Backup.
Proof. solve_decision. Defined.

Definition with_bk_meta (b : Backup) (m : ObjectMeta) : Backup :=
  mkBackup m (bk_ClusterName b) (bk_Method b) (bk_PluginConfiguration b) (bk_Phase b)
    (bk_StartedAt b) (bk_BackupID b).

Record RecoveryTarget := mkTarget {
  rt_BackupID : string;
  rt_TargetTLI : string;
  rt_TargetTime : string;
  rt_TargetLSN : string;
}.

Record BootstrapRecovery := mkRecovery {
  rec_Source : string;
  rec_Target : option RecoveryTarget;
}.

Record ExternalCluster := mkExternal {
  ext_Name : string;
  ext_PluginConfiguration : option PluginConfiguration;
}.

(** [cl_Recovery] is [Spec.Bootstrap.Recovery], [None] when either pointer is nil;
    a nil [Spec.Plugins] is the empty list. *)
Record Cluster := mkCluster {
  cl_meta : ObjectMeta;
  cl_Plugins : list PluginConfiguration;
  cl_Recovery : option BootstrapRecovery;
  cl_ExternalClusters : list ExternalCluster;
  cl_ImageName : string;
  cl_ImagePullPolicy : string;
}.

Definition empty_meta : ObjectMeta := mkMeta "" "" "" "" 0 None None [] [] zero_time None.

(** [&cnpgv1.Cluster{}] *)
Definition empty_cluster : Cluster := mkCluster empty_meta [] None [] "" "".

(** [client.ObjectKeyFromObject]. *)
Definition key_of (m : ObjectMeta) : ObjectKey := mkKey (Namespace m) (Name m).

(** A BackupConfig of this name is among the owners of a Backup. *)
Definition owned_by (bc : BackupConfig) (b : Backup) : Prop :=
  ∃ o, o ∈ OwnerReferences (bk_meta b) ∧ or_Kind o = BackupConfigKind ∧
       or_Name o = Name (bc_meta bc).

Lemma owned_by_contains bc b :
  contains_by (λ o, String.eqb (or_Kind o) BackupConfigKind &&
                    String.eqb (or_Name o) (Name (bc_meta bc))) (OwnerReferences (bk_meta b)) = true
  ↔ owned_by bc b.
Proof.
  rewrite contains_by_true. unfold owned_by. by setoid_rewrite andb_true_iff; setoid_rewrite String.eqb_eq.
Qed.

#[export] Instance owned_by_dec bc b : Decision (owned_by bc b).
Proof. refine (cast_if (bool_eq_dec _ true)); by rewrite <-owned_by_contains; eassumption. Defined.

(** ** [containsString] and [removeString] of the controllers *)
Fixpoint containsString (slice : list string) (s : string) : bool :=
  match slice with
  | [] => false
  | item :: slice => if String.eqb item s then true else containsString slice s
  end.

Fixpoint removeString (slice : list string) (s : string) : list string :=
  match slice with
  | [] => []
  | item :: slice => if String.eqb item s then removeString slice s
                     else item :: removeString slice s
  end.

Lemma containsString_elem l s : containsString l s = true ↔ s ∈ l.
Proof.
  induction l as [|x l IH]; simpl; [set_solver|].
  destruct (String.eqb_spec x s) as [->|]; [set_solver|]. rewrite IH. set_solver.
Qed.

Lemma elem_of_removeString l s x : x ∈ removeString l s ↔ x ∈ l ∧ x ≠ s.
Proof.
  induction l as [|y l IH]; simpl; [set_solver|].
  destruct (String.eqb_spec y s) as [->|]; set_solver.
Qed.

Lemma removeString_app l k s : removeString (l ++ k) s = removeString l s ++ removeString k s.
Proof. induction l as [|x l IH]; [done|]. simpl. rewrite IH. by destruct (String.eqb x s). Qed.

Lemma removeString_notin l s : s ∉ l → removeString l s = l.
Proof.
  induction l as [|x l IH]; [done|]. rewrite not_elem_of_cons. intros [Hx Hl]. simpl.
  destruct (String.eqb_spec x s); [congruence|]. by rewrite IH.
Qed.

Lemma removeString_twice l s : removeString (removeString l s) s = removeString l s.
Proof. apply removeString_notin. rewrite elem_of_removeString. naive_solver. Qed.

Lemma removeString_snoc l s : removeString (l ++ [s]) s = removeString l s.
Proof. rewrite removeString_app. simpl. rewrite String.eqb_refl. apply app_nil_r. Qed.

Lemma containsString_removeString l s : containsString (removeString l s) s = false.
Proof.
  apply not_true_iff_false. rewrite containsString_elem, elem_of_removeString. naive_solver.
Qed.

#[export] Hint Rewrite containsString_elem elem_of_removeString containsString_removeString : gorw.
