(* ===== verification/Effects.v ===== *)
(** Effects: the controllers as programs over an open environment.

    A handler is a finite tree of calls ([prog]): to the Kubernetes API server, to the
    [wal-g] executable, to the clock, the file system and the process-wide caches.  The
    tree branches on the answer of each call, and the answer is whatever the environment
    gives: every theorem about a handler quantifies over all answers, hence over every
    interleaving with other actors (other controllers, users, [wal-g] failures).

    [exec p t o] says that [p] can run with the trace of calls and answers [t] and end
    with the outcome [o]; [wp] is the corresponding weakest precondition; [run] executes a
    program against a concrete environment and produces a trace. *)
From stdpp Require Import base list strings gmap.
From S2P Require Import Prelude GoStrings GoTime Api.
Local Open Scope string_scope.
Local Open Scope list_scope.

(** ** The calls *)

(** The kinds of objects the controllers read and write through [client.Client]. *)
Inductive kind :=
| KBackup | KBackupConfig | KCluster | KSecret | KConfigMap | KRole | KRoleBinding.

#[export] Instance kind_eq_dec : EqDecision kind.
Proof. solve_decision. Defined.

Definition obj (k : kind) : Type :=
  match k with
  | KBackup => Backup
  | KBackupConfig => BackupConfig
  | KCluster => Cluster
  | KSecret => Secret
  | KConfigMap => ConfigMap
  | KRole => Role
  | KRoleBinding => RoleBinding
  end.

Definition obj_meta {k : kind} : obj k → ObjectMeta :=
  match k with
  | KBackup => bk_meta
  | KBackupConfig => bc_meta
  | KCluster => cl_meta
  | KSecret => sec_meta
  | KConfigMap => cm_meta
  | KRole => role_meta
  | KRoleBinding => rb_meta
  end.

(** [cmd.RunResult]: output of a finished (or never started) process.  [rr_exit] is the
    wait status' exit code, [None] when no state was recorded. *)
Record RunResult := mkRun {
  rr_stdout : string;
  rr_stderr : string;
  rr_exit : option Z;
}.

(** The process-wide caches of [pkg/walg] (each a map behind a mutex). *)
Inductive cache_id := CACertCache | GCSCredentialsCache.

(** [backup_delete_controller.go]: a request to the deletion controller. *)
Inductive ResourceType := ResourceTypeBackup | ResourceTypeBackupConfig.

#[export] Instance resource_type_eq_dec : EqDecision ResourceType.
Proof. solve_decision. Defined.

Record DeletionRequest := mkRequest { dr_Type : ResourceType; dr_Key : NamespacedName }.

#[export] Instance deletion_request_eq_dec : EqDecision DeletionRequest.
Proof. solve_decision. Defined.

(** [backupconfig_status_controller.go]: the last archive scan of a BackupConfig.
    [configHash] is the SHA-256 sum of its resolved configuration. *)
Record archiveCheck := mkCheck {
  ac_uid : string;
  ac_generation : Z;
  configHash : string;
  nextCheck : time;
  pendingStatus : option BackupConfigStatus;
}.

(** What [Start] of the two plugins hands to the manager, with the settings it was made with:
    runnables, controllers, servers. *)
Inductive runnable :=
| ZombieProcessReaper
| BackupDeletionController
| RetentionController (checkInterval : Z)
| BackupConfigStatusController (checkInterval archiveInterval : Z)
| CertWatcher (certPath keyPath : string)
| OperatorPlugin (ServerAddress PluginPath ServerCertPath ServerCertName ServerCertKey
                  ClientCertPath ClientCertName : string)
| InstancePlugin (InstanceName PGDataPath PGWALPath PluginPath : string).
Inductive reconciler :=
| BackupConfigReconciler | BackupReconciler | SecretReconciler | ConfigMapReconciler.

(** The fallible calls of [Start] to controller-runtime and to the PKI of CNPG. *)
Inductive manager_call :=
| GetConfig
| NewCertWatcher (certPath keyPath : string)
| NewManager (enableHTTP2 : bool) (certDir probeAddress : string) (leaderElection : bool)
    (namespaces : option (list string)) (uncached : list kind)
| CreateCachingClient (watched : list kind)
| Add (r : runnable)
| SetupController (r : reconciler)
| NewKubeClient
| SetupPKI (namespace : string) (names : list string)
| SetupWebhook
| AddHealthzCheck (name : string)
| AddReadyzCheck (name : string)
| StartManager.

(** [OList] takes a namespace, or none for all of them.  [OEnqueue] is
    [enqueueDeletionRequest] of the shared deletion controller, [OAcquire] and [ORelease] its
    semaphore; [OCheckGet] and [OCheckPut] access the map of archive checks of the status
    controller; [ORandRead] is [rand.Read] into a slice of [n] bytes.  [OStat] is [os.Stat],
    [OSqlOpen], [OSqlPing] and [OSqlQuery] are the calls of [database/sql] of the sidecar, the
    last one reading one row of a text and an [int64]; [OOpenFile] is [os.OpenFile] with
    [O_RDWR|O_CREATE] and [OWriteOpened] the write that follows it; [OArchivedGet] and [OArchivedSet] access
    [lastArchivedWALTime] under its mutex.  [OKubeNamespace] is the namespace of the kube
    configuration, [OManager] a call of [Start]. *)
Inductive op :=
| OGet (k : kind) (key : ObjectKey)
| OList (k : kind) (ns : option string)
| OCreate (k : kind) (o : obj k)
| OUpdate (k : kind) (o : obj k)
| OPatch (k : kind) (old new : obj k)
| OStatusUpdate (o : BackupConfig)
| ODelete (k : kind) (o : obj k)
| OExec (name : string) (args : list string) (env : gmap string string)
| ONow
| OCtxErr
| OViperString (name : string)
| OStatIsDir (path : string)
| OMkdirAll (path : string)
| OWriteFile (path data : string)
| OCacheGet (c : cache_id) (key : string)
| OCachePut (c : cache_id) (key data : string)
| OEnqueue (queueKey : string) (request : DeletionRequest)
| OAcquire
| ORelease
| OCheckGet (key : ObjectKey)
| OCheckPut (key : ObjectKey) (check : archiveCheck)
| ORandRead (n : Z)
| OViperInt (name : string)
| OStat (path : string)
| OSymlink (oldname newname : string)
| OSqlOpen (dataSource : string)
| OSqlPing
| OSqlQuery (query : string)
| OOpenFile (path : string)
| OWriteOpened (path data : string)
| OArchivedGet
| OArchivedSet (t : time)
| OViperBool (name : string)
| OViperDuration (name : string)
| OGetenv (name : string)
| OKubeNamespace
| OManager (c : manager_call).

(** What [os.Stat] tells about a path; [StatFails] is an error other than [IsNotExist]. *)
Inductive stat_result := StatDir | StatFile | StatNotExist | StatFails (e : err).

(** What the environment answers.  A write returns the object as the server stored it. *)
Definition ans (o : op) : Type :=
  match o with
  | OGet k _ => res (obj k)
  | OList k _ => res (list (obj k))
  | OCreate k _ | OUpdate k _ | OPatch k _ _ => res (obj k)
  | OStatusUpdate _ => res BackupConfig
  | ODelete _ _ => option err
  | OExec _ _ _ => RunResult * option err
  | ONow => time
  | OCtxErr => option err
  | OViperString _ => string
  | OStatIsDir _ => bool
  | OMkdirAll _ | OWriteFile _ _ => option err
  | OCacheGet _ _ => option string
  | OCachePut _ _ _ => unit
  | OEnqueue _ _ => option err
  | OAcquire => option err
  | ORelease => unit
  | OCheckGet _ => option archiveCheck
  | OCheckPut _ _ => unit
  | ORandRead _ => res string
  | OViperInt _ => Z
  | OStat _ => stat_result
  | OSymlink _ _ | OSqlOpen _ | OSqlPing | OOpenFile _ | OWriteOpened _ _ => option err
  | OSqlQuery _ => res (string * Z)
  | OArchivedGet => option time
  | OArchivedSet _ => unit
  | OViperBool _ => bool
  | OViperDuration _ => Z
  | OGetenv _ => string
  | OKubeNamespace => res string
  | OManager _ => option err
  end.

(** ** Programs *)

Inductive prog (A : Type) : Type :=
| Ret (a : A)
| Panic (why : string)
| Vis (o : op) (k : ans o → prog A).
Arguments Ret {A} a.
Arguments Panic {A} why.
Arguments Vis {A} o k.

Fixpoint bind {A B} (f : A → prog B) (p : prog A) : prog B :=
  match p with
  | Ret a => f a
  | Panic w => Panic w
  | Vis o k => Vis o (λ a, bind f (k a))
  end.

#[export] Instance prog_ret : MRet prog := @Ret.
#[export] Instance prog_bind : MBind prog := λ A B f p, bind f p.

(** One call. *)
Definition call (o : op) : prog (ans o) := Vis o (λ a, Ret a).

(** [x, err := p; if err != nil { return err }]. *)
Definition try_bind {A B} (p : prog (res A)) (f : A → prog (res B)) : prog (res B) :=
  p ≫= λ r, match r with Ok a => f a | Err e => Ret (Err e) end.
Notation "x ←? p ; q" := (try_bind p (λ x, q))
  (at level 20, p at level 100, q at level 200, only parsing) : go_scope.

(** [fmt.Errorf("prefix%w", err)] on the error of a call. *)
Definition wrap_err {A} (prefix : string) (p : prog (res A)) : prog (res A) :=
  p ≫= λ r, Ret (match r with Ok a => Ok a | Err e => Err (wrapf prefix e) end).

(** A loop over a slice whose body cannot return early. *)
Fixpoint for_each {A} (f : A → prog ()) (l : list A) : prog () :=
  match l with
  | [] => Ret tt
  | x :: l => f x ≫= λ _, for_each f l
  end.

(** A loop over a slice that threads a value. *)
Fixpoint for_fold {A S} (f : S → A → prog S) (s : S) (l : list A) : prog S :=
  match l with
  | [] => Ret s
  | x :: l => f s x ≫= λ s, for_fold f s l
  end.

(** ** Executions *)

Record event := Ev { ev_op : op; ev_ans : ans ev_op }.
Arguments Ev o a : rename.

Inductive outcome (A : Type) := Returned (a : A) | Panicked (why : string).
Arguments Returned {A} a.
Arguments Panicked {A} why.

Fixpoint exec {A} (p : prog A) (t : list event) (r : outcome A) : Prop :=
  match p with
  | Ret a => t = [] ∧ r = Returned a
  | Panic w => t = [] ∧ r = Panicked w
  | Vis o k => ∃ a t', t = Ev o a :: t' ∧ exec (k a) t' r
  end.

(** Every execution of [p] satisfies [Q]. *)
Fixpoint wp {A} (p : prog A) (Q : list event → outcome A → Prop) : Prop :=
  match p with
  | Ret a => Q [] (Returned a)
  | Panic w => Q [] (Panicked w)
  | Vis o k => ∀ a, wp (k a) (λ t r, Q (Ev o a :: t) r)
  end.

Lemma wp_exec {A} (p : prog A) Q : wp p Q ↔ ∀ t r, exec p t r → Q t r.
Proof.
  revert Q. induction p as [a|w|o k IH]; intros Q; simpl.
  - split; [by intros ? t r [-> ->]|auto].
  - split; [by intros ? t r [-> ->]|auto].
  - split.
    + intros H t r (a & t' & -> & He). by apply (proj1 (IH a _) (H a)).
    + intros H a. apply IH. intros t r He. apply H. eauto.
Qed.

Lemma wp_mono {A} (p : prog A) (Q Q' : list event → outcome A → Prop) :
  (∀ t r, Q t r → Q' t r) → wp p Q → wp p Q'.
Proof. rewrite !wp_exec. naive_solver. Qed.

Lemma exec_bind {A B} (f : A → prog B) (p : prog A) t r :
  exec (p ≫= f) t r ↔
  (∃ t1 t2 a, t = t1 ++ t2 ∧ exec p t1 (Returned a) ∧ exec (f a) t2 r) ∨
  (∃ w, exec p t (Panicked w) ∧ r = Panicked w).
Proof.
  revert t. induction p as [a|w|o k IH]; intros t; simpl.
  - split; [by intros ?; left; exists [], t, a|].
    intros [(t1 & t2 & b & -> & [-> [= ->]] & ?)|(w & [_ [=]] & _)]. done.
  - split; [intros [-> ->]; right; eauto|].
    intros [(t1 & t2 & b & -> & [_ [=]] & ?)|(w' & [-> [= ->]] & ->)]. done.
  - split.
    + intros (a & t' & -> & [(t1 & t2 & b & -> & ? & ?)|(w & ? & ->)]%IH).
      * left. exists (Ev o a :: t1), t2, b. eauto 10.
      * right. eauto 10.
    + intros [(t1 & t2 & b & -> & (a & t' & -> & ?) & ?)|(w & (a & t' & -> & ?) & ->)].
      * exists a, (t' ++ t2). split; [done|]. apply IH. left. eauto 10.
      * exists a, t'. split; [done|]. apply IH. right. eauto.
Qed.

Lemma exec_call {B} o (f : ans o → prog B) t r :
  exec (call o ≫= f) t r → ∃ a t', t = Ev o a :: t' ∧ exec (f a) t' r.
Proof. done. Qed.

Lemma wp_call {B} o (f : ans o → prog B) Q :
  wp (call o ≫= f) Q ↔ ∀ a, wp (f a) (λ t r, Q (Ev o a :: t) r).
Proof. done. Qed.

Lemma wp_bind {A B} (f : A → prog B) (p : prog A) Q :
  wp (p ≫= f) Q ↔
  wp p (λ t r, match r with
               | Returned a => wp (f a) (λ t' r', Q (t ++ t') r')
               | Panicked w => Q t (Panicked w)
               end).
Proof.
  revert Q. induction p as [a|w|o k IH]; intros Q; simpl; [done|done|].
  split; intros H a; specialize (H a); by apply IH in H || apply IH.
Qed.

(** A run of [try_bind] that succeeds ran both parts. *)
Lemma exec_try_ok {A B} (p : prog (res A)) (f : A → prog (res B)) t b :
  exec (try_bind p f) t (Returned (Ok b)) →
  ∃ t1 t2 a, t = t1 ++ t2 ∧ exec p t1 (Returned (Ok a)) ∧ exec (f a) t2 (Returned (Ok b)).
Proof.
  intros [(t1 & t2 & [a|e] & -> & H1 & H2)|(w & _ & [=])]%exec_bind; [by exists t1, t2, a|].
  by destruct H2 as [_ [=]].
Qed.

Lemma exec_wrap_ok {A} prefix (p : prog (res A)) t a :
  exec (wrap_err prefix p) t (Returned (Ok a)) → exec p t (Returned (Ok a)).
Proof.
  intros [(t1 & t2 & [x|e] & -> & H1 & [-> [= ->]])|(w & _ & [=])]%exec_bind.
  by rewrite app_nil_r.
Qed.

(** ** Programs whose calls all satisfy a predicate and that never panic *)
Definition safe {A} (P : event → Prop) (p : prog A) : Prop :=
  wp p (λ t r, Forall P t ∧ ∃ a, r = Returned a).

Lemma safe_ret {A} P (a : A) : safe P (Ret a).
Proof. unfold safe; simpl. eauto. Qed.

Lemma safe_vis {A} P o (f : ans o → prog A) :
  (∀ a, P (Ev o a)) → (∀ a, safe P (f a)) → safe P (Vis o f).
Proof.
  intros HP Hf a. eapply wp_mono; [|apply Hf]. intros t r [Ht Hr]; simpl. split; [|done].
  constructor; [apply HP|done].
Qed.

Lemma safe_call P o : (∀ a, P (Ev o a)) → safe P (call o).
Proof. intros HP. apply safe_vis; [done|]. intros a. apply safe_ret. Qed.

Lemma safe_bind {A B} P (p : prog A) (f : A → prog B) :
  safe P p → (∀ a, safe P (f a)) → safe P (p ≫= f).
Proof.
  intros Hp Hf. apply wp_bind. eapply wp_mono; [|exact Hp].
  intros t r [Ht [a ->]]. eapply wp_mono; [|apply (Hf a)].
  intros t' r' [Ht' Hr']. split; [|done]. by apply Forall_app.
Qed.

Lemma safe_try {A B} P (p : prog (res A)) (f : A → prog (res B)) :
  safe P p → (∀ a, safe P (f a)) → safe P (try_bind p f).
Proof. intros Hp Hf. apply safe_bind; [done|]. intros [a|e]; [done|apply safe_ret]. Qed.

Lemma safe_wrap {A} P prefix (p : prog (res A)) : safe P p → safe P (wrap_err prefix p).
Proof. intros Hp. apply safe_bind; [done|]. intros a. apply safe_ret. Qed.

Lemma safe_for_each {A} P (f : A → prog ()) l :
  (∀ x, x ∈ l → safe P (f x)) → safe P (for_each f l).
Proof.
  induction l as [|x l IH]; intros Hf; [apply safe_ret|].
  apply safe_bind; [apply Hf; by left|]. intros _. apply IH. intros y Hy. apply Hf. by right.
Qed.

Lemma safe_exec {A} P (p : prog A) t r :
  safe P p → exec p t r → Forall P t ∧ ∃ a, r = Returned a.
Proof. intros Hp He. by apply (proj1 (wp_exec p _) Hp). Qed.

#[export] Hint Resolve safe_ret safe_call safe_vis safe_bind safe_try safe_wrap safe_for_each
  : golib.

(** Splits a program into its calls and branches. *)
Ltac safe_step :=
  lazymatch goal with
  | |- safe _ (Ret _) => apply safe_ret
  | |- safe _ (call _) => apply safe_call; intros
  | |- safe _ (try_bind _ _) => apply safe_try; [|intros]
  | |- safe _ (wrap_err _ _) => apply safe_wrap
  | |- safe _ (mbind _ _) => apply safe_bind; [|intros]
  | |- safe _ (for_each _ _) => apply safe_for_each; intros
  | |- safe _ (match ?x with _ => _ end) => destruct x eqn:?
  | |- safe _ (let _ := _ in _) => cbv zeta
  end.
Ltac safe_auto := repeat safe_step; auto with golib.

(** ** Programs whose calls all satisfy a predicate, and that may panic *)
Definition emits {A} (P : event → Prop) (p : prog A) : Prop := wp p (λ t _, Forall P t).

Lemma emits_ret {A} P (a : A) : emits P (Ret a).
Proof. by constructor. Qed.

Lemma emits_panic {A} P w : emits P (Panic w : prog A).
Proof. by constructor. Qed.

Lemma emits_vis {A} P o (f : ans o → prog A) :
  (∀ a, P (Ev o a)) → (∀ a, emits P (f a)) → emits P (Vis o f).
Proof. intros HP Hf a. eapply wp_mono; [|apply Hf]. intros t r Ht. by constructor. Qed.

Lemma emits_call P o : (∀ a, P (Ev o a)) → emits P (call o).
Proof. intros HP. apply emits_vis; [done|]. intros a. apply emits_ret. Qed.

Lemma emits_bind {A B} P (p : prog A) (f : A → prog B) :
  emits P p → (∀ a, emits P (f a)) → emits P (p ≫= f).
Proof.
  intros Hp Hf. apply wp_bind. eapply wp_mono; [|exact Hp].
  intros t [a|w] Ht; [|done]. eapply wp_mono; [|apply (Hf a)].
  intros t' r' Ht'. by apply Forall_app.
Qed.

Lemma emits_try {A B} P (p : prog (res A)) (f : A → prog (res B)) :
  emits P p → (∀ a, emits P (f a)) → emits P (try_bind p f).
Proof. intros Hp Hf. apply emits_bind; [done|]. intros [a|e]; [done|apply emits_ret]. Qed.

Lemma emits_wrap {A} P prefix (p : prog (res A)) : emits P p → emits P (wrap_err prefix p).
Proof. intros Hp. apply emits_bind; [done|]. intros a. apply emits_ret. Qed.

Lemma emits_for_each {A} P (f : A → prog ()) l :
  (∀ x, x ∈ l → emits P (f x)) → emits P (for_each f l).
Proof.
  induction l as [|x l IH]; intros Hf; [apply emits_ret|].
  apply emits_bind; [apply Hf; by left|]. intros _. apply IH. intros y Hy. apply Hf. by right.
Qed.

Lemma exec_emits {A} P (p : prog A) t r : emits P p → exec p t r → Forall P t.
Proof. intros Hp He. by apply (proj1 (wp_exec p _) Hp _ _ He). Qed.

Lemma safe_emits {A} P (p : prog A) : safe P p → emits P p.
Proof. apply wp_mono. by intros t r [Ht _]. Qed.

#[export] Instance safe_proper {A} :
  Proper (pointwise_relation _ iff ==> eq ==> iff) (@safe A).
Proof.
  intros P Q HPQ p ? <-. unfold safe. split; apply wp_mono; intros t r [Ht Hr];
    (split; [|done]); (eapply Forall_impl; [exact Ht|]); intros e; apply HPQ.
Qed.

Lemma emits_mono {A} (P Q : event → Prop) (p : prog A) :
  (∀ e, P e → Q e) → emits P p → emits Q p.
Proof. intros HPQ. apply wp_mono. intros t r Ht. by eapply Forall_impl. Qed.

Lemma safe_mono {A} (P Q : event → Prop) (p : prog A) :
  (∀ e, P e → Q e) → safe P p → safe Q p.
Proof. intros HPQ. apply wp_mono. intros t r [Ht ?]. split; [by eapply Forall_impl|done]. Qed.

#[export] Hint Resolve emits_ret emits_panic emits_call emits_vis emits_bind emits_try emits_wrap
  emits_for_each : golib.

Ltac emits_step :=
  lazymatch goal with
  | |- emits _ (Ret _) => apply emits_ret
  | |- emits _ (Panic _) => apply emits_panic
  | |- emits _ (call _) => apply emits_call; intros
  | |- emits _ (try_bind _ _) => apply emits_try; [|intros]
  | |- emits _ (wrap_err _ _) => apply emits_wrap
  | |- emits _ (mbind _ _) => apply emits_bind; [|intros]
  | |- emits _ (for_each _ _) => apply emits_for_each; intros
  | |- emits _ (match ?x with _ => _ end) => destruct x eqn:?
  | |- emits _ (let _ := _ in _) => cbv zeta
  end.
Ltac emits_auto := repeat emits_step; auto with golib.

(** ** Fallible programs that succeed as long as every call is answered well *)
Definition succeeds {A} (P : event → Prop) (p : prog (res A)) : Prop :=
  ∀ t r, exec p t r → Forall P t → ∃ a, r = Returned (Ok a).

Lemma succeeds_ret {A} P (a : A) : succeeds P (Ret (Ok a)).
Proof. intros t r [-> ->] _. eauto. Qed.

Lemma succeeds_try {A B} P (p : prog (res A)) (f : A → prog (res B)) :
  succeeds P p → (∀ a, succeeds P (f a)) → succeeds P (try_bind p f).
Proof.
  intros Hp Hf t r [(t1 & t2 & x & -> & H1 & H2)|(w & H1 & ->)]%exec_bind HP.
  - apply Forall_app in HP as [HP1 HP2]. destruct (Hp _ _ H1 HP1) as [a [= ->]].
    by apply (Hf a t2).
  - by destruct (Hp _ _ H1 HP).
Qed.

Lemma succeeds_wrap {A} P prefix (p : prog (res A)) : succeeds P p → succeeds P (wrap_err prefix p).
Proof.
  intros Hp t r [(t1 & t2 & x & -> & H1 & [-> ->])|(w & H1 & ->)]%exec_bind HP.
  - rewrite app_nil_r in HP. destruct (Hp _ _ H1 HP) as [a [= ->]]. eauto.
  - by destruct (Hp _ _ H1 HP).
Qed.

(** ** Running against a concrete environment *)

(** The answer of an environment that knows nothing. *)
Definition default_ans (o : op) : ans o :=
  match o return ans o with
  | OGet k _ => Err (errorf "unused")
  | OList k _ => Err (errorf "unused")
  | OCreate k _ => Err (errorf "unused")
  | OUpdate k _ => Err (errorf "unused")
  | OPatch k _ _ => Err (errorf "unused")
  | OStatusUpdate _ => Err (errorf "unused")
  | ODelete _ _ => None
  | OExec _ _ _ => (mkRun "" "" None, None)
  | ONow => 0%Z
  | OCtxErr => None
  | OViperString _ => ""
  | OStatIsDir _ => false
  | OMkdirAll _ => None
  | OWriteFile _ _ => None
  | OCacheGet _ _ => None
  | OCachePut _ _ _ => tt
  | OEnqueue _ _ => None
  | OAcquire => None
  | ORelease => tt
  | OCheckGet _ => None
  | OCheckPut _ _ => tt
  | ORandRead _ => Err (errorf "unused")
  | OViperInt _ => 0%Z
  | OStat _ => StatNotExist
  | OSymlink _ _ | OSqlOpen _ | OSqlPing | OOpenFile _ | OWriteOpened _ _ => None
  | OSqlQuery _ => Err (errorf "unused")
  | OArchivedGet => None
  | OArchivedSet _ => tt
  | OViperBool _ => false
  | OViperDuration _ => 0%Z
  | OGetenv _ => ""
  | OKubeNamespace => Err (errorf "unused")
  | OManager _ => None
  end.

Definition handler (W : Type) := ∀ o : op, W → ans o * W.

Fixpoint run {W A} (h : handler W) (p : prog A) (w : W) : outcome A * list event * W :=
  match p with
  | Ret a => (Returned a, [], w)
  | Panic m => (Panicked m, [], w)
  | Vis o k =>
      let '(a, w) := h o w in
      let '(r, t, w) := run h (k a) w in
      (r, Ev o a :: t, w)
  end.

Lemma run_exec {W A} (h : handler W) (p : prog A) w :
  let '(r, t, _) := run h p w in exec p t r.
Proof.
  revert w. induction p as [a|m|o k IH]; intros w; simpl; [done|done|].
  destruct (h o w) as [a w']. specialize (IH a w').
  destruct (run h (k a) w') as [[r t] w'']. eauto.
Qed.

Lemma run_bind {W A B} (h : handler W) (p : prog A) (f : A → prog B) w :
  run h (p ≫= f) w =
  let '(r, t, w1) := run h p w in
  match r with
  | Returned a => let '(r', t', w2) := run h (f a) w1 in (r', t ++ t', w2)
  | Panicked m => (Panicked m, t, w1)
  end.
Proof.
  revert w. induction p as [a|m|o k IH]; intros w; simpl.
  - by destruct (run h (f a) w) as [[??]?].
  - done.
  - destruct (h o w) as [a w']. change (bind f (k a)) with (k a ≫= f). rewrite IH.
    destruct (run h (k a) w') as [[[b|m] t] w1]; [|done].
    by destruct (run h (f b) w1) as [[??]?].
Qed.

(** ** Traces *)

(** All events of a trace satisfy [P] (a safety property of single calls). *)
Definition all_events (P : event → Prop) (t : list event) : Prop := Forall P t.

(** A run: first events satisfying [P], then what [Q] says. *)
Definition after {A} (P : event → Prop) (Q : list event → outcome A → Prop)
    (t : list event) (r : outcome A) : Prop :=
  ∃ t1 t2, t = t1 ++ t2 ∧ Forall P t1 ∧ Q t2 r.

Lemma after_now {A} P (p : prog A) Q : wp p Q → wp p (after P Q).
Proof. apply wp_mono. intros t r H. by exists [], t. Qed.

Lemma after_vis {A} P o (f : ans o → prog A) Q :
  (∀ a, P (Ev o a)) → (∀ a, wp (f a) (after P Q)) → wp (Vis o f) (after P Q).
Proof.
  intros HP Hf a. eapply wp_mono; [|apply Hf]. intros t r (t1 & t2 & -> & Ht & HQ).
  exists (Ev o a :: t1), t2. split_and!; [done|by constructor|done].
Qed.

Lemma after_bind {A B} P (p : prog A) (f : A → prog B) Q :
  emits P p → (∀ a, wp (f a) (after P Q)) → (∀ w, Q [] (Panicked w)) →
  wp (p ≫= f) (after P Q).
Proof.
  intros Hp Hf Hw. apply wp_bind. eapply wp_mono; [|exact Hp]. intros t [a|w] Ht.
  - eapply wp_mono; [|apply Hf]. intros t' r' (t1 & t2 & -> & Ht1 & HQ).
    exists (t ++ t1), t2. rewrite app_assoc. split_and!; [done|by apply Forall_app|done].
  - exists t, []. rewrite app_nil_r. eauto.
Qed.

(** Every event of [t] satisfying [P] comes after an event satisfying [C]. *)
Definition preceded (P C : event → Prop) (t : list event) : Prop :=
  ∀ t1 e t2, t = t1 ++ e :: t2 → P e → ∃ c, c ∈ t1 ∧ C c.

Lemma preceded_nil P C : preceded P C [].
Proof. by intros [|??] ? ? ?. Qed.

Lemma preceded_guard P C e t : C e → ¬ P e → preceded P C (e :: t).
Proof.
  intros HC HP [|e' t1] x t2 Heq Hx; injection Heq as -> ->; [by destruct HP|].
  exists e'. set_solver.
Qed.

Lemma preceded_skip P C e t : ¬ P e → preceded P C t → preceded P C (e :: t).
Proof.
  intros HP Ht [|e' t1] x t2 Heq Hx; injection Heq as -> ->; [by destruct HP|].
  destruct (Ht t1 x t2 eq_refl Hx) as (c & ? & ?). exists c. set_solver.
Qed.

(** The Backup resource an event deletes. *)
Definition deleted_backup (e : event) : option Backup :=
  match ev_op e with
  | ODelete k o => match k return obj k → option Backup with
                   | KBackup => Some
                   | _ => λ _, None
                   end o
  | _ => None
  end.

(** The answer to a listing of objects of one kind. *)
Definition listed (k : kind) (e : event) : option (res (list (obj k))) :=
  match e with
  | Ev o a =>
      match o return ans o → option (res (list (obj k))) with
      | OList k' _ => λ a, match decide (k' = k) with
                           | left H => Some (eq_rect k' (λ k, res (list (obj k))) a k H)
                           | right _ => None
                           end
      | _ => λ _, None
      end a
  end.

Lemma listed_OList k ns a : listed k (Ev (OList k ns) a) = Some a.
Proof. simpl. destruct (decide (k = k)) as [H|]; [|done]. by rewrite (proof_irrel H eq_refl). Qed.

Lemma Ev_OList_inj k ns a b : Ev (OList k ns) a = Ev (OList k ns) b → a = b.
Proof. intros Heq%(f_equal (listed k)). rewrite !listed_OList in Heq. by injection Heq. Qed.

Lemma Ev_ONow_inj a b : Ev ONow a = Ev ONow b → a = b.
Proof.
  intros Heq%(f_equal (λ e, match e with
    Ev o a => match o return ans o → time with ONow => λ a, a | _ => λ _, 0%Z end a end)).
  exact Heq.
Qed.

Lemma Ev_OCheckGet_inj key a b : Ev (OCheckGet key) a = Ev (OCheckGet key) b → a = b.
Proof.
  intros Heq%(f_equal (λ e, match e with
    Ev o a => match o return ans o → option archiveCheck with
              | OCheckGet _ => λ a, a | _ => λ _, None end a end)).
  exact Heq.
Qed.

(** The run of a program that starts with a listing, given the listing's answer. *)
Lemma exec_list {B} k ns (f : res (list (obj k)) → prog B) a t r :
  exec (call (OList k ns) ≫= f) (Ev (OList k ns) a :: t) r → exec (f a) t r.
Proof.
  intros (a' & t' & Heq & He)%exec_call. assert (t = t') as -> by congruence.
  assert (Ev (OList k ns) a = Ev (OList k ns) a') as ->%Ev_OList_inj by congruence. done.
Qed.

(** The answer to a read of an object of one kind. *)
Definition got (k : kind) (e : event) : option (res (obj k)) :=
  match e with
  | Ev o a =>
      match o return ans o → option (res (obj k)) with
      | OGet k' _ => λ a, match decide (k' = k) with
                          | left H => Some (eq_rect k' (λ k, res (obj k)) a k H)
                          | right _ => None
                          end
      | _ => λ _, None
      end a
  end.

Lemma got_OGet k key a : got k (Ev (OGet k key) a) = Some a.
Proof. simpl. destruct (decide (k = k)) as [H|]; [|done]. by rewrite (proof_irrel H eq_refl). Qed.

(** The run of a program that starts with a read, given the answer. *)
Lemma exec_get {B} k key (f : res (obj k) → prog B) a t r :
  exec (call (OGet k key) ≫= f) (Ev (OGet k key) a :: t) r → exec (f a) t r.
Proof.
  intros (a' & t' & Heq & He)%exec_call. assert (t = t') as -> by congruence.
  assert (got k (Ev (OGet k key) a) = got k (Ev (OGet k key) a')) as Hg by congruence.
  rewrite !got_OGet in Hg. by injection Hg as ->.
Qed.

(** What the server stored for a write of a Backup. *)
Definition updated_backup (e : event) : option (Backup * res Backup) :=
  match e with
  | Ev o a =>
      match o return ans o → option (Backup * res Backup) with
      | OUpdate k o => match k return obj k → res (obj k) → option (Backup * res Backup) with
                       | KBackup => λ o a, Some (o, a)
                       | _ => λ _ _, None
                       end o
      | _ => λ _, None
      end a
  end.

Lemma exec_for_each {A} (f : A → prog ()) l t r :
  (∀ x t r, x ∈ l → exec (f x) t r → r = Returned tt) →
  exec (for_each f l) t r →
  r = Returned tt ∧ ∃ ts, t = concat ts ∧ Forall2 (λ x t, exec (f x) t (Returned tt)) l ts.
Proof.
  intros Hf. revert t. induction l as [|x l IH]; intros t; simpl.
  { intros [-> ->]. split; [done|]. by exists []. }
  intros [(t1 & t2 & [] & -> & H1 & H2)|(w & Hw & ->)]%exec_bind.
  - destruct (IH (λ x t r Hx, Hf x t r ltac:(by right)) t2 H2) as [-> (ts & -> & Hts)].
    split; [done|]. exists (t1 :: ts). auto.
  - exfalso. by specialize (Hf x t _ ltac:(by left) Hw).
Qed.

(** Symbolic execution: one call of the goal's program, or the end of it. *)
Ltac wp_step :=
  lazymatch goal with
  | |- wp (Vis _ _) _ => let a := fresh "a" in intros a; simpl
  | |- wp (Ret _) _ => simpl
  | |- wp (Panic _) _ => simpl
  | |- wp (mbind _ _) _ => apply wp_bind
  | |- wp (match ?x with _ => _ end) _ => destruct x eqn:?
  | |- wp (if ?x then _ else _) _ => destruct x eqn:?
  end.
