(* ===== verification/Backups.v ===== *)
(** [pkg/walg/backups.go]: backup metadata, selection of backups, and the graph of
    delta backups. *)
From stdpp Require Import base list strings gmap relations.
From Stdlib Require Import Ascii.
From S2P Require Import Prelude GoStrings GoTime.
Local Open Scope string_scope.
Local Open Scope nat_scope.
Local Open Scope list_scope.

(** ** Backup metadata *)

(** A value of [map[string]any] decoded from JSON; [AComposite] is an array or object. *)
Inductive any := ANil | ABool (b : bool) | ANumber (s : string) | AString (s : string)
               | AComposite.

Record BackupMetadata := mkBackupMetadata {
  BackupName : string;
  Time : string;
  WalFileName : string;
  StorageName : string;
  StartTimeString : string;
  FinishTimeString : string;
  DateFmt : string;
  Hostname : string;
  DataDir : string;
  PGVersion : Z;
  StartLSN : Z;
  FinishLSN : Z;
  IsPermanent : bool;
  SystemIdentifier : Z;
  UncompressedSize : Z;
  CompressedSize : Z;
  UserData : gmap string any;
}.

(** [walg.BackupMetadata{BackupName: name}]. *)
Definition named_backup (name : string) : BackupMetadata :=
  mkBackupMetadata name "" "" "" "" "" "" "" "" 0 0 0 false 0 0 0 ∅.

(** [m.StartTime()] and [m.FinishTime()]: [None] is the error of [time.Parse]. *)
Definition StartTime (m : BackupMetadata) : option time := parse_rfc3339 (StartTimeString m).
Definition FinishTime (m : BackupMetadata) : option time := parse_rfc3339 (FinishTimeString m).

(** The slice [s[0:8]]; [None] is the run-time panic on a shorter string. *)
Definition slice8 (s : string) : option string :=
  if (String.length s <? 8)%nat then None else Some (String.substring 0 8 s).

(** [m.Timeline()]: the error of [ParseInt] is dropped, its value kept. *)
Definition Timeline (m : BackupMetadata) : option Z :=
  tl ← slice8 (WalFileName m);
  let timelineStr := "0x" +:+ tl in
  Some (fst (parse_int timelineStr 16)).

Definition TimelineStr (m : BackupMetadata) : option string := slice8 (WalFileName m).

Definition HasMatchingTimeline (m : BackupMetadata) (targetTimeline : string) : option bool :=
  if String.eqb targetTimeline "" || String.eqb targetTimeline "latest" then Some true
  else match parse_int targetTimeline 16 with
       | (_, Some _) => Some true
       | (targetTimelineID, None) => t ← Timeline m; Some (t <=? targetTimelineID)%Z
       end.

(** ** Selection *)

(** [maps.Equal(b.UserData, userData)] where the wanted data has string values only, as in
    every call of the plugin. *)
Definition user_data_equal (m : gmap string any) (userData : gmap string string) : bool :=
  (size m =? size userData)%nat &&
  forallb (λ kv, match m !! kv.1 with Some (AString s) => String.eqb s kv.2 | _ => false end)
    (map_to_list userData).

Definition GetBackupByUserData (backupList : list BackupMetadata)
    (userData : gmap string string) : option BackupMetadata :=
  find_last (λ b, user_data_equal (UserData b) userData) backupList.

Definition GetLatestBackup (backupList : list BackupMetadata) : res BackupMetadata :=
  match last backupList with
  | None => Err (errorf "no backup found on the remote object storage")
  | Some b => Ok b
  end.

Definition GetBackupByName (backupList : list BackupMetadata) (name : string) : option BackupMetadata :=
  find_first (λ b, String.eqb (BackupName b) name) backupList.

(** ** The graph of delta backups *)

Definition delta_sep : string := "_D_".

Definition wal_id (name : string) : string :=
  let parentWalID := trim_prefix name "base_" in
  if contains parentWalID delta_sep then hd "" (split parentWalID delta_sep) else parentWalID.

(** The loop body of [findDirectDependencies]. *)
Definition is_direct_dependency (parent_name name : string) : bool :=
  if String.eqb name parent_name then false
  else if negb (contains name delta_sep) then false
  else match split name delta_sep with
       | [_; base] => String.eqb base (wal_id parent_name)
       | _ => false
       end.

Definition findDirectDependencies (parent : BackupMetadata) (backupList : list BackupMetadata)
    : list BackupMetadata :=
  filter_by (λ b, is_direct_dependency (BackupName parent) (BackupName b)) backupList.

Section dependents.
Context `{GoMapRange}.
Variable backupList : list BackupMetadata.

(** One dependency found while expanding the head of the queue. *)
Definition add_dependency (st : list BackupMetadata * gmap string BackupMetadata)
    (b : BackupMetadata) : list BackupMetadata * gmap string BackupMetadata :=
  let '(depsQueue, known) := st in
  match known !! BackupName b with
  | Some _ => (depsQueue, known)
  | None => (depsQueue ++ [b], <[BackupName b := b]> known)
  end.

(** The loop [for len(depsQueue) > 0]; [None] means the fuel did not suffice. *)
Fixpoint process_queue (fuel : nat) (depsQueue : list BackupMetadata)
    (known : gmap string BackupMetadata) : option (gmap string BackupMetadata) :=
  match depsQueue with
  | [] => Some known
  | dependencyBackup :: depsQueue =>
      match fuel with
      | O => None
      | S fuel =>
          let '(depsQueue, known) :=
            foldl add_dependency (depsQueue, known)
              (findDirectDependencies dependencyBackup backupList) in
          process_queue fuel depsQueue known
      end
  end.

Definition initial_known (direct : list BackupMetadata) : gmap string BackupMetadata :=
  foldl (λ known b, <[BackupName b := b]> known) ∅ direct.

Definition GetDependentBackups (m : BackupMetadata) (includeIndirect : bool)
    : option (list BackupMetadata) :=
  let directDependencies := findDirectDependencies m backupList in
  if negb includeIndirect then Some directDependencies
  else known ← process_queue (2 * length backupList) directDependencies
                 (initial_known directDependencies);
       Some (map_range known).*2.

(** ** Termination *)

Definition all_names : gset string := list_to_set (BackupName <$> backupList).

(** Names of the list that are not known yet. *)
Definition unknown (known : gmap string BackupMetadata) : nat :=
  size (all_names ∖ dom known).

Lemma direct_in_list parent b :
  b ∈ findDirectDependencies parent backupList → b ∈ backupList.
Proof. by intros [? _]%elem_of_filter_by. Qed.

Lemma name_in_all b : b ∈ backupList → BackupName b ∈ all_names.
Proof. intros Hb. apply elem_of_list_to_set, list_elem_of_fmap. eauto. Qed.

Definition pending (st : list BackupMetadata * gmap string BackupMetadata) : nat :=
  length st.1 + unknown st.2.

Lemma unknown_insert known b :
  b ∈ backupList → known !! BackupName b = None →
  unknown known = S (unknown (<[BackupName b := b]> known)).
Proof.
  intros Hb%name_in_all Hk%not_elem_of_dom. unfold unknown. rewrite dom_insert_L.
  replace (all_names ∖ dom known)
    with ({[BackupName b]} ∪ (all_names ∖ ({[BackupName b]} ∪ dom known))).
  - rewrite size_union by set_solver. by rewrite size_singleton.
  - apply set_eq. intros x. destruct (decide (x = BackupName b)); set_solver.
Qed.

Lemma add_dependency_pending st b :
  b ∈ backupList → pending (add_dependency st b) = pending st.
Proof.
  destruct st as [q known]. intros Hb. unfold add_dependency, pending.
  destruct (known !! BackupName b) eqn:Hk; simpl; [done|].
  rewrite length_app, (unknown_insert known b) by done. simpl. lia.
Qed.

Lemma add_dependencies_pending l st :
  Forall (λ b, b ∈ backupList) l → pending (foldl add_dependency st l) = pending st.
Proof.
  intros Hl. revert st. induction Hl as [|b l Hb Hl IH]; intros st; simpl; [done|].
  by rewrite IH, add_dependency_pending.
Qed.

Lemma process_queue_total fuel q known :
  pending (q, known) ≤ fuel → is_Some (process_queue fuel q known).
Proof.
  revert q known. unfold pending at 1.
  induction fuel as [|fuel IH]; intros [|b q] known Hf; simpl in *; try by eauto.
  { lia. }
  pose proof (add_dependencies_pending (findDirectDependencies b backupList) (q, known)) as Hm.
  destruct (foldl add_dependency (q, known) _) as [q' known'].
  apply IH. unfold pending in Hm. simpl in Hm. rewrite Hm; [lia|].
  apply Forall_forall. intros x. apply direct_in_list.
Qed.

Lemma unknown_le known : unknown known ≤ length backupList.
Proof.
  unfold unknown. etrans; [apply subseteq_size, subseteq_difference_l; reflexivity|].
  unfold all_names. etrans; [apply size_list_to_set_le|]. by rewrite length_fmap.
Qed.

Lemma direct_length m : length (findDirectDependencies m backupList) ≤ length backupList.
Proof. apply sublist_length, filter_by_sublist. Qed.

(** ** Correctness: the transitive closure of the direct dependencies *)

(** [n] names a backup of the list that was taken as a delta of the backup named [p]. *)
Definition depends (p n : string) : Prop :=
  ∃ b, b ∈ backupList ∧ BackupName b = n ∧ is_direct_dependency p n = true.

Lemma elem_of_direct parent b :
  b ∈ findDirectDependencies parent backupList ↔
  b ∈ backupList ∧ is_direct_dependency (BackupName parent) (BackupName b) = true.
Proof. unfold findDirectDependencies. by rewrite elem_of_filter_by. Qed.

(** Everything known was found in the list and is reachable from [m]. *)
Definition sound (m : string) (known : gmap string BackupMetadata) : Prop :=
  ∀ n b, known !! n = Some b → BackupName b = n ∧ b ∈ backupList ∧ tc depends m n.

Lemma sound_insert m known b :
  sound m known → b ∈ backupList → tc depends m (BackupName b) →
  sound m (<[BackupName b := b]> known).
Proof.
  intros Hs Hb Htc n b'. destruct (decide (n = BackupName b)) as [->|].
  - rewrite lookup_insert_eq. by intros [= <-].
  - rewrite lookup_insert_ne by done. apply Hs.
Qed.

Lemma initial_known_spec m :
  let direct := findDirectDependencies m backupList in
  sound (BackupName m) (initial_known direct) ∧
  ∀ n, n ∈ dom (initial_known direct) ↔ ∃ b, b ∈ direct ∧ BackupName b = n.
Proof.
  intros direct.
  assert (∀ b, b ∈ direct → b ∈ backupList ∧ tc depends (BackupName m) (BackupName b)) as Hd.
  { intros b [Hb Hdep]%elem_of_direct. split; [done|]. apply tc_once. by exists b. }
  unfold initial_known.
  assert (∀ known, sound (BackupName m) known → (∀ b, b ∈ direct → b ∈ backupList ∧
      tc depends (BackupName m) (BackupName b)) →
    let k := foldl (λ known b, <[BackupName b := b]> known) known direct in
    sound (BackupName m) k ∧
    ∀ n, n ∈ dom k ↔ n ∈ dom known ∨ ∃ b, b ∈ direct ∧ BackupName b = n) as H'.
  { clear Hd. induction direct as [|b l IH]; intros known Hs Hd; simpl.
    - split; [done|]. set_solver.
    - destruct (IH (<[BackupName b := b]> known)) as [IH1 IH2].
      + destruct (Hd b) as [??]; [set_solver|]. by apply sound_insert.
      + intros x Hx. apply Hd. set_solver.
      + split; [done|]. intros n. rewrite IH2, dom_insert_L. set_solver. }
  destruct (H' ∅) as [H1 H2]; [by intros ??; rewrite lookup_empty|done|].
  split; [done|]. intros n. rewrite H2. set_solver.
Qed.

(** The loop invariant: known backups are sound, the queue holds known backups, every known
    name whose dependencies may be missing is still in the queue. *)
Record loop_inv (m : string) (queue : list BackupMetadata)
    (known : gmap string BackupMetadata) : Prop := {
  inv_sound : sound m known;
  inv_queue : ∀ b, b ∈ queue → BackupName b ∈ dom known;
  inv_closed : ∀ n n', n ∈ dom known → depends n n' →
    n' ∈ dom known ∨ ∃ b, b ∈ queue ∧ BackupName b = n;
}.

(** Expanding the head [d] of the queue: the names found so far that are not closed are
    [d]'s own and those of the queue. *)
Lemma add_dependencies_inv m d l queue known :
  (∀ b, b ∈ l → b ∈ backupList ∧ tc depends m (BackupName b)) →
  sound m known →
  (∀ b, b ∈ queue → BackupName b ∈ dom known) →
  (∀ n n', n ∈ dom known → depends n n' →
     n' ∈ dom known ∨ n = d ∨ ∃ b, b ∈ queue ∧ BackupName b = n) →
  let st := foldl add_dependency (queue, known) l in
  sound m st.2 ∧
  (∀ b, b ∈ st.1 → BackupName b ∈ dom st.2) ∧
  (∀ n n', n ∈ dom st.2 → depends n n' →
     n' ∈ dom st.2 ∨ n = d ∨ ∃ b, b ∈ st.1 ∧ BackupName b = n) ∧
  dom known ⊆ dom st.2 ∧ (∀ b, b ∈ l → BackupName b ∈ dom st.2).
Proof.
  revert queue known. induction l as [|b l IH]; intros queue known Hl Hs Hq Hc; simpl.
  { split_and!; [done..|set_solver]. }
  assert (∀ x, x ∈ l → x ∈ backupList ∧ tc depends m (BackupName x)) as Hl'.
  { intros x Hx. apply Hl. by right. }
  destruct (Hl b) as [Hb Htc]; [left|].
  destruct (known !! BackupName b) eqn:Hk.
  - destruct (IH queue known Hl' Hs Hq Hc) as (? & ? & ? & Hsub & Hall).
    split_and!; [done..|]. intros x [->|Hx]%elem_of_cons; [|auto].
    apply Hsub, elem_of_dom. by rewrite Hk.
  - destruct (IH (queue ++ [b]) (<[BackupName b := b]> known)) as (? & ? & ? & Hsub & Hall).
    + done.
    + by apply sound_insert.
    + intros x Hx. rewrite dom_insert_L. set_solver.
    + intros n n'. rewrite dom_insert_L. intros [->%elem_of_singleton|Hn]%elem_of_union Hd.
      { right. right. exists b. set_solver. }
      destruct (Hc n n' Hn Hd) as [?|[?|(x & ? & ?)]]; [set_solver..|].
      right. right. exists x. set_solver.
    + rewrite dom_insert_L in Hsub. split_and!; [done..|set_solver|].
      intros x [->|Hx]%elem_of_cons; [set_solver|auto].
Qed.

Lemma process_queue_inv m fuel queue known known' :
  process_queue fuel queue known = Some known' →
  loop_inv m queue known → loop_inv m [] known' ∧ dom known ⊆ dom known'.
Proof.
  revert queue known. induction fuel as [|fuel IH]; intros [|b queue] known; simpl; try done.
  - by intros [= ->].
  - by intros [= ->].
  - intros Hp [Hs Hq Hc].
    pose proof (add_dependencies_inv m (BackupName b) (findDirectDependencies b backupList)
      queue known) as Hadd.
    destruct (foldl add_dependency (queue, known) _) as [queue' known1].
    assert (tc depends m (BackupName b)) as Htc.
    { assert (BackupName b ∈ dom known) as Hd by (apply Hq; left).
      apply elem_of_dom in Hd as [b' Hb']. by destruct (Hs _ _ Hb') as (_ & _ & ?). }
    destruct Hadd as (Hs1 & Hq1 & Hc1 & Hsub & Hall).
    + intros x [Hx Hd]%elem_of_direct. split; [done|].
      eapply tc_r; [exact Htc|]. by exists x.
    + done.
    + intros x Hx. apply Hq. by right.
    + intros n n' Hn Hd. destruct (Hc n n' Hn Hd) as [?|(x & [->|Hx]%elem_of_cons & <-)]; eauto.
    + simpl in *. destruct (IH queue' known1 Hp) as [Hinv Hsub'].
      * split; [done|done|]. intros n n' Hn Hd.
        destruct (Hc1 n n' Hn Hd) as [?|[->|?]]; [by left| |by right].
        left. destruct Hd as (x & Hx & <- & Hdep). apply Hall, elem_of_direct. done.
      * split; [done|]. by etrans.
Qed.

Lemma closed_reach m known :
  loop_inv m [] known → (∀ n, depends m n → n ∈ dom known) →
  ∀ n, tc depends m n → n ∈ dom known.
Proof.
  intros [_ _ Hc] H0. apply tc_ind_r; [done|]. intros y z _ Hyz Hy.
  destruct (Hc y z Hy Hyz) as [?|(b & Hb & _)]; [done|]. by apply elem_of_nil in Hb.
Qed.

(** The map the queue ends with: exactly the transitive dependents, each under its name. *)
Lemma process_queue_closure m :
  let direct := findDirectDependencies m backupList in
  ∃ known, process_queue (2 * length backupList) direct (initial_known direct) = Some known ∧
    sound (BackupName m) known ∧ ∀ n, n ∈ dom known ↔ tc depends (BackupName m) n.
Proof.
  intros direct. destruct (initial_known_spec m) as [Hs Hdom]. fold direct in Hs, Hdom.
  destruct (process_queue_total (2 * length backupList) direct (initial_known direct))
    as [known Hk].
  { unfold pending; simpl. pose proof (unknown_le (initial_known direct)).
    pose proof (direct_length m). fold direct in H1. lia. }
  exists known. split; [done|].
  assert (loop_inv (BackupName m) direct (initial_known direct)) as Hinv.
  { split; [done| |].
    - intros b Hb. apply Hdom. eauto.
    - intros n n' Hn _. right. by apply Hdom. }
  destruct (process_queue_inv _ _ _ _ _ Hk Hinv) as [Hinv' Hsub].
  assert (sound (BackupName m) known) as Hs' by apply Hinv'.
  split; [done|]. intros n. split.
  - intros [b Hb]%elem_of_dom. by destruct (Hs' _ _ Hb) as (_ & _ & ?).
  - apply (closed_reach _ _ Hinv'). intros n' (b & Hb & <- & Hdep).
    apply Hsub, Hdom. exists b. split; [|done]. by apply elem_of_direct.
Qed.

Lemma range_names m known :
  sound m known → BackupName <$> (map_range known).*2 = (map_range known).*1.
Proof.
  intros Hs. rewrite <-list_fmap_compose. apply list_fmap_ext. intros i [n b] Hi. simpl.
  apply list_elem_of_lookup_2 in Hi. rewrite map_range_perm in Hi.
  apply elem_of_map_to_list in Hi. by destruct (Hs _ _ Hi).
Qed.

(** C14: dependents of a backup.  The search always ends; each dependent is returned once, is
    a backup of the list, and the names returned are exactly those reachable from the
    backup's name through direct dependencies, whatever order Go ranges the map in. *)
Theorem dependents_closure m :
  ∃ deps, GetDependentBackups m true = Some deps ∧
    NoDup (BackupName <$> deps) ∧
    (∀ b, b ∈ deps → b ∈ backupList) ∧
    (∀ n, n ∈ BackupName <$> deps ↔ tc depends (BackupName m) n).
Proof.
  destruct (process_queue_closure m) as (known & Hk & Hs & Hdom).
  exists (map_range known).*2. unfold GetDependentBackups. simpl negb. cbv iota zeta.
  rewrite Hk. split; [done|].
  rewrite (range_names _ _ Hs), map_range_perm. split; [|split].
  - apply NoDup_fst_map_to_list.
  - intros b. rewrite map_range_perm, list_elem_of_fmap.
    intros ([n b'] & -> & Hb%elem_of_map_to_list). by destruct (Hs _ _ Hb) as (_ & ? & _).
  - intros n. rewrite <-Hdom. rewrite list_elem_of_fmap, elem_of_dom. split.
    + intros ([n' b] & -> & Hb). rewrite map_range_perm in Hb.
      apply elem_of_map_to_list in Hb. by eexists.
    + intros [b Hb]. exists (n, b). by rewrite map_range_perm, elem_of_map_to_list.
Qed.

(** Along an order of WAL ids that every delta backup respects, reachability grows. *)
Lemma depends_grows (rank : string → Z) :
  (∀ p n, depends p n → rank p < rank n)%Z → ∀ p n, tc depends p n → (rank p < rank n)%Z.
Proof. intros Hr p n. induction 1 as [p n H0|p q n H0 _ IH]; [auto|]. specialize (Hr _ _ H0). lia. Qed.

End dependents.

(** No backup depends on itself or on a newer one: when every delta of the list is newer
    than its base (for any numbering of names), every dependent is newer than the backup, so
    the backup is not among its own dependents. *)
Theorem dependents_newer `{GoMapRange} (rank : string → Z) backupList m deps :
  (∀ p b, b ∈ backupList → is_direct_dependency p (BackupName b) = true →
     rank p < rank (BackupName b))%Z →
  GetDependentBackups backupList m true = Some deps →
  ∀ b, b ∈ deps → (rank (BackupName m) < rank (BackupName b))%Z ∧ BackupName b ≠ BackupName m.
Proof.
  intros Hrank Hdeps b Hb.
  assert (tc (depends backupList) (BackupName m) (BackupName b)) as Htc.
  { unfold GetDependentBackups in Hdeps. simpl in Hdeps.
    destruct (process_queue_closure backupList m) as (known & Hk & Hs & Hdom).
    simpl in Hk. rewrite Hk in Hdeps. simpl in Hdeps. injection Hdeps as <-.
    apply list_elem_of_fmap in Hb as ([n b'] & -> & Hb).
    rewrite map_range_perm in Hb. apply elem_of_map_to_list in Hb. simpl.
    destruct (Hs _ _ Hb) as (-> & _ & ?). done. }
  assert (rank (BackupName m) < rank (BackupName b))%Z.
  { revert Htc. apply depends_grows. intros p n (x & Hx & <- & Hd). eauto. }
  split; [done|]. intros Heq. rewrite Heq in *. lia.
Qed.

(** ** The names wal-g gives to backups *)

Fixpoint no_underscore (s : string) : bool :=
  match s with
  | EmptyString => true
  | String c s => negb (Ascii.eqb c "_"%char) && no_underscore s
  end.

(** A WAL id: 24 characters, none of them an underscore (wal-g uses hexadecimal digits). *)
Definition is_wal_id (s : string) : bool := (String.length s =? 24)%nat && no_underscore s.

Definition full_name (x : string) : string := "base_" +:+ x.
Definition delta_name (x y : string) : string := "base_" +:+ x +:+ delta_sep +:+ y.

Lemma no_underscore_app x y : no_underscore (x +:+ y) = no_underscore x && no_underscore y.
Proof.
  induction x as [|c x IH]; [done|]. rewrite append_cons. simpl. by rewrite IH, andb_assoc.
Qed.

Lemma has_prefix_cons c s d p :
  has_prefix (String c s) (String d p) = Ascii.eqb c d && has_prefix s p.
Proof. unfold has_prefix. simpl. rewrite Ascii.eqb_sym. by destruct (Ascii.eqb c d). Qed.

Lemma has_prefix_underscore c s : Ascii.eqb c "_"%char = false → has_prefix (String c s) delta_sep = false.
Proof.
  intros Hc. change delta_sep with (String "_"%char "D_"). by rewrite has_prefix_cons, Hc.
Qed.

Lemma has_prefix_second c1 c2 s :
  Ascii.eqb c2 "_"%char = false → has_prefix (String "_"%char (String c1 (String c2 s))) delta_sep = false.
Proof.
  intros Hc. change delta_sep with (String "_"%char (String "D"%char (String "_"%char ""))).
  rewrite !has_prefix_cons, Hc. by rewrite andb_false_r.
Qed.

Lemma plain_no_sep x : no_underscore x = true → contains x delta_sep = false.
Proof.
  induction x as [|c x IH]; [done|]. simpl. intros [Hc%negb_true_iff Hx]%andb_true_iff.
  by rewrite has_prefix_underscore, IH.
Qed.

Lemma plain_split x s :
  no_underscore x = true → split (x +:+ delta_sep +:+ s) delta_sep = x :: split s delta_sep.
Proof.
  intros Hx. apply split_first; [done|]. intros a [|c y] -> Hy; [done|].
  rewrite no_underscore_app in Hx. simpl in Hx.
  apply andb_true_iff in Hx as [_ [Hc%negb_true_iff _]%andb_true_iff].
  rewrite append_cons. by apply has_prefix_underscore.
Qed.

Lemma one_underscore u x a y :
  no_underscore u = true → no_underscore x = true →
  u +:+ String "_"%char x = a +:+ String "_"%char y → a = u ∧ y = x.
Proof.
  intros Hu Hx. revert a Hu. induction u as [|c u IH]; intros [|d a]; simpl no_underscore;
    rewrite ?append_cons, ?append_nil_l.
  - by intros _ [= ->].
  - intros _ [= _ ->]. rewrite no_underscore_app in Hx. simpl in Hx.
    by rewrite andb_false_r in Hx.
  - by intros [? ?]%andb_true_iff [= -> _].
  - intros [_ Hu]%andb_true_iff [= -> He]. by destruct (IH a Hu He) as [-> ->].
Qed.

Lemma base_split x s :
  is_wal_id x = true →
  split ("base_" +:+ x +:+ delta_sep +:+ s) delta_sep = ("base_" +:+ x) :: split s delta_sep.
Proof.
  intros [Hlen%Nat.eqb_eq Hx]%andb_true_iff. rewrite append_assoc.
  apply split_first; [done|]. intros a y Ha Hy.
  destruct y as [|c y]; [done|]. rewrite append_cons.
  destruct (Ascii.eqb c "_"%char) eqn:Hc; [|by apply has_prefix_underscore].
  apply Ascii.eqb_eq in Hc as ->.
  (* the only underscore of [base_x] precedes the 24 characters of [x] *)
  assert (a = "base" ∧ y = x) as [_ ->].
  { change ("base_" +:+ x) with ("base" +:+ String "_"%char x) in Ha.
    by apply (one_underscore "base" x a y) in Ha. }
  destruct x as [|c1 [|c2 x]]; [done|done|]. rewrite !append_cons. simpl in Hx.
  apply andb_true_iff in Hx as [_ [Hc2%negb_true_iff _]%andb_true_iff].
  by apply has_prefix_second.
Qed.

(** The dependency test reads wal-g's names.  For WAL ids, the id of a full backup
    [base_X] and of a delta [base_X_D_Z] is [X]; a full backup depends on nothing; a delta
    [base_X_D_Y] depends directly on exactly the other backups whose id is [Y]. *)
Theorem direct_dependency_names p z x y parent :
  is_wal_id p = true → is_wal_id z = true → is_wal_id x = true → is_wal_id y = true →
  wal_id (full_name p) = p ∧ wal_id (delta_name p z) = p ∧
  is_direct_dependency parent (full_name x) = false ∧
  (parent ≠ delta_name x y →
   is_direct_dependency parent (delta_name x y) = String.eqb y (wal_id parent)).
Proof.
  intros Hp Hz Hx Hy.
  assert (∀ s, trim_prefix ("base_" +:+ s) "base_" = s) as Htrim by done.
  assert (∀ s, is_wal_id s = true → no_underscore s = true) as Hplain.
  { intros s. unfold is_wal_id. by intros [_ ?]%andb_true_iff. }
  unfold wal_id, full_name, delta_name. rewrite !Htrim. split_and!.
  - by rewrite plain_no_sep by auto.
  - assert (contains (p +:+ delta_sep +:+ z) delta_sep = true) as ->
      by (apply contains_true; by exists p, z).
    by rewrite plain_split by auto.
  - unfold is_direct_dependency. destruct (String.eqb _ _); [done|].
    assert (contains ("base_" +:+ x) delta_sep = false) as ->; [|done].
    unfold is_wal_id in Hx. destruct x as [|c [|c2 x]]; [done|done|].
    apply andb_true_iff in Hx as [_ Hx]. pose proof (plain_no_sep _ Hx) as Hno.
    simpl in Hx. apply andb_true_iff in Hx as [_ [Hc2%negb_true_iff _]%andb_true_iff].
    rewrite !append_cons, append_nil_l.
    do 5 (cbn [contains];
          first [rewrite has_prefix_second by done | rewrite has_prefix_underscore by done];
          cbn [orb]). done.
  - intros Hne. unfold is_direct_dependency.
    destruct (String.eqb_spec ("base_" +:+ x +:+ delta_sep +:+ y) parent); [congruence|].
    assert (contains ("base_" +:+ x +:+ delta_sep +:+ y) delta_sep = true) as ->.
    { apply contains_true. exists ("base_" +:+ x), y. by rewrite <-!append_assoc. }
    rewrite base_split, split_no_sep by auto using plain_no_sep. done.
Qed.

(** ** Timelines *)

Lemma parse_int_0x s : parse_int ("0x" +:+ s) 16 = (0%Z, Some ErrSyntax).
Proof. reflexivity. Qed.

Lemma Timeline_zero m : 8 ≤ String.length (WalFileName m) → Timeline m = Some 0%Z.
Proof.
  intros Hlen. unfold Timeline, slice8. rewrite (proj2 (Nat.ltb_ge _ _)) by done. reflexivity.
Qed.

(** The timeline of a backup is never read.  [Timeline] prefixes ["0x"] and then parses
    with the explicit base 16, which Go rejects, so it yields 0 for every WAL file name, and
    every backup with an 8-byte name prefix matches every non-negative target timeline. *)
Theorem timeline_never_read m targetTimeline :
  8 ≤ String.length (WalFileName m) →
  Timeline m = Some 0%Z ∧
  (HasMatchingTimeline m targetTimeline = Some false →
   ∃ t, parse_int targetTimeline 16 = (t, None) ∧ (t < 0)%Z).
Proof.
  intros Htl%Timeline_zero.
  split; [done|]. unfold HasMatchingTimeline. rewrite Htl.
  destruct (String.eqb _ _ || String.eqb _ _)%bool; [done|].
  destruct (parse_int targetTimeline 16) as [t [e|]]; [done|]. simpl.
  intros [= Ht]. exists t. split; [done|]. bool_to_prop. lia.
Qed.

Definition timeline_backup : BackupMetadata :=
  mkBackupMetadata "base_00000003000000000000000A" "" "00000003000000000000000A" "" "" "" ""
    "" "" 0 0 0 false 0 0 0 ∅.

Lemma timeline_never_read_witness :
  HasMatchingTimeline timeline_backup "1" = Some true ∧ Timeline timeline_backup = Some 0%Z.
Proof.
  split; [reflexivity|]. apply (timeline_never_read timeline_backup "1"). simpl. lia.
Defined.

(** ** Selection by user data *)

Lemma user_data_equal_spec m u : user_data_equal m u = true ↔ m = AString <$> u.
Proof.
  unfold user_data_equal. rewrite andb_true_iff, Nat.eqb_eq, forallb_forall.
  setoid_rewrite <-list_elem_of_In. split.
  - intros [Hsize Hall]. symmetry.
    assert (AString <$> u ⊆ m) as Hsub.
    { apply map_subseteq_spec. intros k v. rewrite lookup_fmap, fmap_Some.
      intros (s & Hk & ->). specialize (Hall (k, s)). simpl in Hall.
      rewrite elem_of_map_to_list in Hall. specialize (Hall Hk).
      destruct (m !! k) as [[]|]; try done. by apply String.eqb_eq in Hall as ->. }
    apply map_subseteq_size_eq; [done|]. by rewrite map_size_fmap, Hsize.
  - intros ->. split; [by rewrite map_size_fmap|].
    intros [k s] Hk%elem_of_map_to_list. simpl. rewrite lookup_fmap, Hk. apply String.eqb_refl.
Qed.

(** The backup found for given user data is the last of the list whose decoded user data
    is that map of strings and nothing more, and none is found only when the list has none. *)
Theorem GetBackupByUserData_last backupList userData :
  match GetBackupByUserData backupList userData with
  | Some b => ∃ l1 l2, backupList = l1 ++ b :: l2 ∧ UserData b = AString <$> userData ∧
                Forall (λ x, UserData x ≠ AString <$> userData) l2
  | None => Forall (λ x, UserData x ≠ AString <$> userData) backupList
  end.
Proof.
  unfold GetBackupByUserData.
  assert (∀ x, user_data_equal (UserData x) userData = false ↔ UserData x ≠ AString <$> userData)
    as Hfalse.
  { intros x. by rewrite <-user_data_equal_spec, not_true_iff_false. }
  destruct (find_last _ _) as [b|] eqn:Hf.
  - apply find_last_Some in Hf as (l1 & l2 & -> & Hb & Hl2). exists l1, l2.
    split_and!; [done|by apply user_data_equal_spec|].
    eapply Forall_impl; [exact Hl2|]. intros x. by rewrite Hfalse.
  - apply find_last_None in Hf. eapply Forall_impl; [exact Hf|]. intros x. by rewrite Hfalse.
Qed.

(** ** A concrete storage *)

Definition wal_40 : string := "000000010000000100000040".
Definition wal_46 : string := "000000010000000100000046".
Definition wal_61 : string := "000000010000000100000061".
Definition example_backups : list BackupMetadata :=
  [named_backup (full_name wal_40); named_backup (delta_name wal_46 wal_40);
   named_backup (delta_name wal_61 wal_46)].

Lemma direct_dependency_names_witness :
  is_wal_id wal_40 = true ∧
  is_direct_dependency (full_name wal_40) (delta_name wal_46 wal_40) = true.
Proof.
  split; [reflexivity|].
  destruct (direct_dependency_names wal_40 wal_40 wal_46 wal_40 (full_name wal_40)
    eq_refl eq_refl eq_refl eq_refl) as (_ & _ & _ & H).
  rewrite H by discriminate. reflexivity.
Defined.

(** The number of a name, for the example: its place in the list. *)
Definition example_rank (n : string) : Z :=
  if String.eqb n (full_name wal_40) then 0%Z
  else if String.eqb n (delta_name wal_46 wal_40) then 1%Z else
  if String.eqb n (delta_name wal_61 wal_46) then 2%Z else (-1)%Z.

Lemma example_rank_grows p b :
  b ∈ example_backups → is_direct_dependency p (BackupName b) = true →
  (example_rank p < example_rank (BackupName b))%Z.
Proof.
  intros Hb Hd. unfold example_rank at 1.
  destruct (String.eqb_spec p (full_name wal_40)) as [->|];
    [|destruct (String.eqb_spec p (delta_name wal_46 wal_40)) as [->|];
    [|destruct (String.eqb_spec p (delta_name wal_61 wal_46)) as [->|]]];
    apply list_elem_of_In in Hb; simpl in Hb; destruct Hb as [<-|[<-|[<-|[]]]];
    try reflexivity; vm_compute in Hd; discriminate.
Qed.

Lemma dependents_newer_witness :
  (example_rank (full_name wal_40) < example_rank (delta_name wal_61 wal_46))%Z.
Proof.
  refine (proj1 (@dependents_newer canonical_map_range example_rank example_backups
    (named_backup (full_name wal_40)) _ example_rank_grows eq_refl
    (named_backup (delta_name wal_61 wal_46)) _)).
  apply list_elem_of_In. vm_compute. auto.
Defined.
