(* ===== verification/Recovery.v ===== *)
(** [pkg/walg/recovery.go]: choosing the backup a recovery starts from.

    [HasMatchingTimeline] never reads the timeline of a backup, so what is chosen depends on
    the target alone; [recovery_ignores_timeline] and [wrong_timeline] show it.

    The LSN and target-time parsers are those of the CloudNativePG machinery library; they
    are parameters here.  A list is in the order wal-g prints it, oldest backup first.  The
    outer [option] is the run-time panic of [WalFileName[0:8]] on a shorter name. *)
From stdpp Require Import base list strings gmap sorting.
From S2P Require Import Prelude GoStrings GoTime Api Backups.
Local Open Scope string_scope.
Local Open Scope list_scope.

(** The loop [for i := len(l) - 1; i >= 0; i--] with a test that may panic. *)
Fixpoint find_from_end {A} (p : A → option bool) (rev_l : list A) : option (option A) :=
  match rev_l with
  | [] => Some None
  | x :: rev_l => b ← p x; if (b : bool) then Some (Some x) else find_from_end p rev_l
  end.

Definition find_last_opt {A} (p : A → option bool) (l : list A) : option (option A) :=
  find_from_end p (reverse l).

(** [a && b] where both sides may panic. *)
Definition and_opt (a b : option bool) : option bool := x ← a; if (x : bool) then b else Some false.

Section recovery.
(** [types.LSN.Parse], [types.Int64ToLSN(n).Less(t)] and [types.ParseTargetTime(nil, t)]. *)
Variable lsn_parse : string → option Z.
Variable lsn_less : Z → string → bool.
Variable parse_target_time : string → option time.

Definition lsn_candidate (targetLSN targetTLI : string) (b : BackupMetadata) : option bool :=
  and_opt (HasMatchingTimeline b targetTLI) (Some (lsn_less (FinishLSN b) targetLSN)).

Definition findClosestBackupFromTargetLSN (backups : list BackupMetadata)
    (targetLSNString targetTLI : string) : option (res (option BackupMetadata)) :=
  match lsn_parse targetLSNString with
  | None => Some (Err (errorf "while parsing recovery target targetLSN"))
  | Some _ => Ok <$> find_last_opt (lsn_candidate targetLSNString targetTLI) backups
  end.

Definition time_candidate (target : time) (targetTLI : string) (b : BackupMetadata) : option bool :=
  match FinishTime b with
  | None => Some false
  | Some backupFinishTime =>
      and_opt (HasMatchingTimeline b targetTLI) (Some (negb (after backupFinishTime target)))
  end.

Definition findClosestBackupFromTargetTime (backups : list BackupMetadata)
    (targetTime targetTLI : string) : option (res (option BackupMetadata)) :=
  match parse_target_time targetTime with
  | None => Some (Err (errorf "while parsing recovery target targetTime"))
  | Some target => Ok <$> find_last_opt (time_candidate target targetTLI) backups
  end.

Definition findLatestBackupFromTimeline (backups : list BackupMetadata) (targetTLI : string)
    : option (option BackupMetadata) :=
  find_last_opt (λ b, HasMatchingTimeline b targetTLI) backups.

Definition FindMostSuitableBackupForRecovery (backupList : list BackupMetadata)
    (recoveryTarget : RecoveryTarget) : option (res (option BackupMetadata)) :=
  if negb (String.eqb (rt_BackupID recoveryTarget) "")
  then Some (Ok (GetBackupByName backupList (rt_BackupID recoveryTarget)))
  else
    let targetTLI := rt_TargetTLI recoveryTarget in
    if negb (String.eqb (rt_TargetTime recoveryTarget) "")
    then findClosestBackupFromTargetTime backupList (rt_TargetTime recoveryTarget) targetTLI
    else if negb (String.eqb (rt_TargetLSN recoveryTarget) "")
    then findClosestBackupFromTargetLSN backupList (rt_TargetLSN recoveryTarget) targetTLI
    else Ok <$> findLatestBackupFromTimeline backupList targetTLI.

(** ** Lemmas *)

(** A backup wal-g names properly: no slice of its WAL file name panics. *)
Definition named_properly (b : BackupMetadata) : Prop := (8 ≤ String.length (WalFileName b))%nat.

(** The timeline asked for is none, not a number, or no negative one. *)
Definition sensible_timeline (tli : string) : Prop :=
  ∀ t, parse_int tli 16 = (t, None) → (0 ≤ t)%Z.

(** Every properly named backup matches such a timeline: the code does not get at the timeline of
    a backup ([timeline_never_read]). *)
Lemma HasMatchingTimeline_any b tli :
  named_properly b → sensible_timeline tli → HasMatchingTimeline b tli = Some true.
Proof.
  intros Hb Ht. unfold HasMatchingTimeline. rewrite (Timeline_zero b Hb).
  destruct (_ || _)%bool; [done|]. destruct (parse_int tli 16) as [t [e|]] eqn:Hp; [done|].
  simpl. f_equal. apply Z.leb_le. by apply Ht.
Qed.

(** When no test panics, the loop is [find_last] of the boolean tests. *)
Lemma find_last_opt_total {A} (p : A → option bool) (q : A → bool) l :
  (∀ x, x ∈ l → p x = Some (q x)) → find_last_opt p l = Some (find_last q l).
Proof.
  unfold find_last_opt, find_last. intros Hp.
  assert (∀ x, x ∈ reverse l → p x = Some (q x)) as Hp'.
  { intros x. rewrite elem_of_reverse. apply Hp. }
  clear Hp. induction (reverse l) as [|x r IH]; simpl; [done|].
  rewrite Hp' by set_solver. simpl. destruct (q x); [done|]. apply IH. set_solver.
Qed.

(** Backups that finished no later than a target time; those whose finish time does not parse
    never did. *)
Definition usable_at (target : time) (b : BackupMetadata) : bool :=
  match FinishTime b with Some t => (t <=? target)%Z | None => false end.

(** What the comments ask of a target timeline: that the one in the name of the backup's WAL file,
    its first eight hexadecimal digits, is no later. *)
Definition wal_timeline (b : BackupMetadata) : option Z :=
  s ← slice8 (WalFileName b);
  match parse_int s 16 with (t, None) => Some t | (_, Some _) => None end.
Definition within_timeline (tli : string) (b : BackupMetadata) : bool :=
  if String.eqb tli "" || String.eqb tli "latest" then true
  else match parse_int tli 16 with
       | (_, Some _) => true
       | (target, None) => match wal_timeline b with Some t => (t <=? target)%Z | None => false end
       end.

Lemma time_candidate_usable target tli b :
  named_properly b → sensible_timeline tli →
  time_candidate target tli b = Some (usable_at target b).
Proof.
  intros Hb Ht. unfold time_candidate, usable_at. destruct (FinishTime b) as [t|]; [|done].
  rewrite HasMatchingTimeline_any by done. simpl. unfold after. f_equal.
  destruct (Z.ltb_spec target t), (Z.leb_spec t target); simpl; lia || done.
Qed.

Lemma lsn_candidate_usable lsn tli b :
  named_properly b → sensible_timeline tli →
  lsn_candidate lsn tli b = Some (lsn_less (FinishLSN b) lsn).
Proof. intros Hb Ht. unfold lsn_candidate. by rewrite HasMatchingTimeline_any by done. Qed.

(** The last candidate of a list. *)
Definition best (P : BackupMetadata → bool) (l : list BackupMetadata) (r : option BackupMetadata)
    : Prop :=
  match r with
  | Some b => ∃ l1 l2, l = l1 ++ b :: l2 ∧ P b = true ∧ Forall (λ x, P x = false) l2
  | None => Forall (λ x, P x = false) l
  end.

Lemma find_last_best P l : best P l (find_last P l).
Proof.
  destruct (find_last P l) eqn:Hf; [by apply find_last_Some|by apply find_last_None].
Qed.

Lemma best_ext P Q l r : (∀ x, x ∈ l → P x = Q x) → best P l r → best Q l r.
Proof.
  intros HPQ. destruct r as [b|]; simpl.
  - intros (l1 & l2 & -> & Hb & Hl2). exists l1, l2. split_and!; [done|rewrite <-HPQ; set_solver|].
    rewrite Forall_forall in Hl2 |- *. intros x Hx. rewrite <-HPQ; [auto|set_solver].
  - rewrite !Forall_forall. intros Hl x Hx. rewrite <-HPQ; auto.
Qed.

(** ** Properties *)

(** C35: recovery to a point in time.  With no backup id asked for and a target time that
    parses, the call succeeds and gives the newest backup (in wal-g's order) that finished no
    later than the target, or none exactly when there is no such backup; backups whose finish
    time does not parse are passed over.  The timeline asked for is not honoured: it plays no
    part in the choice ([recovery_ignores_timeline]).  When none of the backups that finished in
    time is of a later timeline than the one asked for, this is the newest of those on it, as the
    comments promise; otherwise it may be of the wrong one ([wrong_timeline]). *)
Theorem recovery_target_time backupList rt target :
  Forall named_properly backupList → sensible_timeline (rt_TargetTLI rt) →
  rt_BackupID rt = "" → rt_TargetTime rt ≠ "" →
  parse_target_time (rt_TargetTime rt) = Some target →
  ∃ r, FindMostSuitableBackupForRecovery backupList rt = Some (Ok r) ∧
    best (usable_at target) backupList r ∧
    ((∀ b, b ∈ backupList → usable_at target b = true → within_timeline (rt_TargetTLI rt) b = true) →
     best (λ b, usable_at target b && within_timeline (rt_TargetTLI rt) b) backupList r).
Proof.
  intros Hl Ht Hid Htt%String.eqb_neq Hp.
  pose proof (find_last_best (usable_at target) backupList) as Hb.
  exists (find_last (usable_at target) backupList). split_and!; [|done|].
  - unfold FindMostSuitableBackupForRecovery.
    rewrite Hid, Htt. simpl. unfold findClosestBackupFromTargetTime. rewrite Hp.
    rewrite (find_last_opt_total _ (usable_at target)); [done|].
    intros x Hx. rewrite Forall_forall in Hl. apply time_candidate_usable; auto.
  - intros Hw. eapply best_ext; [|exact Hb]. intros x Hx. specialize (Hw x Hx). simpl.
    destruct (usable_at target x); [|done]. by rewrite Hw.
Qed.

(** Recovery to an LSN.  With neither id nor time asked for, an LSN that parses, and
    backups listed in the order of their finish LSNs, the backup given has the greatest
    finish LSN strictly below the target, whatever timeline was asked for. *)
Theorem recovery_target_lsn backupList rt target :
  (∀ n t v, lsn_parse t = Some v → lsn_less n t = (n <? v)%Z) →
  Forall named_properly backupList → sensible_timeline (rt_TargetTLI rt) →
  StronglySorted (λ a b, FinishLSN a ≤ FinishLSN b)%Z backupList →
  rt_BackupID rt = "" → rt_TargetTime rt = "" → rt_TargetLSN rt ≠ "" →
  lsn_parse (rt_TargetLSN rt) = Some target →
  ∃ r, FindMostSuitableBackupForRecovery backupList rt = Some (Ok r) ∧
    match r with
    | Some b => b ∈ backupList ∧ (FinishLSN b < target)%Z ∧
        ∀ x, x ∈ backupList → (FinishLSN x < target)%Z → (FinishLSN x ≤ FinishLSN b)%Z
    | None => ∀ x, x ∈ backupList → (target ≤ FinishLSN x)%Z
    end.
Proof.
  intros Hless Hl Ht Hsort Hid Htt Hlsn%String.eqb_neq Hp.
  set (P := λ b, lsn_less (FinishLSN b) (rt_TargetLSN rt)).
  assert (∀ x, P x = true ↔ (FinishLSN x < target)%Z) as HP.
  { intros x. unfold P. by rewrite (Hless _ _ _ Hp), Z.ltb_lt. }
  exists (find_last P backupList). split.
  - unfold FindMostSuitableBackupForRecovery. rewrite Hid, Htt, Hlsn. simpl.
    unfold findClosestBackupFromTargetLSN. rewrite Hp, (find_last_opt_total _ P); [done|].
    intros x Hx. rewrite Forall_forall in Hl. apply lsn_candidate_usable; auto.
  - pose proof (find_last_best P backupList) as Hb.
    destruct (find_last P backupList) as [b|]; simpl in Hb.
    + destruct Hb as (l1 & l2 & -> & Hlt%HP & Hl2). split_and!; [set_solver|done|].
      intros x [Hx|[->|Hx]%elem_of_cons]%elem_of_app Hltx; [|lia|].
      * eapply (StronglySorted_app_1_elem_of _ _ _ _ _ Hsort); set_solver.
      * rewrite Forall_forall in Hl2. specialize (Hl2 x Hx).
        apply not_true_iff_false in Hl2. destruct Hl2. by apply HP.
    + intros x Hx. rewrite Forall_forall in Hb. specialize (Hb x Hx).
      apply not_true_iff_false in Hb. destruct (Z.le_gt_cases target (FinishLSN x)); [done|].
      destruct Hb. by apply HP.
Qed.

(** The target timeline has no effect.  For every hexadecimal timeline that is not
    negative, and every target, the choice is the one made with no timeline given: a PITR
    request for timeline 1 may be answered with a backup of timeline 3. *)
Theorem recovery_ignores_timeline backupList rt t :
  Forall named_properly backupList →
  parse_int (rt_TargetTLI rt) 16 = (t, None) → (0 ≤ t)%Z →
  FindMostSuitableBackupForRecovery backupList rt =
  FindMostSuitableBackupForRecovery backupList
    (mkTarget (rt_BackupID rt) "" (rt_TargetTime rt) (rt_TargetLSN rt)).
Proof.
  intros Hl Ht H0.
  assert (∀ b, b ∈ backupList → HasMatchingTimeline b (rt_TargetTLI rt) = HasMatchingTimeline b "")
    as Hm.
  { intros b Hb. rewrite Forall_forall in Hl. specialize (Hl b Hb).
    unfold HasMatchingTimeline. rewrite (Timeline_zero b Hl), Ht. simpl.
    rewrite (proj2 (Z.leb_le _ _)) by done.
    by destruct (_ || _)%bool. }
  assert (∀ p q : BackupMetadata → option bool, (∀ b, b ∈ backupList → p b = q b) →
    find_last_opt p backupList = find_last_opt q backupList) as Hext.
  { intros p q Hpq. unfold find_last_opt. assert (∀ b, b ∈ reverse backupList → p b = q b) as Hr.
    { intros b. rewrite elem_of_reverse. apply Hpq. }
    induction (reverse backupList) as [|x r IH]; simpl; [done|].
    rewrite Hr by set_solver. destruct (q x) as [[]|]; simpl; try done. apply IH. set_solver. }
  unfold FindMostSuitableBackupForRecovery; simpl. destruct (negb _); [done|].
  destruct (negb (rt_TargetTime rt =? "")); [|destruct (negb (rt_TargetLSN rt =? ""))].
  - unfold findClosestBackupFromTargetTime. destruct (parse_target_time _); [|done].
    f_equal. apply Hext. intros b Hb. unfold time_candidate. by rewrite Hm.
  - unfold findClosestBackupFromTargetLSN. destruct (lsn_parse _); [|done].
    f_equal. apply Hext. intros b Hb. unfold lsn_candidate. by rewrite Hm.
  - f_equal. by apply Hext.
Qed.
End recovery.

(** ** Concrete recoveries *)

Definition recovery_backup (name wal finish : string) (lsn : Z) : BackupMetadata :=
  mkBackupMetadata name "" wal "" "" finish "" "" "" 0 lsn lsn false 0 0 0 ∅.

Definition recovery_list : list BackupMetadata :=
  [recovery_backup "base_000000010000000000000002" "000000010000000000000002"
     "2025-03-01T10:00:00Z" 100;
   recovery_backup "base_000000030000000000000009" "000000030000000000000009"
     "2025-03-02T10:00:00Z" 200].

Definition day_two : string := "2025-03-02T09:00:00Z".

(** A stand-in for the LSN parser: decimal numbers. *)
Definition lsn_decimal (s : string) : option Z :=
  match atoi s with (v, None) => Some v | _ => None end.
Definition lsn_decimal_less (n : Z) (s : string) : bool :=
  match lsn_decimal s with Some v => (n <? v)%Z | None => false end.

Lemma recovery_list_named : Forall named_properly recovery_list.
Proof. unfold named_properly. repeat constructor; simpl; lia. Qed.

Lemma sensible_hex tli t : parse_int tli 16 = (t, None) → (0 ≤ t)%Z → sensible_timeline tli.
Proof. intros Ht H0 t' Ht'. rewrite Ht in Ht'. by injection Ht' as <-. Qed.

(** The second backup had not finished. *)
Lemma recovery_target_time_witness :
  FindMostSuitableBackupForRecovery lsn_decimal (λ _ _, false) parse_rfc3339 recovery_list
    (mkTarget "" "1" day_two "") = Some (Ok (head recovery_list)) ∧
  ∃ r, FindMostSuitableBackupForRecovery lsn_decimal (λ _ _, false) parse_rfc3339 recovery_list
         (mkTarget "" "1" day_two "") = Some (Ok r).
Proof.
  split; [vm_compute; reflexivity|].
  destruct (parse_rfc3339 day_two) as [target|] eqn:Ht; [|vm_compute in Ht; discriminate].
  destruct (recovery_target_time lsn_decimal (λ _ _, false) parse_rfc3339 recovery_list
    (mkTarget "" "1" day_two "") target recovery_list_named
    (sensible_hex "1" 1 eq_refl ltac:(discriminate)) eq_refl ltac:(discriminate) Ht)
    as (r & Hr & _).
  exists r. exact Hr.
Defined.

Lemma recovery_target_lsn_witness :
  ∃ r, FindMostSuitableBackupForRecovery lsn_decimal lsn_decimal_less parse_rfc3339 recovery_list
         (mkTarget "" "" "" "150") = Some (Ok r).
Proof.
  destruct (recovery_target_lsn lsn_decimal lsn_decimal_less parse_rfc3339 recovery_list
    (mkTarget "" "" "" "150") 150) as (r & Hr & _).
  - intros n t v Hv. unfold lsn_decimal_less. rewrite Hv. reflexivity.
  - exact recovery_list_named.
  - intros t Ht. vm_compute in Ht. discriminate.
  - repeat constructor; simpl; lia.
  - reflexivity.
  - reflexivity.
  - discriminate.
  - reflexivity.
  - exists r. exact Hr.
Defined.

(** With the target a day later the same request for timeline 1 gets the backup of timeline 3. *)
Example wrong_timeline :
  FindMostSuitableBackupForRecovery lsn_decimal lsn_decimal_less parse_rfc3339 recovery_list
    (mkTarget "" "1" "2025-03-03T09:00:00Z" "") = Some (Ok (last recovery_list)) ∧
  (within_timeline "1" <$> last recovery_list) = Some false.
Proof. split; vm_compute; reflexivity. Qed.

(** Recovery to timeline 1 starts from the newest backup, of timeline 3. *)
Lemma recovery_ignores_timeline_witness :
  FindMostSuitableBackupForRecovery lsn_decimal lsn_decimal_less parse_rfc3339 recovery_list
    (mkTarget "" "1" "" "") = Some (Ok (last recovery_list)).
Proof.
  rewrite (recovery_ignores_timeline lsn_decimal lsn_decimal_less parse_rfc3339 recovery_list
    (mkTarget "" "1" "" "") 1 recovery_list_named eq_refl ltac:(discriminate)).
  reflexivity.
Defined.
