(* ===== verification/Retention.v ===== *)
(** [internal/controller/retention_controller.go]: which Backup resources the retention
    policy deletes.

    [time.Now] is a call of the program; the process runs with the UTC location, so
    [AddDate] is calendar arithmetic on UTC dates.  [sort.Slice] is any sort satisfying
    [GoSort]: a permutation always, an ordered one only when the comparator is a strict
    weak order. *)
From stdpp Require Import base list strings gmap sorting.
From Stdlib Require Import Ascii DecimalString DecimalPos.
From S2P Require Import Prelude GoStrings GoTime Api Effects.
Local Open Scope string_scope.
Local Open Scope Z_scope.
Local Open Scope list_scope.

(** ** The retention threshold *)

Definition is_digit (c : ascii) : bool :=
  match dec_digit c with Some _ => true | None => false end.

(** The submatches of [^(\d+)([dwmh])$]: the digits and the unit. *)
Fixpoint retention_match (s : string) : option (string * ascii) :=
  match s with
  | String c (String u EmptyString) =>
      if is_digit c && existsb (Ascii.eqb u) ["d"; "w"; "m"; "h"]%char
      then Some (String c EmptyString, u) else None
  | String c s =>
      if is_digit c
      then '(ds, u) ← retention_match s; Some (String c ds, u)
      else None
  | EmptyString => None
  end.

(** The threshold at the instant [now]; [int] and [Duration] products wrap. *)
Definition threshold_at (value : Z) (unit : ascii) (now : time) : res time :=
  if Ascii.eqb unit "h" then Ok (now + wrap64 (wrap64 (- value) * hour))
  else if Ascii.eqb unit "d" then Ok (add_date now 0 0 (wrap64 (- value)))
  else if Ascii.eqb unit "w" then Ok (add_date now 0 0 (wrap64 (wrap64 (- value) * 7)))
  else if Ascii.eqb unit "m" then Ok (add_date now 0 (wrap64 (- value)) 0)
  else Err (errorf ("invalid retention policy unit: " +:+ String unit "")).

Definition calculateRetentionThreshold (retentionPolicy : string) : prog (res time) :=
  match retention_match retentionPolicy with
  | None => Ret (Err (errorf ("invalid retention policy format: " +:+ retentionPolicy)))
  | Some (digits, unit) =>
      match atoi digits with
      | (_, Some _) => Ret (Err (errorf ("invalid retention policy value: " +:+ digits)))
      | (value, None) => now ← call ONow; Ret (threshold_at value unit now)
      end
  end.

(** ** Choosing the backups to delete *)

(** The comparator of [sort.Slice]. *)
Definition started_before (bi bj : Backup) : bool :=
  match bk_StartedAt bi with
  | None => before (CreationTimestamp (bk_meta bi)) (CreationTimestamp (bk_meta bj))
  | Some timeI =>
      match bk_StartedAt bj with
      | None => before (CreationTimestamp (bk_meta bi)) (CreationTimestamp (bk_meta bj))
      | Some timeJ => before timeI timeJ
      end
  end.

Definition phase_eqb (p q : BackupPhase) : bool := bool_decide (p = q).

Definition not_deleting (b : Backup) : bool :=
  match DeletionTimestamp (bk_meta b) with None => true | Some _ => false end.

Definition is_unfinished (b : Backup) : bool :=
  phase_eqb (bk_Phase b) BackupPhasePending || phase_eqb (bk_Phase b) BackupPhaseStarted ||
  phase_eqb (bk_Phase b) BackupPhaseRunning || phase_eqb (bk_Phase b) BackupPhaseFinalizing.

Definition is_healthy (b : Backup) : bool :=
  phase_eqb (bk_Phase b) BackupPhaseCompleted && not_deleting b.

Definition backup_time (b : Backup) : time :=
  match bk_StartedAt b with
  | Some t => t
  | None => CreationTimestamp (bk_meta b)
  end.

(** [later] is [backupList[backupIndex+1:]]. *)
Definition shouldDeleteBackup (backup : Backup) (later : list Backup)
    (ignoreForManualBackups : bool) (minBackupsToKeep : Z)
    (retentionThreshold : option time) : bool :=
  if negb (not_deleting backup) then false
  else if is_unfinished backup then false
  else
    let remainingSuccessfulBackups := Z.of_nat (count_by is_healthy later) in
    if is_healthy backup && (remainingSuccessfulBackups <? minBackupsToKeep) then false
    else if ignoreForManualBackups &&
            (length (OwnerReferences (bk_meta backup)) =? 1)%nat then false
    else match retentionThreshold with
         | Some threshold => before (backup_time backup) threshold
         | None => false
         end.

(** The loop over the sorted slice. *)
Fixpoint select_to_delete (ignoreForManualBackups : bool) (minBackupsToKeep : Z)
    (retentionThreshold : option time) (backupList : list Backup) : list Backup :=
  match backupList with
  | [] => []
  | backup :: later =>
      let rest := select_to_delete ignoreForManualBackups minBackupsToKeep
                    retentionThreshold later in
      if shouldDeleteBackup backup later ignoreForManualBackups minBackupsToKeep
           retentionThreshold
      then backup :: rest else rest
  end.

Definition min_to_keep (retention : BackupRetentionConfig) : Z :=
  if 0 <=? MinBackupsToKeep retention then MinBackupsToKeep retention else 5.

Section retention.
Context `{GoSort}.

Definition getBackupsToDelete (backupConfig : BackupConfig) (backupList : list Backup)
    : prog (res (list Backup)) :=
  let retention := Retention (bc_Spec backupConfig) in
  if String.eqb (DeleteBackupsAfter retention) "" then Ret (Ok [])
  else
    let backupList := sort_slice started_before backupList in
    threshold ← calculateRetentionThreshold (DeleteBackupsAfter retention);
    match threshold with
    | Err e => Ret (Err (wrapf "failed to calculate retention threshold: " e))
    | Ok threshold =>
        Ret (Ok (select_to_delete (IgnoreForManualBackups retention) (min_to_keep retention)
                   (Some threshold) backupList))
    end.

(** The filter of [runRetentionForBackupConfig]. *)
Definition is_relevant (backupConfig : BackupConfig) (backup : Backup) : bool :=
  if (length (OwnerReferences (bk_meta backup)) =? 0)%nat || negb (not_deleting backup)
  then false
  else contains_by (λ ref, String.eqb (or_Kind ref) BackupConfigKind &&
                           String.eqb (or_Name ref) (Name (bc_meta backupConfig)))
         (OwnerReferences (bk_meta backup)).

Definition runRetentionForBackupConfig (backupConfig : BackupConfig) : prog (option err) :=
  backupList ← call (OList KBackup (Some (Namespace (bc_meta backupConfig))));
  match (backupList : res (list Backup)) with
  | Err e => Ret (Some (wrapf "failed to list Backup resources: " e))
  | Ok items =>
      let relevantBackups := filter_by (is_relevant backupConfig) items in
      match relevantBackups with
      | [] => Ret None
      | _ =>
          backupsToDelete ← getBackupsToDelete backupConfig relevantBackups;
          match backupsToDelete with
          | Err e => Ret (Some (wrapf "failed to determine backups to delete: " e))
          | Ok backupsToDelete =>
              _ ← for_each (λ b, _ ← call (ODelete KBackup b); Ret tt) backupsToDelete;
              Ret None
          end
      end
  end.

Definition runBackupsRetentionCheck : prog () :=
  backupConfigList ← call (OList KBackupConfig None);
  match (backupConfigList : res (list BackupConfig)) with
  | Err _ => Ret tt
  | Ok items =>
      for_each (λ backupConfig,
        if String.eqb (DeleteBackupsAfter (Retention (bc_Spec backupConfig))) "" then Ret tt
        else _ ← runRetentionForBackupConfig backupConfig; Ret tt) items
  end.
End retention.

(** ** Lemmas on the selection *)

Lemma not_deleting_None b : not_deleting b = true ↔ DeletionTimestamp (bk_meta b) = None.
Proof. unfold not_deleting. by destruct (DeletionTimestamp _). Qed.

Lemma started_before_swo l :
  Forall (λ b, is_Some (bk_StartedAt b)) l → strict_weak_order started_before (λ x, x ∈ l).
Proof.
  intros Hl. rewrite Forall_forall in Hl. unfold started_before, before.
  split.
  - intros x Hx. destruct (Hl x Hx) as [t ->]. lia.
  - intros x y z Hx Hy Hz. destruct (Hl x Hx) as [? ->], (Hl y Hy) as [? ->], (Hl z Hz) as [? ->].
    lia.
  - intros x y z Hx Hy Hz. destruct (Hl x Hx) as [? ->], (Hl y Hy) as [? ->], (Hl z Hz) as [? ->].
    lia.
Qed.

(** What [shouldDeleteBackup] asks of a backup, the number of newer healthy ones apart. *)
Record may_delete (ignoreManual : bool) (threshold : time) (b : Backup) : Prop := {
  md_present : DeletionTimestamp (bk_meta b) = None;
  md_finished : bk_Phase b ∉ [BackupPhasePending; BackupPhaseStarted; BackupPhaseRunning;
                              BackupPhaseFinalizing];
  md_not_manual : ignoreManual = true → length (OwnerReferences (bk_meta b)) ≠ 1%nat;
  md_old : backup_time b < threshold;
}.

(** Completed and not being deleted. *)
Definition healthy (b : Backup) : bool :=
  bool_decide (bk_Phase b = BackupPhaseCompleted ∧ DeletionTimestamp (bk_meta b) = None).

Lemma is_healthy_spec b : is_healthy b = healthy b.
Proof.
  unfold is_healthy, healthy, phase_eqb. apply eq_bool_prop_intro.
  rewrite andb_True, !bool_decide_spec, <-not_deleting_None. by rewrite Is_true_true.
Qed.

Lemma is_unfinished_false b :
  is_unfinished b = false ↔
  bk_Phase b ∉ [BackupPhasePending; BackupPhaseStarted; BackupPhaseRunning; BackupPhaseFinalizing].
Proof.
  unfold is_unfinished, phase_eqb. rewrite !orb_false_iff, !bool_decide_eq_false. set_solver.
Qed.

Lemma shouldDeleteBackup_true b later im mk th :
  shouldDeleteBackup b later im mk (Some th) = true ↔
  may_delete im th b ∧ (is_healthy b = true → mk ≤ Z.of_nat (count_by is_healthy later)).
Proof.
  unfold shouldDeleteBackup. split.
  - destruct (not_deleting b) eqn:Hd; simpl; [|done].
    destruct (is_unfinished b) eqn:Hu; [done|].
    destruct (is_healthy b && _) eqn:Hh; [done|].
    destruct (im && _) eqn:Hm; [done|]. intros Hb.
    split; [split|].
    + by apply not_deleting_None.
    + by apply is_unfinished_false.
    + intros ->. by apply Nat.eqb_neq.
    + unfold before in Hb. by bool_to_prop.
    + intros Hhb. rewrite Hhb in Hh. simpl in Hh. by bool_to_prop.
  - intros [[Hd Hu Hm Ho] Hh]. apply not_deleting_None in Hd as ->.
    apply is_unfinished_false in Hu as ->. simpl.
    assert (is_healthy b && (Z.of_nat (count_by is_healthy later) <? mk) = false) as ->.
    { destruct (is_healthy b); [|done]. simpl. apply Z.ltb_ge. auto. }
    assert (im && (length (OwnerReferences (bk_meta b)) =? 1)%nat = false) as ->.
    { destruct im; [|done]. simpl. apply Nat.eqb_neq. auto. }
    unfold before. lia.
Qed.

Lemma select_sublist im mk th l : select_to_delete im mk th l `sublist_of` l.
Proof. induction l as [|b l IH]; simpl; [constructor|]. by case_match; constructor. Qed.

Lemma elem_of_select im mk th l b :
  b ∈ select_to_delete im mk th l ↔
  ∃ l1 l2, l = l1 ++ b :: l2 ∧ shouldDeleteBackup b l2 im mk th = true.
Proof.
  induction l as [|x l IH]; simpl.
  { split; [by intros ?%elem_of_nil|by intros ([|??] & ? & ? & _)]. }
  assert (b ∈ (if shouldDeleteBackup x l im mk th then x :: select_to_delete im mk th l
               else select_to_delete im mk th l) ↔
    (b = x ∧ shouldDeleteBackup x l im mk th = true) ∨ b ∈ select_to_delete im mk th l) as ->.
  { destruct (shouldDeleteBackup _ _ _ _ _); [set_solver|]. naive_solver. }
  rewrite IH. split.
  - intros [[-> Hx]|(l1 & l2 & -> & Hb)]; [by exists [], l|by exists (x :: l1), l2].
  - intros ([|y l1] & l2 & Heq & Hb); simplify_eq/=; [by left|right; eauto].
Qed.

Lemma count_by_cons {A} (p : A → bool) x l :
  count_by p (x :: l) = ((if p x then 1 else 0) + count_by p l)%nat.
Proof. unfold count_by. simpl. by destruct (p x). Qed.

(** Whatever the order of the list, [mk] healthy backups, or all there are, stay. *)
Lemma select_keeps_min im mk th l :
  Z.of_nat (count_by is_healthy (select_to_delete im mk (Some th) l))
    + Z.min mk (Z.of_nat (count_by is_healthy l))
  ≤ Z.of_nat (count_by is_healthy l).
Proof.
  induction l as [|b l IH]; [unfold count_by; simpl; lia|].
  cbn [select_to_delete]. destruct (shouldDeleteBackup b l im mk (Some th)) eqn:Hb;
    rewrite !count_by_cons.
  - apply shouldDeleteBackup_true in Hb as [_ Hh].
    destruct (is_healthy b); [specialize (Hh eq_refl)|]; lia.
  - destruct (is_healthy b); lia.
Qed.

(** ** Exactness on lists ordered by distinct start times *)

Definition started_after (b x : Backup) : bool :=
  match bk_StartedAt b, bk_StartedAt x with
  | Some s, Some t => s <? t
  | _, _ => false
  end.

(** Healthy backups of [l] that started after [b]. *)
Definition newer_healthy (l : list Backup) (b : Backup) : Z :=
  Z.of_nat (count_by (λ x, healthy x && started_after b x) l).

#[export] Instance newer_healthy_perm : Proper (Permutation ==> eq ==> eq) newer_healthy.
Proof. intros l k Hlk b ? <-. unfold newer_healthy. by rewrite Hlk. Qed.

Lemma count_by_ext {A} (p q : A → bool) l :
  (∀ x, x ∈ l → p x = q x) → count_by p l = count_by q l.
Proof.
  induction l as [|x l IH]; intros Hpq; [done|]. rewrite !count_by_cons, Hpq by set_solver.
  f_equal. apply IH. set_solver.
Qed.

Lemma count_by_none {A} (p : A → bool) l : (∀ x, x ∈ l → p x = false) → count_by p l = 0%nat.
Proof.
  intros Hp. rewrite (count_by_ext p (λ _, false)) by done.
  induction l as [|x l IH]; [done|]. rewrite count_by_cons. apply IH. set_solver.
Qed.

Definition started_distinct (l : list Backup) : Prop :=
  Forall (λ b, is_Some (bk_StartedAt b)) l ∧ NoDup (bk_StartedAt <$> l).

#[export] Instance started_distinct_perm : Proper (Permutation ==> iff) started_distinct.
Proof. intros l k Hlk. unfold started_distinct. by rewrite Hlk. Qed.

Lemma later_are_newer l1 b l2 :
  started_distinct (l1 ++ b :: l2) →
  StronglySorted (not_after started_before) (l1 ++ b :: l2) →
  newer_healthy (l1 ++ b :: l2) b = Z.of_nat (count_by is_healthy l2).
Proof.
  intros [Hst Hnd] Hsort. unfold newer_healthy. rewrite count_by_app, count_by_cons.
  assert (∀ x y, x ∈ l1 ++ b :: l2 → y ∈ l1 ++ b :: l2 → started_after x y = started_before x y)
    as Hsame.
  { intros x y Hx Hy. rewrite Forall_forall in Hst. unfold started_after, started_before, before.
    destruct (Hst y Hy) as [t Ht], (Hst x Hx) as [s Hs]. by rewrite Hs, Ht. }
  assert (started_after b b = false) as ->.
  { unfold started_after. destruct (bk_StartedAt b); [apply Z.ltb_irrefl|done]. }
  rewrite andb_false_r.
  rewrite (count_by_none _ l1), Nat.add_0_l; [f_equal; apply count_by_ext|].
  - intros x Hx. rewrite is_healthy_spec, Hsame by set_solver. destruct (healthy x); [|done]. simpl.
    apply StronglySorted_app_1_r in Hsort. apply StronglySorted_inv in Hsort as [_ Hall].
    rewrite Forall_forall in Hall, Hst. specialize (Hall x Hx).
    rewrite fmap_app, fmap_cons in Hnd. apply NoDup_app in Hnd as (_ & _ & Hnd).
    apply NoDup_cons in Hnd as [Hb _].
    assert (bk_StartedAt x ≠ bk_StartedAt b) as Hne.
    { intros Heq. apply Hb. rewrite <-Heq. by apply list_elem_of_fmap_2. }
    unfold not_after, started_before, before in *.
    destruct (Hst b) as [s Hs]; [set_solver|]. destruct (Hst x) as [t Ht]; [set_solver|].
    rewrite Hs, Ht in *. bool_to_prop. apply Z.ltb_lt. assert (s ≠ t) by congruence. lia.
  - intros x Hx. rewrite andb_comm, Hsame by set_solver.
    assert (started_before b x = false) as ->; [|done].
    apply (StronglySorted_app_1_elem_of _ _ _ x b Hsort); set_solver.
Qed.

(** The backups deleted under a policy with the threshold [th]: age, phase, ownership, and
    at least [mk] healthy backups that are newer. *)
Definition deletable (im : bool) (mk : Z) (th : time) (l : list Backup) (b : Backup) : Prop :=
  b ∈ l ∧ may_delete im th b ∧ (healthy b = true → mk ≤ newer_healthy l b).

Lemma select_exact im mk th l b :
  started_distinct l → StronglySorted (not_after started_before) l →
  b ∈ select_to_delete im mk (Some th) l ↔ deletable im mk th l b.
Proof.
  intros Hd Hs. rewrite elem_of_select. unfold deletable. rewrite <-is_healthy_spec. split.
  - intros (l1 & l2 & -> & [Hmd Hh]%shouldDeleteBackup_true).
    split_and!; [set_solver|done|]. by rewrite later_are_newer.
  - intros (Hb & Hmd & Hh). apply list_elem_of_split in Hb as (l1 & l2 & ->).
    exists l1, l2. split; [done|]. rewrite later_are_newer in Hh by done.
    by apply shouldDeleteBackup_true.
Qed.

(** ** The controller's runs *)

(** The threshold of a policy at [now], when the policy parses. *)
Definition threshold_of (policy : string) (now : time) : option time :=
  '(digits, unit) ← retention_match policy;
  match atoi digits with
  | (value, None) => match threshold_at value unit now with Ok t => Some t | Err _ => None end
  | (_, Some _) => None
  end.

Lemma threshold_exec policy t r :
  exec (calculateRetentionThreshold policy) t r →
  (t = [] ∧ ∃ e, r = Returned (Err e)) ∨
  ∃ now, t = [Ev ONow now] ∧
    ((∃ e, r = Returned (Err e)) ∨ ∃ th, r = Returned (Ok th) ∧ threshold_of policy now = Some th).
Proof.
  unfold calculateRetentionThreshold, threshold_of.
  destruct (retention_match policy) as [[ds u]|]; simpl; [|naive_solver].
  destruct (atoi ds) as [v [e|]]; simpl; [naive_solver|].
  intros (now & t' & -> & -> & ->). right. exists now. split; [done|].
  destruct (threshold_at v u now); eauto.
Qed.

Section runs.
Context `{GoSort}.
Variable bc : BackupConfig.
Local Abbreviation ret := (Retention (bc_Spec bc)).
Local Abbreviation im := (IgnoreForManualBackups ret).

Lemma getBackupsToDelete_exec l t r :
  exec (getBackupsToDelete bc l) t r →
  omap deleted_backup t = [] ∧
  ((∃ e, r = Returned (Err e)) ∨
   (DeleteBackupsAfter ret = "" ∧ t = [] ∧ r = Returned (Ok [])) ∨
   (DeleteBackupsAfter ret ≠ "" ∧
    ∃ now th, t = [Ev ONow now] ∧ threshold_of (DeleteBackupsAfter ret) now = Some th ∧
     r = Returned (Ok (select_to_delete im (min_to_keep ret) (Some th)
                         (sort_slice started_before l))))).
Proof.
  unfold getBackupsToDelete.
  destruct (String.eqb_spec (DeleteBackupsAfter ret) "") as [Heq|Hne].
  { intros [-> ->]. split; [done|]. auto. }
  intros [(t1 & t2 & th & -> & Hth%threshold_exec & Hr)|(w & Hth%threshold_exec & ->)]%exec_bind;
    [|naive_solver].
  destruct Hth as [(-> & e & [= ->])|(now & -> & [(e & [= ->])|(th' & [= ->] & Ht)])];
    destruct Hr as [-> ->]; (split; [done|]); eauto 10.
Qed.

Lemma exec_deletes l t r :
  exec (for_each (λ b, _ ← call (ODelete KBackup b); Ret tt) l) t r →
  r = Returned tt ∧ omap deleted_backup t = l.
Proof.
  intros [-> (ts & -> & Hts)]%exec_for_each.
  - split; [done|]. induction Hts as [|b t l ts Hb _ IH]; [done|].
    destruct Hb as (a & t' & -> & -> & _). cbn [concat]. by rewrite omap_app, IH.
  - intros b t' r' _ (a & t'' & -> & -> & ->). done.
Qed.

(** The Backups of a listing the pass considers. *)
Definition candidates (items : list Backup) : list Backup :=
  base.filter (λ b, owned_by bc b ∧ DeletionTimestamp (bk_meta b) = None) items.

Lemma is_relevant_spec b :
  is_relevant bc b = true ↔ owned_by bc b ∧ DeletionTimestamp (bk_meta b) = None.
Proof.
  unfold is_relevant. rewrite <-not_deleting_None, <-owned_by_contains.
  destruct (OwnerReferences (bk_meta b)) as [|o l]; [simpl; naive_solver|].
  destruct (not_deleting b); simpl; naive_solver.
Qed.

Lemma relevant_candidates items : filter_by (is_relevant bc) items = candidates items.
Proof.
  induction items as [|b l IH]; [done|]. unfold candidates in *.
  rewrite filter_by_cons, filter_cons, IH. pose proof (is_relevant_spec b) as Hb.
  case_decide; destruct (is_relevant bc b); naive_solver.
Qed.

Lemma count_healthy l : count_by healthy l = count_by is_healthy l.
Proof. apply count_by_ext. intros x _. by rewrite is_healthy_spec. Qed.

(** One pass for one BackupConfig: what [retention_run] says. *)
Lemma retention_pass items t r :
  exec (runRetentionForBackupConfig bc)
    (Ev (OList KBackup (Some (Namespace (bc_meta bc)))) (Ok items) :: t) r →
  let relevant := candidates items in
  let del := omap deleted_backup t in
  (∃ e, r = Returned e) ∧ del ⊆+ relevant ∧
  (∀ b, b ∈ del → ∃ now th, Ev ONow now ∈ t ∧
     threshold_of (DeleteBackupsAfter ret) now = Some th ∧ may_delete im th b) ∧
  Z.of_nat (count_by healthy del)
    + Z.min (min_to_keep ret) (Z.of_nat (count_by healthy relevant))
  ≤ Z.of_nat (count_by healthy relevant).
Proof.
  intros He%exec_list relevant. cbv zeta in He |- *. rewrite !count_healthy.
  rewrite relevant_candidates in He. fold relevant in He.
  assert (∀ (o : outcome (option err)) tr, (∃ e, o = Returned e) → omap deleted_backup tr = [] →
    (∃ e, o = Returned e) ∧ omap deleted_backup tr ⊆+ relevant ∧
    (∀ b, b ∈ omap deleted_backup tr → ∃ now th, Ev ONow now ∈ tr ∧
       threshold_of (DeleteBackupsAfter ret) now = Some th ∧ may_delete im th b) ∧
    Z.of_nat (count_by is_healthy (omap deleted_backup tr))
      + Z.min (min_to_keep ret) (Z.of_nat (count_by is_healthy relevant))
    ≤ Z.of_nat (count_by is_healthy relevant)) as Hnone.
  { intros o tr Ho ->. split_and!; [done|apply submseteq_nil_l|by intros ? ?%elem_of_nil|].
    unfold count_by at 1. simpl. lia. }
  assert (exec (getBackupsToDelete bc relevant ≫= λ x, match x with
    | Ok l => for_each (λ b, _ ← call (ODelete KBackup b); Ret tt) l ≫= λ _, Ret None
    | Err e => Ret (Some (wrapf "failed to determine backups to delete: " e)) end) t r ∨
    t = [] ∧ r = Returned None) as [Hx|[-> ->]]; [|clear He|apply Hnone; eauto].
  { destruct relevant; [right|left]; exact He. }
  apply exec_bind in Hx as [(t1 & t2 & res & -> & Hg & Hr)|(w & Hg & ->)];
    apply getBackupsToDelete_exec in Hg as [Hnd Hg]; [|naive_solver].
  destruct Hg as [(e & [= ->])|Hg].
  { destruct Hr as [-> ->]. apply Hnone; [eauto|by rewrite app_nil_r]. }
  assert (∃ del, res = Ok del) as [del ->] by naive_solver.
  apply exec_bind in Hr as [(u1 & u2 & [] & -> & [_ Hdel]%exec_deletes & [-> ->])|
    (w & [? _]%exec_deletes & _)]; [|done].
  rewrite app_nil_r. destruct Hg as [(_ & _ & [= ->])|(_ & now & th & -> & Hth & [= ->])].
  { apply Hnone; [eauto|]. by rewrite omap_app, Hnd, Hdel. }
  rewrite omap_app, Hnd, Hdel. simpl.
  split_and!.
  - eauto.
  - rewrite <-(sort_slice_perm _ started_before relevant) at 2.
    apply sublist_submseteq, select_sublist.
  - intros b (l1 & l2 & _ & [Hmd _]%shouldDeleteBackup_true)%elem_of_select.
    exists now, th. split; [by left|done].
  - pose proof (select_keeps_min im (min_to_keep ret) th (sort_slice started_before relevant)) as Hk.
    by rewrite (count_by_Permutation is_healthy _ _ (sort_slice_perm _ started_before relevant)) in Hk.
Qed.

(** C7: what a retention pass may delete.  On every run for one BackupConfig, whatever the
    API server answers: the pass returns without panicking; the backups it asks to delete
    are distinct elements of the listed ones that the BackupConfig owns; each of them is not
    already being deleted, is in a final (or unset) phase, is not manual when manual backups
    are exempt, and is older than the policy's threshold; and of the healthy backups it
    spares at least MinBackupsToKeep, or all of them when there are fewer. *)
Theorem retention_run items t r :
  exec (runRetentionForBackupConfig bc)
    (Ev (OList KBackup (Some (Namespace (bc_meta bc)))) (Ok items) :: t) r →
  let relevant := candidates items in
  let del := omap deleted_backup t in
  (∃ e, r = Returned e) ∧ del ⊆+ relevant ∧
  (∀ b, b ∈ del → ∃ now th, Ev ONow now ∈ t ∧
     threshold_of (DeleteBackupsAfter ret) now = Some th ∧ may_delete im th b) ∧
  Z.of_nat (count_by healthy del)
    + Z.min (min_to_keep ret) (Z.of_nat (count_by healthy relevant))
  ≤ Z.of_nat (count_by healthy relevant).
Proof. apply retention_pass. Qed.

(** C8: exactly the expired backups.  On backups that all carry a start time, no two the
    same, a successful pass with a policy deletes precisely the backups that are present,
    finished, old enough, not exempt, and, if healthy, have at least MinBackupsToKeep
    healthy backups newer than themselves: the spared ones are the newest.  Healthy is
    completed and not being deleted, of whatever type: the documentation of
    MinBackupsToKeep speaks of full backups, but an incremental one counts as well and
    the last full one may go ([last_full_deleted]). *)
Theorem retention_exact l t del :
  exec (getBackupsToDelete bc l) t (Returned (Ok del)) →
  DeleteBackupsAfter ret ≠ "" → started_distinct l →
  ∃ now th, t = [Ev ONow now] ∧ threshold_of (DeleteBackupsAfter ret) now = Some th ∧
    ∀ b, b ∈ del ↔ deletable im (min_to_keep ret) th l b.
Proof.
  intros [_ He]%getBackupsToDelete_exec Hne Hd.
  destruct He as [(e & [=])|[(? & _ & _)|(_ & now & th & -> & Hth & [= ->])]]; [done|].
  exists now, th. split_and!; [done..|]. intros b.
  pose proof (sort_slice_perm _ started_before l) as Hp.
  rewrite select_exact.
  - unfold deletable. by rewrite Hp.
  - by rewrite Hp.
  - apply sort_slice_sorted, started_before_swo. apply Hd.
Qed.

(** A second pass at the same instant over what the first one left deletes nothing. *)
Theorem retention_idempotent l t del del' :
  exec (getBackupsToDelete bc l) t (Returned (Ok del)) → started_distinct l →
  exec (getBackupsToDelete bc (filter_by (λ b, negb (bool_decide (b ∈ del))) l)) t
    (Returned (Ok del')) →
  del' = [].
Proof.
  intros [_ He]%getBackupsToDelete_exec Hd [_ He']%getBackupsToDelete_exec.
  set (kept := filter_by _ l) in *.
  destruct He' as [(e & [=])|[(_ & _ & [= ->])|(Hne & now & th & Ht & Hth & [= ->])]]; [done|].
  destruct He as [(e & [=])|[(? & _ & _)|(_ & now' & th' & Ht' & Hth' & [= ->])]]; [done|].
  assert (now' = now) as ->.
  { rewrite Ht in Ht'. apply (f_equal (hd (Ev ONow 0))), Ev_ONow_inj in Ht'. done. }
  assert (th' = th) as -> by congruence.
  pose proof (sort_slice_perm _ started_before l) as Hp.
  pose proof (sort_slice_perm _ started_before kept) as Hpk.
  assert (kept `sublist_of` l) as Hsub by apply filter_by_sublist.
  assert (started_distinct kept) as Hdk.
  { destruct Hd as [Hs Hn]. split.
    { rewrite Forall_forall in Hs |- *. intros x [Hx _]%elem_of_filter_by. auto. }
    eapply sublist_NoDup; [exact Hn|]. by apply fmap_sublist. }
  apply elem_of_nil_inv. intros b Hb.
  apply select_exact in Hb as (Hin & Hmd & Hmin);
    [|by rewrite Hpk|apply sort_slice_sorted, started_before_swo, Hdk].
  rewrite Hpk in Hin. apply elem_of_filter_by in Hin as [Hl Hnot].
  bool_to_prop. apply Hnot. apply select_exact.
  - by rewrite Hp.
  - apply sort_slice_sorted, started_before_swo, Hd.
  - split_and!; [by rewrite Hp|done|]. intros Hh. specialize (Hmin Hh). rewrite Hpk in Hmin.
    rewrite Hp. etrans; [exact Hmin|]. unfold newer_healthy, count_by.
    apply inj_le, sublist_length. by apply filter_by_sublist_mono.
Qed.
End runs.

(** ** Thresholds *)

Fixpoint all_digits (s : string) : bool :=
  match s with EmptyString => true | String c s => is_digit c && all_digits s end.

Lemma retention_match_digits ds u :
  ds ≠ "" → all_digits ds = true → existsb (Ascii.eqb u) ["d"; "w"; "m"; "h"]%char = true →
  retention_match (ds +:+ String u "") = Some (ds, u).
Proof.
  intros Hds Hall Hu. induction ds as [|c ds IH]; [done|].
  simpl in Hall. apply andb_true_iff in Hall as [Hc Hall]. rewrite append_cons.
  destruct ds as [|c' ds]; [rewrite append_nil_l; simpl; by rewrite Hc; simpl in Hu; rewrite Hu|].
  rewrite append_cons in IH |- *. specialize (IH ltac:(done) Hall).
  destruct ds as [|c2 ds]; cbn [retention_match] in *; rewrite Hc.
  - rewrite append_nil_l in *. by rewrite IH.
  - rewrite append_cons in *. by rewrite IH.
Qed.

Lemma format_int_digits v : 0 ≤ v → format_int v ≠ "" ∧ all_digits (format_int v) = true.
Proof.
  intros Hv. unfold format_int.
  assert (∃ d, Z.to_int v = Decimal.Pos d ∧ d ≠ Decimal.Nil) as (d & -> & Hd).
  { destruct v as [|p|p]; [by exists (Decimal.D0 Decimal.Nil)| |lia].
    exists (Pos.to_uint p). split; [done|]. apply DecimalPos.Unsigned.to_uint_nonnil. }
  cbn [NilEmpty.string_of_int]. split; [by destruct d|].
  clear Hd. induction d; [done|..]; cbn [NilEmpty.string_of_uint all_digits];
    rewrite IHd; reflexivity.
Qed.

(** A policy: a count and a unit. *)
Definition policy (v : Z) (u : ascii) : string := format_int v +:+ String u "".

(** The threshold [v] units before [now], as long as nothing overflows. *)
Definition threshold_spec (v : Z) (u : ascii) (now : time) (r : res time) : Prop :=
  (u = "h"%char → v ≤ 2562047 → r = Ok (now - v * hour)) ∧
  (u = "d"%char → min_int64 ≤ (now - v * day) / second ≤ max_int64 → r = Ok (now - v * day)) ∧
  (u = "w"%char → v * 7 ≤ max_int64 →
   min_int64 ≤ (now - v * 7 * day) / second ≤ max_int64 → r = Ok (now - v * 7 * day)) ∧
  (u = "m"%char → r = Ok (add_date now 0 (- v) 0)).

Lemma threshold_at_spec v u now :
  0 ≤ v ≤ max_int64 → threshold_spec v u now (threshold_at v u now).
Proof.
  intros Hv. unfold threshold_spec, threshold_at, max_int64 in *.
  split_and!; intros ->; cbn [Ascii.eqb Bool.eqb];
    rewrite ?(wrap64_id (- v)) by (unfold min_int64, max_int64; lia).
  - intros Hmax. rewrite wrap64_id; [f_equal; lia|].
    unfold min_int64, max_int64, hour, minute, second. lia.
  - intros Hr. f_equal. rewrite add_date_days; [lia|].
    by replace (now + - v * day) with (now - v * day) by lia.
  - intros H7 Hr. rewrite wrap64_id by (unfold min_int64, max_int64; lia). f_equal.
    rewrite add_date_days; [lia|].
    by replace (now + - v * 7 * day) with (now - v * 7 * day) by lia.
  - done.
Qed.

(** What a policy means.  The policy [<v>h], [<v>d], [<v>w] or [<v>m] with a count that
    fits an int parses, the clock is read once, and the threshold is [v] hours, [v] days,
    [7 * v] days or [v] calendar months before that instant: for hours up to 2562047, for
    days and weeks as long as the result fits Go's 64-bit seconds. *)
Theorem retention_threshold v u :
  0 ≤ v ≤ max_int64 → In u ["d"; "w"; "m"; "h"]%char →
  wp (calculateRetentionThreshold (policy v u))
    (λ t r, ∃ now x, t = [Ev ONow now] ∧ r = Returned x ∧ threshold_spec v u now x).
Proof.
  intros Hv Hu. unfold calculateRetentionThreshold, policy.
  destruct (format_int_digits v) as [Hne Hd]; [lia|].
  rewrite retention_match_digits by first [done |
    apply existsb_exists; exists u; split; [done|apply Ascii.eqb_refl]].
  rewrite atoi_format_int by (unfold min_int64 in *; lia).
  intros now. exists now, (threshold_at v u now). split_and!; [done|done|].
  by apply threshold_at_spec.
Qed.

Lemma retention_threshold_witness :
  wp (calculateRetentionThreshold "7d")
    (λ t r, ∃ now x, t = [Ev ONow now] ∧ r = Returned x ∧ threshold_spec 7 "d" now x).
Proof.
  refine (retention_threshold 7 "d" _ _).
  - split; intros; discriminate.
  - left. reflexivity.
Defined.

(** Hours overflow.  [2562048h] is a policy the CRD's pattern accepts, but the product
    [-Duration(value) * Hour] wraps, and the threshold lies 292 years in the future: every
    finished backup counts as expired. *)
Theorem retention_hours_overflow :
  wp (calculateRetentionThreshold "2562048h")
    (λ t r, ∃ now th, t = [Ev ONow now] ∧ r = Returned (Ok th) ∧ now + 292 * 365 * day < th).
Proof.
  change "2562048h" with (policy 2562048 "h"). unfold calculateRetentionThreshold, policy.
  destruct (format_int_digits 2562048) as [Hne Hd]; [lia|].
  rewrite retention_match_digits by done. rewrite atoi_format_int by done.
  intros now. exists now, (now + 9223371273709551616). split_and!; [done| |].
  - change (threshold_at 2562048 "h" now) with (Ok (now + wrap64 (wrap64 (- (2562048)) * hour))).
    repeat f_equal.
  - unfold day, hour, minute, second. lia.
Qed.

(** ** A concrete pass *)

Definition retention_config (r : BackupRetentionConfig) : BackupConfig :=
  mkBackupConfig
    (mkMeta "bc" "ns" "uid" "1" 1 None None [] [] zero_time None)
    (mkBCSpec None None None None None 0 0 false None r (mkStorage "s3" None None) ""
       (mkEncryption "" ""))
    (mkBCStatus BackupConfigPhaseNone None None None None []).

Definition two_hours_keep_one : BackupConfig :=
  retention_config (mkRetention false false false 1 "2h").

Definition owner_of_config : OwnerReference :=
  mkOwnerRef group_version BackupConfigKind "bc" "uid" (Some true).

Definition completed (name : string) (started : time) : Backup :=
  mkBackup (mkMeta name "ns" name "1" 1 None None [] [owner_of_config] started None)
    "cluster" BackupMethodPlugin None BackupPhaseCompleted (Some started) name.

(** Two backups, both older than two hours at hour ten: the newer one stays. *)
Definition old_backups : list Backup := [completed "b2" (5 * hour); completed "b1" (1 * hour)].

Definition pass_trace : list event :=
  [Ev ONow (10 * hour); Ev (ODelete KBackup (completed "b1" (1 * hour))) None].

Lemma retention_run_witness :
  omap deleted_backup pass_trace ⊆+ old_backups ∧ Ev ONow (10 * hour) ∈ pass_trace.
Proof.
  split; [|by left].
  destruct (@retention_run insertion_go_sort two_hours_keep_one old_backups pass_trace
    (Returned None)) as (_ & Hsub & _); [|exact Hsub].
  eexists _, _. split; [reflexivity|]. eexists _, _. split; [reflexivity|].
  eexists _, _. split; [reflexivity|]. split; reflexivity.
Defined.

Lemma old_backups_distinct : started_distinct old_backups.
Proof.
  split; [repeat constructor; eexists; reflexivity|]. apply NoDup_ListNoDup. simpl.
  repeat constructor; simpl; intuition discriminate.
Qed.

Lemma retention_exact_witness :
  ∃ now th, [Ev ONow (10 * hour)] = [Ev ONow now] ∧
    threshold_of "2h" now = Some th.
Proof.
  destruct (@retention_exact insertion_go_sort two_hours_keep_one old_backups
    [Ev ONow (10 * hour)] [completed "b1" (1 * hour)]) as (now & th & Ht & Hth & _).
  - eexists _, _. split; [reflexivity|]. split; reflexivity.
  - discriminate.
  - exact old_backups_distinct.
  - exists now, th. split; [exact Ht|exact Hth].
Defined.

(** The Backup [b] with the type label [ty] that [reconcileBackupMetadata] sets. *)
Definition typed_backup (ty : string) (b : Backup) : Backup :=
  with_bk_meta b (with_marks (bk_meta b) (Some {[BackupTypeLabelName := ty]})
                    (Annotations (bk_meta b))).

Definition has_type_label (ty : string) (b : Backup) : Prop :=
  str_map_get (Labels (bk_meta b)) BackupTypeLabelName = ty.

(** The documentation of MinBackupsToKeep says "minimal number of full backups to keep".
    With MinBackupsToKeep 1, a full Backup and a later incremental one, both completed
    and older than the threshold, the pass deletes the full one, the only one there is:
    the incremental one is counted in its place. *)
Theorem last_full_deleted :
  let full := typed_backup BackupTypeFull (completed "b1" (1 * hour)) in
  let incremental := typed_backup BackupTypeIncremental (completed "b2" (5 * hour)) in
  min_to_keep (Retention (bc_Spec two_hours_keep_one)) = 1 ∧
  (∀ b, b ∈ [full; incremental] → has_type_label BackupTypeFull b → b = full) ∧
  exec (@getBackupsToDelete insertion_go_sort two_hours_keep_one [full; incremental])
    [Ev ONow (10 * hour)] (Returned (Ok [full])).
Proof.
  split_and!; [reflexivity| |].
  - intros b [->|[->|[]%elem_of_nil]%elem_of_cons]%elem_of_cons; [done|].
    intros Ht. vm_compute in Ht. discriminate.
  - eexists _, _. split; [reflexivity|]. split; reflexivity.
Qed.

Lemma retention_idempotent_witness : ([] : list Backup) = [].
Proof.
  refine (@retention_idempotent insertion_go_sort two_hours_keep_one old_backups
    [Ev ONow (10 * hour)] [completed "b1" (1 * hour)] [] _ old_backups_distinct _).
  - eexists _, _. split; [reflexivity|]. split; reflexivity.
  - eexists _, _. split; [reflexivity|]. split; reflexivity.
Defined.

(** ** The loop of [Start]

    A ticker has room for one tick; those that come while it is full are dropped.  A pass is
    [runBackupsRetentionCheck], which ends.  [expired] and [passes] count what happened. *)
Module Loop.
Local Open Scope nat_scope.

Inductive phase := Selecting | Checking | Returned.
Record state := mkState {
  at_ : phase;
  tick : bool;
  cancelled : bool;
  expired : nat;
  passes : nat;
}.

(** [time.NewTicker] panics for an interval that is not positive. *)
Definition Start (checkInterval : Z) : option state :=
  if (checkInterval <=? 0)%Z then None else Some (mkState Selecting false false 0 0).

(** The interval passes, and the context ends. *)
Inductive external : state → state → Prop :=
| ext_expire p t c e n : external (mkState p t c e n) (mkState p true c (S e) n)
| ext_cancel p t c e n : external (mkState p t c e n) (mkState p t true e n).

(** The loop.  When both cases of the [select] are ready, either is taken. *)
Inductive internal : state → state → Prop :=
| int_tick c e n : internal (mkState Selecting true c e n) (mkState Checking false c e (S n))
| int_done t e n : internal (mkState Selecting t true e n) (mkState Returned t true e n)
| int_checked t c e n : internal (mkState Checking t c e n) (mkState Selecting t c e n).

Definition step (s s' : state) : Prop := external s s' ∨ internal s s'.

(** What the loop has left to do by itself. *)
Definition work (s : state) : nat :=
  (if tick s then 2 else 0) +
  match at_ s with
  | Selecting => if cancelled s then 1 else 0
  | Checking => if cancelled s then 2 else 1
  | Returned => 0
  end.

Lemma loop_work s s' : internal s s' → work s' < work s.
Proof. destruct 1; unfold work; simpl; repeat case_match; lia. Qed.

Lemma passes_le_expired i s s' :
  Start i = Some s → rtc step s s' → passes s' + (if tick s' then 1 else 0) <= expired s'.
Proof.
  intros Hs. assert (passes s + (if tick s then 1 else 0) <= expired s) as Hi.
  { unfold Start in Hs. case_match; [done|]. injection Hs as <-. done. }
  clear Hs. intros Hr. induction Hr as [|x y z Hxy _ IH]; [done|]. apply IH.
  destruct Hxy as [Hx|Hx]; destruct Hx; simpl in *; try case_match; lia.
Qed.

(** The loop runs when the interval is positive.  It makes at most one pass for each time the
    interval passed, one after the other; between two events from outside it takes a bounded
    number of steps, and where it stops by itself it has returned, or it waits for the next
    tick with none pending and the context not ended. *)
Theorem retention_loop i :
  (is_Some (Start i) ↔ (0 < i)%Z) ∧
  ∀ s, Start i = Some s → ∀ s', rtc step s s' →
    passes s' <= expired s' ∧
    (∀ n s'', nsteps internal n s' s'' → n <= work s') ∧ work s' <= 4 ∧
    ((∀ s'', ¬ internal s' s'') →
       at_ s' = Returned ∨ at_ s' = Selecting ∧ tick s' = false ∧ cancelled s' = false).
Proof.
  split. { unfold Start. destruct (Z.leb_spec i 0); (split; [by intros []|intros; first [lia|eauto]]). }
  intros s Hs s' Hr. pose proof (passes_le_expired i s s' Hs Hr) as Hp. split_and!.
  - lia.
  - intros n s''. clear. revert s'. induction n as [|n IH]; intros s' Hn; [lia|].
    inversion Hn as [|? ? y ? Hy Hys]; subst. apply loop_work in Hy. apply IH in Hys. lia.
  - unfold work. repeat case_match; lia.
  - intros Hq. destruct s' as [[] t c e n]; simpl in *; [right|exfalso|by left].
    + destruct t; [exfalso; eapply Hq; constructor|].
      destruct c; [exfalso; eapply Hq; constructor|]. done.
    + eapply Hq. constructor.
Qed.

(** One interval, one pass; then the context ends. *)
Lemma retention_loop_witness :
  Start 600 = Some (mkState Selecting false false 0 0) ∧
  passes (mkState Returned false true 1 1) <= expired (mkState Returned false true 1 1).
Proof.
  split; [reflexivity|]. destruct (retention_loop 600) as [_ H].
  eapply (H _ eq_refl (mkState Returned false true 1 1)).
  eapply rtc_l; [left; apply ext_expire|]. eapply rtc_l; [right; apply int_tick|].
  eapply rtc_l; [right; apply int_checked|]. eapply rtc_l; [left; apply ext_cancel|].
  eapply rtc_l; [right; apply int_done|]. apply rtc_refl.
Defined.
End Loop.
