(* ===== verification/Secrets.v ===== *)
(** [api/v1beta1/backupconfig_secrets.go], [backupconfig_helpers.go],
    [backupconfig_defaults.go] and [internal/common/plugin_config.go]: finding the
    BackupConfig of a cluster or backup, and filling it with the data of its Secrets and
    ConfigMaps.  A shadowing Go field ([Spec] of [BackupConfigWithSecrets]) is a field of its
    own beside the embedded object. *)
From stdpp Require Import base list strings gmap.
From S2P Require Import Prelude GoStrings GoTime Api Effects.
Local Open Scope string_scope.
Local Open Scope list_scope.
Local Open Scope go_scope.

(** ** Plugin configuration of a cluster ([internal/common]) *)

Definition PluginNameDeprecated : string := "cnpg-extensions.yandex.cloud".
Definition PluginName : string := "cnpg-plugin-wal-g".
Definition PluginModeNormal : string := "normal".
Definition PluginModeRecovery : string := "recovery".

Definition GetRecoveryPluginConfigFromCluster (cluster : Cluster) : option PluginConfiguration :=
  match cl_Recovery cluster with
  | None => None
  | Some recovery =>
      if String.eqb (rec_Source recovery) "" then None
      else match find_first (λ c, String.eqb (ext_Name c) (rec_Source recovery))
                   (cl_ExternalClusters cluster) with
           | None => None
           | Some source => ext_PluginConfiguration source
           end
  end.

Definition GetPluginConfigFromCluster (cluster : Cluster) : option PluginConfiguration :=
  find_first (λ c, String.eqb (plugin_Name c) PluginNameDeprecated) (cl_Plugins cluster).

(** [None]: no restart policy is set on the init container. *)
Definition GetInitContainerRestartPolicy (cluster : Cluster) : option string :=
  match GetPluginConfigFromCluster cluster ≫= plugin_Parameters with
  | None => Some "Always"
  | Some params =>
      match params !! "sidecarRestartPolicy" with
      | None => Some "Always"
      | Some p => if String.eqb p "Always" then Some "Always"
                  else if String.eqb p "unset" then None
                  else Some "Always"
      end
  end.

(** ** Helpers *)

Definition backupConfigNameParameter : string := "backupConfig".

Definition checkBackupNameMatchesPluginConfig (backupConfigName : NamespacedName)
    (pluginConfig : option PluginConfiguration) : bool :=
  match pluginConfig ≫= plugin_Parameters with
  | None => false
  | Some params => match params !! backupConfigNameParameter with
                   | Some usedConfigName => String.eqb usedConfigName (key_name backupConfigName)
                   | None => false
                   end
  end.

Definition BackupConfigIsUsedForArchivation (backupConfigName : NamespacedName)
    (cluster : Cluster) : bool :=
  if negb (String.eqb (key_ns backupConfigName) (Namespace (cl_meta cluster))) then false
  else checkBackupNameMatchesPluginConfig backupConfigName (GetPluginConfigFromCluster cluster).

Definition BackupConfigIsUsedForRecovery (backupConfigName : NamespacedName)
    (cluster : Cluster) : bool :=
  if negb (String.eqb (key_ns backupConfigName) (Namespace (cl_meta cluster))) then false
  else checkBackupNameMatchesPluginConfig backupConfigName
         (GetRecoveryPluginConfigFromCluster cluster).

(** [Ok None] is the pair (nil, nil). *)
Definition getBackupConfigFromPluginConfig (pluginConfig : option PluginConfiguration)
    (namespace : string) : prog (res (option BackupConfig)) :=
  match pluginConfig with
  | None => Ret (Ok None)
  | Some p =>
      match plugin_Parameters p with
      | None => Ret (Ok None)
      | Some params =>
          if negb (String.eqb (plugin_Name p) PluginNameDeprecated) then Ret (Ok None)
          else match params !! backupConfigNameParameter with
               | None => Ret (Err (errorf
                   "missing backupConfig parameter with BackupConfig resource name in plugin configuration"))
               | Some backupConfigName =>
                   b ←? call (OGet KBackupConfig (mkKey namespace backupConfigName));
                   Ret (Ok (Some b))
               end
      end
  end.

Definition GetBackupConfigForCluster (cluster : Cluster) : prog (res (option BackupConfig)) :=
  getBackupConfigFromPluginConfig (GetPluginConfigFromCluster cluster)
    (Namespace (cl_meta cluster)).

Definition GetBackupConfigForClusterRecovery (cluster : Cluster)
    : prog (res (option BackupConfig)) :=
  getBackupConfigFromPluginConfig (GetRecoveryPluginConfigFromCluster cluster)
    (Namespace (cl_meta cluster)).

(** The loop over the owner references: the last match stays. *)
Definition backup_config_owner (backup : Backup) : NamespacedName :=
  foldl (λ key ownerRef,
    if String.eqb (or_Kind ownerRef) "BackupConfig" && has_prefix (or_APIVersion ownerRef) Group
    then mkKey (Namespace (bk_meta backup)) (or_Name ownerRef) else key)
    (mkKey "" "") (OwnerReferences (bk_meta backup)).

Definition GetBackupConfigForBackup (backup : Backup) : prog (res BackupConfig) :=
  let backupConfigKey := backup_config_owner backup in
  if String.eqb (key_name backupConfigKey) ""
  then Ret (Err (errorf ("no BackupConfig owner found for backup " +:+
                         key_string (key_of (bk_meta backup)))))
  else wrap_err ("while getting BackupConfig " +:+ key_string backupConfigKey +:+
                 " for backup " +:+ key_string (key_of (bk_meta backup)) +:+ ": ")
         (call (OGet KBackupConfig backupConfigKey)).

Definition GetBackupConfigEncryptionSecretName (b : BackupConfig) : string :=
  let secretName := enc_ExistingEncryptionSecretName (Encryption (bc_Spec b)) in
  if String.eqb secretName "" then Name (bc_meta b) +:+ "-encryption" else secretName.

(** ** Objects with their secret data *)

Record S3StorageConfigWithSecrets := mkS3WithSecrets {
  s3s_config : S3StorageConfig;
  AccessKeyID : string;
  AccessKeySecret : string;
  CACertData : string;
  s3s_ResolvedPrefix : string;
  ResolvedRegion : string;
  ResolvedEndpointURL : string;
}.

Record GCSStorageConfigWithSecrets := mkGCSWithSecrets {
  gcss_config : GCSStorageConfig;
  CredentialsData : string;
  gcss_ResolvedPrefix : string;
}.

Record StorageConfigWithSecrets := mkStorageWithSecrets {
  sts_StorageType : string;
  sts_S3 : option S3StorageConfigWithSecrets;
  sts_GCS : option GCSStorageConfigWithSecrets;
}.

Record BackupEncryptionConfigWithSecrets := mkEncryptionWithSecrets {
  encs_Method : string;
  encs_ExistingEncryptionSecretName : string;
  EncryptionKeyData : string;
}.

Record BackupConfigWithSecrets := mkWithSecrets {
  ws_config : BackupConfig;
  ws_Storage : StorageConfigWithSecrets;
  ws_Encryption : option BackupEncryptionConfigWithSecrets;
}.

(** ** Reading one value *)

Definition extractValueFromSecret (secretReference : option SecretKeySelector)
    (namespace : string) : prog (res string) :=
  match secretReference with
  | None => Ret (Err (errorf "secretReference is nil"))
  | Some ref =>
      secret ←? wrap_err ("while getting secret " +:+ sel_Name ref +:+ ": ")
                  (call (OGet KSecret (mkKey namespace (sel_Name ref))));
      match sec_Data secret !! sel_Key ref with
      | None => Ret (Err (errorf ("missing key " +:+ sel_Key ref +:+ ", inside secret " +:+
                                  sel_Name ref)))
      | Some value => Ret (Ok value)
      end
  end.

Definition extractValueFromConfigMap (configMapReference : option ConfigMapKeySelector)
    (namespace : string) : prog (res string) :=
  match configMapReference with
  | None => Ret (Err (errorf "configMapReference is nil"))
  | Some ref =>
      configMap ←? wrap_err ("while getting ConfigMap " +:+ sel_Name ref +:+ ": ")
                     (call (OGet KConfigMap (mkKey namespace (sel_Name ref))));
      match cm_Data configMap !! sel_Key ref with
      | None => Ret (Err (errorf ("missing key " +:+ sel_Key ref +:+ ", inside ConfigMap " +:+
                                  sel_Name ref)))
      | Some value => Ret (Ok value)
      end
  end.

Definition extractValueFromSource (valueFrom : option ValueFromSource) (namespace : string)
    : prog (res string) :=
  match valueFrom with
  | None => Ret (Err (errorf "valueFrom is nil"))
  | Some v =>
      match SecretKeyRef v, ConfigMapKeyRef v with
      | Some _, Some _ => Ret (Err (errorf "cannot specify both secretKeyRef and configMapKeyRef"))
      | None, None => Ret (Err (errorf "must specify either secretKeyRef or configMapKeyRef"))
      | Some ref, None => extractValueFromSecret (Some ref) namespace
      | None, Some ref => extractValueFromConfigMap (Some ref) namespace
      end
  end.

Definition resolveStringValue (b : BackupConfig) (directValue : string)
    (valueFrom : option ValueFromSource) (fieldName : string) : prog (res string) :=
  match valueFrom with
  | Some _ =>
      if negb (String.eqb directValue "")
      then Ret (Err (errorf ("cannot specify both " +:+ fieldName +:+ " and " +:+ fieldName +:+
                             "From")))
      else extractValueFromSource valueFrom (Namespace (bc_meta b))
  | None => Ret (Ok directValue)
  end.

(** ** Filling the storage, encryption and the whole object *)

Definition ca_cert_data (b : BackupConfig) (customCA : option CustomCAReference)
    : prog (res string) :=
  match customCA with
  | None => Ret (Ok "")
  | Some ca =>
      let ref := Some (mkSelector (ca_Name ca) (ca_Key ca)) in
      if String.eqb (ca_Kind ca) "Secret"
      then wrap_err "failed to extract CA certificate data: "
             (extractValueFromSecret ref (Namespace (bc_meta b)))
      else if String.eqb (ca_Kind ca) "ConfigMap"
      then wrap_err "failed to extract CA certificate data: "
             (extractValueFromConfigMap ref (Namespace (bc_meta b)))
      else Ret (Err (errorf ("unsupported CustomCA kind: " +:+ ca_Kind ca)))
  end.

Definition makeS3StorageConfigWithPrefilledSecrets (b : BackupConfig)
    : prog (res (option S3StorageConfigWithSecrets)) :=
  match st_S3 (Storage (bc_Spec b)) with
  | None => Ret (Ok None)
  | Some s3 =>
      accessKeyID ←? extractValueFromSecret (s3_AccessKeyIDRef s3) (Namespace (bc_meta b));
      accessKeySecret ←? extractValueFromSecret (s3_AccessKeySecretRef s3) (Namespace (bc_meta b));
      caCertData ←? ca_cert_data b (s3_CustomCA s3);
      resolvedPrefix ←? resolveStringValue b (s3_Prefix s3) (s3_PrefixFrom s3) "prefix";
      resolvedRegion ←? resolveStringValue b (s3_Region s3) (s3_RegionFrom s3) "region";
      resolvedEndpointURL ←?
        resolveStringValue b (s3_EndpointURL s3) (s3_EndpointURLFrom s3) "endpointUrl";
      Ret (Ok (Some (mkS3WithSecrets s3 accessKeyID accessKeySecret caCertData resolvedPrefix
                       resolvedRegion resolvedEndpointURL)))
  end.

Definition makeGCSStorageConfigWithPrefilledSecrets (b : BackupConfig)
    : prog (res (option GCSStorageConfigWithSecrets)) :=
  match st_GCS (Storage (bc_Spec b)) with
  | None => Ret (Ok None)
  | Some gcs =>
      credentialsData ←? match gcs_CredentialsSecretRef gcs with
                         | None => Ret (Ok "")
                         | Some ref => extractValueFromSecret (Some ref) (Namespace (bc_meta b))
                         end;
      resolvedPrefix ←? resolveStringValue b (gcs_Prefix gcs) (gcs_PrefixFrom gcs) "prefix";
      Ret (Ok (Some (mkGCSWithSecrets gcs credentialsData resolvedPrefix)))
  end.

Definition makeStorageConfigWithPrefilledSecrets (b : BackupConfig)
    : prog (res StorageConfigWithSecrets) :=
  s3 ←? makeS3StorageConfigWithPrefilledSecrets b;
  gcs ←? makeGCSStorageConfigWithPrefilledSecrets b;
  Ret (Ok (mkStorageWithSecrets (st_StorageType (Storage (bc_Spec b))) s3 gcs)).

Definition makeEncryptionConfigWithPrefilledSecrets (b : BackupConfig)
    : prog (res BackupEncryptionConfigWithSecrets) :=
  let enc := Encryption (bc_Spec b) in
  let newCfg data := mkEncryptionWithSecrets (enc_Method enc)
                       (enc_ExistingEncryptionSecretName enc) data in
  let secretName := if String.eqb (enc_ExistingEncryptionSecretName enc) ""
                    then Name (bc_meta b) +:+ "-encryption"
                    else enc_ExistingEncryptionSecretName enc in
  if String.eqb (enc_Method enc) "libsodium"
  then encryptionKey ←? extractValueFromSecret (Some (mkSelector secretName "libsodiumKey"))
                          (Namespace (bc_meta b));
       Ret (Ok (newCfg encryptionKey))
  else if String.eqb (enc_Method enc) "" || String.eqb (enc_Method enc) "none"
  then Ret (Ok (newCfg ""))
  else Ret (Err (errorf ("unknown encryption method " +:+ dquote +:+ enc_Method enc +:+ dquote))).

Definition makeBackupConfigSpecWithPrefilledSecrets (b : BackupConfig)
    : prog (res (StorageConfigWithSecrets * option BackupEncryptionConfigWithSecrets)) :=
  storage ←? makeStorageConfigWithPrefilledSecrets b;
  encryption ←? makeEncryptionConfigWithPrefilledSecrets b;
  Ret (Ok (storage, Some encryption)).

Definition PrefetchSecretsData (b : BackupConfig) : prog (res BackupConfigWithSecrets) :=
  spec ←? makeBackupConfigSpecWithPrefilledSecrets b;
  Ret (Ok (mkWithSecrets b spec.1 spec.2)).

Definition GetBackupConfigWithSecretsForBackup (backup : Backup)
    : prog (res BackupConfigWithSecrets) :=
  backupConfig ←? GetBackupConfigForBackup backup;
  wrap_err "while prefetching backup secrets data: " (PrefetchSecretsData backupConfig).

(** ** Defaulting *)

Definition DefaultDownloadFileRetries : Z := 5.
Definition DefaultDeltaMaxSteps : Z := 0.

Definition Default (b : BackupConfig) : BackupConfig :=
  let s := bc_Spec b in
  mkBackupConfig (bc_meta b)
    (mkBCSpec (DownloadConcurrency s) (UploadDiskRateLimit s) (UploadNetworkRateLimit s)
       (UploadConcurrency s) (UploadDiskConcurrency s)
       (if Z.eqb (DownloadFileRetries s) 0 then DefaultDownloadFileRetries
        else DownloadFileRetries s)
       (if Z.eqb (DeltaMaxSteps s) 0 then DefaultDeltaMaxSteps else DeltaMaxSteps s)
       (TarDisableFsync s) (TarSizeThreshold s) (Retention s) (Storage s) (Resources s)
       (Encryption s))
    (bc_Status b).

(** ** What prefetching reads *)

(** A read of a Secret or ConfigMap of one namespace. *)
Definition reads_in (ns : string) (e : event) : Prop :=
  match ev_op e with
  | OGet KSecret key | OGet KConfigMap key => key_ns key = ns
  | _ => False
  end.

Lemma safe_secret ref ns : safe (reads_in ns) (extractValueFromSecret ref ns).
Proof. unfold extractValueFromSecret. by safe_auto. Qed.

Lemma safe_config_map ref ns : safe (reads_in ns) (extractValueFromConfigMap ref ns).
Proof. unfold extractValueFromConfigMap. by safe_auto. Qed.
#[local] Hint Resolve safe_secret safe_config_map : golib.

Lemma safe_resolve b d v f :
  safe (reads_in (Namespace (bc_meta b))) (resolveStringValue b d v f).
Proof. unfold resolveStringValue, extractValueFromSource. safe_auto. Qed.
#[local] Hint Resolve safe_resolve : golib.

Lemma safe_ca b ca : safe (reads_in (Namespace (bc_meta b))) (ca_cert_data b ca).
Proof. unfold ca_cert_data. safe_auto. Qed.
#[local] Hint Resolve safe_ca : golib.

Lemma safe_prefetch b : safe (reads_in (Namespace (bc_meta b))) (PrefetchSecretsData b).
Proof.
  unfold PrefetchSecretsData, makeBackupConfigSpecWithPrefilledSecrets,
    makeStorageConfigWithPrefilledSecrets, makeS3StorageConfigWithPrefilledSecrets,
    makeGCSStorageConfigWithPrefilledSecrets, makeEncryptionConfigWithPrefilledSecrets.
  safe_auto.
Qed.

(** Prefetching is confined.  Whatever the API server answers, [PrefetchSecretsData]
    returns without panicking, writes nothing, and reads only Secrets and ConfigMaps of the
    BackupConfig's own namespace. *)
Theorem prefetch_confined b :
  safe (reads_in (Namespace (bc_meta b))) (PrefetchSecretsData b).
Proof. apply safe_prefetch. Qed.

(** A read of the API server. *)
Definition reads (e : event) : Prop :=
  match ev_op e with OGet _ _ | OList _ _ => True | _ => False end.

Lemma reads_in_reads ns e : reads_in ns e → reads e.
Proof. destruct e as [[] ?]; done. Qed.

Lemma safe_reads_prefetch b : safe reads (PrefetchSecretsData b).
Proof. eapply safe_mono; [apply reads_in_reads|apply safe_prefetch]. Qed.

Lemma safe_reads_for_backup b : safe reads (GetBackupConfigForBackup b).
Proof. unfold GetBackupConfigForBackup. by safe_auto. Qed.

Lemma safe_reads_with_secrets b : safe reads (GetBackupConfigWithSecretsForBackup b).
Proof.
  apply safe_try; [apply safe_reads_for_backup|]. intros bc. apply safe_wrap, safe_reads_prefetch.
Qed.

Lemma safe_reads_for_cluster c : safe reads (GetBackupConfigForCluster c).
Proof. unfold GetBackupConfigForCluster, getBackupConfigFromPluginConfig. by safe_auto. Qed.

#[export] Hint Resolve safe_reads_prefetch safe_reads_for_backup safe_reads_with_secrets
  safe_reads_for_cluster : golib.

(** ** What prefetching returns *)

Definition secret_value (t : list event) (ns : string) (ref : SecretKeySelector) (v : string) : Prop :=
  ∃ s : Secret, Ev (OGet KSecret (mkKey ns (sel_Name ref))) (Ok s) ∈ t ∧
    sec_Data s !! sel_Key ref = Some v.
Definition config_map_value (t : list event) (ns : string) (ref : ConfigMapKeySelector) (v : string) : Prop :=
  ∃ s : ConfigMap, Ev (OGet KConfigMap (mkKey ns (sel_Name ref))) (Ok s) ∈ t ∧
    cm_Data s !! sel_Key ref = Some v.

(** A field with a direct value or a reference. *)
Definition source_value (t : list event) (ns direct : string) (from : option ValueFromSource)
    (v : string) : Prop :=
  match from with
  | None => v = direct
  | Some vf => direct = "" ∧
      ((∃ ref, vf = mkValueFrom (Some ref) None ∧ secret_value t ns ref v) ∨
       (∃ ref, vf = mkValueFrom None (Some ref) ∧ config_map_value t ns ref v))
  end.

Definition ca_value (t : list event) (ns : string) (ca : option CustomCAReference) (v : string) : Prop :=
  match ca with
  | None => v = ""
  | Some ca => let ref := mkSelector (ca_Name ca) (ca_Key ca) in
      (ca_Kind ca = "Secret" ∧ secret_value t ns ref v) ∨
      (ca_Kind ca = "ConfigMap" ∧ config_map_value t ns ref v)
  end.

Lemma secret_value_mono t t' ns ref v : t ⊆ t' → secret_value t ns ref v → secret_value t' ns ref v.
Proof. intros Hs (s & ? & ?). exists s. auto. Qed.
Lemma config_map_value_mono t t' ns ref v :
  t ⊆ t' → config_map_value t ns ref v → config_map_value t' ns ref v.
Proof. intros Hs (s & ? & ?). exists s. auto. Qed.
Lemma source_value_mono t t' ns d f v : t ⊆ t' → source_value t ns d f v → source_value t' ns d f v.
Proof.
  intros Hs. destruct f; [|done]. simpl.
  intros [? [(r & ? & ?)|(r & ? & ?)]]; (split; [done|]); [left|right]; exists r;
    eauto using secret_value_mono, config_map_value_mono.
Qed.
Lemma ca_value_mono t t' ns ca v : t ⊆ t' → ca_value t ns ca v → ca_value t' ns ca v.
Proof.
  intros Hs. destruct ca; [|done]. simpl.
  intros [[? ?]|[? ?]]; [left|right]; eauto using secret_value_mono, config_map_value_mono.
Qed.

Create HintDb values discriminated.
#[local] Hint Constants Opaque : values.
#[local] Hint Variables Opaque : values.
#[local] Hint Resolve secret_value_mono config_map_value_mono source_value_mono ca_value_mono
  list_subseteq_app_l list_subseteq_app_r : values.
#[local] Hint Extern 0 (?t ⊆ ?t) => reflexivity : values.

Lemma extractValueFromSecret_ok r ns t v :
  exec (extractValueFromSecret r ns) t (Returned (Ok v)) →
  ∃ ref, r = Some ref ∧ secret_value t ns ref v.
Proof.
  destruct r as [ref|]; [|by intros [_ [=]]].
  intros (t1 & t2 & s & -> & (a & t' & -> & Ha)%exec_wrap_ok & H2)%exec_try_ok.
  destruct Ha as [-> [= <-]]. simpl in H2.
  destruct (sec_Data s !! sel_Key ref) eqn:Hs; destruct H2 as [-> [= ->]].
  exists ref. split; [done|]. exists s. split; [by left|done].
Qed.

Lemma extractValueFromConfigMap_ok r ns t v :
  exec (extractValueFromConfigMap r ns) t (Returned (Ok v)) →
  ∃ ref, r = Some ref ∧ config_map_value t ns ref v.
Proof.
  destruct r as [ref|]; [|by intros [_ [=]]].
  intros (t1 & t2 & s & -> & (a & t' & -> & Ha)%exec_wrap_ok & H2)%exec_try_ok.
  destruct Ha as [-> [= <-]]. simpl in H2.
  destruct (cm_Data s !! sel_Key ref) eqn:Hs; destruct H2 as [-> [= ->]].
  exists ref. split; [done|]. exists s. split; [by left|done].
Qed.

Lemma resolveStringValue_ok b d f n t v :
  exec (resolveStringValue b d f n) t (Returned (Ok v)) →
  source_value t (Namespace (bc_meta b)) d f v.
Proof.
  unfold resolveStringValue, extractValueFromSource, source_value.
  destruct f as [[[r|] [r'|]]|]; [..|by intros [_ [= ->]]];
    destruct (String.eqb_spec d "") as [->|]; cbn [negb SecretKeyRef ConfigMapKeyRef];
    try by intros [_ [=]].
  - intros (ref & [= ->] & Hv)%extractValueFromSecret_ok. split; [done|]. left. eauto.
  - intros (ref & [= ->] & Hv)%extractValueFromConfigMap_ok. split; [done|]. right. eauto.
Qed.

Lemma ca_cert_data_ok b ca t v :
  exec (ca_cert_data b ca) t (Returned (Ok v)) → ca_value t (Namespace (bc_meta b)) ca v.
Proof.
  unfold ca_cert_data, ca_value. destruct ca as [ca|]; [|by intros [_ [= ->]]]. cbv zeta.
  destruct (String.eqb_spec (ca_Kind ca) "Secret").
  { intros (ref & [= <-] & Hv)%exec_wrap_ok%extractValueFromSecret_ok. auto. }
  destruct (String.eqb_spec (ca_Kind ca) "ConfigMap"); [|by intros [_ [=]]].
  intros (ref & [= <-] & Hv)%exec_wrap_ok%extractValueFromConfigMap_ok. auto.
Qed.

(** The S3 part of a filled object agrees with the values read. *)
Definition s3_filled (t : list event) (ns : string) (s3 : S3StorageConfig)
    (f : S3StorageConfigWithSecrets) : Prop :=
  s3s_config f = s3 ∧
  (∃ ref, s3_AccessKeyIDRef s3 = Some ref ∧ secret_value t ns ref (AccessKeyID f)) ∧
  (∃ ref, s3_AccessKeySecretRef s3 = Some ref ∧ secret_value t ns ref (AccessKeySecret f)) ∧
  ca_value t ns (s3_CustomCA s3) (CACertData f) ∧
  source_value t ns (s3_Prefix s3) (s3_PrefixFrom s3) (s3s_ResolvedPrefix f) ∧
  source_value t ns (s3_Region s3) (s3_RegionFrom s3) (ResolvedRegion f) ∧
  source_value t ns (s3_EndpointURL s3) (s3_EndpointURLFrom s3) (ResolvedEndpointURL f).

Definition gcs_filled (t : list event) (ns : string) (gcs : GCSStorageConfig)
    (f : GCSStorageConfigWithSecrets) : Prop :=
  gcss_config f = gcs ∧
  match gcs_CredentialsSecretRef gcs with
  | None => CredentialsData f = ""
  | Some ref => secret_value t ns ref (CredentialsData f)
  end ∧
  source_value t ns (gcs_Prefix gcs) (gcs_PrefixFrom gcs) (gcss_ResolvedPrefix f).

Lemma makeS3_ok b t r :
  exec (makeS3StorageConfigWithPrefilledSecrets b) t (Returned (Ok r)) →
  option_Forall2 (s3_filled t (Namespace (bc_meta b))) (st_S3 (Storage (bc_Spec b))) r.
Proof.
  unfold makeS3StorageConfigWithPrefilledSecrets.
  destruct (st_S3 _) as [s3|]; [|intros [_ [= ->]]; constructor].
  intros (t1 & u1 & kid & -> & (r1 & ? & H1)%extractValueFromSecret_ok & Hu)%exec_try_ok.
  apply exec_try_ok in Hu as (t2 & u2 & ks & -> & (r2 & ? & H2)%extractValueFromSecret_ok & Hu).
  apply exec_try_ok in Hu as (t3 & u3 & ca & -> & H3%ca_cert_data_ok & Hu).
  apply exec_try_ok in Hu as (t4 & u4 & px & -> & H4%resolveStringValue_ok & Hu).
  apply exec_try_ok in Hu as (t5 & u5 & rg & -> & H5%resolveStringValue_ok & Hu).
  apply exec_try_ok in Hu as (t6 & u6 & ep & -> & H6%resolveStringValue_ok & [-> [= ->]]).
  constructor. unfold s3_filled; simpl. split_and!; [done|exists r1|exists r2|..];
    eauto 10 with values.
Qed.

Lemma makeGCS_ok b t r :
  exec (makeGCSStorageConfigWithPrefilledSecrets b) t (Returned (Ok r)) →
  option_Forall2 (gcs_filled t (Namespace (bc_meta b))) (st_GCS (Storage (bc_Spec b))) r.
Proof.
  unfold makeGCSStorageConfigWithPrefilledSecrets.
  destruct (st_GCS _) as [gcs|]; [|intros [_ [= ->]]; constructor].
  intros (t1 & u1 & cd & -> & H1 & Hu)%exec_try_ok.
  apply exec_try_ok in Hu as (t2 & u2 & px & -> & H2%resolveStringValue_ok & [-> [= ->]]).
  constructor. unfold gcs_filled; simpl. split_and!; [done| |eauto 10 with values].
  destruct (gcs_CredentialsSecretRef gcs) as [ref|]; [|by destruct H1 as [_ [= ->]]].
  apply extractValueFromSecret_ok in H1 as (? & [= <-] & ?). eauto 10 with values.
Qed.

(** The encryption key of a filled object. *)
Definition encryption_filled (t : list event) (b : BackupConfig)
    (e : BackupEncryptionConfigWithSecrets) : Prop :=
  let enc := Encryption (bc_Spec b) in
  encs_Method e = enc_Method enc ∧
  ((enc_Method enc = "libsodium" ∧
    secret_value t (Namespace (bc_meta b))
      (mkSelector (GetBackupConfigEncryptionSecretName b) "libsodiumKey") (EncryptionKeyData e)) ∨
   ((enc_Method enc = "" ∨ enc_Method enc = "none") ∧ EncryptionKeyData e = "")).

Lemma makeEncryption_ok b t e :
  exec (makeEncryptionConfigWithPrefilledSecrets b) t (Returned (Ok e)) → encryption_filled t b e.
Proof.
  unfold makeEncryptionConfigWithPrefilledSecrets, encryption_filled.
  destruct (String.eqb_spec (enc_Method (Encryption (bc_Spec b))) "libsodium") as [->|].
  { intros (t1 & t2 & k & -> & (r & [= <-] & Hk)%extractValueFromSecret_ok & [-> [= ->]])%exec_try_ok.
    simpl. split; [done|]. left. split; [done|]. eauto with values. }
  destruct (_ || _)%bool eqn:Hm; [|by intros [_ [=]]]. intros [_ [= ->]]. simpl.
  split; [done|]. right. split; [|done].
  apply orb_true_iff in Hm as [?|?]; [left|right]; by apply String.eqb_eq.
Qed.

Lemma GetBackupConfigForBackup_ok backup t bc :
  exec (GetBackupConfigForBackup backup) t (Returned (Ok bc)) →
  t = [Ev (OGet KBackupConfig (backup_config_owner backup)) (Ok bc)].
Proof.
  unfold GetBackupConfigForBackup. cbv zeta. case_match; [by intros [_ [=]]|].
  by intros (x & t' & -> & -> & [= <-])%exec_wrap_ok.
Qed.

Lemma prefetch_config b t ws :
  exec (PrefetchSecretsData b) t (Returned (Ok ws)) → ws_config ws = b.
Proof. by intros (t0 & ? & sp & -> & Hsp & [-> [= ->]])%exec_try_ok. Qed.

(** Prefetching is faithful.  When [PrefetchSecretsData] succeeds, the object keeps the
    BackupConfig and every secret or resolved field holds the value that the Secret or
    ConfigMap named by its reference held when it was read: access keys, CA certificate,
    prefix, region, endpoint, GCS credentials and encryption key; fields with a direct value
    keep it, and a field with both a direct value and a reference never gets this far. *)
Theorem prefetch_values b t ws :
  exec (PrefetchSecretsData b) t (Returned (Ok ws)) →
  ws_config ws = b ∧
  option_Forall2 (s3_filled t (Namespace (bc_meta b))) (st_S3 (Storage (bc_Spec b)))
    (sts_S3 (ws_Storage ws)) ∧
  option_Forall2 (gcs_filled t (Namespace (bc_meta b))) (st_GCS (Storage (bc_Spec b)))
    (sts_GCS (ws_Storage ws)) ∧
  ∃ e, ws_Encryption ws = Some e ∧ encryption_filled t b e.
Proof.
  intros (t0 & ? & sp & -> & Hsp & [-> [= ->]])%exec_try_ok.
  apply exec_try_ok in Hsp as (t1 & u1 & st & -> & Hst & Hu).
  apply exec_try_ok in Hu as (t2 & u2 & enc & -> & Henc%makeEncryption_ok & [-> [= ->]]).
  apply exec_try_ok in Hst as (t3 & u3 & s3 & -> & H3%makeS3_ok & Hu).
  apply exec_try_ok in Hu as (t4 & u4 & gcs & -> & H4%makeGCS_ok & [-> [= ->]]).
  simpl. split; [done|]. split; [|split; [|exists enc; split; [done|]]].
  - destruct H3 as [s f Hf|]; constructor. destruct Hf as (? & (? & ? & ?) & (? & ? & ?) & ?).
    unfold s3_filled. destruct_and!. split_and!; eauto 10 with values.
  - destruct H4 as [s f Hf|]; constructor. destruct Hf as (? & Hc & ?).
    unfold gcs_filled. split_and!; [done| |eauto 10 with values].
    destruct (gcs_CredentialsSecretRef s); eauto 10 with values.
  - destruct Henc as [? [[? ?]|?]]; (split; [done|]); [left|by right].
    split; [done|]. eauto 10 with values.
Qed.

(** A BackupConfig whose two keys are in one Secret, and the trace of its prefetching. *)
Definition keys_secret : Secret :=
  mkSecret (mkMeta "keys" "ns" "u" "1" 1 None None [] [] zero_time None) "Opaque"
    {["id" := "AK"; "secret" := "SK"]}.
Definition s3_keys : S3StorageConfig :=
  mkS3 "s3://bucket/pg" None "eu" None "" None false "STANDARD" None
    (Some (mkSelector "keys" "id")) (Some (mkSelector "keys" "secret")).
Definition s3_backup_config : BackupConfig :=
  mkBackupConfig (mkMeta "bc" "ns" "uid" "1" 1 None None [] [] zero_time None)
    (mkBCSpec None None None None None 5 0 false None (mkRetention false false false 1 "7d")
       (mkStorage "s3" (Some s3_keys) None) "" (mkEncryption "" ""))
    (mkBCStatus BackupConfigPhaseNone None None None None []).
Definition s3_with_secrets : BackupConfigWithSecrets :=
  mkWithSecrets s3_backup_config
    (mkStorageWithSecrets "s3"
       (Some (mkS3WithSecrets s3_keys "AK" "SK" "" "s3://bucket/pg" "eu" "")) None)
    (Some (mkEncryptionWithSecrets "" "" "")).
Definition keys_read : event := Ev (OGet KSecret (mkKey "ns" "keys")) (Ok keys_secret).

Lemma prefetch_values_witness :
  ws_config s3_with_secrets = s3_backup_config ∧
  exec (PrefetchSecretsData s3_backup_config) [keys_read; keys_read]
    (Returned (Ok s3_with_secrets)).
Proof.
  assert (exec (PrefetchSecretsData s3_backup_config) [keys_read; keys_read]
    (Returned (Ok s3_with_secrets))) as He.
  { eexists _, _. split; [reflexivity|]. eexists _, _. split; [reflexivity|].
    split; reflexivity. }
  split; [|exact He].
  apply (prefetch_values s3_backup_config [keys_read; keys_read] s3_with_secrets He).
Defined.

(** ** Which BackupConfig a cluster uses *)

(** The two ways the plugin decides which BackupConfig archives a cluster agree:
    [BackupConfigIsUsedForArchivation] holds of a key exactly when
    [GetBackupConfigForCluster] fetches that key. *)
Theorem archivation_agrees key cluster :
  BackupConfigIsUsedForArchivation key cluster = true ↔
  ∃ a r, exec (GetBackupConfigForCluster cluster) [Ev (OGet KBackupConfig key) a] r.
Proof.
  unfold BackupConfigIsUsedForArchivation, GetBackupConfigForCluster,
    checkBackupNameMatchesPluginConfig, getBackupConfigFromPluginConfig.
  destruct key as [ns name]; simpl.
  destruct (GetPluginConfigFromCluster cluster) as [p|] eqn:Hp; simpl;
    [|by case_match; (split; [done|]); intros (? & ? & [=] & _)].
  assert (String.eqb (plugin_Name p) PluginNameDeprecated = true) as ->.
  { unfold GetPluginConfigFromCluster in Hp. by apply find_first_elem in Hp as [_ ?]. }
  destruct (plugin_Parameters p) as [params|]; simpl;
    [|by case_match; (split; [done|]); intros (? & ? & [=] & _)].
  destruct (params !! backupConfigNameParameter) as [n|] eqn:Hn; simpl;
    [|by case_match; (split; [done|]); intros (? & ? & [=] & _)].
  destruct (String.eqb_spec ns (Namespace (cl_meta cluster))) as [->|Hns]; simpl.
  - rewrite String.eqb_eq. split.
    + intros ->. exists (Err (errorf "")), (Returned (Err (errorf ""))).
      by eexists _, [].
    + intros (a & r & x & t' & Heq & _). by injection Heq.
  - split; [done|]. intros (a & r & x & t' & Heq & _). by injection Heq.
Qed.
