(* ===== verification/Memory.v ===== *)
(** Memory: a heap with typed cells, what values it represents, and what a copy has to promise.

    Everywhere else in this development a Go struct is a value.  Where the code follows pointers
    it matters which parts two structs share; this file has the heap, the pointers and slices in
    it, and the interface [Copyable] of types whose values can be copied without sharing.
    [DeepCopy] is the generated code for the types of the API. *)
From stdpp Require Import base list gmap option.
From S2P Require Import Prelude.
Local Open Scope list_scope.

(** ** Heaps and programs on them *)

Abbreviation loc := nat.

Section memory.
(** What a location can hold. *)
Context {C : Type}.

Abbreviation heap := (gmap loc C).

(** A program changes the heap, or panics at a nil pointer or one of another type. *)
Definition mem (A : Type) : Type := heap → option (A * heap).

#[export] Instance mem_ret : MRet mem := λ A a h, Some (a, h).
#[export] Instance mem_bind : MBind mem := λ A B f c h, '(a, h) ← c h; f a h.

Lemma mem_bind_some {A B} (c : mem A) (f : A → mem B) h a h' :
  c h = Some (a, h') → (c ≫= f) h = f a h'.
Proof. intros Hc. unfold mbind, mem_bind. by rewrite Hc. Qed.

(** A type of Go, as the cells hold it. *)
Class Cell (M : Type) := {
  inj : M → C;
  prj : C → option M;
  zero : M;
  prj_inj m : prj (inj m) = Some m;
}.

Definition alloc `{Cell M} (m : M) : mem loc := λ h,
  let l := fresh (dom h) in Some (l, <[l := inj m]> h).
Definition load `{Cell M} (l : loc) : mem M := λ h, m ← h !! l ≫= prj; Some (m, h).
Definition store `{Cell M} (l : loc) (m : M) : mem () := λ h,
  match h !! l with
  | Some _ => Some (tt, <[l := inj m]> h)
  | None => None
  end.

(** [new(T)] and [make([]T, n)]. *)
Definition new (M : Type) `{Cell M} : mem loc := alloc (zero : M).
Definition make `{Cell M} `{Cell (list M)} (n : nat) : mem loc := alloc (replicate n (zero : M)).

(** Pointers and slices of a type, or nil; a slice is the location of its elements. *)
Record ptr (M : Type) := Ptr { addr : option loc }.
Record slice (M : Type) := Slice { array : option loc }.
#[global] Arguments Ptr {M} addr.
#[global] Arguments addr {M} p.
#[global] Arguments Slice {M} array.
#[global] Arguments array {M} s.

(** ** Representation *)

(** [rep h m v l]: in the heap [h], [m] stands for the value [v], and the locations that can be
    reached from it are [l], one for each pointer on the way. *)
Class Repr (M V : Type) := {
  rep : heap → M → V → list loc → Prop;
  rep_dom h m v l : rep h m v l → ∀ x, x ∈ l → is_Some (h !! x);
  rep_frame h h' m v l : rep h m v l → (∀ x, x ∈ l → h' !! x = h !! x) → rep h' m v l;
}.

Lemma rep_mono `{Repr M V} h h' m v l : rep h m v l → h ⊆ h' → rep h' m v l.
Proof.
  intros Hr Hs. apply (rep_frame h); [done|]. intros x Hx.
  destruct (rep_dom _ _ _ _ Hr x Hx) as [c Hc]. rewrite Hc. by eapply lookup_weaken.
Qed.

(** A type without pointers. *)
#[refine] Definition flat_repr (M : Type) : Repr M M := {|
  rep _ m v l := v = m ∧ l = [];
|}.
Proof.
  - abstract (intros h m v l [_ ->] x Hx; by apply elem_of_nil in Hx).
  - abstract done.
Defined.

(** Several fields, one after the other. *)
#[export, refine] Instance unit_repr : Repr () () := {|
  rep _ _ _ l := l = [];
|}.
Proof.
  - abstract (intros h m v l -> x Hx; by apply elem_of_nil in Hx).
  - abstract done.
Defined.

#[export, refine] Instance pair_repr {M V N W} `{Repr M V} `{Repr N W} : Repr (M * N) (V * W) := {|
  rep h m v l := ∃ l1 l2, l = l1 ++ l2 ∧ rep h m.1 v.1 l1 ∧ rep h m.2 v.2 l2;
|}.
Proof.
  - abstract (intros h m v l (l1 & l2 & -> & Ra & Rb) x [Hx|Hx]%elem_of_app;
      [by eapply (rep_dom h m.1)|by eapply (rep_dom h m.2)]).
  - abstract (intros h h' m v l (l1 & l2 & -> & Ra & Rb) Hh; exists l1, l2;
      split_and!; [done|eapply rep_frame|eapply rep_frame]; try done;
      intros x Hx; apply Hh, elem_of_app; auto).
Defined.

Lemma rep_pair {M V N W} `{Repr M V} `{Repr N W} h (m : M) (n : N) (v : V) (w : W) l :
  rep h (m, n) (v, w) l ↔ ∃ l1 l2, l = l1 ++ l2 ∧ rep h m v l1 ∧ rep h n w l2.
Proof. done. Qed.

(** A struct: fields without pointers, which agree, and fields with. *)
#[refine] Definition struct_repr {M V N W} `{Repr N W} (flat : M → V → Prop)
    (fields : M → N) (values : V → W) : Repr M V := {|
  rep h m v l := flat m v ∧ rep h (fields m) (values v) l;
|}.
Proof.
  - abstract (intros h m v l [_ Hr]; by eapply rep_dom).
  - abstract (intros h h' m v l [? Hr] Hh; split; [done|by eapply rep_frame]).
Defined.

#[export, refine] Instance ptr_repr {M V} `{Cell M} `{Repr M V} : Repr (ptr M) (option V) := {|
  rep h p v l :=
    match addr p, v with
    | None, None => l = []
    | Some a, Some v => ∃ m l', l = a :: l' ∧ h !! a = Some (inj m) ∧ rep h m v l'
    | _, _ => False
    end;
|}.
Proof.
  - abstract (intros h [[a|]] [v|] l Hr x Hx; simpl in Hr; try done;
      [destruct Hr as (m & l' & -> & Ha & Hr); apply elem_of_cons in Hx as [->|Hx]; [done|];
       by eapply rep_dom|subst; by apply elem_of_nil in Hx]).
  - abstract (intros h h' [[a|]] [v|] l Hr Hh; simpl in *; try done;
      destruct Hr as (m & l' & -> & Ha & Hr); exists m, l';
      split_and!; [done|by rewrite Hh by (by left)|eapply rep_frame; [done|];
      intros x Hx; apply Hh; by right]).
Defined.

(** The elements of a slice. *)
Inductive reps `{Repr M V} (h : heap) : list M → list V → list loc → Prop :=
| reps_nil : reps h [] [] []
| reps_cons m v ms vs l ls :
    rep h m v l → reps h ms vs ls → reps h (m :: ms) (v :: vs) (l ++ ls).

Lemma reps_dom `{Repr M V} h ms vs l : reps h ms vs l → ∀ x, x ∈ l → is_Some (h !! x).
Proof.
  induction 1 as [|m v ms vs l ls Hm Hms IH]; intros x Hx; [by apply elem_of_nil in Hx|].
  apply elem_of_app in Hx as [Hx|Hx]; [by eapply rep_dom|by apply IH].
Qed.

Lemma reps_frame `{Repr M V} h h' ms vs l :
  reps h ms vs l → (∀ x, x ∈ l → h' !! x = h !! x) → reps h' ms vs l.
Proof.
  induction 1 as [|m v ms vs l ls Hm Hms IH]; intros Hh; constructor.
  - eapply rep_frame; [done|]. intros x Hx. apply Hh, elem_of_app. by left.
  - apply IH. intros x Hx. apply Hh, elem_of_app. by right.
Qed.

Lemma reps_mono `{Repr M V} h h' ms vs l : reps h ms vs l → h ⊆ h' → reps h' ms vs l.
Proof.
  intros Hr Hs. apply (reps_frame h); [done|]. intros x Hx.
  destruct (reps_dom _ _ _ _ Hr x Hx) as [c Hc]. rewrite Hc. by eapply lookup_weaken.
Qed.

(** The nil slice and an empty one have the same elements. *)
#[export, refine] Instance slice_repr {M V} `{Cell (list M)} `{Repr M V}
    : Repr (slice M) (list V) := {|
  rep h s vs l :=
    match array s with
    | None => vs = [] ∧ l = []
    | Some a => ∃ ms l', l = a :: l' ∧ h !! a = Some (inj ms) ∧ reps h ms vs l'
    end;
|}.
Proof.
  - abstract (intros h [[a|]] vs l Hr x Hx; simpl in Hr;
      [destruct Hr as (ms & l' & -> & Ha & Hr); apply elem_of_cons in Hx as [->|Hx]; [done|];
       by eapply reps_dom|destruct Hr as [_ ->]; by apply elem_of_nil in Hx]).
  - abstract (intros h h' [[a|]] vs l Hr Hh; simpl in *; try done;
      destruct Hr as (ms & l' & -> & Ha & Hr); exists ms, l';
      split_and!; [done|by rewrite Hh by (by left)|eapply reps_frame; [done|];
      intros x Hx; apply Hh; by right]).
Defined.

(** ** Programs that only add to the heap *)

(** [h'] is [h] with, among others, the different new locations [l]. *)
Record grows (h h' : heap) (l : list loc) : Prop := {
  grows_sub : h ⊆ h';
  grows_new x : x ∈ l → h !! x = None;
  grows_in x : x ∈ l → is_Some (h' !! x);
  grows_nodup : NoDup l;
}.

Lemma grows_nil h : grows h h [].
Proof. split; [done| | |by constructor]; intros x Hx; by apply elem_of_nil in Hx. Qed.

Lemma grows_app h1 h2 h3 l1 l2 : grows h1 h2 l1 → grows h2 h3 l2 → grows h1 h3 (l1 ++ l2).
Proof.
  intros [Hs1 Hn1 Hi1 Hd1] [Hs2 Hn2 Hi2 Hd2]. split.
  - by etrans.
  - intros x [Hx|Hx]%elem_of_app; [by apply Hn1|]. eapply lookup_weaken_None; [by apply Hn2|done].
  - intros x [Hx|Hx]%elem_of_app; [|by apply Hi2]. destruct (Hi1 x Hx) as [c Hc].
    exists c. by eapply lookup_weaken.
  - apply list.NoDup_app. split_and!; [done| |done]. intros x Hx1 Hx2.
    destruct (Hi1 x Hx1) as [c Hc]. by rewrite Hn2 in Hc.
Qed.

(** The program ends, adds to the heap, and its result and the locations it made are as [Q]
    says. *)
Definition gives {A} (h : heap) (c : mem A) (Q : heap → A → list loc → Prop) : Prop :=
  ∃ a h' l, c h = Some (a, h') ∧ grows h h' l ∧ Q h' a l.

Lemma gives_ret {A} h (a : A) (Q : heap → A → list loc → Prop) : Q h a [] → gives h (mret a) Q.
Proof. intros HQ. exists a, h, []. split_and!; [done|apply grows_nil|done]. Qed.

Lemma gives_bind {A B} h (c : mem A) (f : A → mem B) Q Q' :
  gives h c Q →
  (∀ a h' l, grows h h' l → Q h' a l → gives h' (f a) (λ h'' b l', Q' h'' b (l ++ l'))) →
  gives h (c ≫= f) Q'.
Proof.
  intros (a & h1 & l1 & Hc & Hg1 & HQ) Hf. destruct (Hf _ _ _ Hg1 HQ) as (b & h2 & l2 & Hb & Hg2 & HQ').
  exists b, h2, (l1 ++ l2). split_and!; [|by eapply grows_app|done].
  unfold mbind, mem_bind. by rewrite Hc.
Qed.

(** ** Copies *)

(** A type whose values can be copied: what [m] stands for, in new locations only.  The
    generated [in.DeepCopyInto(out)] writes all of [*out], which overlaps with nothing that can
    be reached from [*in]; [DeepCopyInto] answers what it writes. *)
Class Copyable (M V : Type) `{Repr M V} := {
  DeepCopyInto : M → mem M;
  copies h m v l : rep h m v l → gives h (DeepCopyInto m) (λ h' m' l', rep h' m' v l');
}.

#[refine] Definition flat_copyable (M : Type) : @Copyable M M (flat_repr M) := {|
  DeepCopyInto := mret;
|}.
Proof. abstract (intros h m v l [-> ->]; by apply gives_ret). Defined.

(** [if in.F != nil { in, out := &in.F, &out.F; *out = new(T); ( *in).DeepCopyInto( *out) }]. *)
Definition copy_pointer `{Cell M} (into : M → mem M) (in_ : ptr M) : mem (ptr M) :=
  match addr in_ with
  | None => mret in_
  | Some a =>
      out ← new M;
      x ← load a;
      y ← into x;
      _ ← store out y;
      mret (Ptr (Some out))
  end.

(** [*out = make([]T, len( *in)); for i := range *in { ( *in)[i].DeepCopyInto(&( *out)[i]) }]. *)
Fixpoint copy_items `{Cell (list M)} (into : M → mem M) (out : loc) (i : nat) (xs : list M)
    : mem () :=
  match xs with
  | [] => mret tt
  | x :: xs =>
      y ← into x;
      ys ← load out;
      _ ← store out (<[i := y]> ys);
      copy_items into out (S i) xs
  end.
Definition copy_slice `{Cell M} `{Cell (list M)} (into : M → mem M) (in_ : slice M)
    : mem (slice M) :=
  match array in_ with
  | None => mret in_
  | Some a =>
      xs ← load a;
      out ← make (M := M) (length xs);
      _ ← copy_items into out 0 xs;
      mret (Slice (Some out))
  end.

Lemma load_inj `{Cell M} h a (m : M) : h !! a = Some (inj m) → load a h = Some (m, h).
Proof. intros Ha. unfold load. rewrite Ha. simpl. by rewrite prj_inj. Qed.

Lemma store_some `{Cell M} h a (m : M) :
  is_Some (h !! a) → store a m h = Some (tt, <[a := inj m]> h).
Proof. intros [c Hc]. unfold store. by rewrite Hc. Qed.

Lemma copies_pointer `{Cell M} `{Repr M V} (into : M → mem M) h p v l :
  (∀ h m v l, rep h m v l → gives h (into m) (λ h' m' l', rep h' m' v l')) →
  rep h p v l → gives h (copy_pointer into p) (λ h' p' l', rep h' p' v l').
Proof.
  intros Hinto Hr. destruct p as [[a|]], v as [v|]; simpl in Hr; try done.
  2: { subst l. apply gives_ret. done. }
  destruct Hr as (m & l0 & -> & Ha & Hm).
  set (out := fresh (dom h)). set (h0 := <[out := inj (zero : M)]> h).
  assert (h !! out = None) as Hout by (apply not_elem_of_dom, is_fresh).
  assert (h ⊆ h0) as Hh0 by (by apply insert_subseteq).
  destruct (Hinto h0 m v l0) as (y & h1 & l1 & Hy & [Hs Hn Hi Hd] & Hr1); [by eapply rep_mono|].
  assert (is_Some (h1 !! out)) as [c Hc].
  { exists (inj (zero : M)). eapply lookup_weaken; [|done]. apply lookup_insert_eq. }
  assert (out ∉ l1) as Hol. { intros Hin%Hn. unfold h0 in Hin. by rewrite lookup_insert_eq in Hin. }
  exists (Ptr (Some out)), (<[out := inj y]> h1), (out :: l1). split_and!.
  - unfold copy_pointer. simpl. rewrite (mem_bind_some _ _ h out h0) by done.
    rewrite (mem_bind_some _ _ h0 m h0) by (apply load_inj; by eapply lookup_weaken).
    rewrite (mem_bind_some _ _ h0 y h1) by done.
    by rewrite (mem_bind_some _ _ _ _ _ (store_some _ _ _ (ex_intro _ c Hc))).
  - split.
    + apply map_subseteq_spec. intros x cx Hx. rewrite lookup_insert_ne by congruence.
      eapply lookup_weaken; [|done]. by eapply lookup_weaken.
    + intros x [->|Hx]%elem_of_cons; [done|]. apply Hn in Hx. eapply lookup_weaken_None; done.
    + intros x [->|Hx]%elem_of_cons; [by rewrite lookup_insert_eq|].
      rewrite lookup_insert_ne by set_solver. by apply Hi.
    + constructor; done.
  - simpl. exists y, l1. split_and!; [done|by rewrite lookup_insert_eq|].
    eapply rep_frame; [done|]. intros x Hx. apply lookup_insert_ne. set_solver.
Qed.

(** A store that only [out] sees. *)
Lemma grows_store (h h' : heap) out c l :
  is_Some (h !! out) → grows h h' l → grows (delete out h) (delete out (<[out := c]> h')) l.
Proof.
  intros [c0 Ho] [Hs Hn Hi Hd]. rewrite delete_insert_eq.
  assert (out ∉ l) as Hol by (intros Hin%Hn; congruence).
  split; [by apply delete_mono| | |done]; intros x Hx; rewrite lookup_delete_ne by set_solver; auto.
Qed.

Lemma delete_sub (h h' : heap) out x c : delete out h ⊆ delete out h' → x ≠ out → h !! x = Some c → h' !! x = Some c.
Proof.
  intros Hs Hx Hc. rewrite <-(lookup_delete_ne h' out) by done.
  eapply lookup_weaken; [|exact Hs]. by rewrite lookup_delete_ne.
Qed.

Section items.
Context {M V : Type} `{Cell (list M)} `{Repr M V} (into : M → mem M).
Hypothesis Hinto : ∀ h m v l, rep h m v l → gives h (into m) (λ h' m' l', rep h' m' v l').

Lemma copies_items xs vs l h out i ys :
  reps h xs vs l → h !! out = Some (inj ys) → i + length xs = length ys → out ∉ l →
  ∃ h' l' xs', copy_items into out i xs h = Some (tt, h') ∧
    h' !! out = Some (inj (take i ys ++ xs')) ∧ reps h' xs' vs l' ∧
    grows (delete out h) (delete out h') l'.
Proof.
  intros Hr. revert h i ys Hr. revert vs l. induction xs as [|x xs IH]; intros vs l h i ys Hr Ho Hlen Hl.
  { inversion Hr; subst. exists h, [], []. simpl in Hlen. rewrite take_ge, app_nil_r by lia.
    split_and!; [done|done|constructor|apply grows_nil]. }
  inversion Hr as [|m v ms vs' l1 ls Hx Hxs]; subst.
  destruct (Hinto h x v l1 Hx) as (y & h1 & l1' & Hy & Hg & Hr1).
  assert (h1 !! out = Some (inj ys)) as Ho1 by (eapply lookup_weaken; [done|apply Hg]).
  set (h2 := <[out := inj (<[i := y]> ys)]> h1).
  assert (grows (delete out h) (delete out h2) l1') as Hg2 by (by apply grows_store).
  destruct (IH vs' ls h2 (S i) (<[i := y]> ys)) as (h' & l2' & xs' & Hc & Ho' & Hr' & Hg').
  - eapply reps_frame; [done|]. intros z Hz. destruct (reps_dom _ _ _ _ Hxs z Hz) as [c Hz'].
    rewrite Hz'. eapply delete_sub; [apply Hg2|set_solver|done].
  - apply lookup_insert_eq.
  - rewrite length_insert. simpl in Hlen. lia.
  - set_solver.
  - exists h', (l1' ++ l2'), (y :: xs'). split_and!.
    + simpl. rewrite (mem_bind_some _ _ _ _ _ Hy).
      rewrite (mem_bind_some _ _ h1 ys h1) by (by apply load_inj).
      by rewrite (mem_bind_some _ _ _ _ _ (store_some _ _ _ (ex_intro _ _ Ho1))).
    + rewrite Ho'. do 2 f_equal. simpl in Hlen.
      rewrite (take_S_r _ _ y) by (apply list_lookup_insert_eq; lia).
      rewrite take_insert_ge by lia. by rewrite <-app_assoc.
    + constructor; [|done]. eapply (rep_frame h1); [done|]. intros z Hz.
      destruct (rep_dom _ _ _ _ Hr1 z Hz) as [c Hz'].
      assert (z ≠ out) by (intros ->; pose proof (grows_new _ _ _ Hg _ Hz); congruence).
      rewrite Hz'. eapply delete_sub; [apply Hg'|done|]. unfold h2. by rewrite lookup_insert_ne.
    + by eapply grows_app.
Qed.

Lemma copies_slice `{Cell M} h s vs l :
  rep h s vs l → gives h (copy_slice into s) (λ h' s' l', rep h' s' vs l').
Proof.
  intros Hr. destruct s as [[a|]]; simpl in Hr; [|by destruct Hr as [-> ->]; apply gives_ret].
  destruct Hr as (ms & l0 & -> & Ha & Hms).
  set (out := fresh (dom h)). set (h0 := <[out := inj (replicate (length ms) zero)]> h).
  assert (h !! out = None) as Hout by (apply not_elem_of_dom, is_fresh).
  assert (h ⊆ h0) as Hh0 by (by apply insert_subseteq).
  destruct (copies_items ms vs l0 h0 out 0 (replicate (length ms) zero)) as
    (h' & l' & xs' & Hc & Ho' & Hr' & [Hs Hn Hi Hd]).
  - by eapply reps_mono.
  - apply lookup_insert_eq.
  - by rewrite length_replicate.
  - intros Hz%(reps_dom _ _ _ _ Hms). rewrite Hout in Hz. by destruct Hz.
  - unfold h0 in Hs, Hn. rewrite delete_insert_id in Hs, Hn by done.
    assert (out ∉ l') as Hol by (intros Hin%Hi; rewrite lookup_delete_eq in Hin; by destruct Hin).
    exists (Slice (Some out)), h', (out :: l'). split_and!.
    + unfold copy_slice. simpl.
      rewrite (mem_bind_some _ _ h ms h) by (by apply load_inj).
      rewrite (mem_bind_some _ _ h out h0) by done. by rewrite (mem_bind_some _ _ _ _ _ Hc).
    + split; [| | |by constructor].
      * etrans; [exact Hs|]. apply delete_subseteq.
      * intros z [->|Hz]%elem_of_cons; auto.
      * intros z [->|Hz]%elem_of_cons; [by eexists|].
        assert (out ≠ z) as Hne by congruence. apply Hi in Hz. by rewrite lookup_delete_ne in Hz.
    + simpl. exists xs', l'. split_and!; [done| |done]. exact Ho'.
Qed.
End items.

(** ** Independence *)

(** The copy that [f] makes stands for the same value, shares no location with the original,
    not even within itself, and neither sees what is done to the other. *)
Definition independent `{Cell M} `{Repr M V} (f : ptr M → mem (ptr M)) : Prop :=
  ∀ h (p : ptr M) (v : option V) l, rep h p v l →
    ∃ p' h' l', f p h = Some (p', h') ∧ h ⊆ h' ∧ rep h' p' v l' ∧
      NoDup l' ∧ (∀ x, x ∈ l' → h !! x = None) ∧
      (∀ h'', (∀ x, x ∉ l' → h'' !! x = h' !! x) → rep h'' p v l) ∧
      (∀ h'', (∀ x, x ∉ l → h'' !! x = h' !! x) → rep h'' p' v l').

Lemma copy_independent `{Cell M} `{Copyable M V} : independent (copy_pointer DeepCopyInto).
Proof.
  intros h p v l Hr.
  destruct (copies_pointer DeepCopyInto h p v l copies Hr) as (p' & h' & l' & Hf & [Hs Hn Hi Hd] & Hr').
  assert (∀ x, x ∈ l → x ∉ l') as Hdis.
  { intros x Hx Hx'%Hn. destruct (rep_dom _ _ _ _ Hr x Hx) as [c Hc]. congruence. }
  exists p', h', l'. split_and!; [done..| |].
  - intros h'' Hh. apply (rep_frame h'); [by eapply rep_mono|]. intros x Hx. by apply Hh, Hdis.
  - intros h'' Hh. apply (rep_frame h'); [done|]. intros x Hx. apply Hh. intros Hx'. by eapply Hdis.
Qed.
End memory.

(** The pointers to a type without pointers, where the code is [**out = **in]. *)
Abbreviation copy_flat_pointer := (copy_pointer mret).

(** Goals of the form [h ⊆ h'] along a run, and representations in a later heap. *)
Ltac solve_grows :=
  lazymatch goal with
  | |- ?h ⊆ ?h => reflexivity
  | G : grows ?h ?h1 _ |- ?h ⊆ _ => etrans; [exact (grows_sub _ _ _ G)|solve_grows]
  end.
Ltac later_rep := eapply rep_mono; [eassumption|solve_grows].

(** One field of a struct, and all of them. *)
Ltac copy_other := fail.
Ltac copy_field :=
  eapply gives_bind;
  [first [copy_other
         |eapply copies_pointer;
          [first [exact copies|intros ? ? ? ? [-> ->]; by apply gives_ret]|]
         |eapply copies_slice; [exact copies|]
         |eapply copies]; later_rep
  |cbv beta; intros ? ? ? ? ?].
Ltac rep_fields :=
  lazymatch goal with
  | |- rep _ (_, _) (_, _) _ =>
      apply rep_pair; eexists _, _; split; [reflexivity|split; [later_rep|rep_fields]]
  | |- _ => reflexivity
  end.
Ltac copy_struct :=
  let Hf := fresh "Hflat" in
  let Hr := fresh "Hr" in
  intros h m v l [Hf Hr]; cbv beta in Hr;
  repeat (let Hx := fresh "Hx" in apply rep_pair in Hr as (? & ? & ? & Hx & Hr));
  repeat copy_field;
  apply gives_ret; split; [first [exact Hf|done]|cbv beta; rep_fields].
