(* ===== verification/DeepCopy.v ===== *)
(** [api/v1beta1/zz_generated.deepcopy.go]: the copies of the types of the API, and [copyInto] of
    [pkg/resourcecachingclient], which copies without them.

    [PrefetchSecretsData] fills in copies made by these functions; here they are what lets the
    rest of the development take structs for values.  The structs are as Go lays them out, with
    pointers and slices into the heap of [Memory]; [rep] says which value of [Api] or [Secrets]
    one stands for.  Types of Kubernetes are parameters ([Library]) that keep the contract of
    [DeepCopyInto] ([LibraryCopies]). *)
From Stdlib Require Import ZArith.
From stdpp Require Import base list gmap option strings.
From S2P Require Import Prelude GoTime Api Secrets Memory.
Local Open Scope string_scope.
Local Open Scope list_scope.

(** ** Types of Kubernetes *)

(** As structs in memory, with their zero values; [ListMetaValue] is what a [ListMeta] stands
    for, and [Shared] what their own maps, slices and pointers lead to. *)
Class Library := {
  ObjectMeta_t : Type; ObjectMeta_zero : ObjectMeta_t;
  ListMeta_t : Type; ListMeta_zero : ListMeta_t; ListMetaValue : Type;
  SecretKeySelector_t : Type; SecretKeySelector_zero : SecretKeySelector_t;
  ConfigMapKeySelector_t : Type; ConfigMapKeySelector_zero : ConfigMapKeySelector_t;
  Time_t : Type; Time_zero : Time_t;
  Condition_t : Type; Condition_zero : Condition_t;
  ResourceRequirements_t : Type; ResourceRequirements_zero : ResourceRequirements_t;
  Shared : Type;
}.

(** ** The structs *)

Module Mem.
Section structs.
Context `{Library}.

Record TypeMeta := mkTypeMeta { Kind : string; APIVersion : string }.

Record ValueFromSource := mkValueFrom {
  SecretKeyRef : ptr SecretKeySelector_t;
  ConfigMapKeyRef : ptr ConfigMapKeySelector_t;
}.

Record S3StorageConfig := mkS3 {
  s3_Prefix : string;
  s3_PrefixFrom : ptr ValueFromSource;
  s3_Region : string;
  s3_RegionFrom : ptr ValueFromSource;
  s3_EndpointURL : string;
  s3_EndpointURLFrom : ptr ValueFromSource;
  s3_ForcePathStyle : bool;
  s3_StorageClass : string;
  s3_CustomCA : ptr CustomCAReference;
  s3_AccessKeyIDRef : ptr SecretKeySelector_t;
  s3_AccessKeySecretRef : ptr SecretKeySelector_t;
}.

Record GCSStorageConfig := mkGCS {
  gcs_Prefix : string;
  gcs_PrefixFrom : ptr ValueFromSource;
  gcs_CredentialsSecretRef : ptr SecretKeySelector_t;
}.

Record StorageConfig := mkStorage {
  st_StorageType : string;
  st_S3 : ptr S3StorageConfig;
  st_GCS : ptr GCSStorageConfig;
}.

Record BackupConfigSpec := mkSpec {
  DownloadConcurrency : ptr Z;
  UploadDiskRateLimit : ptr Z;
  UploadNetworkRateLimit : ptr Z;
  UploadConcurrency : ptr Z;
  UploadDiskConcurrency : ptr Z;
  DownloadFileRetries : Z;
  DeltaMaxSteps : Z;
  TarDisableFsync : bool;
  TarSizeThreshold : ptr Z;
  Retention : BackupRetentionConfig;
  Storage : StorageConfig;
  Resources : ResourceRequirements_t;
  Encryption : BackupEncryptionConfig;
}.

Record ConsumedStorageInfo := mkConsumed {
  TotalBytes : ptr Z;
  Total : string;
  BackupsBytes : ptr Z;
  Backups : string;
  WALBytes : ptr Z;
  WAL : string;
}.

Record BackupConfigStatus := mkStatus {
  Phase : BackupConfigPhase;
  FirstRecoverabilityPoint : ptr Time_t;
  LastSuccessfulBackup : ptr Time_t;
  LastFailedBackup : ptr Time_t;
  ConsumedStorage : ptr ConsumedStorageInfo;
  Conditions : slice Condition_t;
}.

Record BackupConfig := mkBackupConfig {
  bc_TypeMeta : TypeMeta;
  bc_ObjectMeta : ObjectMeta_t;
  bc_Spec : BackupConfigSpec;
  bc_Status : BackupConfigStatus;
}.

Record BackupConfigList := mkList {
  bl_TypeMeta : TypeMeta;
  bl_ListMeta : ListMeta_t;
  Items : slice BackupConfig;
}.

(** With the data of secrets; embedded structs are the first field. *)
Record S3StorageConfigWithSecrets := mkS3WithSecrets {
  s3s_S3StorageConfig : S3StorageConfig;
  s3s_AccessKeyID : string;
  s3s_AccessKeySecret : string;
  s3s_CACertData : string;
  s3s_ResolvedPrefix : string;
  s3s_ResolvedRegion : string;
  s3s_ResolvedEndpointURL : string;
}.

Record GCSStorageConfigWithSecrets := mkGCSWithSecrets {
  gcss_GCSStorageConfig : GCSStorageConfig;
  gcss_CredentialsData : string;
  gcss_ResolvedPrefix : string;
}.

Record StorageConfigWithSecrets := mkStorageWithSecrets {
  sts_StorageConfig : StorageConfig;
  sts_S3 : ptr S3StorageConfigWithSecrets;
  sts_GCS : ptr GCSStorageConfigWithSecrets;
}.

Record BackupConfigSpecWithSecrets := mkSpecWithSecrets {
  sps_BackupConfigSpec : BackupConfigSpec;
  sps_Storage : StorageConfigWithSecrets;
  sps_Encryption : ptr BackupEncryptionConfigWithSecrets;
}.

Record BackupConfigWithSecrets := mkWithSecrets {
  bcs_BackupConfig : BackupConfig;
  bcs_Spec : BackupConfigSpecWithSecrets;
}.

(** What a location can hold. *)
Inductive cell :=
| CInt (z : Z)
| CSecretKeySelector (x : SecretKeySelector_t)
| CConfigMapKeySelector (x : ConfigMapKeySelector_t)
| CTime (x : Time_t)
| CCustomCAReference (x : CustomCAReference)
| CValueFromSource (x : ValueFromSource)
| CS3 (x : S3StorageConfig)
| CGCS (x : GCSStorageConfig)
| CStorage (x : StorageConfig)
| CRetention (x : BackupRetentionConfig)
| CEncryption (x : BackupEncryptionConfig)
| CSpec (x : BackupConfigSpec)
| CConsumed (x : ConsumedStorageInfo)
| CConditions (x : list Condition_t)
| CStatus (x : BackupConfigStatus)
| CBackupConfig (x : BackupConfig)
| CBackupConfigs (x : list BackupConfig)
| CBackupConfigList (x : BackupConfigList)
| CS3WithSecrets (x : S3StorageConfigWithSecrets)
| CGCSWithSecrets (x : GCSStorageConfigWithSecrets)
| CStorageWithSecrets (x : StorageConfigWithSecrets)
| CEncryptionWithSecrets (x : BackupEncryptionConfigWithSecrets)
| CSpecWithSecrets (x : BackupConfigSpecWithSecrets)
| CWithSecrets (x : BackupConfigWithSecrets)
| CShared (x : Shared).
End structs.
End Mem.
Import Mem.

Section copies.
Context `{Library}.

(** ** Zero values and cells *)

Abbreviation nil := (Ptr None) (only parsing).
Definition zero_ValueFromSource : ValueFromSource := mkValueFrom nil nil.
Definition zero_CustomCAReference : CustomCAReference := mkCustomCA "" "" "".
Definition zero_S3StorageConfig : S3StorageConfig :=
  mkS3 "" nil "" nil "" nil false "" nil nil nil.
Definition zero_GCSStorageConfig : GCSStorageConfig := mkGCS "" nil nil.
Definition zero_StorageConfig : StorageConfig := mkStorage "" nil nil.
Definition zero_Retention : BackupRetentionConfig := mkRetention false false false 0 "".
Definition zero_Encryption : BackupEncryptionConfig := mkEncryption "" "".
Definition zero_Spec : BackupConfigSpec :=
  mkSpec nil nil nil nil nil 0 0 false nil zero_Retention zero_StorageConfig
    ResourceRequirements_zero zero_Encryption.
Definition zero_Consumed : ConsumedStorageInfo := mkConsumed nil "" nil "" nil "".
Definition zero_Status : BackupConfigStatus :=
  mkStatus BackupConfigPhaseNone nil nil nil nil (Slice None).
Definition zero_BackupConfig : BackupConfig :=
  mkBackupConfig (mkTypeMeta "" "") ObjectMeta_zero zero_Spec zero_Status.
Definition zero_BackupConfigList : BackupConfigList :=
  mkList (mkTypeMeta "" "") ListMeta_zero (Slice None).
Definition zero_S3WithSecrets : S3StorageConfigWithSecrets :=
  mkS3WithSecrets zero_S3StorageConfig "" "" "" "" "" "".
Definition zero_GCSWithSecrets : GCSStorageConfigWithSecrets :=
  mkGCSWithSecrets zero_GCSStorageConfig "" "".
Definition zero_StorageWithSecrets : StorageConfigWithSecrets :=
  mkStorageWithSecrets zero_StorageConfig nil nil.
Definition zero_EncryptionWithSecrets : BackupEncryptionConfigWithSecrets :=
  mkEncryptionWithSecrets "" "" "".
Definition zero_SpecWithSecrets : BackupConfigSpecWithSecrets :=
  mkSpecWithSecrets zero_Spec zero_StorageWithSecrets nil.
Definition zero_WithSecrets : BackupConfigWithSecrets :=
  mkWithSecrets zero_BackupConfig zero_SpecWithSecrets.

#[export] Instance int_cell : Cell (C := cell) Z := {|
  inj := CInt; prj c := match c with CInt x => Some x | _ => None end; zero := 0%Z;
  prj_inj _ := eq_refl;
|}.
#[export] Instance secret_key_selector_cell : Cell (C := cell) SecretKeySelector_t := {|
  inj := CSecretKeySelector; prj c := match c with CSecretKeySelector x => Some x | _ => None end; zero := SecretKeySelector_zero;
  prj_inj _ := eq_refl;
|}.
#[export] Instance config_map_key_selector_cell : Cell (C := cell) ConfigMapKeySelector_t := {|
  inj := CConfigMapKeySelector; prj c := match c with CConfigMapKeySelector x => Some x | _ => None end; zero := ConfigMapKeySelector_zero;
  prj_inj _ := eq_refl;
|}.
#[export] Instance time_cell : Cell (C := cell) Time_t := {|
  inj := CTime; prj c := match c with CTime x => Some x | _ => None end; zero := Time_zero;
  prj_inj _ := eq_refl;
|}.
#[export] Instance custom_ca_cell : Cell (C := cell) CustomCAReference := {|
  inj := CCustomCAReference; prj c := match c with CCustomCAReference x => Some x | _ => None end; zero := zero_CustomCAReference;
  prj_inj _ := eq_refl;
|}.
#[export] Instance value_from_cell : Cell (C := cell) ValueFromSource := {|
  inj := CValueFromSource; prj c := match c with CValueFromSource x => Some x | _ => None end; zero := zero_ValueFromSource;
  prj_inj _ := eq_refl;
|}.
#[export] Instance s3_cell : Cell (C := cell) S3StorageConfig := {|
  inj := CS3; prj c := match c with CS3 x => Some x | _ => None end; zero := zero_S3StorageConfig;
  prj_inj _ := eq_refl;
|}.
#[export] Instance gcs_cell : Cell (C := cell) GCSStorageConfig := {|
  inj := CGCS; prj c := match c with CGCS x => Some x | _ => None end; zero := zero_GCSStorageConfig;
  prj_inj _ := eq_refl;
|}.
#[export] Instance storage_cell : Cell (C := cell) StorageConfig := {|
  inj := CStorage; prj c := match c with CStorage x => Some x | _ => None end; zero := zero_StorageConfig;
  prj_inj _ := eq_refl;
|}.
#[export] Instance retention_cell : Cell (C := cell) BackupRetentionConfig := {|
  inj := CRetention; prj c := match c with CRetention x => Some x | _ => None end; zero := zero_Retention;
  prj_inj _ := eq_refl;
|}.
#[export] Instance encryption_cell : Cell (C := cell) BackupEncryptionConfig := {|
  inj := CEncryption; prj c := match c with CEncryption x => Some x | _ => None end; zero := zero_Encryption;
  prj_inj _ := eq_refl;
|}.
#[export] Instance spec_cell : Cell (C := cell) BackupConfigSpec := {|
  inj := CSpec; prj c := match c with CSpec x => Some x | _ => None end; zero := zero_Spec;
  prj_inj _ := eq_refl;
|}.
#[export] Instance consumed_cell : Cell (C := cell) ConsumedStorageInfo := {|
  inj := CConsumed; prj c := match c with CConsumed x => Some x | _ => None end; zero := zero_Consumed;
  prj_inj _ := eq_refl;
|}.
#[export] Instance conditions_cell : Cell (C := cell) (list Condition_t) := {|
  inj := CConditions; prj c := match c with CConditions x => Some x | _ => None end; zero := [];
  prj_inj _ := eq_refl;
|}.
#[export] Instance status_cell : Cell (C := cell) BackupConfigStatus := {|
  inj := CStatus; prj c := match c with CStatus x => Some x | _ => None end; zero := zero_Status;
  prj_inj _ := eq_refl;
|}.
#[export] Instance backup_config_cell : Cell (C := cell) BackupConfig := {|
  inj := CBackupConfig; prj c := match c with CBackupConfig x => Some x | _ => None end; zero := zero_BackupConfig;
  prj_inj _ := eq_refl;
|}.
#[export] Instance backup_configs_cell : Cell (C := cell) (list BackupConfig) := {|
  inj := CBackupConfigs; prj c := match c with CBackupConfigs x => Some x | _ => None end; zero := [];
  prj_inj _ := eq_refl;
|}.
#[export] Instance backup_config_list_cell : Cell (C := cell) BackupConfigList := {|
  inj := CBackupConfigList; prj c := match c with CBackupConfigList x => Some x | _ => None end; zero := zero_BackupConfigList;
  prj_inj _ := eq_refl;
|}.
#[export] Instance s3s_cell : Cell (C := cell) S3StorageConfigWithSecrets := {|
  inj := CS3WithSecrets; prj c := match c with CS3WithSecrets x => Some x | _ => None end; zero := zero_S3WithSecrets;
  prj_inj _ := eq_refl;
|}.
#[export] Instance gcss_cell : Cell (C := cell) GCSStorageConfigWithSecrets := {|
  inj := CGCSWithSecrets; prj c := match c with CGCSWithSecrets x => Some x | _ => None end; zero := zero_GCSWithSecrets;
  prj_inj _ := eq_refl;
|}.
#[export] Instance storages_cell : Cell (C := cell) StorageConfigWithSecrets := {|
  inj := CStorageWithSecrets; prj c := match c with CStorageWithSecrets x => Some x | _ => None end; zero := zero_StorageWithSecrets;
  prj_inj _ := eq_refl;
|}.
#[export] Instance encryptions_cell : Cell (C := cell) BackupEncryptionConfigWithSecrets := {|
  inj := CEncryptionWithSecrets; prj c := match c with CEncryptionWithSecrets x => Some x | _ => None end; zero := zero_EncryptionWithSecrets;
  prj_inj _ := eq_refl;
|}.
#[export] Instance specs_cell : Cell (C := cell) BackupConfigSpecWithSecrets := {|
  inj := CSpecWithSecrets; prj c := match c with CSpecWithSecrets x => Some x | _ => None end; zero := zero_SpecWithSecrets;
  prj_inj _ := eq_refl;
|}.
#[export] Instance with_secrets_cell : Cell (C := cell) BackupConfigWithSecrets := {|
  inj := CWithSecrets; prj c := match c with CWithSecrets x => Some x | _ => None end; zero := zero_WithSecrets;
  prj_inj _ := eq_refl;
|}.

(** A condition is only ever an element of a slice. *)
#[export] Instance condition_cell : Cell (C := cell) Condition_t := {|
  inj x := CConditions [x]; prj c := match c with CConditions [x] => Some x | _ => None end;
  zero := Condition_zero; prj_inj _ := eq_refl;
|}.

(** ** What the structs stand for *)

#[export] Instance Z_repr : Repr (C := cell) Z Z := flat_repr Z.
#[export] Instance custom_ca_repr : Repr (C := cell) CustomCAReference CustomCAReference :=
  flat_repr _.
#[export] Instance retention_repr : Repr (C := cell) BackupRetentionConfig BackupRetentionConfig :=
  flat_repr _.
#[export] Instance encryption_repr
    : Repr (C := cell) BackupEncryptionConfig BackupEncryptionConfig := flat_repr _.
#[export] Instance encryptions_repr
    : Repr (C := cell) BackupEncryptionConfigWithSecrets BackupEncryptionConfigWithSecrets :=
  flat_repr _.

(** The types of Kubernetes: what they stand for, and that their copies keep the contract. *)
Class LibraryCopies := {
  meta_repr :: Repr (C := cell) ObjectMeta_t ObjectMeta;
  list_meta_repr :: Repr (C := cell) ListMeta_t ListMetaValue;
  secret_selector_repr :: Repr (C := cell) SecretKeySelector_t SecretKeySelector;
  config_map_selector_repr :: Repr (C := cell) ConfigMapKeySelector_t SecretKeySelector;
  time_repr :: Repr (C := cell) Time_t time;
  condition_repr :: Repr (C := cell) Condition_t Condition;
  resources_repr :: Repr (C := cell) ResourceRequirements_t string;
  meta_copies :: Copyable ObjectMeta_t ObjectMeta;
  list_meta_copies :: Copyable ListMeta_t ListMetaValue;
  secret_selector_copies :: Copyable SecretKeySelector_t SecretKeySelector;
  config_map_selector_copies :: Copyable ConfigMapKeySelector_t SecretKeySelector;
  condition_copies :: Copyable Condition_t Condition;
  resources_copies :: Copyable ResourceRequirements_t string;
  Time_DeepCopy : ptr Time_t → mem (C := cell) (ptr Time_t);
  time_copies h p v l : rep h p v l → gives h (Time_DeepCopy p) (λ h' p' l', rep h' p' v l');
}.
Context `{!LibraryCopies}.

(** [if in.F != nil { *out = ( *in).DeepCopy() }]. *)
Definition copy_time (in_ : ptr Time_t) : mem (C := cell) (ptr Time_t) :=
  match addr in_ with None => mret in_ | Some _ => Time_DeepCopy in_ end.

Lemma copies_time h p v l : rep h p v l → gives h (copy_time p) (λ h' p' l', rep h' p' v l').
Proof.
  intros Hr. destruct p as [[a|]]; [by eapply time_copies|].
  destruct v; simpl in Hr; [done|subst]. by apply gives_ret.
Qed.
Ltac copy_other ::= eapply copies_time.

(** ** The copies

    Each function starts with [*out = *in], so the fields it does not name are those of [in]. *)

Definition CustomCAReference_DeepCopyInto (in_ : CustomCAReference) : mem (C := cell) CustomCAReference := mret in_.
#[export, refine] Instance custom_ca_copies : Copyable CustomCAReference CustomCAReference := {|
  DeepCopyInto := CustomCAReference_DeepCopyInto;
|}.
Proof. abstract (intros h m v l [-> ->]; by apply gives_ret). Defined.

Definition BackupRetentionConfig_DeepCopyInto (in_ : BackupRetentionConfig) : mem (C := cell) BackupRetentionConfig := mret in_.
#[export, refine] Instance retention_copies : Copyable BackupRetentionConfig BackupRetentionConfig := {|
  DeepCopyInto := BackupRetentionConfig_DeepCopyInto;
|}.
Proof. abstract (intros h m v l [-> ->]; by apply gives_ret). Defined.

Definition BackupEncryptionConfig_DeepCopyInto (in_ : BackupEncryptionConfig) : mem (C := cell) BackupEncryptionConfig := mret in_.
#[export, refine] Instance encryption_copies : Copyable BackupEncryptionConfig BackupEncryptionConfig := {|
  DeepCopyInto := BackupEncryptionConfig_DeepCopyInto;
|}.
Proof. abstract (intros h m v l [-> ->]; by apply gives_ret). Defined.

Definition BackupEncryptionConfigWithSecrets_DeepCopyInto (in_ : BackupEncryptionConfigWithSecrets) : mem (C := cell) BackupEncryptionConfigWithSecrets := mret in_.
#[export, refine] Instance encryptions_copies : Copyable BackupEncryptionConfigWithSecrets BackupEncryptionConfigWithSecrets := {|
  DeepCopyInto := BackupEncryptionConfigWithSecrets_DeepCopyInto;
|}.
Proof. abstract (intros h m v l [-> ->]; by apply gives_ret). Defined.

#[export] Instance value_from_repr : Repr (C := cell) ValueFromSource Api.ValueFromSource :=
  struct_repr
    (λ _ _, True)
    (λ m, (SecretKeyRef m, (ConfigMapKeyRef m, tt)))
    (λ v, (Api.SecretKeyRef v, (Api.ConfigMapKeyRef v, tt))).

Definition ValueFromSource_DeepCopyInto (in_ : ValueFromSource) : mem (C := cell) ValueFromSource :=
  secretKeyRef ← copy_pointer DeepCopyInto (SecretKeyRef in_);
  configMapKeyRef ← copy_pointer DeepCopyInto (ConfigMapKeyRef in_);
  mret (mkValueFrom secretKeyRef configMapKeyRef).

#[export, refine] Instance value_from_copies : Copyable ValueFromSource Api.ValueFromSource := {|
  DeepCopyInto := ValueFromSource_DeepCopyInto;
|}.
Proof. abstract copy_struct. Defined.

#[export] Instance s3_repr : Repr (C := cell) S3StorageConfig Api.S3StorageConfig :=
  struct_repr
    (λ m v, Api.s3_Prefix v = s3_Prefix m ∧
       Api.s3_Region v = s3_Region m ∧
       Api.s3_EndpointURL v = s3_EndpointURL m ∧
       Api.s3_ForcePathStyle v = s3_ForcePathStyle m ∧
       Api.s3_StorageClass v = s3_StorageClass m)
    (λ m, (s3_PrefixFrom m, (s3_RegionFrom m, (s3_EndpointURLFrom m,
          (s3_CustomCA m, (s3_AccessKeyIDRef m, (s3_AccessKeySecretRef m, tt)))))))
    (λ v, (Api.s3_PrefixFrom v, (Api.s3_RegionFrom v,
          (Api.s3_EndpointURLFrom v, (Api.s3_CustomCA v,
          (Api.s3_AccessKeyIDRef v, (Api.s3_AccessKeySecretRef v, tt))))))).

Definition S3StorageConfig_DeepCopyInto (in_ : S3StorageConfig) : mem (C := cell) S3StorageConfig :=
  prefixFrom ← copy_pointer DeepCopyInto (s3_PrefixFrom in_);
  regionFrom ← copy_pointer DeepCopyInto (s3_RegionFrom in_);
  endpointURLFrom ← copy_pointer DeepCopyInto (s3_EndpointURLFrom in_);
  customCA ← copy_flat_pointer (s3_CustomCA in_);
  accessKeyIDRef ← copy_pointer DeepCopyInto (s3_AccessKeyIDRef in_);
  accessKeySecretRef ← copy_pointer DeepCopyInto (s3_AccessKeySecretRef in_);
  mret (mkS3 (s3_Prefix in_) prefixFrom (s3_Region in_) regionFrom (s3_EndpointURL in_)
          endpointURLFrom (s3_ForcePathStyle in_) (s3_StorageClass in_) customCA accessKeyIDRef
          accessKeySecretRef).

#[export, refine] Instance s3_copies : Copyable S3StorageConfig Api.S3StorageConfig := {|
  DeepCopyInto := S3StorageConfig_DeepCopyInto;
|}.
Proof. abstract copy_struct. Defined.

#[export] Instance gcs_repr : Repr (C := cell) GCSStorageConfig Api.GCSStorageConfig :=
  struct_repr
    (λ m v, Api.gcs_Prefix v = gcs_Prefix m)
    (λ m, (gcs_PrefixFrom m, (gcs_CredentialsSecretRef m, tt)))
    (λ v, (Api.gcs_PrefixFrom v, (Api.gcs_CredentialsSecretRef v, tt))).

Definition GCSStorageConfig_DeepCopyInto (in_ : GCSStorageConfig) : mem (C := cell) GCSStorageConfig :=
  prefixFrom ← copy_pointer DeepCopyInto (gcs_PrefixFrom in_);
  credentialsSecretRef ← copy_pointer DeepCopyInto (gcs_CredentialsSecretRef in_);
  mret (mkGCS (gcs_Prefix in_) prefixFrom credentialsSecretRef).

#[export, refine] Instance gcs_copies : Copyable GCSStorageConfig Api.GCSStorageConfig := {|
  DeepCopyInto := GCSStorageConfig_DeepCopyInto;
|}.
Proof. abstract copy_struct. Defined.

#[export] Instance storage_repr : Repr (C := cell) StorageConfig Api.StorageConfig :=
  struct_repr
    (λ m v, Api.st_StorageType v = st_StorageType m)
    (λ m, (st_S3 m, (st_GCS m, tt)))
    (λ v, (Api.st_S3 v, (Api.st_GCS v, tt))).

Definition StorageConfig_DeepCopyInto (in_ : StorageConfig) : mem (C := cell) StorageConfig :=
  s3 ← copy_pointer DeepCopyInto (st_S3 in_);
  gcs ← copy_pointer DeepCopyInto (st_GCS in_);
  mret (mkStorage (st_StorageType in_) s3 gcs).

#[export, refine] Instance storage_copies : Copyable StorageConfig Api.StorageConfig := {|
  DeepCopyInto := StorageConfig_DeepCopyInto;
|}.
Proof. abstract copy_struct. Defined.

#[export] Instance spec_repr : Repr (C := cell) BackupConfigSpec Api.BackupConfigSpec :=
  struct_repr
    (λ m v, Api.DownloadFileRetries v = DownloadFileRetries m ∧
       Api.DeltaMaxSteps v = DeltaMaxSteps m ∧
       Api.TarDisableFsync v = TarDisableFsync m ∧
       Api.Retention v = Retention m ∧
       Api.Encryption v = Encryption m)
    (λ m, (DownloadConcurrency m, (UploadDiskRateLimit m, (UploadNetworkRateLimit m,
          (UploadConcurrency m, (UploadDiskConcurrency m, (TarSizeThreshold m,
          (Storage m, (Resources m, tt)))))))))
    (λ v, (Api.DownloadConcurrency v, (Api.UploadDiskRateLimit v,
          (Api.UploadNetworkRateLimit v, (Api.UploadConcurrency v,
          (Api.UploadDiskConcurrency v, (Api.TarSizeThreshold v,
          (Api.Storage v, (Api.Resources v, tt))))))))).

Definition BackupConfigSpec_DeepCopyInto (in_ : BackupConfigSpec) : mem (C := cell) BackupConfigSpec :=
  downloadConcurrency ← copy_flat_pointer (DownloadConcurrency in_);
  uploadDiskRateLimit ← copy_flat_pointer (UploadDiskRateLimit in_);
  uploadNetworkRateLimit ← copy_flat_pointer (UploadNetworkRateLimit in_);
  uploadConcurrency ← copy_flat_pointer (UploadConcurrency in_);
  uploadDiskConcurrency ← copy_flat_pointer (UploadDiskConcurrency in_);
  tarSizeThreshold ← copy_flat_pointer (TarSizeThreshold in_);
  storage ← DeepCopyInto (Storage in_);
  resources ← DeepCopyInto (Resources in_);
  mret (mkSpec downloadConcurrency uploadDiskRateLimit uploadNetworkRateLimit uploadConcurrency
          uploadDiskConcurrency (DownloadFileRetries in_) (DeltaMaxSteps in_)
          (TarDisableFsync in_) tarSizeThreshold (Retention in_) storage resources
          (Encryption in_)).

#[export, refine] Instance spec_copies : Copyable BackupConfigSpec Api.BackupConfigSpec := {|
  DeepCopyInto := BackupConfigSpec_DeepCopyInto;
|}.
Proof. abstract copy_struct. Defined.

#[export] Instance consumed_repr : Repr (C := cell) ConsumedStorageInfo Api.ConsumedStorageInfo :=
  struct_repr
    (λ m v, Api.Total v = Total m ∧
       Api.Backups v = Backups m ∧
       Api.WAL v = WAL m)
    (λ m, (TotalBytes m, (BackupsBytes m, (WALBytes m, tt))))
    (λ v, (Api.TotalBytes v, (Api.BackupsBytes v, (Api.WALBytes v, tt)))).

Definition ConsumedStorageInfo_DeepCopyInto (in_ : ConsumedStorageInfo) : mem (C := cell) ConsumedStorageInfo :=
  totalBytes ← copy_flat_pointer (TotalBytes in_);
  backupsBytes ← copy_flat_pointer (BackupsBytes in_);
  walBytes ← copy_flat_pointer (WALBytes in_);
  mret (mkConsumed totalBytes (Total in_) backupsBytes (Backups in_) walBytes (WAL in_)).

#[export, refine] Instance consumed_copies : Copyable ConsumedStorageInfo Api.ConsumedStorageInfo := {|
  DeepCopyInto := ConsumedStorageInfo_DeepCopyInto;
|}.
Proof. abstract copy_struct. Defined.

#[export] Instance status_repr : Repr (C := cell) BackupConfigStatus Api.BackupConfigStatus :=
  struct_repr
    (λ m v, Api.Phase v = Phase m)
    (λ m, (FirstRecoverabilityPoint m, (LastSuccessfulBackup m, (LastFailedBackup m,
          (ConsumedStorage m, (Conditions m, tt))))))
    (λ v, (Api.FirstRecoverabilityPoint v, (Api.LastSuccessfulBackup v,
          (Api.LastFailedBackup v, (Api.ConsumedStorage v, (Api.Conditions v, tt)))))).

Definition BackupConfigStatus_DeepCopyInto (in_ : BackupConfigStatus) : mem (C := cell) BackupConfigStatus :=
  firstRecoverabilityPoint ← copy_time (FirstRecoverabilityPoint in_);
  lastSuccessfulBackup ← copy_time (LastSuccessfulBackup in_);
  lastFailedBackup ← copy_time (LastFailedBackup in_);
  consumedStorage ← copy_pointer DeepCopyInto (ConsumedStorage in_);
  conditions ← copy_slice DeepCopyInto (Conditions in_);
  mret (mkStatus (Phase in_) firstRecoverabilityPoint lastSuccessfulBackup lastFailedBackup
          consumedStorage conditions).

#[export, refine] Instance status_copies : Copyable BackupConfigStatus Api.BackupConfigStatus := {|
  DeepCopyInto := BackupConfigStatus_DeepCopyInto;
|}.
Proof. abstract copy_struct. Defined.

(** The value of an object is its type and what [Api] has of it. *)
#[export] Instance backup_config_repr : Repr (C := cell) BackupConfig (TypeMeta * Api.BackupConfig) :=
  struct_repr
    (λ m v, v.1 = bc_TypeMeta m)
    (λ m, (bc_ObjectMeta m, (bc_Spec m, (bc_Status m, tt))))
    (λ v, (bc_meta v.2, (Api.bc_Spec v.2, (Api.bc_Status v.2, tt)))).

Definition BackupConfig_DeepCopyInto (in_ : BackupConfig) : mem (C := cell) BackupConfig :=
  objectMeta ← DeepCopyInto (bc_ObjectMeta in_);
  spec ← DeepCopyInto (bc_Spec in_);
  status ← DeepCopyInto (bc_Status in_);
  mret (mkBackupConfig (bc_TypeMeta in_) objectMeta spec status).

#[export, refine] Instance backup_config_copies : Copyable BackupConfig (TypeMeta * Api.BackupConfig) := {|
  DeepCopyInto := BackupConfig_DeepCopyInto;
|}.
Proof. abstract copy_struct. Defined.

#[export] Instance backup_config_list_repr : Repr (C := cell) BackupConfigList (TypeMeta * (ListMetaValue * list (TypeMeta * Api.BackupConfig))) :=
  struct_repr
    (λ m v, v.1 = bl_TypeMeta m)
    (λ m, (bl_ListMeta m, (Items m, tt)))
    (λ v, (v.2.1, (v.2.2, tt))).

Definition BackupConfigList_DeepCopyInto (in_ : BackupConfigList) : mem (C := cell) BackupConfigList :=
  listMeta ← DeepCopyInto (bl_ListMeta in_);
  items ← copy_slice DeepCopyInto (Items in_);
  mret (mkList (bl_TypeMeta in_) listMeta items).

#[export, refine] Instance backup_config_list_copies : Copyable BackupConfigList (TypeMeta * (ListMetaValue * list (TypeMeta * Api.BackupConfig))) := {|
  DeepCopyInto := BackupConfigList_DeepCopyInto;
|}.
Proof. abstract copy_struct. Defined.

(** The types with secrets. *)
#[export] Instance s3s_repr : Repr (C := cell) S3StorageConfigWithSecrets Secrets.S3StorageConfigWithSecrets :=
  struct_repr
    (λ m v, AccessKeyID v = s3s_AccessKeyID m ∧ AccessKeySecret v = s3s_AccessKeySecret m ∧
       CACertData v = s3s_CACertData m ∧ Secrets.s3s_ResolvedPrefix v = s3s_ResolvedPrefix m ∧
       ResolvedRegion v = s3s_ResolvedRegion m ∧ ResolvedEndpointURL v = s3s_ResolvedEndpointURL m)
    (λ m, (s3s_S3StorageConfig m, tt))
    (λ v, (s3s_config v, tt)).

Definition S3StorageConfigWithSecrets_DeepCopyInto (in_ : S3StorageConfigWithSecrets) : mem (C := cell) S3StorageConfigWithSecrets :=
  s3StorageConfig ← DeepCopyInto (s3s_S3StorageConfig in_);
  mret (mkS3WithSecrets s3StorageConfig (s3s_AccessKeyID in_) (s3s_AccessKeySecret in_)
          (s3s_CACertData in_) (s3s_ResolvedPrefix in_) (s3s_ResolvedRegion in_)
          (s3s_ResolvedEndpointURL in_)).

#[export, refine] Instance s3s_copies : Copyable S3StorageConfigWithSecrets Secrets.S3StorageConfigWithSecrets := {|
  DeepCopyInto := S3StorageConfigWithSecrets_DeepCopyInto;
|}.
Proof. abstract copy_struct. Defined.

#[export] Instance gcss_repr : Repr (C := cell) GCSStorageConfigWithSecrets Secrets.GCSStorageConfigWithSecrets :=
  struct_repr
    (λ m v, CredentialsData v = gcss_CredentialsData m ∧
       Secrets.gcss_ResolvedPrefix v = gcss_ResolvedPrefix m)
    (λ m, (gcss_GCSStorageConfig m, tt))
    (λ v, (gcss_config v, tt)).

Definition GCSStorageConfigWithSecrets_DeepCopyInto (in_ : GCSStorageConfigWithSecrets) : mem (C := cell) GCSStorageConfigWithSecrets :=
  gcsStorageConfig ← DeepCopyInto (gcss_GCSStorageConfig in_);
  mret (mkGCSWithSecrets gcsStorageConfig (gcss_CredentialsData in_) (gcss_ResolvedPrefix in_)).

#[export, refine] Instance gcss_copies : Copyable GCSStorageConfigWithSecrets Secrets.GCSStorageConfigWithSecrets := {|
  DeepCopyInto := GCSStorageConfigWithSecrets_DeepCopyInto;
|}.
Proof. abstract copy_struct. Defined.

(** The values of the embedding structs: the embedded one, then the fields. *)
Abbreviation StorageWithSecretsValue :=
  (Api.StorageConfig *
   (option Secrets.S3StorageConfigWithSecrets * option Secrets.GCSStorageConfigWithSecrets))%type.
Abbreviation SpecWithSecretsValue :=
  (Api.BackupConfigSpec *
   (StorageWithSecretsValue * option BackupEncryptionConfigWithSecrets))%type.

#[export] Instance storages_repr : Repr (C := cell) StorageConfigWithSecrets StorageWithSecretsValue :=
  struct_repr
    (λ _ _, True)
    (λ m, (sts_StorageConfig m, (sts_S3 m, (sts_GCS m, tt))))
    (λ v, (v.1, (v.2.1, (v.2.2, tt)))).

Definition StorageConfigWithSecrets_DeepCopyInto (in_ : StorageConfigWithSecrets) : mem (C := cell) StorageConfigWithSecrets :=
  storageConfig ← DeepCopyInto (sts_StorageConfig in_);
  s3 ← copy_pointer DeepCopyInto (sts_S3 in_);
  gcs ← copy_pointer DeepCopyInto (sts_GCS in_);
  mret (mkStorageWithSecrets storageConfig s3 gcs).

#[export, refine] Instance storages_copies : Copyable StorageConfigWithSecrets StorageWithSecretsValue := {|
  DeepCopyInto := StorageConfigWithSecrets_DeepCopyInto;
|}.
Proof. abstract copy_struct. Defined.

#[export] Instance specs_repr : Repr (C := cell) BackupConfigSpecWithSecrets SpecWithSecretsValue :=
  struct_repr
    (λ _ _, True)
    (λ m, (sps_BackupConfigSpec m, (sps_Storage m, (sps_Encryption m, tt))))
    (λ v, (v.1, (v.2.1, (v.2.2, tt)))).

Definition BackupConfigSpecWithSecrets_DeepCopyInto (in_ : BackupConfigSpecWithSecrets) : mem (C := cell) BackupConfigSpecWithSecrets :=
  backupConfigSpec ← DeepCopyInto (sps_BackupConfigSpec in_);
  storage ← DeepCopyInto (sps_Storage in_);
  encryption ← copy_flat_pointer (sps_Encryption in_);
  mret (mkSpecWithSecrets backupConfigSpec storage encryption).

#[export, refine] Instance specs_copies : Copyable BackupConfigSpecWithSecrets SpecWithSecretsValue := {|
  DeepCopyInto := BackupConfigSpecWithSecrets_DeepCopyInto;
|}.
Proof. abstract copy_struct. Defined.

#[export] Instance with_secrets_repr : Repr (C := cell) BackupConfigWithSecrets ((TypeMeta * Api.BackupConfig) * SpecWithSecretsValue) :=
  struct_repr
    (λ _ _, True)
    (λ m, (bcs_BackupConfig m, (bcs_Spec m, tt)))
    (λ v, (v.1, (v.2, tt))).

Definition BackupConfigWithSecrets_DeepCopyInto (in_ : BackupConfigWithSecrets) : mem (C := cell) BackupConfigWithSecrets :=
  backupConfig ← DeepCopyInto (bcs_BackupConfig in_);
  spec ← DeepCopyInto (bcs_Spec in_);
  mret (mkWithSecrets backupConfig spec).

#[export, refine] Instance with_secrets_copies : Copyable BackupConfigWithSecrets ((TypeMeta * Api.BackupConfig) * SpecWithSecretsValue) := {|
  DeepCopyInto := BackupConfigWithSecrets_DeepCopyInto;
|}.
Proof. abstract copy_struct. Defined.
(** ** [DeepCopy] and [DeepCopyObject]

    [if in == nil { return nil }; out := new(T); in.DeepCopyInto(out); return out]. *)

Definition BackupConfig_DeepCopy : ptr BackupConfig → mem (C := cell) (ptr BackupConfig) :=
  copy_pointer DeepCopyInto.
Definition BackupConfigList_DeepCopy : ptr BackupConfigList → mem (C := cell) (ptr BackupConfigList) :=
  copy_pointer DeepCopyInto.
Definition BackupConfigSpec_DeepCopy : ptr BackupConfigSpec → mem (C := cell) (ptr BackupConfigSpec) :=
  copy_pointer DeepCopyInto.
Definition BackupConfigSpecWithSecrets_DeepCopy : ptr BackupConfigSpecWithSecrets → mem (C := cell) (ptr BackupConfigSpecWithSecrets) :=
  copy_pointer DeepCopyInto.
Definition BackupConfigStatus_DeepCopy : ptr BackupConfigStatus → mem (C := cell) (ptr BackupConfigStatus) :=
  copy_pointer DeepCopyInto.
Definition BackupConfigWithSecrets_DeepCopy : ptr BackupConfigWithSecrets → mem (C := cell) (ptr BackupConfigWithSecrets) :=
  copy_pointer DeepCopyInto.
Definition BackupEncryptionConfig_DeepCopy : ptr BackupEncryptionConfig → mem (C := cell) (ptr BackupEncryptionConfig) :=
  copy_pointer DeepCopyInto.
Definition BackupEncryptionConfigWithSecrets_DeepCopy : ptr BackupEncryptionConfigWithSecrets → mem (C := cell) (ptr BackupEncryptionConfigWithSecrets) :=
  copy_pointer DeepCopyInto.
Definition BackupRetentionConfig_DeepCopy : ptr BackupRetentionConfig → mem (C := cell) (ptr BackupRetentionConfig) :=
  copy_pointer DeepCopyInto.
Definition ConsumedStorageInfo_DeepCopy : ptr ConsumedStorageInfo → mem (C := cell) (ptr ConsumedStorageInfo) :=
  copy_pointer DeepCopyInto.
Definition CustomCAReference_DeepCopy : ptr CustomCAReference → mem (C := cell) (ptr CustomCAReference) :=
  copy_pointer DeepCopyInto.
Definition GCSStorageConfig_DeepCopy : ptr GCSStorageConfig → mem (C := cell) (ptr GCSStorageConfig) :=
  copy_pointer DeepCopyInto.
Definition GCSStorageConfigWithSecrets_DeepCopy : ptr GCSStorageConfigWithSecrets → mem (C := cell) (ptr GCSStorageConfigWithSecrets) :=
  copy_pointer DeepCopyInto.
Definition S3StorageConfig_DeepCopy : ptr S3StorageConfig → mem (C := cell) (ptr S3StorageConfig) :=
  copy_pointer DeepCopyInto.
Definition S3StorageConfigWithSecrets_DeepCopy : ptr S3StorageConfigWithSecrets → mem (C := cell) (ptr S3StorageConfigWithSecrets) :=
  copy_pointer DeepCopyInto.
Definition StorageConfig_DeepCopy : ptr StorageConfig → mem (C := cell) (ptr StorageConfig) :=
  copy_pointer DeepCopyInto.
Definition StorageConfigWithSecrets_DeepCopy : ptr StorageConfigWithSecrets → mem (C := cell) (ptr StorageConfigWithSecrets) :=
  copy_pointer DeepCopyInto.
Definition ValueFromSource_DeepCopy : ptr ValueFromSource → mem (C := cell) (ptr ValueFromSource) :=
  copy_pointer DeepCopyInto.

(** [runtime.Object]: the nil interface, or a pointer with its type. *)
Inductive Object := OBackupConfig (a : loc) | OBackupConfigList (a : loc).

Definition BackupConfig_DeepCopyObject (in_ : ptr BackupConfig) : mem (C := cell) (option Object) :=
  c ← BackupConfig_DeepCopy in_;
  match addr c with Some a => mret (Some (OBackupConfig a)) | None => mret None end.
Definition BackupConfigList_DeepCopyObject (in_ : ptr BackupConfigList)
    : mem (C := cell) (option Object) :=
  c ← BackupConfigList_DeepCopy in_;
  match addr c with Some a => mret (Some (OBackupConfigList a)) | None => mret None end.

(** C26: the generated copies are copies.  For every type of the API, copying through a
    pointer to anything that represents a value never panics, represents the same value in
    locations that did not exist before, each used once, and leaves all others alone; later
    writes to the locations of the copy do not show in the original, nor the other way
    round. *)
Theorem deep_copies_independent :
  independent BackupConfig_DeepCopy ∧
  independent BackupConfigList_DeepCopy ∧
  independent BackupConfigSpec_DeepCopy ∧
  independent BackupConfigSpecWithSecrets_DeepCopy ∧
  independent BackupConfigStatus_DeepCopy ∧
  independent BackupConfigWithSecrets_DeepCopy ∧
  independent BackupEncryptionConfig_DeepCopy ∧
  independent BackupEncryptionConfigWithSecrets_DeepCopy ∧
  independent BackupRetentionConfig_DeepCopy ∧
  independent ConsumedStorageInfo_DeepCopy ∧
  independent CustomCAReference_DeepCopy ∧
  independent GCSStorageConfig_DeepCopy ∧
  independent GCSStorageConfigWithSecrets_DeepCopy ∧
  independent S3StorageConfig_DeepCopy ∧
  independent S3StorageConfigWithSecrets_DeepCopy ∧
  independent StorageConfig_DeepCopy ∧
  independent StorageConfigWithSecrets_DeepCopy ∧
  independent ValueFromSource_DeepCopy.
Proof. split_and!; apply copy_independent. Qed.

(** A nil pointer becomes the nil interface, nothing else does. *)
Theorem deep_copy_object_nil h (p : ptr BackupConfig) v l :
  rep h p v l →
  ∃ o h', BackupConfig_DeepCopyObject p h = Some (o, h') ∧ (o = None ↔ v = None) ∧
    ∀ a, o = Some (OBackupConfig a) → ∃ l', rep h' (Ptr (Some a)) v l' ∧ ∀ x, x ∈ l' → h !! x = None.
Proof.
  intros Hr. destruct (copies_pointer DeepCopyInto h p v l copies Hr) as (p' & h' & l' & Hc & Hg & Hr').
  unfold BackupConfig_DeepCopyObject. destruct p' as [[a|]].
  - exists (Some (OBackupConfig a)), h'. rewrite (mem_bind_some _ _ _ _ _ Hc). split_and!; [done| |].
    + destruct v; [done|]. simpl in Hr'. done.
    + intros a' [= <-]. exists l'. split; [done|apply Hg].
  - exists None, h'. rewrite (mem_bind_some _ _ _ _ _ Hc). split_and!; [done| |done].
    destruct v; [|done]. simpl in Hr'. done.
Qed.
End copies.

(** ** [copyInto] *)

Section copy_into.
Context `{Library}.

(** The type of a pointer to a cell. *)
Definition type_of (c : cell) : string :=
  match c with
  | CInt _ => "*int"
  | CSecretKeySelector _ => "*v1.SecretKeySelector"
  | CConfigMapKeySelector _ => "*v1.ConfigMapKeySelector"
  | CTime _ => "*v1.Time"
  | CCustomCAReference _ => "*v1beta1.CustomCAReference"
  | CValueFromSource _ => "*v1beta1.ValueFromSource"
  | CS3 _ => "*v1beta1.S3StorageConfig"
  | CGCS _ => "*v1beta1.GCSStorageConfig"
  | CStorage _ => "*v1beta1.StorageConfig"
  | CRetention _ => "*v1beta1.BackupRetentionConfig"
  | CEncryption _ => "*v1beta1.BackupEncryptionConfig"
  | CSpec _ => "*v1beta1.BackupConfigSpec"
  | CConsumed _ => "*v1beta1.ConsumedStorageInfo"
  | CConditions _ => "*[]v1.Condition"
  | CStatus _ => "*v1beta1.BackupConfigStatus"
  | CBackupConfig _ => "*v1beta1.BackupConfig"
  | CBackupConfigs _ => "*[]v1beta1.BackupConfig"
  | CBackupConfigList _ => "*v1beta1.BackupConfigList"
  | CS3WithSecrets _ => "*v1beta1.S3StorageConfigWithSecrets"
  | CGCSWithSecrets _ => "*v1beta1.GCSStorageConfigWithSecrets"
  | CStorageWithSecrets _ => "*v1beta1.StorageConfigWithSecrets"
  | CEncryptionWithSecrets _ => "*v1beta1.BackupEncryptionConfigWithSecrets"
  | CSpecWithSecrets _ => "*v1beta1.BackupConfigSpecWithSecrets"
  | CWithSecrets _ => "*v1beta1.BackupConfigWithSecrets"
  | CShared _ => "*unknown"
  end.

(** The struct is copied, what it points to is not. *)
Definition copyInto (obj out : loc) : mem (C := cell) (option err) := λ h,
  match h !! obj, h !! out with
  | Some x, Some y =>
      if String.eqb (type_of x) (type_of y) then Some (None, <[out := x]> h)
      else Some (Some (errorf ("cache had type " +:+ type_of x +:+ ", but " +:+ type_of y +:+
                               " was asked for")), h)
  | _, _ => None
  end.

Context `{!LibraryCopies}.

(** [copyInto] answers the right value and shares it.  Given an object of the type asked
    for, the reader's struct stands for the cached value afterwards; every location that is
    reached from it, but its own, is one of the cached object, which stays as it is.  An object of
    another type is an error and changes nothing. *)
Theorem copyInto_shares h obj out (v : TypeMeta * Api.BackupConfig) l c :
  rep h (Ptr (M := BackupConfig) (Some obj)) (Some v) (obj :: l) →
  h !! out = Some c → out ∉ obj :: l →
  (type_of c = "*v1beta1.BackupConfig" →
   ∃ h', copyInto obj out h = Some (None, h') ∧
     rep h' (Ptr (M := BackupConfig) (Some out)) (Some v) (out :: l) ∧
     rep h' (Ptr (M := BackupConfig) (Some obj)) (Some v) (obj :: l)) ∧
  (type_of c ≠ "*v1beta1.BackupConfig" → ∃ e, copyInto obj out h = Some (Some e, h)).
Proof.
  intros Hr Ho Hl. pose proof Hr as (m & l' & [= <-] & Ha & Hm).
  unfold copyInto. rewrite Ha, Ho. cbn [type_of inj backup_config_cell]. split.
  - intros ->. eexists. split; [done|].
    assert (∀ x, x ∈ obj :: l → <[out := CBackupConfig m]> h !! x = h !! x) as Hf.
    { intros x Hx. apply lookup_insert_ne. set_solver. }
    split; [|by eapply rep_frame]. exists m, l. split_and!; [done|by rewrite lookup_insert_eq|].
    eapply rep_frame; [done|]. intros x Hx. apply Hf. by right.
  - intros Hne%String.eqb_neq. rewrite String.eqb_sym, Hne. by eexists.
Qed.
End copy_into.

(** ** A reader that changes what it was given *)

(** The types of Kubernetes without pointers, as far as this development looks into them. *)
#[export] Instance flat_library : Library := {|
  ObjectMeta_t := ObjectMeta; ObjectMeta_zero := empty_meta;
  ListMeta_t := (); ListMeta_zero := tt; ListMetaValue := ();
  SecretKeySelector_t := SecretKeySelector; SecretKeySelector_zero := mkSelector "" "";
  ConfigMapKeySelector_t := SecretKeySelector; ConfigMapKeySelector_zero := mkSelector "" "";
  Time_t := time; Time_zero := zero_time;
  Condition_t := Condition; Condition_zero := mkCondition "" "" 0 zero_time "" "";
  ResourceRequirements_t := string; ResourceRequirements_zero := "";
  Shared := Empty_set;
|}.

#[export, refine] Instance flat_library_copies : LibraryCopies := {|
  meta_repr := flat_repr _; list_meta_repr := flat_repr _; secret_selector_repr := flat_repr _;
  config_map_selector_repr := flat_repr _; time_repr := flat_repr _; condition_repr := flat_repr _;
  resources_repr := flat_repr _;
  meta_copies := flat_copyable _; list_meta_copies := flat_copyable _;
  secret_selector_copies := flat_copyable _; config_map_selector_copies := flat_copyable _;
  condition_copies := flat_copyable _; resources_copies := flat_copyable _;
  Time_DeepCopy := copy_pointer mret;
|}.
Proof.
  abstract (intros h p v l Hr;
    eapply (copies_pointer mret); [|exact Hr];
    intros h' m v' l' [-> ->]; by apply gives_ret).
Defined.

Definition cached_spec (p : ptr Z) : Mem.BackupConfigSpec :=
  mkSpec p (Ptr None) (Ptr None) (Ptr None) (Ptr None) 5 0 false (Ptr None)
    (mkRetention false false false 1 "7d") (mkStorage "s3" (Ptr None) (Ptr None)) ""
    (mkEncryption "" "").
Definition cached_config (p : ptr Z) : Mem.BackupConfig :=
  Mem.mkBackupConfig (mkTypeMeta "BackupConfig" group_version) empty_meta (cached_spec p) zero_Status.
Definition config_value (n : Z) : TypeMeta * Api.BackupConfig :=
  (mkTypeMeta "BackupConfig" group_version,
   Api.mkBackupConfig empty_meta
     (mkBCSpec (Some n) None None None None 5 0 false None (mkRetention false false false 1 "7d")
        (Api.mkStorage "s3" None None) "" (mkEncryption "" ""))
     (mkBCStatus BackupConfigPhaseNone None None None None [])).

(** The cached object at 1, its [DownloadConcurrency] at 2, and a reader's struct at 3. *)
Definition cache_heap : gmap nat cell :=
  {[ 1 := CBackupConfig (cached_config (Ptr (Some 2)));
     2 := CInt 4; 3 := CBackupConfig zero_BackupConfig ]}.
Definition cached_at_1 : ptr Mem.BackupConfig := Ptr (Some 1).

Lemma cache_heap_rep (h : gmap nat cell) n :
  h !! 1 = Some (CBackupConfig (cached_config (Ptr (Some 2)))) → h !! 2 = Some (CInt n) →
  rep h cached_at_1 (Some (config_value n)) [1; 2].
Proof.
  intros H1 H2. assert (∃ l, rep h cached_at_1 (Some (config_value n)) l ∧ l = [1; 2]) as (l & Hr & <-);
    [|exact Hr].
  eexists. split.
  - eexists _, _. split_and!; [reflexivity|exact H1|].
    simpl. repeat first [reflexivity|exact H2|match goal with |- ∃ _, _ => eexists end|split].
  - reflexivity.
Qed.

Lemma cache_heap_cached : rep cache_heap cached_at_1 (Some (config_value 4)) [1; 2].
Proof. by apply cache_heap_rep. Qed.

(** A write through the copy does not reach the cached object. *)
Lemma deep_copies_independent_witness :
  ∃ p h l, BackupConfig_DeepCopy cached_at_1 cache_heap = Some (p, h) ∧
    rep h p (Some (config_value 4)) l ∧
    ∀ x, x ∈ l → rep (<[x := CInt 9]> h) cached_at_1 (Some (config_value 4)) [1; 2].
Proof.
  destruct (proj1 deep_copies_independent cache_heap cached_at_1 (Some (config_value 4)) [1; 2]
    cache_heap_cached) as (p & h & l & Hc & _ & Hr & _ & _ & Ho & _).
  exists p, h, l. split; [exact Hc|]. split; [exact Hr|]. intros x Hx. apply Ho. intros y Hy.
  apply lookup_insert_ne. intros ->. by apply Hy.
Defined.

Lemma copyInto_shares_witness :
  ∃ h, copyInto 1 3 cache_heap = Some (None, h) ∧
    rep h (Ptr (M := Mem.BackupConfig) (Some 3)) (Some (config_value 4)) [3; 2] ∧
    rep h cached_at_1 (Some (config_value 4)) [1; 2].
Proof.
  destruct (copyInto_shares cache_heap 1 3 (config_value 4) [2] (CBackupConfig zero_BackupConfig)
    cache_heap_cached eq_refl) as [Hs _]; [|exact (Hs eq_refl)].
  intros [[=]|[[=]|Hx%elem_of_nil]%elem_of_cons]%elem_of_cons. exact Hx.
Defined.

(** [*out.Spec.DownloadConcurrency = 9], after [copyInto]: the cached object is another one. *)
Theorem reader_changes_cache :
  ∃ h m, copyInto 1 3 cache_heap = Some (None, h) ∧ h !! 3 = Some (CBackupConfig m) ∧
    ∃ p, addr (DownloadConcurrency (bc_Spec m)) = Some p ∧
      rep (<[p := CInt 9]> h) cached_at_1 (Some (config_value 9)) [1; 2].
Proof.
  eexists _, _. split; [vm_compute; reflexivity|]. split; [reflexivity|].
  exists 2. split; [reflexivity|]. by apply cache_heap_rep.
Qed.
