(* ===== verification/Storage.v ===== *)
(** [pkg/walg/storage.go]: the size of a storage prefix from the output of [wal-g st ls],
    and the WAL timelines of [wal-g wal-show]. *)
From stdpp Require Import base list strings.
From Stdlib Require Import Ascii DecimalString.
From S2P Require Import Prelude GoStrings Backups.
Local Open Scope string_scope.
Local Open Scope Z_scope.
Local Open Scope list_scope.

(** ** WAL timelines *)

Record WALTimelineInfo := mkTimeline {
  wt_ID : Z;
  wt_ParentID : Z;
  wt_SwitchPointLSN : Z;
  wt_StartSegment : string;
  wt_EndSegment : string;
  wt_SegmentsCount : Z;
  wt_MissingSegments : list string;
  wt_Backups : list BackupMetadata;
  wt_SegmentRangeSize : Z;
  wt_Status : string;
}.

Definition HasMissingSegments (w : WALTimelineInfo) : bool :=
  (0 <? length (wt_MissingSegments w))%nat.

Definition IsOK (w : WALTimelineInfo) : bool := String.eqb (wt_Status w) "OK".

(** ** Fields of a line: [strings.Fields] on UTF-8 bytes

    [space_len s] is the length of the white-space rune [s] starts with, 0 when it starts
    with none.  No encoding of a white-space rune occurs inside that of another rune, so
    looking at every byte position finds the runes Go finds. *)
Definition byte (c : ascii) : Z := Z.of_N (N_of_ascii c).

Definition space_len (s : string) : nat :=
  match s with
  | EmptyString => 0
  | String c s1 =>
      let b := byte c in
      if ((9 <=? b) && (b <=? 13)) || (b =? 32) then 1%nat
      else match s1 with
           | EmptyString => 0
           | String c1 s2 =>
               let b1 := byte c1 in
               if (b =? 194) && ((b1 =? 133) || (b1 =? 160)) then 2%nat
               else match s2 with
                    | EmptyString => 0
                    | String c2 _ =>
                        let b2 := byte c2 in
                        if ((b =? 225) && (b1 =? 154) && (b2 =? 128)) ||
                           ((b =? 226) && (b1 =? 128) &&
                            (((128 <=? b2) && (b2 <=? 138)) ||
                             (b2 =? 168) || (b2 =? 169) || (b2 =? 175))) ||
                           ((b =? 226) && (b1 =? 129) && (b2 =? 159)) ||
                           ((b =? 227) && (b1 =? 128) && (b2 =? 128))
                        then 3%nat else 0%nat
                    end
           end
  end.

Definition cons_field (h : string) (t : list string) : list string :=
  match h with EmptyString => t | _ => h :: t end.

(** The field [s] starts in (empty before a space) and the fields after it; [skip] bytes
    still belong to a space. *)
Fixpoint fields_at (s : string) (skip : nat) : string * list string :=
  match s with
  | EmptyString => ("", [])
  | String c s' =>
      match skip with
      | S k => fields_at s' k
      | O => match space_len s with
             | O => let '(h, t) := fields_at s' 0 in (String c h, t)
             | S k => let '(h, t) := fields_at s' k in ("", cons_field h t)
             end
      end
  end.

Definition fields (s : string) : list string :=
  let '(h, t) := fields_at s 0 in cons_field h t.

(** ** The listing *)

(** What one line adds: lines with fewer than two fields, not starting with [obj], or whose
    size does not parse add nothing. *)
Definition line_size (line : string) : Z :=
  match fields line with
  | kind :: size :: _ =>
      if negb (String.eqb kind "obj") then 0
      else match atoi size with
           | (n, None) => n
           | (_, Some _) => 0
           end
  | _ => 0
  end.

(** [bufio.MaxScanTokenSize]: a line of this many bytes or more stops the scanner. *)
Definition MaxScanTokenSize : Z := 65536.
Definition line_length (line : string) : Z := Z.of_nat (String.length line).

(** The loop [for scanner.Scan()] and the check of [scanner.Err] after it. *)
Fixpoint scan_sizes (totalSize : Z) (lines : list string) : Z * option err :=
  match lines with
  | [] => (totalSize, None)
  | line :: lines =>
      if MaxScanTokenSize <=? line_length line
      then (totalSize, Some (errorf "error reading storage ls output: bufio.Scanner: token too long"))
      else scan_sizes (wrap64 (totalSize + line_size line)) lines
  end.

Definition newline : string := String (ascii_of_nat 10) "".

(** An empty last piece, which the scanner does not deliver, adds nothing. *)
Definition parseStorageLsOutput (output : string) : Z * option err :=
  scan_sizes 0 (split output newline).

(** ** Lemmas *)

Definition sum (l : list Z) : Z := foldr Z.add 0 l.

Lemma sum_cons n l : sum (n :: l) = n + sum l.
Proof. done. Qed.

Lemma scan_sizes_total total lines :
  Forall (λ l, line_length l < MaxScanTokenSize) lines →
  min_int64 ≤ total ≤ max_int64 →
  scan_sizes total lines = (wrap64 (total + sum (line_size <$> lines)), None).
Proof.
  intros Hl. revert total. induction Hl as [|l ls Hlen Hl IH]; intros total Ht; cbn [scan_sizes].
  - simpl. by rewrite Z.add_0_r, wrap64_id.
  - rewrite (proj2 (Z.leb_gt _ _)) by done. rewrite IH by apply wrap64_bounds.
    rewrite wrap64_add_l, fmap_cons, sum_cons, Z.add_assoc. done.
Qed.

Lemma scan_sizes_too_long total l1 line l2 :
  Forall (λ l, line_length l < MaxScanTokenSize) l1 →
  MaxScanTokenSize ≤ line_length line →
  min_int64 ≤ total ≤ max_int64 →
  scan_sizes total (l1 ++ line :: l2) =
  (wrap64 (total + sum (line_size <$> l1)),
   Some (errorf "error reading storage ls output: bufio.Scanner: token too long")).
Proof.
  intros Hl Hlong. revert total. induction Hl as [|l ls Hlen Hl IH]; intros total Ht;
    cbn [scan_sizes app].
  - rewrite (proj2 (Z.leb_le _ _)) by done. simpl. by rewrite Z.add_0_r, wrap64_id.
  - rewrite (proj2 (Z.leb_gt _ _)) by done. rewrite IH by apply wrap64_bounds.
    rewrite wrap64_add_l, fmap_cons, sum_cons, Z.add_assoc. done.
Qed.

Definition is_plain (c : ascii) : bool := (33 <=? byte c) && (byte c <=? 126).

Fixpoint plain (s : string) : bool :=
  match s with EmptyString => true | String c s => is_plain c && plain s end.

Lemma space_len_plain c s : is_plain c = true → space_len (String c s) = 0%nat.
Proof.
  unfold is_plain. intros [Hlo%Z.leb_le Hhi%Z.leb_le]%andb_true_iff. cbn [space_len].
  assert (∀ k, 126 < k → (byte c =? k) = false) as Hne by (intros; apply Z.eqb_neq; lia).
  rewrite (proj2 (Z.leb_gt (byte c) 13)) by lia.
  rewrite (proj2 (Z.eqb_neq (byte c) 32)) by lia. rewrite andb_false_r. cbn [orb].
  destruct s as [|c1 [|c2 s]]; rewrite ?(Hne 194), ?(Hne 225), ?(Hne 226), ?(Hne 227) by lia; done.
Qed.

(** A run of plain characters before a blank is one field. *)
Lemma fields_at_plain w s :
  plain w = true →
  fields_at (w +:+ String " " s) 0 =
  let '(h, t) := fields_at s 0 in (w, cons_field h t).
Proof.
  induction w as [|c w IH]; intros Hw.
  - rewrite append_nil_l. simpl. by destruct (fields_at s 0).
  - simpl in Hw. apply andb_true_iff in Hw as [Hc Hw]. rewrite append_cons.
    cbn [fields_at]. rewrite space_len_plain by done. rewrite IH by done.
    by destruct (fields_at s 0).
Qed.

Lemma format_int_plain n : 0 ≤ n → plain (format_int n) = true ∧ format_int n ≠ "".
Proof.
  intros Hn. unfold format_int.
  assert (∃ d, Z.to_int n = Decimal.Pos d ∧ d ≠ Decimal.Nil) as (d & -> & Hd).
  { destruct n as [|p|p]; [by exists (Decimal.D0 Decimal.Nil)| |lia].
    exists (Pos.to_uint p). split; [done|]. apply DecimalPos.Unsigned.to_uint_nonnil. }
  cbn [NilEmpty.string_of_int]. split; [|by destruct d].
  clear Hd. induction d; [done|..]; cbn [NilEmpty.string_of_uint plain];
    rewrite IHd; reflexivity.
Qed.

(** A line of the listing as wal-g prints it: ["obj  <size> <rest>"]. *)
Definition obj_line (size : Z) (rest : string) : string :=
  "obj  " +:+ format_int size +:+ " " +:+ rest.

Lemma line_size_obj n rest : 0 ≤ n ≤ max_int64 → line_size (obj_line n rest) = n.
Proof.
  intros Hn. destruct (format_int_plain n) as [Hp Hne]; [lia|].
  unfold line_size, obj_line, fields.
  change ("obj  " +:+ format_int n +:+ " " +:+ rest)
    with ("obj" +:+ String " " ("" +:+ String " " (format_int n +:+ String " " rest))).
  rewrite !fields_at_plain by done. destruct (fields_at rest 0) as [h t].
  destruct (format_int n) as [|c w] eqn:Hf; [done|]. cbn [cons_field].
  rewrite <-Hf, atoi_format_int by (unfold min_int64; lia). done.
Qed.

Lemma sum_bounds l : Forall (λ n, 0 ≤ n) l → 0 ≤ sum l.
Proof. induction 1 as [|n l Hn Hl IH]; [done|]. rewrite sum_cons. simpl in Hn. lia. Qed.

(** A listing: what wal-g prints for objects, and any other lines. *)
Inductive entry := EObject (size : Z) (rest : string) | EOther (line : string).

Definition entry_line (e : entry) : string :=
  match e with EObject n rest => obj_line n rest | EOther line => line end.
Definition entry_size (e : entry) : Z :=
  match e with EObject n _ => n | EOther _ => 0 end.

(** One line, below the scanner's limit; an object's size is a byte count, and any other
    line does not start with the word [obj]. *)
Definition entry_ok (e : entry) : Prop :=
  contains (entry_line e) newline = false ∧ line_length (entry_line e) < MaxScanTokenSize ∧
  match e with
  | EObject n _ => 0 ≤ n ≤ max_int64
  | EOther line => hd "" (fields line) ≠ "obj"
  end.

Lemma line_size_entry e : entry_ok e → line_size (entry_line e) = entry_size e.
Proof.
  intros (_ & _ & He). destruct e as [n rest|line]; simpl in *; [by apply line_size_obj|].
  unfold line_size. destruct (fields line) as [|k [|sz fs]]; [done..|]. simpl in He.
  by apply String.eqb_neq in He as ->.
Qed.

(** The size of a listing.  On a listing of well-formed lines the total is the exact sum
    of the sizes of the objects, other lines adding nothing, and there is no error, as long
    as the sum fits an int64. *)
Theorem storage_listing (l : list entry) :
  l ≠ [] → Forall entry_ok l → sum (entry_size <$> l) ≤ max_int64 →
  parseStorageLsOutput (join newline (entry_line <$> l)) = (sum (entry_size <$> l), None).
Proof.
  intros Hne Hl Hsum. unfold parseStorageLsOutput, newline. rewrite split_join_char.
  - rewrite scan_sizes_total; [|apply Forall_fmap; eapply Forall_impl; [exact Hl|by intros ? (?&?&?)]|by vm_compute].
    rewrite <-list_fmap_compose.

    assert (line_size ∘ entry_line <$> l = entry_size <$> l) as ->.
    { apply Forall_fmap_ext_1. eapply Forall_impl; [exact Hl|]. apply line_size_entry. }
    rewrite Z.add_0_l, wrap64_id; [done|]. split; [|done].
    pose proof (sum_bounds (entry_size <$> l)) as Hb. unfold min_int64.
    assert (0 ≤ sum (entry_size <$> l)); [apply Hb|lia].
    apply Forall_fmap. eapply Forall_impl; [exact Hl|].
    intros [n r|line] (_ & _ & H); simpl; lia.
  - destruct l; done.
  - apply Forall_fmap. eapply Forall_impl; [exact Hl|]. by intros ? (?&_&_).
Qed.

Definition example_listing : list entry :=
  [EObject 5327891 "2026-04-27 12:18:55.841 +0000 UTC 000000020000000A00000034.br";
   EOther "dir  0 base"; EObject 109 "2026-04-27 12:18:56.000 +0000 UTC x.br"].

Lemma storage_listing_witness :
  parseStorageLsOutput (join newline (entry_line <$> example_listing)) = (5328000, None).
Proof.
  apply (storage_listing example_listing); [discriminate| |vm_compute; discriminate].
  repeat (apply Forall_cons; split; [split; [reflexivity|split; [reflexivity|vm_compute]]|]);
    [split; discriminate|discriminate|split; discriminate|constructor].
Defined.

(** A line of 64 KiB or more stops the sum.  The error is reported together with the
    partial total of the lines before it; what follows is not counted. *)
Theorem storage_long_line before line after :
  Forall (λ l, contains l newline = false) (before ++ line :: after) →
  Forall (λ l, line_length l < MaxScanTokenSize) before →
  MaxScanTokenSize ≤ line_length line →
  parseStorageLsOutput (join newline (before ++ line :: after)) =
    (wrap64 (sum (line_size <$> before)),
     Some (errorf "error reading storage ls output: bufio.Scanner: token too long")).
Proof.
  intros Hl Hb Hlong. unfold parseStorageLsOutput, newline.
  rewrite (split_join_char _ (before ++ line :: after)); [|by destruct before|done].
  rewrite scan_sizes_too_long by (done || by vm_compute). by rewrite Z.add_0_l.
Qed.

Fixpoint rep (n : nat) : string := match n with O => "" | S n => String "x" (rep n) end.

Lemma line_length_rep n : 0 ≤ n → line_length (rep (Z.to_nat n)) = n.
Proof.
  intros Hn. unfold line_length. rewrite <-(Z2Nat.id n) at 2 by done. f_equal.
  induction (Z.to_nat n); simpl; congruence.
Qed.

Lemma contains_rep n : contains (rep n) newline = false.
Proof. unfold newline. induction n; [done|]. simpl rep. by rewrite contains_char_cons. Qed.

Lemma storage_long_line_witness :
  parseStorageLsOutput
    (join newline [obj_line 7 "a"; rep (Z.to_nat 65536); obj_line 9 "b"]) =
  (7, Some (errorf "error reading storage ls output: bufio.Scanner: token too long")).
Proof.
  refine (storage_long_line [obj_line 7 "a"] (rep (Z.to_nat 65536)) [obj_line 9 "b"] _ _ _).
  - apply Forall_cons. split; [reflexivity|]. apply Forall_cons. split; [apply contains_rep|].
    apply Forall_cons. split; [reflexivity|constructor].
  - apply Forall_cons. split; [reflexivity|constructor].
  - rewrite line_length_rep by discriminate. discriminate.
Defined.
