(* ===== verification/Config.v ===== *)
(** [pkg/walg/config.go], [file_cache.go], [ca_certs.go], [gcs_credentials.go]: the wal-g
    configuration of a BackupConfig, its environment variables, and the cached files that
    hold CA certificates and GCS credentials.

    [Config.Hash] and [ToFile] are the subject of [ConfigFile]. *)
From stdpp Require Import base list strings gmap.
From Stdlib Require Import Ascii.
From S2P Require Import Prelude GoStrings GoTime Api Effects Secrets.
Local Open Scope string_scope.
Local Open Scope Z_scope.
Local Open Scope list_scope.

(** ** The configuration *)

Record Config := mkConfig {
  AWSAccessKeyID : string;
  AWSEndpoint : string;
  AWSS3ForcePathStyle : bool;
  AWSRegion : string;
  AWSSecretAccessKey : string;
  GoogleApplicationCredentials : string;
  GoDebug : string;
  GoMaxProcs : Z;
  PgHost : string;
  PgUser : string;
  S3LogLevel : string;
  TotalBgUploadedLimit : Z;
  WaleGPGKeyID : string;
  WalgGSPrefix : string;
  WaleS3Prefix : string;
  WalgAliveCheckInterval : string;
  WalgCompressionMethod : string;
  WalgDeltaMaxSteps : Z;
  WalgDiskRateLimit : Z;
  WalgDownloadConcurrency : Z;
  WalgDownloadFileRetries : Z;
  WalgFailoverStoragesCacheLifetime : string;
  WalgFailoverStoragesCheck : bool;
  WalgFailoverStoragesCheckSize : string;
  WalgLibsodiumKey : string;
  WalgLibsodiumKeyPath : string;
  WalgLibsodiumKeyTransform : string;
  WalgLogDestination : string;
  WalgNetworkRateLimit : Z;
  WalgPgpKeyPath : string;
  WalgPrefetchDir : string;
  WalgPreventWalOverwrite : string;
  WalgS3CACertFile : string;
  WalgS3StorageClass : string;
  WalgTarDisableFsync : string;
  WalgTarSizeThreshold : Z;
  WalgUploadConcurrency : Z;
  WalgUploadDiskConcurrency : Z;
}.

(** [setWalgPrefetchDir]: the directory, and the download concurrency it forces. *)
Definition setWalgPrefetchDir : prog (string * option Z) :=
  pgdataPath ← call (OViperString "pgdata");
  if String.eqb pgdataPath "" then Ret ("", Some 1)
  else
    separateWal ← call (OStatIsDir "/var/lib/postgresql/wal");
    Ret (if (separateWal : bool) then "/var/lib/postgresql/wal" else pgdataPath, None).

Definition NewConfigWithDefaults : prog Config :=
  prefetch ← setWalgPrefetchDir;
  Ret (mkConfig "" "" false "" "" "" "" 5 "/controller/run" "postgres" "" 32 "" "" "" "30s"
         "brotli" 6 314572800 (default 12 (snd prefetch)) 0 "0m" false "1KB" "" "" "" ""
         536870912 "" (fst prefetch) "True" "" "STANDARD" "False" 0 16 8).

(** ** Cached files *)

(** [filepath.Dir] of an absolute path in normal form. *)
Fixpoint path_dir (s : string) : string :=
  match s with
  | EmptyString => ""
  | String c s' => if contains s' "/" then String c (path_dir s') else
                   if Ascii.eqb c "/" then "" else path_dir s'
  end.

Definition ensureCachedFile (cacheMap : cache_id) (filePath cacheKey data : string)
    : prog (res string) :=
  if String.eqb data "" then Ret (Ok "")
  else
    cachedValue ← call (OCacheGet cacheMap cacheKey);
    if bool_decide ((cachedValue : option string) = Some data) then Ret (Ok filePath)
    else
      let dir := path_dir filePath in
      e ← call (OMkdirAll dir);
      match (e : option err) with
      | Some e => Ret (Err (wrapf ("failed to create directory " +:+ dir +:+ ": ") e))
      | None =>
          e ← call (OWriteFile filePath data);
          match (e : option err) with
          | Some e => Ret (Err (wrapf ("failed to write file " +:+ filePath +:+ ": ") e))
          | None => _ ← call (OCachePut cacheMap cacheKey data); Ret (Ok filePath)
          end
      end.

Definition cache_key (namespace name : string) : string := namespace +:+ "/" +:+ name.

Definition getCACertFilePath (namespace name : string) : string :=
  "/tmp/custom-ca/" +:+ namespace +:+ "-" +:+ name +:+ "-ca.crt".

Definition ensureCACertFile (namespace name caCertData : string) : prog (res string) :=
  ensureCachedFile CACertCache (getCACertFilePath namespace name) (cache_key namespace name)
    caCertData.

Definition getGCSCredentialsFilePath (namespace name : string) : string :=
  "/tmp/gcs-credentials/" +:+ namespace +:+ "-" +:+ name +:+ "-credentials.json".

Definition ensureGCSCredentialsFile (namespace name credentialsData : string)
    : prog (res string) :=
  ensureCachedFile GCSCredentialsCache (getGCSCredentialsFilePath namespace name)
    (cache_key namespace name) credentialsData.

(** ** The configuration of a BackupConfig *)

(** What the [switch] on the storage type sets. *)
Record storage_settings := mkSettings {
  ss_AccessKeyID : string;
  ss_SecretAccessKey : string;
  ss_Endpoint : string;
  ss_Region : string;
  ss_ForcePathStyle : bool;
  ss_S3Prefix : string;
  ss_StorageClass : string;
  ss_CACertFile : string;
  ss_GSPrefix : string;
  ss_GoogleCredentials : string;
}.

(** [fmt.Sprintf("%s/%d", strings.TrimRight(prefix, "/"), pgMajorVersion)]. *)
Definition versioned_prefix (prefix : string) (pgMajorVersion : Z) : string :=
  trim_right "/" prefix +:+ "/" +:+ format_int pgMajorVersion.

Definition nil_deref : string := "invalid memory address or nil pointer dereference".

Definition apply_storage (backupConfig : BackupConfigWithSecrets) (pgMajorVersion : Z)
    (config : Config) : prog storage_settings :=
  let meta := bc_meta (ws_config backupConfig) in
  let storage := ws_Storage backupConfig in
  if String.eqb (sts_StorageType storage) StorageTypeS3 then
    match sts_S3 storage with
    | None => Panic nil_deref
    | Some s3 =>
        let settings ca :=
          mkSettings (AccessKeyID s3) (AccessKeySecret s3) (ResolvedEndpointURL s3)
            (ResolvedRegion s3) (s3_ForcePathStyle (s3s_config s3))
            (versioned_prefix (s3s_ResolvedPrefix s3) pgMajorVersion)
            (s3_StorageClass (s3s_config s3)) ca (WalgGSPrefix config)
            (GoogleApplicationCredentials config) in
        match s3_CustomCA (s3s_config s3) with
        | Some _ =>
            if negb (String.eqb (CACertData s3) "") then
              caFilePath ← ensureCACertFile (Namespace meta) (Name meta) (CACertData s3);
              match caFilePath with
              | Err e => Panic ("Warning: Failed to ensure CA certificate file: " +:+ emsg e)
              | Ok caFilePath => Ret (settings caFilePath)
              end
            else Ret (settings (WalgS3CACertFile config))
        | None => Ret (settings (WalgS3CACertFile config))
        end
    end
  else if String.eqb (sts_StorageType storage) StorageTypeGCS then
    match sts_GCS storage with
    | None => Panic nil_deref
    | Some gcs =>
        let settings credentials :=
          mkSettings (AWSAccessKeyID config) (AWSSecretAccessKey config) (AWSEndpoint config)
            (AWSRegion config) (AWSS3ForcePathStyle config) (WaleS3Prefix config)
            (WalgS3StorageClass config) (WalgS3CACertFile config)
            (versioned_prefix (gcss_ResolvedPrefix gcs) pgMajorVersion) credentials in
        if negb (String.eqb (CredentialsData gcs) "") then
          credentialsFilePath ←
            ensureGCSCredentialsFile (Namespace meta) (Name meta) (CredentialsData gcs);
          match credentialsFilePath with
          | Err e => Panic ("Warning: Failed to ensure GCS credentials file: " +:+ emsg e)
          | Ok credentialsFilePath => Ret (settings credentialsFilePath)
          end
        else Ret (settings (GoogleApplicationCredentials config))
    end
  else
    Ret (mkSettings (AWSAccessKeyID config) (AWSSecretAccessKey config) (AWSEndpoint config)
           (AWSRegion config) (AWSS3ForcePathStyle config) (WaleS3Prefix config)
           (WalgS3StorageClass config) (WalgS3CACertFile config) (WalgGSPrefix config)
           (GoogleApplicationCredentials config)).

Definition format_bool (b : bool) : string := if b then "true" else "false".

Definition NewConfigFromBackupConfig (backupConfig : BackupConfigWithSecrets)
    (pgMajorVersion : Z) : prog Config :=
  config ← NewConfigWithDefaults;
  s ← apply_storage backupConfig pgMajorVersion config;
  let spec := bc_Spec (ws_config backupConfig) in
  let '(libsodiumKey, transform) :=
    match ws_Encryption backupConfig with
    | Some enc => if String.eqb (encs_Method enc) "libsodium"
                  then (EncryptionKeyData enc, "hex")
                  else (WalgLibsodiumKey config, WalgLibsodiumKeyTransform config)
    | None => (WalgLibsodiumKey config, WalgLibsodiumKeyTransform config)
    end in
  let downloadConcurrency :=
    default (WalgDownloadConcurrency config) (DownloadConcurrency spec) in
  prefetch ← setWalgPrefetchDir;
  Ret (mkConfig (ss_AccessKeyID s) (ss_Endpoint s) (ss_ForcePathStyle s) (ss_Region s)
         (ss_SecretAccessKey s) (ss_GoogleCredentials s) (GoDebug config) (GoMaxProcs config)
         (PgHost config) (PgUser config) (S3LogLevel config) (TotalBgUploadedLimit config)
         (WaleGPGKeyID config) (ss_GSPrefix s) (ss_S3Prefix s) (WalgAliveCheckInterval config)
         (WalgCompressionMethod config) (DeltaMaxSteps spec)
         (default (WalgDiskRateLimit config) (UploadDiskRateLimit spec))
         (default downloadConcurrency (snd prefetch)) (DownloadFileRetries spec)
         (WalgFailoverStoragesCacheLifetime config) (WalgFailoverStoragesCheck config)
         (WalgFailoverStoragesCheckSize config) libsodiumKey (WalgLibsodiumKeyPath config)
         transform (WalgLogDestination config)
         (default (WalgNetworkRateLimit config) (UploadNetworkRateLimit spec))
         (WalgPgpKeyPath config) (fst prefetch) (WalgPreventWalOverwrite config)
         (ss_CACertFile s) (ss_StorageClass s) (format_bool (TarDisableFsync spec))
         (default (WalgTarSizeThreshold config) (TarSizeThreshold spec))
         (default (WalgUploadConcurrency config) (UploadConcurrency spec))
         (default (WalgUploadDiskConcurrency config) (UploadDiskConcurrency spec))).

(** ** [ToEnvMap]

    The reflection over the struct visits every field with its JSON tag; all fields have the
    option [omitempty]. *)
Inductive field := FString (s : string) | FInt (z : Z) | FBool (b : bool).

Definition config_fields (c : Config) : list (string * field) := [
  ("AWS_ACCESS_KEY_ID", FString (AWSAccessKeyID c));
  ("AWS_ENDPOINT", FString (AWSEndpoint c));
  ("AWS_S3_FORCE_PATH_STYLE", FBool (AWSS3ForcePathStyle c));
  ("AWS_REGION", FString (AWSRegion c));
  ("AWS_SECRET_ACCESS_KEY", FString (AWSSecretAccessKey c));
  ("GOOGLE_APPLICATION_CREDENTIALS", FString (GoogleApplicationCredentials c));
  ("GODEBUG", FString (GoDebug c));
  ("GOMAXPROCS", FInt (GoMaxProcs c));
  ("PGHOST", FString (PgHost c));
  ("PGUSER", FString (PgUser c));
  ("S3_LOG_LEVEL", FString (S3LogLevel c));
  ("TOTAL_BG_UPLOADED_LIMIT", FInt (TotalBgUploadedLimit c));
  ("WALE_GPG_KEY_ID", FString (WaleGPGKeyID c));
  ("WALG_GS_PREFIX", FString (WalgGSPrefix c));
  ("WALE_S3_PREFIX", FString (WaleS3Prefix c));
  ("WALG_ALIVE_CHECK_INTERVAL", FString (WalgAliveCheckInterval c));
  ("WALG_COMPRESSION_METHOD", FString (WalgCompressionMethod c));
  ("WALG_DELTA_MAX_STEPS", FInt (WalgDeltaMaxSteps c));
  ("WALG_DISK_RATE_LIMIT", FInt (WalgDiskRateLimit c));
  ("WALG_DOWNLOAD_CONCURRENCY", FInt (WalgDownloadConcurrency c));
  ("WALG_DOWNLOAD_FILE_RETRIES", FInt (WalgDownloadFileRetries c));
  ("WALG_FAILOVER_STORAGES_CACHE_LIFETIME", FString (WalgFailoverStoragesCacheLifetime c));
  ("WALG_FAILOVER_STORAGES_CHECK", FBool (WalgFailoverStoragesCheck c));
  ("WALG_FAILOVER_STORAGES_CHECK_SIZE", FString (WalgFailoverStoragesCheckSize c));
  ("WALG_LIBSODIUM_KEY", FString (WalgLibsodiumKey c));
  ("WALG_LIBSODIUM_KEY_PATH", FString (WalgLibsodiumKeyPath c));
  ("WALG_LIBSODIUM_KEY_TRANSFORM", FString (WalgLibsodiumKeyTransform c));
  ("WALG_LOG_DESTINATION", FString (WalgLogDestination c));
  ("WALG_NETWORK_RATE_LIMIT", FInt (WalgNetworkRateLimit c));
  ("WALG_PGP_KEY_PATH", FString (WalgPgpKeyPath c));
  ("WALG_PREFETCH_DIR", FString (WalgPrefetchDir c));
  ("WALG_PREVENT_WAL_OVERWRITE", FString (WalgPreventWalOverwrite c));
  ("WALG_S3_CA_CERT_FILE", FString (WalgS3CACertFile c));
  ("WALG_S3_STORAGE_CLASS", FString (WalgS3StorageClass c));
  ("WALG_TAR_DISABLE_FSYNC", FString (WalgTarDisableFsync c));
  ("WALG_TAR_SIZE_THRESHOLD", FInt (WalgTarSizeThreshold c));
  ("WALG_UPLOAD_CONCURRENCY", FInt (WalgUploadConcurrency c));
  ("WALG_UPLOAD_DISK_CONCURRENCY", FInt (WalgUploadDiskConcurrency c))
].

Definition is_zero (f : field) : bool :=
  match f with
  | FString s => String.eqb s ""
  | FInt z => z =? 0
  | FBool b => negb b
  end.

Definition field_string (f : field) : string :=
  match f with
  | FString s => s
  | FInt z => format_int z
  | FBool b => format_bool b
  end.

Definition add_field (result : gmap string string) (nf : string * field) : gmap string string :=
  if is_zero nf.2 then result else <[nf.1 := field_string nf.2]> result.

Definition ToEnvMap (c : Config) : gmap string string :=
  foldl add_field ∅ (config_fields c).

(** ** The environment determines the configuration *)

Definition env_value (f : field) : option string :=
  if is_zero f then None else Some (field_string f).

Lemma foldl_add_field_other n l m :
  n ∉ l.*1 → foldl add_field m l !! n = m !! n.
Proof.
  revert m. induction l as [|[k f] l IH]; intros m Hn; [done|]. cbn [foldl].
  rewrite fmap_cons, not_elem_of_cons in Hn. destruct Hn as [Hk Hn].
  rewrite IH by done. unfold add_field; simpl. destruct (is_zero f); [done|].
  simpl in Hk. by rewrite lookup_insert_ne by congruence.
Qed.

Lemma foldl_add_field l m n f :
  NoDup l.*1 → n ∉ dom m → (n, f) ∈ l → foldl add_field m l !! n = env_value f.
Proof.
  revert m. induction l as [|[k g] l IH]; intros m Hnd Hm Hin; [by apply elem_of_nil in Hin|].
  rewrite fmap_cons in Hnd. apply NoDup_cons in Hnd as [Hk Hnd].
  apply elem_of_cons in Hin as [[= <- <-]|Hin]; cbn [foldl].
  - rewrite foldl_add_field_other by done. unfold add_field, env_value; simpl.
    destruct (is_zero f); [by apply not_elem_of_dom|by rewrite lookup_insert_eq].
  - apply IH; [done| |done]. unfold add_field; simpl. destruct (is_zero g); [done|].
    rewrite dom_insert_L. intros [->%elem_of_singleton|?]%elem_of_union; [|done].
    apply Hk, list_elem_of_fmap. by exists (k, f).
Qed.

Lemma config_names_NoDup c : NoDup (config_fields c).*1.
Proof.
  apply (NoDup_ListNoDup). simpl.
  repeat (constructor; [simpl; intuition discriminate|]). constructor.
Qed.

Lemma ToEnvMap_lookup c n f : (n, f) ∈ config_fields c → ToEnvMap c !! n = env_value f.
Proof.
  intros Hin. apply foldl_add_field; [apply config_names_NoDup|set_solver|done].
Qed.

Definition same_kind (f g : field) : Prop :=
  match f, g with
  | FString _, FString _ | FInt _, FInt _ | FBool _, FBool _ => True
  | _, _ => False
  end.

Definition field_ok (f : field) : Prop :=
  match f with FInt z => min_int64 ≤ z ≤ max_int64 | _ => True end.

Lemma env_value_inj f g :
  same_kind f g → field_ok f → field_ok g → env_value f = env_value g → f = g.
Proof.
  unfold env_value.
  destruct f as [s|z|b], g as [s'|z'|b']; simpl; try done; intros _ Hf Hg He.
  - destruct (String.eqb_spec s ""), (String.eqb_spec s' ""); congruence.
  - f_equal. destruct (Z.eqb_spec z 0), (Z.eqb_spec z' 0); try congruence.
    assert (format_int z = format_int z') as Heq by congruence.
    apply atoi_format_int in Hf, Hg. congruence.
  - destruct b, b'; simpl in *; congruence.
Qed.

(** The int fields of the Go struct hold 64-bit values. *)
Definition config_ok (c : Config) : Prop := Forall (λ nf, field_ok nf.2) (config_fields c).

Lemma config_fields_kind c c' :
  Forall2 (λ nf ng, nf.1 = ng.1 ∧ same_kind nf.2 ng.2) (config_fields c) (config_fields c').
Proof. repeat (constructor; [done|]). constructor. Qed.

Lemma config_fields_inj c c' : config_fields c = config_fields c' → c = c'.
Proof.
  destruct c, c'. unfold config_fields. cbn. intros Heq.
  injection Heq as ->. intros. subst. reflexivity.
Qed.

(** The environment variables carry the whole configuration.  Two configurations with
    64-bit ints that give wal-g the same environment are equal: no two fields share a
    variable, and a zero value, which is left out, is told apart from every other. *)
Theorem ToEnvMap_inj c c' :
  config_ok c → config_ok c' → ToEnvMap c = ToEnvMap c' → c = c'.
Proof.
  intros Hc Hc' Heq. apply config_fields_inj.
  pose proof (ToEnvMap_lookup c) as Hl. pose proof (ToEnvMap_lookup c') as Hl'.
  rewrite <-Heq in Hl'. unfold config_ok in *.
  pose proof (config_fields_kind c c') as Hk. revert Hl Hl' Hc Hc'.
  generalize (ToEnvMap c). clear Heq. intros m.
  induction Hk as [|[n f] [n' g] l l' [Hn Hfg] _ IH]; intros Hl Hl' Hc Hc'; [done|].
  simpl in Hn. subst n'. apply Forall_cons in Hc as [Hf Hc]. apply Forall_cons in Hc' as [Hg Hc'].
  f_equal.
  - f_equal. apply env_value_inj; [done..|].
    rewrite <-(Hl n f), <-(Hl' n g) by (by left). done.
  - apply IH; try done; intros n0 f0 H0; [apply Hl|apply Hl']; by right.
Qed.

Definition default_config : Config :=
  mkConfig "" "" false "" "" "" "" 5 "/controller/run" "postgres" "" 32 "" "" "" "30s"
    "brotli" 6 314572800 12 0 "0m" false "1KB" "" "" "" "" 536870912 "" "/pgdata" "True" ""
    "STANDARD" "False" 0 16 8.

Lemma ToEnvMap_inj_witness :
  default_config = default_config ∧ ToEnvMap default_config !! "WALG_DELTA_MAX_STEPS" = Some "6".
Proof.
  split; [|reflexivity].
  apply (ToEnvMap_inj default_config default_config); [| |reflexivity];
    repeat (apply Forall_cons; split; [try exact I; split; discriminate|]); constructor.
Defined.

(** ** The cached files, on a file system

    The state the two caches and their files live in; every call succeeds. *)
Record files := mkFiles {
  fs_files : gmap string string;
  fs_ca : gmap string string;
  fs_gcs : gmap string string;
}.

Definition fs_cache (w : files) (c : cache_id) : gmap string string :=
  match c with CACertCache => fs_ca w | GCSCredentialsCache => fs_gcs w end.

Definition fs_handler : handler files := λ o w,
  match o return ans o * files with
  | OCacheGet c key => (fs_cache w c !! key, w)
  | OCachePut c key data =>
      (tt, match c with
           | CACertCache => mkFiles (fs_files w) (<[key := data]> (fs_ca w)) (fs_gcs w)
           | GCSCredentialsCache => mkFiles (fs_files w) (fs_ca w) (<[key := data]> (fs_gcs w))
           end)
  | OWriteFile path data => (None, mkFiles (<[path := data]> (fs_files w)) (fs_ca w) (fs_gcs w))
  | o' => (default_ans o', w)
  end.

(** The file of the BackupConfig [k] in a cache. *)
Definition file_of (c : cache_id) (k : NamespacedName) : string :=
  match c with
  | CACertCache => getCACertFilePath (key_ns k) (key_name k)
  | GCSCredentialsCache => getGCSCredentialsFilePath (key_ns k) (key_name k)
  end.
Definition cache_key_of (k : NamespacedName) : string := cache_key (key_ns k) (key_name k).

Definition ensure (c : cache_id) (k : NamespacedName) (data : string) : prog (res string) :=
  match c with
  | CACertCache => ensureCACertFile (key_ns k) (key_name k) data
  | GCSCredentialsCache => ensureGCSCredentialsFile (key_ns k) (key_name k) data
  end.

(** What the cache believes of the BackupConfigs [ks] is what their files hold. *)
Definition coherent (c : cache_id) (ks : list NamespacedName) (w : files) : Prop :=
  ∀ k d, k ∈ ks → fs_cache w c !! cache_key_of k = Some d → fs_files w !! file_of c k = Some d.

(** No two of them share a file or a cache key. *)
Definition separate (c : cache_id) (ks : list NamespacedName) : Prop :=
  ∀ k k', k ∈ ks → k' ∈ ks → k ≠ k' →
    file_of c k ≠ file_of c k' ∧ cache_key_of k ≠ cache_key_of k'.

Lemma ensure_unfold c k data :
  ensure c k data = ensureCachedFile c (file_of c k) (cache_key_of k) data.
Proof. by destruct c. Qed.

(** Cached files are right when paths are distinct.  Among BackupConfigs that share
    neither a file nor a cache key, asking for the file of one of them with data that is not
    empty gives its path, the file then holds exactly that data, whether or not it was
    rewritten, and the cache stays right about all of them. *)
Theorem ensure_file_holds c ks k data w :
  separate c ks → coherent c ks w → k ∈ ks → data ≠ "" →
  let '(r, _, w') := run fs_handler (ensure c k data) w in
  r = Returned (Ok (file_of c k)) ∧ fs_files w' !! file_of c k = Some data ∧ coherent c ks w'.
Proof.
  intros Hsep Hco Hk Hd%String.eqb_neq. rewrite ensure_unfold. unfold ensureCachedFile. rewrite Hd.
  cbn -[file_of]. destruct (bool_decide _) eqn:Hc; bool_to_prop; cbn -[file_of].
  { split_and!; [done| |done]. by apply Hco. }
  assert (∀ k' d, k' ∈ ks →
    <[cache_key_of k := data]> (fs_cache w c) !! cache_key_of k' = Some d →
    <[file_of c k := data]> (fs_files w) !! file_of c k' = Some d) as Hnew.
  { intros k' d Hk'. destruct (decide (k' = k)) as [->|Hne]; [by rewrite !lookup_insert_eq|].
    destruct (Hsep k' k) as [Hf Hkey]; [done..|].
    rewrite !lookup_insert_ne by congruence. by apply Hco. }
  destruct c; (split_and!; [done|apply lookup_insert_eq|exact Hnew]).
Qed.

(** The world after data was written and cached. *)
Definition stored (c : cache_id) (path key data : string) (w : files) : files :=
  let w1 := mkFiles (<[path := data]> (fs_files w)) (fs_ca w) (fs_gcs w) in
  match c with
  | CACertCache => mkFiles (fs_files w1) (<[key := data]> (fs_ca w)) (fs_gcs w)
  | GCSCredentialsCache => mkFiles (fs_files w1) (fs_ca w) (<[key := data]> (fs_gcs w))
  end.

Lemma run_ensure_hit c path key data w :
  data ≠ "" → fs_cache w c !! key = Some data →
  ∃ t, run fs_handler (ensureCachedFile c path key data) w = (Returned (Ok path), t, w).
Proof.
  intros Hd%String.eqb_neq Hc. unfold ensureCachedFile. rewrite Hd. cbn.
  rewrite Hc, bool_decide_eq_true_2 by done. by eexists.
Qed.

Lemma run_ensure_miss c path key data w :
  data ≠ "" → fs_cache w c !! key ≠ Some data →
  ∃ t, run fs_handler (ensureCachedFile c path key data) w =
       (Returned (Ok path), t, stored c path key data w).
Proof.
  intros Hd%String.eqb_neq Hc. unfold ensureCachedFile. rewrite Hd. cbn.
  rewrite bool_decide_eq_false_2 by done. cbn. destruct c; by eexists.
Qed.

Lemma stored_cache c path key data w :
  fs_cache (stored c path key data w) c = <[key := data]> (fs_cache w c).
Proof. by destruct c. Qed.
Lemma stored_files c path key data w :
  fs_files (stored c path key data w) = <[path := data]> (fs_files w).
Proof. by destruct c. Qed.

(** Two BackupConfigs of different namespaces can share one credentials file.  The file
    name joins namespace and name with a dash, the cache key with a slash: when [a-b/c] and
    [a/b-c] both have GCS credentials, the third call below is answered from the cache and
    succeeds, but the file it names holds the other namespace's credentials.  The same holds
    of CA certificates. *)
Theorem credentials_file_shared c da db w :
  da ≠ "" → db ≠ "" → da ≠ db → fs_cache w c = ∅ →
  let a := mkKey "a-b" "c" in let b := mkKey "a" "b-c" in
  let '(r, _, w') :=
    run fs_handler (_ ← ensure c a da; _ ← ensure c b db; ensure c a da) w in
  r = Returned (Ok (file_of c a)) ∧ fs_files w' !! file_of c a = Some db.
Proof.
  intros Ha Hb Hab Hw a b.
  assert (file_of c b = file_of c a) as Hf by (by destruct c).
  assert (cache_key_of a ≠ cache_key_of b) as Hk by done.
  rewrite !ensure_unfold, Hf. revert Hk. generalize (file_of c a), (cache_key_of a), (cache_key_of b).
  clear a b Hf. intros path ka kb Hk.
  destruct (run_ensure_miss c path ka da w Ha) as [t1 H1]; [by rewrite Hw, lookup_empty|].
  destruct (run_ensure_miss c path kb db (stored c path ka da w) Hb) as [t2 H2].
  { rewrite stored_cache, lookup_insert_ne, Hw by done. by rewrite lookup_empty. }
  destruct (run_ensure_hit c path ka da (stored c path kb db (stored c path ka da w)) Ha)
    as [t3 H3].
  { rewrite stored_cache, lookup_insert_ne, stored_cache by done. by rewrite lookup_insert_eq. }
  rewrite run_bind, H1, run_bind, H2, H3. split; [done|].
  by rewrite stored_files, lookup_insert_eq.
Qed.

Definition empty_files : files := mkFiles ∅ ∅ ∅.

Lemma credentials_file_shared_witness :
  let '(_, _, w') :=
    run fs_handler (_ ← ensure GCSCredentialsCache (mkKey "a-b" "c") "key of a-b";
                    _ ← ensure GCSCredentialsCache (mkKey "a" "b-c") "key of a";
                    ensure GCSCredentialsCache (mkKey "a-b" "c") "key of a-b") empty_files in
  fs_files w' !! "/tmp/gcs-credentials/a-b-c-credentials.json" = Some "key of a".
Proof.
  exact (proj2 (credentials_file_shared GCSCredentialsCache "key of a-b" "key of a" empty_files
    ltac:(discriminate) ltac:(discriminate) ltac:(discriminate) eq_refl)).
Defined.

Lemma ensure_file_holds_witness :
  let '(_, _, w') := run fs_handler (ensure CACertCache (mkKey "ns" "bc") "PEM") empty_files in
  fs_files w' !! "/tmp/custom-ca/ns-bc-ca.crt" = Some "PEM".
Proof.
  refine (proj1 (proj2 (ensure_file_holds CACertCache [mkKey "ns" "bc"] (mkKey "ns" "bc") "PEM"
    empty_files _ _ _ _))).
  - intros k k' Hk Hk' Hne. apply list_elem_of_singleton in Hk, Hk'. congruence.
  - intros k d _ H. vm_compute in H. discriminate.
  - apply list_elem_of_singleton. reflexivity.
  - discriminate.
Defined.
