(* ===== verification/Client.v ===== *)
(** [walg.Client]: the wal-g commands of [pkg/walg/backups.go], [storage.go] and [wal.go].

    A command is one call [OExec] with the argument vector and the environment of the
    client's configuration; its answer is whatever the process did.  The JSON decoding of
    wal-g's output is a parameter.  Timeouts ([context.WithTimeout]) show up as errors of
    the call; logging is left out. *)
From stdpp Require Import base list strings gmap.
From S2P Require Import Prelude GoStrings GoTime Api Effects Backups Storage Secrets Config.
Local Open Scope string_scope.
Local Open Scope list_scope.
Local Open Scope go_scope.

(** [walg.Client] holds its configuration. *)
Record Client := mkClient { client_config : Config }.

Definition NewClient (config : Config) : Client := mkClient config.

Definition NewClientFromBackupConfig (backupConfig : BackupConfigWithSecrets)
    (pgMajorVersion : Z) : prog Client :=
  config ← NewConfigFromBackupConfig backupConfig pgMajorVersion;
  Ret (NewClient config).

(** [cmd.New("wal-g", args...).WithContext(ctx).WithEnv(c.config.ToEnvMap()).Run()]. *)
Definition walg (c : Client) (args : list string) : prog (RunResult * option err) :=
  call (OExec "wal-g" args (ToEnvMap (client_config c))).

(** ** Backups *)

Definition BackupPush (c : Client) (pgdata userDataJSON : string)
    : prog (RunResult * option err) :=
  walg c ["backup-push"; pgdata; "--add-user-data"; userDataJSON].

Definition BackupFetch (c : Client) (targetDir backupName : string)
    : prog (RunResult * option err) :=
  walg c ["backup-fetch"; "--turbo"; targetDir; backupName].

Definition MarkBackupPermanent (c : Client) (backupName : string) : prog (option err) :=
  result ← walg c ["backup-mark"; backupName]; Ret (snd result).

Definition unmarkBackupPermanent (c : Client) (backupName : string)
    : prog (RunResult * option err) :=
  walg c ["backup-mark"; "-i"; backupName].

Definition UnmarkBackupPermanent (c : Client) (backupName : string) : prog (option err) :=
  result ← unmarkBackupPermanent c backupName; Ret (snd result).

(** The text wal-g prints when the backup to delete is not in the storage. *)
Definition backup_missing (backupName : string) (result : RunResult) : bool :=
  contains (rr_stderr result) ("Backup '" +:+ backupName +:+ "' does not exist.").

Definition DeleteBackup (c : Client) (backupName : string) : prog (RunResult * option err) :=
  _ ← unmarkBackupPermanent c backupName;
  '(result, err) ← walg c ["delete"; "target"; backupName; "--confirm"];
  let err := match err with
             | Some e => if backup_missing backupName result then None else Some e
             | None => None
             end in
  _ ← walg c ["delete"; "garbage"; "--confirm"];
  Ret (result, err).

Section decoding.
(** [json.Unmarshal] into a slice of backups and of timelines. *)
Variable unmarshal_backups : string → res (list BackupMetadata).
Variable unmarshal_timelines : string → res (list WALTimelineInfo).

Definition GetBackupsList (c : Client) : prog (res (list BackupMetadata)) :=
  '(result, err) ← walg c ["backup-list"; "--detail"; "--json"];
  match err with
  | Some e => Ret (Err (wrapf "failed to do wal-g backup-list: " e))
  | None =>
      Ret (match unmarshal_backups (rr_stdout result) with
           | Ok l => Ok l
           | Err e => Err (wrapf "cannot unmarshal wal-g backup-list output: " e)
           end)
  end.

Definition DeleteAllBackupsAndWALsInStorage (c : Client) : prog (RunResult * option err) :=
  backupsList ← GetBackupsList c;
  _ ← match backupsList with
      | Err _ => Ret tt
      | Ok backupsList =>
          for_each (λ b, if IsPermanent b
                         then _ ← UnmarkBackupPermanent c (BackupName b); Ret tt
                         else Ret tt) (reverse backupsList)
      end;
  walg c ["delete"; "everything"; "FORCE"; "--confirm"].

(** ** Storage *)

Definition StorageCheckReadable (c : Client) : prog (RunResult * option err) :=
  '(result, err) ← walg c ["st"; "check"; "read"];
  Ret (result, wrap_opt "storage read check failed: " err).

Definition StorageCheckWritable (c : Client) : prog (RunResult * option err) :=
  '(result, err) ← walg c ["st"; "check"; "write"];
  Ret (result, wrap_opt "storage write check failed: " err).

Definition WALShow (c : Client) : prog (res (list WALTimelineInfo)) :=
  '(result, err) ← walg c ["wal-show"; "--detailed-json"];
  match err with
  | Some e => Ret (Err (wrapf "wal-show failed: " e))
  | None =>
      Ret (match unmarshal_timelines (rr_stdout result) with
           | Ok l => Ok l
           | Err e => Err (wrapf "cannot unmarshal wal-g wal-show output: " e)
           end)
  end.

(** The number is returned beside the error of the scanner. *)
Definition StorageLsTotalSize (c : Client) (path : string) : prog (Z * option err) :=
  '(result, err) ← walg c ["st"; "ls"; path];
  match err with
  | Some e => Ret (0%Z, Some (wrapf ("storage ls failed for path " +:+ path +:+ ": ") e))
  | None => Ret (parseStorageLsOutput (rr_stdout result))
  end.

(** ** WAL segments *)

Definition WALPush (c : Client) (sourceFileName : string) : prog (RunResult * option err) :=
  walg c ["wal-push"; sourceFileName].

Definition WALFetch (c : Client) (sourceWalName destinationFileName : string)
    : prog (RunResult * option err) :=
  walg c ["wal-fetch"; sourceWalName; destinationFileName].

(** ** Properties *)

(** The argument vectors a trace runs wal-g with. *)
Definition command (e : event) : option (list string) :=
  match ev_op e with OExec name args _ => Some args | _ => None end.
Definition commands (t : list event) : list (list string) := omap command t.

(** Programs that run nothing. *)
Definition quiet (e : event) : Prop := command e = None.

Lemma reads_quiet e : reads e → quiet e.
Proof. destruct e as [[] ?]; done. Qed.

Lemma quiet_commands t : Forall quiet t → commands t = [].
Proof. induction 1 as [|e t He Ht IH]; [done|]. unfold commands in *. simpl. by rewrite He. Qed.

Lemma safe_reads_quiet {A} (p : prog A) : safe reads p → emits quiet p.
Proof. intros Hp. eapply emits_mono; [apply reads_quiet|by apply safe_emits]. Qed.

(** Building a client touches the environment, the file system and its caches only. *)
Lemma emits_NewClient P bc v :
  (∀ c k a, P (Ev (OCacheGet c k) a)) → (∀ c k d a, P (Ev (OCachePut c k d) a)) →
  (∀ p a, P (Ev (OMkdirAll p) a)) → (∀ p d a, P (Ev (OWriteFile p d) a)) →
  (∀ n a, P (Ev (OViperString n) a)) → (∀ p a, P (Ev (OStatIsDir p) a)) →
  emits P (NewClientFromBackupConfig bc v).
Proof.
  intros. unfold NewClientFromBackupConfig, NewConfigFromBackupConfig,
    NewConfigWithDefaults, setWalgPrefetchDir, apply_storage, ensureCACertFile,
    ensureGCSCredentialsFile, ensureCachedFile.
  emits_auto.
Qed.

Definition runs_walg (c : Client) (e : event) : Prop :=
  ∃ args, ev_op e = OExec "wal-g" args (ToEnvMap (client_config c)).

Lemma unmark_loop c l :
  wp (for_each (λ b, if IsPermanent b then _ ← UnmarkBackupPermanent c (BackupName b); Ret tt
                     else Ret tt) l)
    (λ t r, r = Returned tt ∧ Forall (runs_walg c) t ∧
       commands t = (λ b, ["backup-mark"; "-i"; BackupName b]) <$> filter_by IsPermanent l).
Proof.
  induction l as [|b l IH]; [done|]. cbn [for_each]. rewrite filter_by_cons. apply wp_bind.
  destruct (IsPermanent b).
  - intros a. simpl. eapply wp_mono; [|exact IH]. intros t r (-> & Ht & Hc).
    split_and!; [done| |unfold commands in *; simpl; by rewrite Hc]. constructor; [by eexists|done].
  - simpl. eapply wp_mono; [|exact IH]. by intros t r (-> & Ht & Hc).
Qed.

(** Wiping a storage.  Whatever wal-g does, the commands are: list the backups, clear
    the mark of every permanent backup of the list from the newest to the oldest, then
    delete everything.  When the list cannot be fetched or decoded no mark is cleared, and
    everything is deleted all the same; the answer is that of the last command. *)
Theorem DeleteAll_runs c :
  wp (DeleteAllBackupsAndWALsInStorage c) (λ t r,
    ∃ listing e x,
      r = Returned x ∧ Forall (runs_walg c) t ∧
      head t = Some (Ev (OExec "wal-g" ["backup-list"; "--detail"; "--json"]
                           (ToEnvMap (client_config c))) (listing, e)) ∧
      commands t =
        [["backup-list"; "--detail"; "--json"]] ++
        ((λ b, ["backup-mark"; "-i"; BackupName b]) <$>
          reverse (filter_by IsPermanent
            match e, unmarshal_backups (rr_stdout listing) with
            | None, Ok l => l
            | _, _ => []
            end)) ++
        [["delete"; "everything"; "FORCE"; "--confirm"]]).
Proof.
  unfold DeleteAllBackupsAndWALsInStorage, GetBackupsList, walg.
  intros [listing [e|]]; simpl.
  { intros x. exists listing, (Some e), x. split_and!; [done| |done|done].
    repeat constructor; by eexists. }
  destruct (unmarshal_backups (rr_stdout listing)) as [l|e] eqn:Hl; simpl.
  - apply wp_bind.
    eapply wp_mono; [|apply unmark_loop].
    intros t r (-> & Ht & Hc) x. exists listing, None, x. split_and!; [done| |done|].
    + constructor; [by eexists|]. apply Forall_app. split; [done|].
      repeat constructor; by eexists.
    + rewrite filter_by_reverse in Hc. rewrite Hl. unfold commands in *. simpl.
      rewrite omap_app, Hc. done.
  - intros x. exists listing, None, x. split_and!; [done| |done|by rewrite Hl].
    repeat constructor; by eexists.
Qed.
End decoding.

Lemma DeleteBackup_wp c backupName :
  wp (DeleteBackup c backupName) (λ t r,
    ∃ a1 result e a3,
      let run args := Ev (OExec "wal-g" args (ToEnvMap (client_config c))) in
      t = [run ["backup-mark"; "-i"; backupName] a1;
           run ["delete"; "target"; backupName; "--confirm"] (result, e);
           run ["delete"; "garbage"; "--confirm"] a3] ∧
      ∃ e', r = Returned (result, e') ∧
        (e' = None ↔ e = None ∨ backup_missing backupName result = true)).
Proof.
  unfold DeleteBackup, unmarkBackupPermanent, walg. simpl. intros a1 [result e] a3.
  exists a1, result, e, a3. split; [done|]. eexists. split; [done|].
  destruct e; [destruct (backup_missing backupName result)|]; naive_solver.
Qed.

(** Deleting a backup.  Whatever wal-g does, exactly three commands run, in order:
    clear the permanent mark, delete the backup, collect garbage.  The first and the last
    may fail without effect on the answer; the call succeeds exactly when the deletion did,
    or when wal-g reported that the backup does not exist (so deleting twice succeeds). *)
Theorem DeleteBackup_runs c backupName :
  wp (DeleteBackup c backupName) (λ t r,
    ∃ a1 result e a3,
      let run args := Ev (OExec "wal-g" args (ToEnvMap (client_config c))) in
      t = [run ["backup-mark"; "-i"; backupName] a1;
           run ["delete"; "target"; backupName; "--confirm"] (result, e);
           run ["delete"; "garbage"; "--confirm"] a3] ∧
      ∃ e', r = Returned (result, e') ∧
        (e' = None ↔ e = None ∨ backup_missing backupName result = true)).
Proof. exact (DeleteBackup_wp c backupName). Qed.
