(* ===== verification/ConfigFile.v ===== *)
(** The wal-g configuration as JSON: [Config.Hash] and [ToFile] of [pkg/walg/config.go], and the
    command [dump-config] of [internal/cmd/dump_config.go].

    The SHA-256 sum is a parameter, as in [Status].  What the command prints is left out.  The
    text determines the configuration: each piece of it is read back from what it is followed
    by.  The file is written over what it held before, which the last section makes precise. *)
From Stdlib Require Import ZArith Ascii Decimal DecimalZ DecimalString.
From stdpp Require Import base list strings gmap.
From S2P Require Import Prelude GoStrings Json GoTime Api Effects Secrets Config.
Local Open Scope string_scope.
Local Open Scope list_scope.
Local Open Scope go_scope.
Local Open Scope Z_scope.

(** ** [json.Marshal] and [json.MarshalIndent] of a [Config] *)

Definition json_field (f : field) : string :=
  match f with FString s => json_string s | _ => field_string f end.

(** Every field has the option [omitempty]. *)
Definition members (c : Config) : list (string * field) :=
  filter_by (λ nf, negb (is_zero nf.2)) (config_fields c).

Definition json_config (c : Config) : string :=
  "{" +:+ join "," ((λ nf, json_string nf.1 +:+ ":" +:+ json_field nf.2) <$> members c) +:+ "}".

Definition tab : string := String "009" "".
Definition json_config_indented (c : Config) : string :=
  match members c with
  | [] => "{}"
  | l => "{" +:+ newline +:+ tab +:+
         join ("," +:+ newline +:+ tab)
           ((λ nf, json_string nf.1 +:+ ": " +:+ json_field nf.2) <$> l) +:+ newline +:+ "}"
  end.

(** [sha256.Sum256], 32 bytes. *)
Definition Hash (sha256 : string → string) (c : Config) : string :=
  hex_encode (sha256 (json_config c)).

Definition ToFile (c : Config) (targetFilepath : string) : prog (option err) :=
  let bytes := json_config_indented c in
  e ← call (OOpenFile targetFilepath);
  match (e : option err) with
  | Some e => Ret (Some e)
  | None => call (OWriteOpened targetFilepath bytes)
  end.

(** What the file holds after a write from its start, when it was opened without [O_TRUNC]. *)
Definition overwrite (old new : string) : string :=
  new +:+ String.substring (String.length new) (String.length old - String.length new) old.

(** ** [dump-config] *)

(** The namespace and name of the parameter. *)
Definition dump_target (backupConfigParam : string) : string * string :=
  match cut backupConfigParam "/" with
  | Some (namespace, name) =>
      if String.eqb namespace "" then ("default", backupConfigParam) else (namespace, name)
  | None => ("default", backupConfigParam)
  end.

Definition runDumpConfig : prog (option err) :=
  backupConfigParam ← call (OViperString "backup-config");
  if String.eqb backupConfigParam ""
  then Ret (Some (errorf "backup-config parameter is required"))
  else
    let '(namespace, backupConfigName) := dump_target backupConfigParam in
    output ← call (OViperString "output");
    let outputPath := if String.eqb output "" then "walg.json" else output in
    let what := "BackupConfig " +:+ namespace +:+ "/" +:+ backupConfigName +:+ ": " in
    backupConfig ← call (OGet KBackupConfig (mkKey namespace backupConfigName));
    match (backupConfig : res BackupConfig) with
    | Err e => Ret (Some (wrapf ("failed to get " +:+ what) e))
    | Ok backupConfig =>
        backupConfigWithSecrets ← PrefetchSecretsData backupConfig;
        match (backupConfigWithSecrets : res BackupConfigWithSecrets) with
        | Err e => Ret (Some (wrapf ("failed to prefetch secrets for " +:+ what) e))
        | Ok backupConfigWithSecrets =>
            pgMajorVersion ← call (OViperInt "pg_major");
            config ← NewConfigFromBackupConfig backupConfigWithSecrets pgMajorVersion;
            e ← ToFile config outputPath;
            Ret (wrap_opt ("failed to write config to file " +:+ outputPath +:+ ": ") e)
        end
    end.

(** The checks of [NewDumpConfigCmd] on the arguments; [get_int] is [viper.GetInt] of what was
    set. *)
Definition dump_config_args (get_int : string → Z) (args : list string) : option err :=
  match args with
  | [_; pg_major] =>
      if get_int pg_major <? 10
      then Some (errorf ("unsupported pg version passed: " +:+ format_int (get_int pg_major) +:+
                         ", should be single number"))
      else None
  | _ => Some (errorf
      "provide 2 arguments - BackupConfig resource name and postgresql major version number")
  end.

(** ** The text determines the configuration

    An encoding is read back when, followed by what may follow it, it fixes the value and the
    text that comes after: so such encodings can be put one after the other. *)
Definition reads_back {A} (ok : A → Prop) (enc : A → string) (follows : string → Prop) : Prop :=
  ∀ a b x y, ok a → ok b → follows x → follows y → enc a +:+ x = enc b +:+ y → a = b ∧ x = y.

Lemma append_split a b x y :
  a +:+ x = b +:+ y → (∃ r, b = a +:+ r) ∨ (∃ r, a = b +:+ r).
Proof.
  revert b. induction a as [|c a IH]; intros [|d b] Heq; [left; by exists ""|left; eauto|right; eauto|].
  rewrite !append_cons in Heq. injection Heq as -> Heq.
  destruct (IH b Heq) as [[r ->]|[r ->]]; [left|right]; by exists r.
Qed.

Lemma append_cancel a x y : a +:+ x = a +:+ y → x = y.
Proof. intros H. by apply (append_inj a x a y) in H as [_ ?]. Qed.

Fixpoint all_chars (p : ascii → bool) (s : string) : bool :=
  match s with "" => true | String c s => p c && all_chars p s end.

Definition low (c : ascii) : bool := byte_of c <? 0x80.
Definition is_ascii : string → bool := all_chars low.

Lemma escape_cons c s n :
  low c = true → escape (S n) (String c s) = escape_ascii c +:+ escape n s.
Proof. intros Hc. unfold low in Hc. cbn [escape]. by rewrite Hc. Qed.

(** No escape sequence is a prefix of another, and none starts with the closing quote. *)
Definition ascii_chars : list ascii := ascii_of_nat <$> seq 0 128.
Definition words_apart (a b : ascii) : bool :=
  Ascii.eqb a b || negb (has_prefix (escape_ascii a) (escape_ascii b)).
Definition word_inside (a : ascii) : bool :=
  match escape_ascii a with "" => false | String c _ => negb (has_prefix (String c "") dquote) end.

Lemma words_ok :
  forallb (λ a, word_inside a && forallb (words_apart a) ascii_chars) ascii_chars = true.
Proof. vm_compute. reflexivity. Qed.

Lemma ascii_char c : low c = true → c ∈ ascii_chars.
Proof.
  intros Hc%Z.ltb_lt. unfold byte_of in Hc. unfold ascii_chars. apply list_elem_of_fmap.
  exists (nat_of_ascii c). rewrite ascii_nat_embedding. split; [done|]. apply elem_of_seq. lia.
Qed.

Lemma words_ok_at a b :
  low a = true → low b = true →
  word_inside a = true ∧ words_apart a b = true.
Proof.
  intros Ha%ascii_char Hb%ascii_char. pose proof words_ok as H.
  rewrite forallb_forall in H. apply list_elem_of_In in Ha, Hb.
  specialize (H a Ha). apply andb_true_iff in H as [H1 H2]. split; [done|].
  rewrite forallb_forall in H2. by apply H2.
Qed.

Lemma escape_ascii_reads_back :
  reads_back (λ c, low c = true) escape_ascii (λ _, True).
Proof.
  intros a b x y Ha Hb _ _ Heq.
  assert (∀ u v, low u = true → low v = true →
            (∃ r, escape_ascii u = escape_ascii v +:+ r) → u = v) as Hp.
  { intros u v Hu Hv Hr. destruct (words_ok_at u v Hu Hv) as [_ Hw].
    unfold words_apart in Hw. apply orb_true_iff in Hw as [Hw|Hw]; [by apply Ascii.eqb_eq|].
    apply negb_true_iff in Hw. apply has_prefix_true in Hr. congruence. }
  assert (a = b) as <-.
  { destruct (append_split _ _ _ _ Heq) as [Hr|Hr]; [symmetry|]; by apply Hp. }
  split; [done|]. by apply append_cancel in Heq.
Qed.

Lemma escape_ascii_not_quote c x y :
  low c = true → escape_ascii c +:+ x ≠ dquote +:+ y.
Proof.
  intros Hc Heq. destruct (words_ok_at c c Hc Hc) as [Hw _]. unfold word_inside in Hw.
  destruct (escape_ascii c) as [|d r]; [done|].
  rewrite append_cons in Heq. change dquote with (String (ascii_of_nat 34) "") in *.
  rewrite append_cons, append_nil_l in Heq. injection Heq as -> _. by vm_compute in Hw.
Qed.

Lemma json_string_reads_back : reads_back (λ s, is_ascii s = true) json_string (λ _, True).
Proof.
  intros a b x y Ha Hb _ _. unfold json_string. rewrite <-!append_assoc.
  intros Heq%append_cancel. revert b Hb Heq.
  induction a as [|c a IH]; intros [|d b] Hb Heq.
  - split; [done|]. by do 2 apply append_cancel in Heq.
  - apply andb_true_iff in Hb as [Hd _]. cbn [String.length] in Heq.
    rewrite (escape_cons d b _ Hd), <-append_assoc in Heq.
    exfalso. eapply escape_ascii_not_quote; [exact Hd|exact (eq_sym Heq)].
  - apply andb_true_iff in Ha as [Hc _]. cbn [String.length] in Heq.
    rewrite (escape_cons c a _ Hc), <-append_assoc in Heq.
    exfalso. eapply escape_ascii_not_quote; [exact Hc|exact Heq].
  - apply andb_true_iff in Ha as [Hc Ha], Hb as [Hd Hb]. cbn [String.length] in Heq.
    rewrite (escape_cons c a _ Hc), (escape_cons d b _ Hd), <-!append_assoc in Heq.
    apply escape_ascii_reads_back in Heq as [<- Heq]; [|done..].
    by destruct (IH Ha b Hb Heq) as [<- <-].
Qed.

(** Numbers and booleans hold no quote and nothing that ends a member. *)
Definition bare_char (c : ascii) : bool :=
  forallb (λ d, negb (Ascii.eqb c d)) [","%char; "}"%char; "010"%char; "034"%char].
Definition ends_member (x : string) : Prop :=
  ∃ c r, x = String c r ∧ c ∈ [","%char; "}"%char; "010"%char].

Lemma ends_not_bare c : c ∈ [","%char; "}"%char; "010"%char] → bare_char c = false.
Proof. intros Hc. repeat (apply elem_of_cons in Hc as [->|Hc]; [done|]). by apply elem_of_nil in Hc. Qed.

Lemma bare_reads_back : reads_back (λ s, all_chars bare_char s = true) (λ s, s) ends_member.
Proof.
  intros a. induction a as [|c a IH]; intros [|d b] x y Ha Hb Hx Hy Heq; [done|..].
  - destruct Hx as (c & r & -> & Hc). rewrite append_cons, append_nil_l in Heq.
    injection Heq as <- _. apply andb_true_iff in Hb as [Hb _]. apply ends_not_bare in Hc. congruence.
  - destruct Hy as (d & r & -> & Hd). rewrite append_cons, append_nil_l in Heq.
    injection Heq as -> _. apply andb_true_iff in Ha as [Ha _]. apply ends_not_bare in Hd. congruence.
  - rewrite !append_cons in Heq. injection Heq as -> Heq.
    apply andb_true_iff in Ha as [_ Ha], Hb as [_ Hb].
    by destruct (IH b x y Ha Hb Hx Hy Heq) as [-> ->].
Qed.

Lemma bare_format_int z : all_chars bare_char (format_int z) = true.
Proof.
  assert (∀ d, all_chars bare_char (NilEmpty.string_of_uint d) = true) as Hu.
  { induction d; cbn -[bare_char]; rewrite ?IHd; done. }
  unfold format_int. destruct (Z.to_int z); cbn -[bare_char]; rewrite Hu; done.
Qed.

Definition plain (f : field) : Prop :=
  field_ok f ∧ match f with FString s => is_ascii s = true | _ => True end.

Lemma field_string_inj f g :
  field_ok f → field_ok g → field_string f = field_string g →
  match f, g with FString _, _ | _, FString _ => True | _, _ => f = g end.
Proof.
  intros Hf Hg Heq. destruct f as [s|z|b], g as [s'|z'|b']; try done; simpl in *.
  - apply atoi_format_int in Hf, Hg. congruence.
  - apply atoi_format_int in Hf. rewrite Heq in Hf. by destruct b'; vm_compute in Hf.
  - apply atoi_format_int in Hg. rewrite <-Heq in Hg. by destruct b; vm_compute in Hg.
  - by destruct b, b'.
Qed.

Lemma bare_field f :
  match f with FString _ => True | _ => all_chars bare_char (json_field f) = true end.
Proof. destruct f as [s|z|[]]; [done|apply bare_format_int|done..]. Qed.

Lemma json_string_not_bare s x y t :
  all_chars bare_char t = true → ends_member y → json_string s +:+ x ≠ t +:+ y.
Proof.
  intros Ht (c & r & -> & Hc) Heq.
  change (json_string s) with (dquote +:+ (escape (String.length s) s +:+ dquote)) in Heq.
  destruct t as [|d t]; injection Heq as Heq _.
  - subst c. by repeat (apply elem_of_cons in Hc as [[=]|Hc]); apply elem_of_nil in Hc.
  - subst d. apply andb_true_iff in Ht as [Ht _]. by vm_compute in Ht.
Qed.

Lemma json_field_reads_back : reads_back plain json_field ends_member.
Proof.
  intros f g x y [Hf Hfs] [Hg Hgs] Hx Hy Heq.
  pose proof (bare_field f) as Bf. pose proof (bare_field g) as Bg.
  destruct f as [s|z|b], g as [s'|z'|b'];
    try (by apply json_string_reads_back in Heq as [<- <-]);
    try (exfalso; by apply json_string_not_bare in Heq);
    try (exfalso; by apply eq_sym, json_string_not_bare in Heq);
    apply (bare_reads_back _ _ x y Bf Bg Hx Hy) in Heq as [Heq ->];
    (split; [|done]); by apply (field_string_inj _ _ Hf Hg Heq).
Qed.

Section members_text.
Context (colon sep fin : string).
Hypothesis sep_comma : ∃ r, sep = String "," r.
Hypothesis fin_ends : ∃ c r, fin = String c r ∧ c ∈ ["}"%char; "010"%char].

Definition json_member (nf : string * field) : string :=
  json_string nf.1 +:+ colon +:+ json_field nf.2.
Definition member_ok (nf : string * field) : Prop := is_ascii nf.1 = true ∧ plain nf.2.

Lemma json_member_reads_back : reads_back member_ok json_member ends_member.
Proof.
  intros [n f] [n' g] x y [Hn Hf] [Hn' Hg] Hx Hy Heq. unfold json_member in Heq. simpl fst in *.
  simpl snd in *. rewrite <-!append_assoc in Heq.
  apply json_string_reads_back in Heq as [<- Heq%append_cancel]; [|done..].
  by apply json_field_reads_back in Heq as [<- <-].
Qed.

(** What follows a member. *)
Definition closing (l : list (string * field)) : string :=
  foldr (λ nf rest, sep +:+ json_member nf +:+ rest) fin l.

Lemma fin_not_sep x : fin ≠ sep +:+ x.
Proof.
  destruct sep_comma as [r ->], fin_ends as (c & r' & -> & Hc). intros [= -> _].
  by repeat (apply elem_of_cons in Hc as [[=]|Hc]); apply elem_of_nil in Hc.
Qed.

Lemma closing_ends l : ends_member (closing l).
Proof.
  destruct l as [|nf l].
  - destruct fin_ends as (c & r & Hfin & Hc). exists c, r. split; [done|by right].
  - destruct sep_comma as [r Hsep]. eexists ","%char, _. split; [|by left].
    change (closing (nf :: l)) with (sep +:+ json_member nf +:+ closing l).
    rewrite Hsep at 1. reflexivity.
Qed.

Lemma join_closing nf l :
  join sep (json_member <$> nf :: l) +:+ fin = json_member nf +:+ closing l.
Proof.
  revert nf. induction l as [|ng l IH]; intros nf; [done|].
  change (join sep (json_member <$> nf :: ng :: l))
    with (json_member nf +:+ sep +:+ join sep (json_member <$> ng :: l)).
  rewrite <-!append_assoc, IH. done.
Qed.

Lemma closing_inj l l' :
  Forall member_ok l → Forall member_ok l' → closing l = closing l' → l = l'.
Proof.
  revert l'. induction l as [|nf l IH]; intros [|ng l'] Hl Hl' Heq; [done| | |].
  - by destruct (fin_not_sep _ Heq).
  - by destruct (fin_not_sep _ (eq_sym Heq)).
  - apply Forall_cons in Hl as [Hf Hl], Hl' as [Hg Hl']. apply append_cancel in Heq.
    apply json_member_reads_back in Heq as [<- Heq]; [|done|done|apply closing_ends..].
    f_equal. by apply IH.
Qed.

Lemma joined_inj nf l ng l' :
  Forall member_ok (nf :: l) → Forall member_ok (ng :: l') →
  join sep (json_member <$> nf :: l) +:+ fin = join sep (json_member <$> ng :: l') +:+ fin →
  nf :: l = ng :: l'.
Proof.
  intros Hl Hl'. rewrite !join_closing. intros Heq. apply (closing_inj _ _ Hl Hl').
  unfold closing. cbn [foldr]. f_equal. exact Heq.
Qed.

End members_text.

(** The ints of the configuration are 64-bit values, its strings are ASCII. *)
Definition config_plain (c : Config) : Prop := Forall (λ nf, plain nf.2) (config_fields c).

Lemma config_names_ascii c : Forall (λ nf, is_ascii nf.1 = true) (config_fields c).
Proof. repeat (constructor; [reflexivity|]). constructor. Qed.

Lemma members_ok_of l :
  Forall (λ nf, is_ascii nf.1 = true) l → Forall (λ nf, plain nf.2) l →
  Forall member_ok (filter_by (λ nf, negb (is_zero nf.2)) l).
Proof.
  intros Hn Hc. rewrite Forall_forall in Hn, Hc. apply Forall_forall.
  intros nf [Hin _]%elem_of_filter_by. split; auto.
Qed.

Lemma members_ok c : config_plain c → Forall member_ok (members c).
Proof. intros Hc. exact (members_ok_of _ (config_names_ascii c) Hc). Qed.

(** The two texts of a list of members. *)
Definition compact_text (l : list (string * field)) : string :=
  "{" +:+ join "," (json_member ":" <$> l) +:+ "}".
Definition indented_text (l : list (string * field)) : string :=
  match l with
  | [] => "{}"
  | l => "{" +:+ newline +:+ tab +:+
         join ("," +:+ newline +:+ tab) (json_member ": " <$> l) +:+ newline +:+ "}"
  end.

Lemma compact_text_inj l l' :
  Forall member_ok l → Forall member_ok l' → compact_text l = compact_text l' → l = l'.
Proof.
  intros Hl Hl' Heq%append_cancel.
  destruct l as [|nf l], l' as [|ng l']; 
    [done|rewrite join_closing in Heq; discriminate..|].
  apply (joined_inj ":" "," "}"); try done; [by exists ""|].
  exists "}"%char, "". split; [done|set_solver].
Qed.

Lemma indented_text_inj l l' :
  Forall member_ok l → Forall member_ok l' → indented_text l = indented_text l' → l = l'.
Proof.
  intros Hl Hl' Heq. destruct l as [|nf l], l' as [|ng l']; [done|(by injection Heq)..|].
  do 3 apply append_cancel in Heq.
  apply (joined_inj ": " ("," +:+ newline +:+ tab) (newline +:+ "}")); try done; [by eexists|].
  eexists _, _. split; [done|set_solver].
Qed.

Lemma json_config_text c : json_config c = compact_text (members c).
Proof. unfold json_config, compact_text, json_member. reflexivity. Qed.

Lemma json_config_indented_text c : json_config_indented c = indented_text (members c).
Proof.
  unfold json_config_indented, indented_text, json_member. by destruct (members c).
Qed.

(** A member that is left out has the zero value of its type. *)
Lemma zero_fields f g : same_kind f g → is_zero f = true → is_zero g = true → f = g.
Proof.
  destruct f as [s|z|b], g as [s'|z'|b']; simpl; try done; intros _.
  - by intros ->%String.eqb_eq ->%String.eqb_eq.
  - by intros ->%Z.eqb_eq ->%Z.eqb_eq.
  - by destruct b, b'.
Qed.

Lemma filtered_inj (l l' : list (string * field)) :
  Forall2 (λ nf ng, nf.1 = ng.1 ∧ same_kind nf.2 ng.2) l l' → NoDup l.*1 → NoDup l'.*1 →
  filter_by (λ nf, negb (is_zero nf.2)) l = filter_by (λ nf, negb (is_zero nf.2)) l' → l = l'.
Proof.
  assert (∀ (nf : string * field) k k', nf :: k = filter_by (λ nf, negb (is_zero nf.2)) k' → nf.1 ∈ k'.*1) as Hin.
  { intros nf k k' Heq. assert (nf ∈ nf :: k) as H by by left.
    rewrite Heq in H. apply elem_of_filter_by in H as [H _]. apply list_elem_of_fmap. eauto. }
  intros Hk. induction Hk as [|[n f] [n' g] l l' [Hn Hfg] Hk IH]; intros Hl Hl'; [done|].
  rewrite fmap_cons in Hl, Hl'. apply NoDup_cons in Hl as [Hnl Hl], Hl' as [Hnl' Hl'].
  simpl in *. subst n'. destruct (is_zero f) eqn:Hf, (is_zero g) eqn:Hg; simpl; intros Heq.
  - rewrite (zero_fields f g Hfg Hf Hg). f_equal. by apply IH.
  - destruct Hnl. by apply (Hin (n, g) _ _ (eq_sym Heq)).
  - destruct Hnl'. by apply (Hin (n, f) _ _ Heq).
  - injection Heq as <- Heq. f_equal. by apply IH.
Qed.

Lemma members_inj c c' : members c = members c' → c = c'.
Proof.
  unfold members. intros Heq. apply config_fields_inj. revert Heq.
  apply filtered_inj; [apply config_fields_kind|apply config_names_NoDup..].
Qed.

Lemma hex_digit_inj m n : (m < 16)%nat → (n < 16)%nat → hex_digit m = hex_digit n → m = n.
Proof.
  intros Hm Hn Heq.
  do 16 (destruct m as [|m]; [do 16 (destruct n as [|n]; [done || by vm_compute in Heq|]); lia|]).
  lia.
Qed.

Lemma hex_encode_inj s s' : hex_encode s = hex_encode s' → s = s'.
Proof.
  revert s'. induction s as [|c s IH]; intros [|d s'] Heq; [done..|].
  cbn [hex_encode] in Heq. cbv zeta in Heq. injection Heq as Hhi Hlo Heq. f_equal; [|by apply IH].
  pose proof (nat_ascii_bounded c). pose proof (nat_ascii_bounded d).
  apply (hex_digit_inj (nat_of_ascii c / 16) (nat_of_ascii d / 16)) in Hhi;
    [|apply Nat.Div0.div_lt_upper_bound; lia..].
  apply (hex_digit_inj (nat_of_ascii c mod 16) (nat_of_ascii d mod 16)) in Hlo;
    [|apply Nat.mod_upper_bound; lia..].
  rewrite <-(ascii_nat_embedding c), <-(ascii_nat_embedding d). f_equal.
  rewrite (Nat.div_mod_eq (nat_of_ascii c) 16), (Nat.div_mod_eq (nat_of_ascii d) 16). congruence.
Qed.

(** C37: the file of [dump-config] and the hash carry the whole configuration.  Two configurations
    of ASCII strings and 64-bit ints with the same JSON file are equal: the escaped strings, the
    digits and the separators can be read back in one way only, and a member left out is a zero
    value.  Two with the same hash are equal unless SHA-256 collides on their texts. *)
Theorem config_text_determines sha256 c c' :
  config_plain c → config_plain c' →
  (json_config_indented c = json_config_indented c' → c = c') ∧
  ((sha256 (json_config c) = sha256 (json_config c') → json_config c = json_config c') →
   Hash sha256 c = Hash sha256 c' → c = c').
Proof.
  intros Hc%members_ok Hc'%members_ok. split.
  - rewrite !json_config_indented_text. intros Heq. apply members_inj.
    exact (indented_text_inj _ _ Hc Hc' Heq).
  - intros Hsha Heq%hex_encode_inj%Hsha. apply members_inj.
    rewrite !json_config_text in Heq. exact (compact_text_inj _ _ Hc Hc' Heq).
Qed.

Lemma default_config_plain : config_plain default_config.
Proof.
  unfold config_plain, config_fields.
  repeat (apply Forall_cons; split;
    [split; [first [exact I | split; discriminate] | first [exact I | reflexivity]]|]).
  apply Forall_nil_2.
Qed.

Lemma config_text_determines_witness :
  config_plain default_config ∧ default_config = default_config.
Proof.
  split; [exact default_config_plain|].
  apply (config_text_determines (λ s, s) default_config default_config
           default_config_plain default_config_plain); [done|reflexivity].
Defined.

(** ** The file, on a disk *)

(** [os.OpenFile] with [O_CREATE] makes a missing file and keeps the content of another one. *)
Definition disk_handler : handler (gmap string string) := λ o disk,
  match o return ans o * gmap string string with
  | OOpenFile path => (None, <[path := default "" (disk !! path)]> disk)
  | OWriteOpened path data => (None, <[path := overwrite (default "" (disk !! path)) data]> disk)
  | o' => (default_ans o', disk)
  end.

Lemma substring_length n m s :
  (n + m ≤ String.length s)%nat → String.length (String.substring n m s) = m.
Proof.
  revert n m. induction s as [|c s IH]; intros [|n] [|m] Hl; simpl in *; try lia; try done.
  - f_equal. apply IH. lia.
  - by apply (IH n 0%nat); lia.
  - by apply (IH n (S m)); lia.
Qed.

Lemma overwrite_exact old new : overwrite old new = new ↔ (String.length old ≤ String.length new)%nat.
Proof.
  unfold overwrite. split.
  - intros Heq. apply (f_equal String.length) in Heq. rewrite length_append in Heq.
    destruct (decide (String.length new < String.length old)%nat); [|lia].
    rewrite substring_length in Heq by lia. lia.
  - intros Hl. replace (String.length old - String.length new)%nat with 0%nat by lia.
    assert (∀ n s, String.substring n 0 s = "") as ->; [|apply append_nil_r].
    intros n s. revert n. induction s as [|c s IH]; intros [|n]; simpl; auto.
Qed.

(** [ToFile] leaves the file with the text of the configuration exactly when the file was not
    longer before: the end of a longer one stays behind the text. *)
Theorem ToFile_contents c path disk :
  let '(r, _, disk') := run disk_handler (ToFile c path) disk in
  r = Returned None ∧
  (disk' !! path = Some (json_config_indented c) ↔
   (String.length (default "" (disk !! path)) ≤ String.length (json_config_indented c))%nat) ∧
  ∀ path', path' ≠ path → disk' !! path' = disk !! path'.
Proof.
  unfold ToFile. cbn [run call mbind prog_bind bind disk_handler].
  generalize (json_config_indented c). intros text.
  split; [done|]. rewrite !lookup_insert_eq. split.
  - rewrite <-overwrite_exact. cbn [from_option]. unfold id.
    split; [by intros [= ?]|by intros ->].
  - intros path' Hne. by rewrite !lookup_insert_ne.
Qed.

(** The file of a configuration with a long prefix, then dumped again with a short one. *)
Definition with_prefix (c : Config) (prefix : string) : Config :=
  mkConfig (AWSAccessKeyID c) (AWSEndpoint c) (AWSS3ForcePathStyle c) (AWSRegion c)
    (AWSSecretAccessKey c) (GoogleApplicationCredentials c) (GoDebug c) (GoMaxProcs c) (PgHost c)
    (PgUser c) (S3LogLevel c) (TotalBgUploadedLimit c) (WaleGPGKeyID c) (WalgGSPrefix c) prefix
    (WalgAliveCheckInterval c) (WalgCompressionMethod c) (WalgDeltaMaxSteps c)
    (WalgDiskRateLimit c) (WalgDownloadConcurrency c) (WalgDownloadFileRetries c)
    (WalgFailoverStoragesCacheLifetime c) (WalgFailoverStoragesCheck c)
    (WalgFailoverStoragesCheckSize c) (WalgLibsodiumKey c) (WalgLibsodiumKeyPath c)
    (WalgLibsodiumKeyTransform c) (WalgLogDestination c) (WalgNetworkRateLimit c)
    (WalgPgpKeyPath c) (WalgPrefetchDir c) (WalgPreventWalOverwrite c) (WalgS3CACertFile c)
    (WalgS3StorageClass c) (WalgTarDisableFsync c) (WalgTarSizeThreshold c)
    (WalgUploadConcurrency c) (WalgUploadDiskConcurrency c).

Example stale_tail :
  let twice := ToFile (with_prefix default_config "s3://bucket/a/17") "walg.json" ≫= λ _,
               ToFile (with_prefix default_config "s3://b/17") "walg.json" in
  snd (run disk_handler twice ∅) !! "walg.json" =
    Some (json_config_indented (with_prefix default_config "s3://b/17") +:+
          "Y" +:+ dquote +:+ ": 8" +:+ newline +:+ "}").
Proof. vm_compute. reflexivity. Qed.

Example dump_target_examples :
  dump_target "prod/backup" = ("prod", "backup") ∧ dump_target "backup" = ("default", "backup") ∧
  dump_target "/backup" = ("default", "/backup").
Proof. repeat split. Qed.
