(* ===== verification/Webhook.v ===== *)
(** [internal/webhook/v1beta1/backupconfig_webhook.go]: validation and defaulting of
    BackupConfigs, and what an accepted one is good for. *)
From stdpp Require Import base list strings gmap.
From S2P Require Import Prelude GoStrings GoTime Api Effects Secrets Config.
Local Open Scope string_scope.
Local Open Scope list_scope.

(** ** The checks: [None] is the nil error; no check ever returns a warning *)

Definition is_nil {A} (o : option A) : bool := match o with None => true | Some _ => false end.

Definition validateStorage (backupconfig : BackupConfig) : option err :=
  let storage := Storage (bc_Spec backupconfig) in
  if String.eqb (st_StorageType storage) StorageTypeS3 && is_nil (st_S3 storage)
  then Some (errorf "failed to get S3-specific configuration for object storage")
  else if String.eqb (st_StorageType storage) StorageTypeGCS && is_nil (st_GCS storage)
  then Some (errorf "failed to get GCS-specific configuration for object storage")
  else None.

Definition validateValueFromSource (valueFrom : option ValueFromSource) (fieldName : string)
    : option err :=
  match valueFrom with
  | None => None
  | Some v =>
      match SecretKeyRef v, ConfigMapKeyRef v with
      | Some _, Some _ =>
          Some (errorf (fieldName +:+ " cannot specify both secretKeyRef and configMapKeyRef"))
      | None, None =>
          Some (errorf (fieldName +:+ " must specify either secretKeyRef or configMapKeyRef"))
      | Some ref, None =>
          if String.eqb (sel_Name ref) ""
          then Some (errorf (fieldName +:+ ".secretKeyRef.name cannot be empty"))
          else if String.eqb (sel_Key ref) ""
          then Some (errorf (fieldName +:+ ".secretKeyRef.key cannot be empty"))
          else None
      | None, Some ref =>
          if String.eqb (sel_Name ref) ""
          then Some (errorf (fieldName +:+ ".configMapKeyRef.name cannot be empty"))
          else if String.eqb (sel_Key ref) ""
          then Some (errorf (fieldName +:+ ".configMapKeyRef.key cannot be empty"))
          else None
      end
  end.

(** [if err := a; err != nil { return err }; b]. *)
Definition or_else (a b : option err) : option err :=
  match a with Some e => Some e | None => b end.

Definition both_set (direct : string) (from : option ValueFromSource) : bool :=
  negb (String.eqb direct "") && negb (is_nil from).

Definition validateS3MutualExclusivity (backupconfig : BackupConfig) : option err :=
  match st_S3 (Storage (bc_Spec backupconfig)) with
  | None => None
  | Some s3Config =>
      if both_set (s3_Prefix s3Config) (s3_PrefixFrom s3Config)
      then Some (errorf "cannot specify both prefix and prefixFrom")
      else if both_set (s3_Region s3Config) (s3_RegionFrom s3Config)
      then Some (errorf "cannot specify both region and regionFrom")
      else if both_set (s3_EndpointURL s3Config) (s3_EndpointURLFrom s3Config)
      then Some (errorf "cannot specify both endpointUrl and endpointUrlFrom")
      else or_else (validateValueFromSource (s3_PrefixFrom s3Config) "prefixFrom")
           (or_else (validateValueFromSource (s3_RegionFrom s3Config) "regionFrom")
              (validateValueFromSource (s3_EndpointURLFrom s3Config) "endpointUrlFrom"))
  end.

Definition validateGCSMutualExclusivity (backupconfig : BackupConfig) : option err :=
  match st_GCS (Storage (bc_Spec backupconfig)) with
  | None => None
  | Some gcsConfig =>
      if both_set (gcs_Prefix gcsConfig) (gcs_PrefixFrom gcsConfig)
      then Some (errorf "cannot specify both prefix and prefixFrom")
      else validateValueFromSource (gcs_PrefixFrom gcsConfig) "prefixFrom"
  end.

(** The details of [apierrors.NewInvalid]; the empty list is acceptance. *)
Definition validateBackupConfig (backupconfig : BackupConfig) : list string :=
  omap (λ validate : BackupConfig → option err, emsg <$> validate backupconfig)
    [validateStorage; validateS3MutualExclusivity; validateGCSMutualExclusivity].

Definition ValidateCreate (obj : BackupConfig) : list string := validateBackupConfig obj.
Definition ValidateUpdate (oldObj newObj : BackupConfig) : list string :=
  validateBackupConfig newObj.
Definition ValidateDelete (obj : BackupConfig) : list string := [].

(** [BackupConfigCustomDefaulter.Default], which sets the defaults of its argument: the object
    afterwards, and the error. *)
Definition CustomDefaulter_Default (obj : BackupConfig) : BackupConfig * option err :=
  (Default obj, None).

(** The defaults do not decide about admission.  The defaulter never fails, and setting its
    defaults twice changes nothing more; an object is accepted after it exactly when it was
    before, with the same complaints; all it can change are the two fields with a default, and
    none that was set. *)
Theorem defaults_admitted obj :
  let '(obj', e) := CustomDefaulter_Default obj in
  e = None ∧ CustomDefaulter_Default obj' = (obj', None) ∧
  ValidateCreate obj' = ValidateCreate obj ∧ ValidateUpdate obj obj' = ValidateUpdate obj obj ∧
  bc_meta obj' = bc_meta obj ∧ bc_Status obj' = bc_Status obj ∧
  Storage (bc_Spec obj') = Storage (bc_Spec obj) ∧
  Retention (bc_Spec obj') = Retention (bc_Spec obj) ∧
  DownloadFileRetries (bc_Spec obj') ≠ 0%Z ∧
  (DownloadFileRetries (bc_Spec obj) ≠ 0%Z → Default obj = obj).
Proof.
  destruct obj as [m [dc ud un uc uk retries steps tf tt r stg rs enc] st].
  unfold CustomDefaulter_Default, Default, DefaultDeltaMaxSteps, DefaultDownloadFileRetries. cbn.
  destruct (Z.eqb_spec retries 0) as [->|Hr], (Z.eqb_spec steps 0) as [->|Hs]; cbn;
    rewrite ?(proj2 (Z.eqb_neq _ _) Hr), ?(proj2 (Z.eqb_neq _ _) Hs); by split_and!.
Qed.

(** ** What acceptance means *)

Definition source_ok (direct : string) (from : option ValueFromSource) : Prop :=
  match from with
  | None => True
  | Some v => direct = "" ∧
      ((∃ ref, v = mkValueFrom (Some ref) None) ∨ (∃ ref, v = mkValueFrom None (Some ref)))
  end.

Lemma validateValueFromSource_ok from n direct :
  validateValueFromSource from n = None → both_set direct from = false → source_ok direct from.
Proof.
  unfold both_set, source_ok. destruct from as [[[r|] [r'|]]|]; simpl; try done;
    rewrite andb_true_r, negb_false_iff, String.eqb_eq; eauto.
Qed.

Lemma accepted_parts b :
  validateBackupConfig b = [] →
  validateStorage b = None ∧ validateS3MutualExclusivity b = None ∧
  validateGCSMutualExclusivity b = None.
Proof.
  unfold validateBackupConfig. simpl.
  by destruct (validateStorage b), (validateS3MutualExclusivity b),
    (validateGCSMutualExclusivity b).
Qed.

Lemma accepted_s3 b s3 :
  validateBackupConfig b = [] → st_S3 (Storage (bc_Spec b)) = Some s3 →
  source_ok (s3_Prefix s3) (s3_PrefixFrom s3) ∧ source_ok (s3_Region s3) (s3_RegionFrom s3) ∧
  source_ok (s3_EndpointURL s3) (s3_EndpointURLFrom s3).
Proof.
  intros (_ & H & _)%accepted_parts Hs. unfold validateS3MutualExclusivity in H.
  rewrite Hs in H. destruct (both_set (s3_Prefix s3) _) eqn:H1; [done|].
  destruct (both_set (s3_Region s3) _) eqn:H2; [done|].
  destruct (both_set (s3_EndpointURL s3) _) eqn:H3; [done|].
  unfold or_else in H. destruct (validateValueFromSource (s3_PrefixFrom s3) _) eqn:E1; [done|].
  destruct (validateValueFromSource (s3_RegionFrom s3) _) eqn:E2; [done|].
  split_and!; eauto using validateValueFromSource_ok.
Qed.

Lemma accepted_gcs b gcs :
  validateBackupConfig b = [] → st_GCS (Storage (bc_Spec b)) = Some gcs →
  source_ok (gcs_Prefix gcs) (gcs_PrefixFrom gcs).
Proof.
  intros (_ & _ & H)%accepted_parts Hs. unfold validateGCSMutualExclusivity in H.
  rewrite Hs in H. destruct (both_set _ _) eqn:H1; [done|].
  eauto using validateValueFromSource_ok.
Qed.

(** ** The references of a BackupConfig *)

Definition source_secret (v : option ValueFromSource) : list SecretKeySelector :=
  match v with
  | Some vf => match SecretKeyRef vf with Some r => [r] | None => [] end
  | None => []
  end.
Definition source_config_map (v : option ValueFromSource) : list ConfigMapKeySelector :=
  match v with
  | Some vf => match ConfigMapKeyRef vf with Some r => [r] | None => [] end
  | None => []
  end.

Definition ca_ref (kind : string) (ca : option CustomCAReference) : list SecretKeySelector :=
  match ca with
  | Some c => if String.eqb (ca_Kind c) kind then [mkSelector (ca_Name c) (ca_Key c)] else []
  | None => []
  end.

Definition secret_refs (b : BackupConfig) : list SecretKeySelector :=
  match st_S3 (Storage (bc_Spec b)) with
  | Some s3 => option_list (s3_AccessKeyIDRef s3) ++ option_list (s3_AccessKeySecretRef s3) ++
      ca_ref "Secret" (s3_CustomCA s3) ++ source_secret (s3_PrefixFrom s3) ++
      source_secret (s3_RegionFrom s3) ++ source_secret (s3_EndpointURLFrom s3)
  | None => []
  end ++
  match st_GCS (Storage (bc_Spec b)) with
  | Some gcs => option_list (gcs_CredentialsSecretRef gcs) ++ source_secret (gcs_PrefixFrom gcs)
  | None => []
  end ++
  (if String.eqb (enc_Method (Encryption (bc_Spec b))) "libsodium"
   then [mkSelector (GetBackupConfigEncryptionSecretName b) "libsodiumKey"] else []).

Definition config_map_refs (b : BackupConfig) : list ConfigMapKeySelector :=
  match st_S3 (Storage (bc_Spec b)) with
  | Some s3 => ca_ref "ConfigMap" (s3_CustomCA s3) ++ source_config_map (s3_PrefixFrom s3) ++
      source_config_map (s3_RegionFrom s3) ++ source_config_map (s3_EndpointURLFrom s3)
  | None => []
  end ++
  match st_GCS (Storage (bc_Spec b)) with
  | Some gcs => source_config_map (gcs_PrefixFrom gcs)
  | None => []
  end.

(** A read of a referenced object finds it, with the referenced key. *)
Definition provides (b : BackupConfig) (e : event) : Prop :=
  (∀ ref a, ref ∈ secret_refs b →
     e = Ev (OGet KSecret (mkKey (Namespace (bc_meta b)) (sel_Name ref))) a →
     ∃ s : Secret, a = Ok s ∧ is_Some (sec_Data s !! sel_Key ref)) ∧
  (∀ ref a, ref ∈ config_map_refs b →
     e = Ev (OGet KConfigMap (mkKey (Namespace (bc_meta b)) (sel_Name ref))) a →
     ∃ s : ConfigMap, a = Ok s ∧ is_Some (cm_Data s !! sel_Key ref)).

(** What the CRD's schema demands: both keys of an S3 storage, a known CA kind and a known
    encryption method. *)
Definition schema_ok (b : BackupConfig) : Prop :=
  match st_S3 (Storage (bc_Spec b)) with
  | Some s3 => is_Some (s3_AccessKeyIDRef s3) ∧ is_Some (s3_AccessKeySecretRef s3) ∧
      match s3_CustomCA s3 with
      | Some ca => ca_Kind ca = "Secret" ∨ ca_Kind ca = "ConfigMap"
      | None => True
      end
  | None => True
  end ∧
  enc_Method (Encryption (bc_Spec b)) ∈ ["libsodium"; ""; "none"].

Section resolution.
Variable b : BackupConfig.
Let P := provides b.
Let ns := Namespace (bc_meta b).

Lemma succeeds_secret ref :
  ref ∈ secret_refs b → succeeds P (extractValueFromSecret (Some ref) ns).
Proof.
  intros Hr t r [(t1 & t2 & x & -> & Hx & H2)|(w & Hx & ->)]%exec_bind HP.
  - apply Forall_app in HP as [HP _].
    apply exec_bind in Hx as [(u1 & u2 & y & -> & (a & t' & -> & [-> [= ->]]) & [-> [= ->]])|
      (w & (a & t' & _ & [_ [=]]) & _)].
    simpl in HP. apply Forall_singleton in HP as [HP _].
    destruct (HP ref a Hr eq_refl) as (s & -> & [v Hv]). simpl in H2. rewrite Hv in H2.
    destruct H2 as [_ ->]. eauto.
  - apply exec_bind in Hx as [(u1 & u2 & y & -> & _ & [_ [=]])|(w' & (a & t' & _ & [_ [=]]) & _)].
Qed.

Lemma succeeds_config_map ref :
  ref ∈ config_map_refs b → succeeds P (extractValueFromConfigMap (Some ref) ns).
Proof.
  intros Hr t r [(t1 & t2 & x & -> & Hx & H2)|(w & Hx & ->)]%exec_bind HP.
  - apply Forall_app in HP as [HP _].
    apply exec_bind in Hx as [(u1 & u2 & y & -> & (a & t' & -> & [-> [= ->]]) & [-> [= ->]])|
      (w & (a & t' & _ & [_ [=]]) & _)].
    simpl in HP. apply Forall_singleton in HP as [_ HP].
    destruct (HP ref a Hr eq_refl) as (s & -> & [v Hv]). simpl in H2. rewrite Hv in H2.
    destruct H2 as [_ ->]. eauto.
  - apply exec_bind in Hx as [(u1 & u2 & y & -> & _ & [_ [=]])|(w' & (a & t' & _ & [_ [=]]) & _)].
Qed.

Lemma succeeds_resolve direct from n :
  source_ok direct from →
  (∀ r, r ∈ source_secret from → r ∈ secret_refs b) →
  (∀ r, r ∈ source_config_map from → r ∈ config_map_refs b) →
  succeeds P (resolveStringValue b direct from n).
Proof.
  intros Hok Hs Hc. unfold resolveStringValue. destruct from as [v|]; [|apply succeeds_ret].
  destruct Hok as [-> [[ref ->]|[ref ->]]]; simpl in *.
  - apply succeeds_secret, Hs. by left.
  - apply succeeds_config_map, Hc. by left.
Qed.

Lemma succeeds_ca ca :
  match ca with Some c => ca_Kind c = "Secret" ∨ ca_Kind c = "ConfigMap" | None => True end →
  (∀ r, r ∈ ca_ref "Secret" ca → r ∈ secret_refs b) →
  (∀ r, r ∈ ca_ref "ConfigMap" ca → r ∈ config_map_refs b) →
  succeeds P (ca_cert_data b ca).
Proof.
  intros Hk Hs Hc. unfold ca_cert_data. destruct ca as [c|]; [|apply succeeds_ret].
  unfold ca_ref in Hs, Hc. cbv zeta. destruct Hk as [Hk|Hk]; rewrite Hk in Hs, Hc |- *.
  - apply succeeds_wrap, succeeds_secret, Hs. by left.
  - apply succeeds_wrap, succeeds_config_map, Hc. by left.
Qed.

Lemma succeeds_s3 :
  validateBackupConfig b = [] → schema_ok b →
  succeeds P (makeS3StorageConfigWithPrefilledSecrets b).
Proof.
  intros Hacc [Hs3 _].
  unfold makeS3StorageConfigWithPrefilledSecrets.
  destruct (st_S3 (Storage (bc_Spec b))) as [s3|] eqn:Hst; [|apply succeeds_ret].
  destruct (accepted_s3 b s3 Hacc Hst) as (Hp & Hr & He).
  destruct Hs3 as ([r1 H1] & [r2 H2] & Hca). rewrite H1, H2.
  assert (∀ r, r = r1 ∨ r = r2 ∨ r ∈ ca_ref "Secret" (s3_CustomCA s3) ∨
    r ∈ source_secret (s3_PrefixFrom s3) ∨ r ∈ source_secret (s3_RegionFrom s3) ∨
    r ∈ source_secret (s3_EndpointURLFrom s3) → r ∈ secret_refs b) as Hin.
  { intros r. unfold secret_refs. rewrite Hst, H1, H2. simpl. set_solver. }
  assert (∀ r, r ∈ ca_ref "ConfigMap" (s3_CustomCA s3) ∨
    r ∈ source_config_map (s3_PrefixFrom s3) ∨ r ∈ source_config_map (s3_RegionFrom s3) ∨
    r ∈ source_config_map (s3_EndpointURLFrom s3) → r ∈ config_map_refs b) as Hcm.
  { intros r. unfold config_map_refs. rewrite Hst. set_solver. }
  apply succeeds_try; [apply succeeds_secret; auto|intros kid].
  apply succeeds_try; [apply succeeds_secret; auto|intros ks].
  apply succeeds_try; [apply succeeds_ca; auto 10|intros cert].
  apply succeeds_try; [apply succeeds_resolve; auto 10|intros prefix].
  apply succeeds_try; [apply succeeds_resolve; auto 10|intros region].
  apply succeeds_try; [apply succeeds_resolve; auto 10|intros url]. apply succeeds_ret.
Qed.

Lemma succeeds_gcs :
  validateBackupConfig b = [] → succeeds P (makeGCSStorageConfigWithPrefilledSecrets b).
Proof.
  intros Hacc.
  unfold makeGCSStorageConfigWithPrefilledSecrets.
  destruct (st_GCS (Storage (bc_Spec b))) as [gcs|] eqn:Hst; [|apply succeeds_ret].
  pose proof (accepted_gcs b gcs Hacc Hst) as Hp.
  assert (∀ r, r ∈ option_list (gcs_CredentialsSecretRef gcs) ∨
    r ∈ source_secret (gcs_PrefixFrom gcs) → r ∈ secret_refs b) as Hin.
  { intros r. unfold secret_refs. rewrite Hst. set_solver. }
  apply succeeds_try; [|intros data; apply succeeds_try; [|intros prefix; apply succeeds_ret]].
  - destruct (gcs_CredentialsSecretRef gcs) as [ref|]; [|apply succeeds_ret].
    apply succeeds_secret, Hin. left. by left.
  - apply succeeds_resolve; [done|auto|]. intros r Hr. unfold config_map_refs. rewrite Hst.
    set_solver.
Qed.

Lemma succeeds_encryption :
  schema_ok b → succeeds P (makeEncryptionConfigWithPrefilledSecrets b).
Proof.
  intros [_ Henc].
  unfold makeEncryptionConfigWithPrefilledSecrets. cbv zeta.
  destruct (String.eqb_spec (enc_Method (Encryption (bc_Spec b))) "libsodium") as [Hm|Hm].
  - apply succeeds_try; [|intros; apply succeeds_ret]. apply succeeds_secret.
    unfold secret_refs. rewrite Hm. simpl. set_solver.
  - assert (enc_Method (Encryption (bc_Spec b)) = "" ∨
      enc_Method (Encryption (bc_Spec b)) = "none") as [-> | ->] by set_solver;
      apply succeeds_ret.
Qed.

(** An accepted BackupConfig resolves.  If the webhook accepts it, it meets the CRD's
    schema, and every Secret and ConfigMap it refers to exists with the referenced key, then
    every run of [PrefetchSecretsData] succeeds: none of the exclusivity errors of
    [resolveStringValue] and [extractValueFromSource] can occur. *)
Theorem accepted_resolves :
  validateBackupConfig b = [] → schema_ok b →
  ∀ t r, exec (PrefetchSecretsData b) t r → Forall (provides b) t →
    ∃ ws, r = Returned (Ok ws).
Proof.
  intros Hacc Hok. change (succeeds P (PrefetchSecretsData b)).
  apply succeeds_try; [|intros; apply succeeds_ret].
  apply succeeds_try; [apply succeeds_try; [by apply succeeds_s3|]
    |intros st; apply succeeds_try; [by apply succeeds_encryption|intros; apply succeeds_ret]].
  intros s3. apply succeeds_try; [by apply succeeds_gcs|intros; apply succeeds_ret].
Qed.

End resolution.

(** ** Building the environment *)

(** Directories and files can be written. *)
Definition file_ok (e : event) : Prop :=
  match e with
  | Ev o a => match o return ans o → Prop with
              | OMkdirAll _ => λ a, a = None
              | OWriteFile _ _ => λ a, a = None
              | _ => λ _, True
              end a
  end.

(** Programs that return as long as every call is answered well. *)
Definition returns {A} (P : event → Prop) (p : prog A) : Prop :=
  ∀ t r, exec p t r → Forall P t → ∃ a, r = Returned a.

Lemma returns_ret {A} P (a : A) : returns P (Ret a).
Proof. intros t r [-> ->] _. eauto. Qed.

Lemma returns_vis {A} P o (f : ans o → prog A) :
  (∀ a, P (Ev o a) → returns P (f a)) → returns P (Vis o f).
Proof. intros Hf t r (a & t' & -> & He) [HP HPs]%Forall_cons. by eapply Hf. Qed.

Lemma returns_bind {A B} P (p : prog A) (f : A → prog B) :
  returns P p → (∀ a, returns P (f a)) → returns P (p ≫= f).
Proof.
  intros Hp Hf t r [(t1 & t2 & a & -> & H1 & H2)|(w & H1 & ->)]%exec_bind HP.
  - apply Forall_app in HP as [HP1 HP2]. by eapply (Hf a).
  - by destruct (Hp _ _ H1 HP).
Qed.

Lemma returns_prefetch_dir : returns file_ok setWalgPrefetchDir.
Proof.
  apply returns_vis. intros d _. cbn. destruct (String.eqb d ""); [apply returns_ret|].
  apply returns_vis. intros x _. apply returns_ret.
Qed.

(** A cached file is written or found. *)
Lemma succeeds_cached c path key data : succeeds file_ok (ensureCachedFile c path key data).
Proof.
  intros t r. unfold ensureCachedFile. destruct (String.eqb data ""); [by intros [-> ->]; eauto|].
  intros (v & t1 & -> & He) HP.
  apply Forall_cons_1 in HP as [_ HP]. cbn -[bool_decide] in He.
  case_bool_decide; [destruct He as [-> ->]; eauto|].
  destruct He as (e1 & t2 & -> & He). apply Forall_cons_1 in HP as [H1 HP]. simpl in H1. subst e1.
  destruct He as (e2 & t3 & -> & He). apply Forall_cons_1 in HP as [H2 _]. simpl in H2. subst e2.
  destruct He as (? & t4 & -> & -> & ->). eauto.
Qed.

Lemma returns_ensure {B} c path key data (ok : string → B) (why : err → string) :
  returns file_ok (ensureCachedFile c path key data ≫= λ r,
    match r with Err e => Panic (why e) | Ok p => Ret (ok p) end).
Proof.
  intros t r [(t1 & t2 & a & -> & H1 & H2)|(w & H1 & ->)]%exec_bind HP.
  - apply Forall_app in HP as [HP1 _]. destruct (succeeds_cached _ _ _ _ _ _ H1 HP1) as [p [= ->]].
    destruct H2 as [_ ->]. eauto.
  - by destruct (succeeds_cached _ _ _ _ _ _ H1 HP).
Qed.

(** The storage sections of a filled object are those of the BackupConfig. *)
Lemma prefetch_sections b t ws :
  exec (PrefetchSecretsData b) t (Returned (Ok ws)) →
  sts_StorageType (ws_Storage ws) = st_StorageType (Storage (bc_Spec b)) ∧
  is_nil (sts_S3 (ws_Storage ws)) = is_nil (st_S3 (Storage (bc_Spec b))) ∧
  is_nil (sts_GCS (ws_Storage ws)) = is_nil (st_GCS (Storage (bc_Spec b))).
Proof.
  intros (t0 & ? & sp & -> & Hsp & [-> [= ->]])%exec_try_ok.
  apply exec_try_ok in Hsp as (t1 & u1 & st & -> & Hst & Hu).
  apply exec_try_ok in Hu as (t2 & u2 & enc & -> & _ & [-> [= ->]]).
  apply exec_try_ok in Hst as (t3 & u3 & s3 & -> & H3%makeS3_ok & Hu).
  apply exec_try_ok in Hu as (t4 & u4 & gcs & -> & H4%makeGCS_ok & [-> [= ->]]).
  simpl. by destruct H3, H4.
Qed.

(** C36: the environment of an accepted BackupConfig can be built: with the data of a
    successful [PrefetchSecretsData], and as long as the certificate and credentials files
    can be written, [NewConfigFromBackupConfig] never panics. *)
Theorem accepted_config b ws t pgMajorVersion :
  validateBackupConfig b = [] → exec (PrefetchSecretsData b) t (Returned (Ok ws)) →
  ∀ t' r, exec (NewConfigFromBackupConfig ws pgMajorVersion) t' r → Forall file_ok t' →
    ∃ c, r = Returned c.
Proof.
  intros (Hacc & _ & _)%accepted_parts (Hty & Hs3 & Hgcs)%prefetch_sections.
  change (returns file_ok (NewConfigFromBackupConfig ws pgMajorVersion)).
  unfold validateStorage in Hacc. rewrite <-Hty, <-Hs3, <-Hgcs in Hacc.
  apply returns_bind; [apply returns_bind; [apply returns_prefetch_dir|intros; apply returns_ret]|].
  intros c. apply returns_bind.
  - unfold apply_storage. cbv zeta. destruct (String.eqb (sts_StorageType _) StorageTypeS3).
    + destruct (sts_S3 (ws_Storage ws)) as [s3|]; [|done].
      destruct (s3_CustomCA _); [|apply returns_ret].
      destruct (negb _); [apply returns_ensure|apply returns_ret].
    + destruct (String.eqb (sts_StorageType _) StorageTypeGCS); [|apply returns_ret].
      destruct (sts_GCS (ws_Storage ws)) as [gcs|]; [|done].
      destruct (negb _); [apply returns_ensure|apply returns_ret].
  - intros s. destruct (match ws_Encryption ws with Some _ => _ | None => _ end) as [k tr].
    apply returns_bind; [apply returns_prefetch_dir|intros; apply returns_ret].
Qed.

(** ** Concrete instances *)

Lemma accepted_resolves_witness :
  ∃ ws, Returned (Ok s3_with_secrets) = Returned (Ok ws).
Proof.
  apply (accepted_resolves s3_backup_config eq_refl) with (t := [keys_read; keys_read]).
  - repeat split; try (eexists; reflexivity). right. left.
  - eexists _, _. split; [reflexivity|]. eexists _, _. split; [reflexivity|]. split; reflexivity.
  - assert (provides s3_backup_config keys_read) as Hp.
    { split; intros ref a Hr Heq; [|by apply elem_of_nil in Hr].
      assert (a = Ok keys_secret) as ->.
      { apply (f_equal (λ e, match e with Ev o a =>
          match o return ans o → res Secret with
          | OGet KSecret _ => λ a, a | _ => λ _, Err (errorf "") end a end)) in Heq.
        symmetry. exact Heq. }
      exists keys_secret. split; [reflexivity|].
      apply list_elem_of_In in Hr. simpl in Hr. destruct Hr as [<-|[<-|[]]]; eexists; reflexivity. }
    apply Forall_cons. split; [exact Hp|]. apply Forall_cons. split; [exact Hp|constructor].
Defined.

Lemma accepted_config_witness :
  ∃ c : Config, run fs_handler (NewConfigFromBackupConfig s3_with_secrets 17) empty_files =
    (Returned c, [Ev (OViperString "pgdata") ""; Ev (OViperString "pgdata") ""], empty_files).
Proof.
  destruct (run fs_handler (NewConfigFromBackupConfig s3_with_secrets 17) empty_files)
    as [[r t'] w] eqn:Hr.
  destruct (accepted_config s3_backup_config s3_with_secrets [keys_read; keys_read] 17 eq_refl)
    with (t' := t') (r := r) as [c ->].
  - eexists _, _. split; [reflexivity|]. eexists _, _. split; [reflexivity|]. split; reflexivity.
  - pose proof (run_exec fs_handler (NewConfigFromBackupConfig s3_with_secrets 17) empty_files) as He.
    rewrite Hr in He. exact He.
  - vm_compute in Hr. injection Hr as _ <- _. repeat constructor.
  - exists c. vm_compute in Hr |- *. congruence.
Defined.
