(* ===== verification/BackupCtl.v ===== *)
(** [internal/controller/backup_controller.go]: the reconciler of Backup resources.

    A successful [Update] or [Patch] overwrites the object in memory with what the server
    stored, so the functions below return the object they leave behind.  CloudNativePG's
    [GetPostgresqlMajorVersion] and apimachinery's [equality.Semantic.DeepEqual] are
    parameters. *)
From stdpp Require Import base list strings gmap relations sorting.
From S2P Require Import Prelude GoStrings GoTime Api Effects Backups Secrets Config Client.
Local Open Scope string_scope.
Local Open Scope list_scope.
Local Open Scope go_scope.

(** [types.NamespacedName] of the cluster a backup names. *)
Definition cluster_key (backup : Backup) : ObjectKey :=
  mkKey (Namespace (bk_meta backup)) (bk_ClusterName backup).

(** ** Dependent backups *)

Definition backup_name_less (a b : Backup) : bool :=
  String.ltb (Name (bk_meta a)) (Name (bk_meta b)).

Section dependents.
Context `{GoMapRange} `{GoSort}.

(** [GetDependentBackups] always ends: the fuel suffices (see Backups.v). *)
Definition dependent_metadata (m : BackupMetadata) (l : list BackupMetadata) (indirect : bool)
    : list BackupMetadata :=
  match GetDependentBackups l m indirect with Some deps => deps | None => [] end.

Definition buildDependentBackupsForBackup (backup : Backup) (backups : list Backup)
    (includeIndirect : bool) : list Backup :=
  if String.eqb (bk_BackupID backup) "" then []
  else
    let currentWalgBackup := named_backup (bk_BackupID backup) in
    let walgBackups := (λ b, named_backup (bk_BackupID b)) <$> backups in
    let dependentWalgBackups := dependent_metadata currentWalgBackup walgBackups includeIndirect in
    sort_slice backup_name_less
      (filter_by (λ candidate,
         is_zero_ptr (DeletionTimestamp (bk_meta candidate)) &&
         contains_by (λ walgBackup, String.eqb (BackupName walgBackup) (bk_BackupID candidate))
           dependentWalgBackups) backups).
End dependents.

(** ** The reconciler *)

Definition is_owned_by (backupConfig : BackupConfig) (b : Backup) : bool :=
  contains_by (λ o, String.eqb (or_Kind o) "BackupConfig" &&
                    String.eqb (or_Name o) (Name (bc_meta backupConfig)))
    (OwnerReferences (bk_meta b)).

Definition listBackupsOwnedByBackupConfig (backupConfig : BackupConfig)
    : prog (res (list Backup)) :=
  items ←? wrap_err "while getting Backup List: "
             (call (OList KBackup (Some (Namespace (bc_meta backupConfig)))));
  Ret (Ok (filter_by (is_owned_by backupConfig) items)).

Section reconciler.
Context `{GoMapRange} `{GoSort}.
(** [cluster.GetPostgresqlMajorVersion()], with the value beside the error, and
    [equality.Semantic.DeepEqual]. *)
Variable GetPostgresqlMajorVersion : Cluster → Z * option err.
Variable semantic_equal : Backup → Backup → bool.

(** The labels: backup type from the backup's id, PostgreSQL version from the cluster. *)
Definition type_label (backupID : string) (labels : gmap string string) : gmap string string :=
  if String.eqb backupID "" then labels
  else if contains backupID "_D_" then <[BackupTypeLabelName := BackupTypeIncremental]> labels
  else <[BackupTypeLabelName := BackupTypeFull]> labels.

Definition version_label (cluster : option Cluster) (labels : gmap string string)
    : gmap string string :=
  if String.eqb (default "" (labels !! BackupPgVersionLabelName)) "" then
    match cluster with
    | None => labels
    | Some cluster =>
        <[BackupPgVersionLabelName := format_int (fst (GetPostgresqlMajorVersion cluster))]> labels
    end
  else labels.

Definition new_labels (backup : Backup) (cluster : option Cluster) : gmap string string :=
  version_label cluster
    (type_label (bk_BackupID backup) (default ∅ (Labels (bk_meta backup)))).

Definition names_of (l : list Backup) : string := join " " ((λ b, Name (bk_meta b)) <$> l).

Definition new_annotations (backup : Backup) (backups : list Backup) : gmap string string :=
  <[BackupAllDependentsAnnotationName :=
      names_of (buildDependentBackupsForBackup backup backups true)]>
  (<[BackupDirectDependentsAnnotationName :=
       names_of (buildDependentBackupsForBackup backup backups false)]>
   (default ∅ (Annotations (bk_meta backup)))).

(** The object left behind, and whether a patch was sent. *)
Definition reconcileBackupMetadata (backup : Backup) (backupConfig : BackupConfig)
    (cluster : option Cluster) : prog (res (Backup * bool)) :=
  let oldBackup := backup in
  let labels := new_labels backup cluster in
  backups ←? listBackupsOwnedByBackupConfig backupConfig;
  let backup := with_bk_meta backup (with_marks (bk_meta backup) (Some labels)
                  (Some (new_annotations backup backups))) in
  if semantic_equal backup oldBackup then Ret (Ok (backup, false))
  else
    backup ←? call (OPatch KBackup oldBackup backup);
    Ret (Ok (backup, true)).

Definition reconcileRelatedBackupsMetadata (backup : Backup) : prog (res Backup) :=
  cluster ← call (OGet KCluster (cluster_key backup));
  match (cluster : res Cluster) with
  | Err e =>
      if is_not_found e then Ret (Ok empty_cluster)
      else Ret (Err (wrapf "on reconcileRelatedBackupsMetadata: " e))
  | Ok c => Ret (Ok c)
  end ≫= λ cluster,
  match cluster with
  | Err e => Ret (Err e)
  | Ok cluster =>
      backupConfig ←? wrap_err "on reconcileRelatedBackupsMetadata: "
                        (GetBackupConfigForBackup backup);
      updated ←? wrap_err ("while reconciling backup " +:+ Name (bk_meta backup) +:+
                           " annotations: ")
                   (reconcileBackupMetadata backup backupConfig (Some cluster));
      let backup := fst updated in
      if String.eqb (str_map_get (Labels (bk_meta backup)) BackupTypeLabelName)
           BackupTypeIncremental
      then
        backupsToReconcile ←? listBackupsOwnedByBackupConfig backupConfig;
        _ ← for_each (λ b,
              if String.eqb (Name (bk_meta b)) (Name (bk_meta backup)) then Ret tt
              else _ ← reconcileBackupMetadata b backupConfig (Some cluster); Ret tt)
              backupsToReconcile;
        Ret (Ok backup)
      else Ret (Ok backup)
  end.

(** The owner reference of a BackupConfig. *)
Definition backup_config_ref (backupConfig : BackupConfig) : OwnerReference :=
  mkOwnerRef group_version "BackupConfig" (Name (bc_meta backupConfig))
    (UID (bc_meta backupConfig)) (Some true).

Definition add_owner (backup : Backup) (ref : OwnerReference) : Backup :=
  with_bk_meta backup (with_owners (bk_meta backup) (OwnerReferences (bk_meta backup) ++ [ref])).

Definition reconcileOwnerReference (backup : Backup) : prog (res Backup) :=
  if contains_by (λ ownerRef, String.eqb (or_Kind ownerRef) "BackupConfig")
       (OwnerReferences (bk_meta backup))
  then Ret (Ok backup)
  else
    cluster ← call (OGet KCluster (cluster_key backup));
    match (cluster : res Cluster) with
    | Err e => Ret (if is_not_found e then Ok backup else Err e)
    | Ok cluster =>
        backupConfig ←? GetBackupConfigForCluster cluster;
        match backupConfig with
        | None => Ret (Ok backup)
        | Some backupConfig =>
            call (OUpdate KBackup (add_owner backup (backup_config_ref backupConfig)))
        end
    end.

Definition set_finalizers (backup : Backup) (f : list string) : Backup :=
  with_bk_meta backup (with_finalizers (bk_meta backup) f).

Definition reconcileFinalizers (backup : Backup) (backupConfig : BackupConfig)
    : prog (res Backup) :=
  let finalizers := Finalizers (bk_meta backup) in
  let ignore := IgnoreForBackupDeletion (Retention (bc_Spec backupConfig)) in
  if negb (containsString finalizers BackupFinalizerName) && negb ignore
  then call (OUpdate KBackup (set_finalizers backup (finalizers ++ [BackupFinalizerName])))
  else if ignore && containsString finalizers BackupFinalizerName
  then call (OUpdate KBackup (set_finalizers backup (removeString finalizers BackupFinalizerName)))
  else Ret (Ok backup).

(** [NewClientFromBackupConfig] dereferences its argument: a nil one panics. *)
Definition client_of (backupConfig : option BackupConfigWithSecrets) (pgVersion : Z)
    : prog Client :=
  match backupConfig with
  | Some b => NewClientFromBackupConfig b pgVersion
  | None => _ ← NewConfigWithDefaults; Panic nil_deref
  end.

Definition reconcileBackupPermanence (backup : Backup) : prog (option err) :=
  if negb (bool_decide (bk_Phase backup = BackupPhaseCompleted)) then Ret None
  else
    cluster ← call (OGet KCluster (cluster_key backup));
    match (cluster : res Cluster) with
    | Err e => Ret (ignore_not_found e)
    | Ok cluster =>
        backupConfig ← GetBackupConfigForCluster cluster;
        match backupConfig with
        | Err e => Ret (Some e)
        | Ok None => Ret None
        | Ok (Some _) =>
            match atoi (str_map_get (Labels (bk_meta backup)) BackupPgVersionLabelName) with
            | (_, Some _) => Ret None
            | (pgVersion, None) =>
                withSecrets ← GetBackupConfigWithSecretsForBackup backup;
                let '(backupConfigWithSecrets, e) :=
                  match withSecrets with
                  | Ok w => (Some w, None)
                  | Err e => (None, Some e)
                  end in
                match e ≫= ignore_not_found with
                | Some e => Ret (Some (wrapf "while getting backupconfig with secrets: " e))
                | None =>
                    if (length (OwnerReferences (bk_meta backup)) =? 1)%nat then
                      c ← client_of backupConfigWithSecrets pgVersion;
                      MarkBackupPermanent c (bk_BackupID backup)
                    else Ret e
                end
            end
        end
    end.

(** [ctrl.Result]: the delay of a requeue. *)
Record ReconcileResult := mkResult { RequeueAfter : Z; rr_err : option err }.
Definition done_ok : ReconcileResult := mkResult 0 None.
Definition done_err (e : err) : ReconcileResult := mkResult 0 (Some e).

Definition removeBackupFinalizer (backup : Backup) : prog (option err) :=
  if negb (containsString (Finalizers (bk_meta backup)) BackupFinalizerName) then Ret None
  else
    r ← call (OUpdate KBackup (set_finalizers backup
                (removeString (Finalizers (bk_meta backup)) BackupFinalizerName)));
    match (r : res Backup) with
    | Err e => Ret (Some (wrapf "while removing cleanup finalizer from Backup: " e))
    | Ok _ => Ret None
    end.

Definition queue_key (m : ObjectMeta) : string := Namespace m +:+ "/" +:+ Name m.

Definition EnqueueBackupDeletion (backup : Backup) : prog (option err) :=
  backupConfig ← GetBackupConfigForBackup backup;
  match backupConfig with
  | Err e =>
      if is_not_found e then removeBackupFinalizer backup
      else Ret (Some (wrapf "failed to get BackupConfig for Backup: " e))
  | Ok backupConfig =>
      call (OEnqueue (queue_key (bc_meta backupConfig))
              (mkRequest ResourceTypeBackup (key_of (bk_meta backup))))
  end.

Definition EnqueueBackupConfigDeletion (backupConfig : BackupConfig) : prog (option err) :=
  call (OEnqueue (queue_key (bc_meta backupConfig))
          (mkRequest ResourceTypeBackupConfig (key_of (bc_meta backupConfig)))).

(** The backup is taken by this plugin. *)
Definition managed (backup : Backup) : bool :=
  match bk_PluginConfiguration backup with
  | None => false
  | Some p => String.eqb (plugin_Name p) PluginNameDeprecated &&
              String.eqb (bk_Method backup) BackupMethodPlugin
  end.

Definition Reconcile (req : NamespacedName) : prog ReconcileResult :=
  backup ← call (OGet KBackup req);
  match (backup : res Backup) with
  | Err e => Ret (mkResult 0 (ignore_not_found e))
  | Ok backup =>
      if negb (managed backup) then Ret done_ok
      else if negb (is_zero_ptr (DeletionTimestamp (bk_meta backup))) then
        r ← reconcileRelatedBackupsMetadata backup;
        match r with
        | Err e => Ret (done_err e)
        | Ok backup =>
            e ← EnqueueBackupDeletion backup;
            match e with
            | Some _ => Ret (mkResult (3 * minute) None)
            | None => Ret done_ok
            end
        end
      else
        r ← (backup ←? reconcileOwnerReference backup;
             backup ←? reconcileRelatedBackupsMetadata backup;
             backupConfig ←? GetBackupConfigForBackup backup;
             reconcileFinalizers backup backupConfig);
        match r with
        | Err e => Ret (done_err e)
        | Ok backup => e ← reconcileBackupPermanence backup; Ret (mkResult 0 e)
        end
  end.
End reconciler.

(** ** Dependent backups: what the annotations say *)

Section dependents_spec.
Context `{GoMapRange} `{GoSort}.

Lemma dependent_metadata_names m l n :
  n ∈ BackupName <$> dependent_metadata m l true ↔ tc (depends l) (BackupName m) n.
Proof.
  unfold dependent_metadata, GetDependentBackups. cbn [negb].
  destruct (process_queue_closure l m) as (known & Hk & Hs & Hdom). cbv zeta in Hk. rewrite Hk.
  simpl. rewrite <-Hdom, (range_names l _ _ Hs), list_elem_of_fmap, elem_of_dom. split.
  - intros ([k b] & -> & Hb). rewrite map_range_perm in Hb.
    apply elem_of_map_to_list in Hb. by eexists.
  - intros [b Hb]. exists (n, b). by rewrite map_range_perm, elem_of_map_to_list.
Qed.

Lemma depends_ids backups p n :
  depends ((λ b, named_backup (bk_BackupID b)) <$> backups) p n ↔
  ∃ b, b ∈ backups ∧ bk_BackupID b = n ∧ is_direct_dependency p n = true.
Proof.
  unfold depends. setoid_rewrite list_elem_of_fmap. split.
  - intros (x & (b & -> & Hb) & <- & Hd). by exists b.
  - intros (b & Hb & <- & Hd). exists (named_backup (bk_BackupID b)). eauto.
Qed.

(** A backup id directly depends on another one and is that of a listed backup. *)
Definition id_depends (backups : list Backup) (p n : string) : Prop :=
  ∃ b, b ∈ backups ∧ bk_BackupID b = n ∧ is_direct_dependency p n = true.

Lemma tc_iff {A} (R S : A → A → Prop) x y : (∀ a b, R a b ↔ S a b) → tc R x y ↔ tc S x y.
Proof.
  intros HRS. split; induction 1 as [a b Hab|a b c Hab _ IH];
    [apply tc_once|eapply tc_l; [|exact IH]|apply tc_once|eapply tc_l; [|exact IH]]; by apply HRS.
Qed.

Lemma backup_name_less_swo (P : Backup → Prop) : strict_weak_order backup_name_less P.
Proof.
  unfold backup_name_less. split; intros *; [intros; apply ltb_irrefl|intros _ _ _..].
  - apply ltb_trans.
  - apply ltb_neg_trans.
Qed.

(** What a list of dependents holds for a relation on backup ids: sorted by name, exactly the
    listed Backups that are not being deleted and whose id is related to this one's, each as
    often as it is listed; none for a Backup without an id. *)
Definition holds_dependents (R : string → string → Prop) (backup : Backup) (backups deps : list Backup)
    : Prop :=
  StronglySorted (λ a b, String.ltb (Name (bk_meta b)) (Name (bk_meta a)) = false) deps ∧
  deps ⊆+ backups ∧
  ∀ b, b ∈ deps ↔
    bk_BackupID backup ≠ "" ∧ b ∈ backups ∧ is_zero_ptr (DeletionTimestamp (bk_meta b)) = true ∧
    R (bk_BackupID backup) (bk_BackupID b).

Definition id_reaches (indirect : bool) (backups : list Backup) : string → string → Prop :=
  if indirect then tc (id_depends backups) else id_depends backups.

Lemma metadata_reaches indirect id backups n :
  (∃ x, x ∈ dependent_metadata (named_backup id) ((λ b, named_backup (bk_BackupID b)) <$> backups)
          indirect ∧ (BackupName x =? n)%string = true) ↔ id_reaches indirect backups id n.
Proof.
  setoid_rewrite String.eqb_eq. destruct indirect; simpl.
  - rewrite <-(tc_iff _ _ _ _ (depends_ids backups)), <-(dependent_metadata_names (named_backup id)).
    rewrite list_elem_of_fmap. naive_solver.
  - unfold dependent_metadata, GetDependentBackups. cbn [negb]. setoid_rewrite elem_of_direct.
    setoid_rewrite list_elem_of_fmap. unfold id_depends. simpl. split.
    + intros (x & ((b & -> & Hb) & Hd) & <-). by exists b.
    + intros (b & Hb & <- & Hd). exists (named_backup (bk_BackupID b)). simpl. eauto 6.
Qed.

Lemma dependents_hold indirect backup backups :
  holds_dependents (id_reaches indirect backups) backup backups
    (buildDependentBackupsForBackup backup backups indirect).
Proof.
  unfold holds_dependents, buildDependentBackupsForBackup.
  destruct (String.eqb_spec (bk_BackupID backup) "") as [Hid|Hid].
  { split_and!; [constructor|apply submseteq_nil_l|]. intros b. rewrite elem_of_nil. tauto. }
  cbv zeta. set (keep := filter_by _ backups).
  pose proof (sort_slice_perm _ backup_name_less keep) as Hp. split_and!.
  - apply (sort_slice_sorted _ backup_name_less keep), backup_name_less_swo.
  - rewrite Hp. apply sublist_submseteq, filter_by_sublist.
  - intros b. rewrite Hp. unfold keep. rewrite elem_of_filter_by, andb_true_iff, contains_by_true.
    rewrite metadata_reaches. tauto.
Qed.

(** The annotations of a Backup name its dependents. *)
Definition shows_dependents (backup : Backup) (backups : list Backup)
    (notes : gmap string string) : Prop :=
  (∃ all, notes !! BackupAllDependentsAnnotationName = Some (names_of all) ∧
     holds_dependents (tc (id_depends backups)) backup backups all) ∧
  (∃ direct, notes !! BackupDirectDependentsAnnotationName = Some (names_of direct) ∧
     holds_dependents (id_depends backups) backup backups direct) ∧
  ∀ k, k ∉ [BackupAllDependentsAnnotationName; BackupDirectDependentsAnnotationName] →
    notes !! k = default ∅ (Annotations (bk_meta backup)) !! k.

Lemma new_annotations_show backup backups :
  shows_dependents backup backups (new_annotations backup backups).
Proof.
  unfold shows_dependents, new_annotations. split_and!.
  - eexists. rewrite lookup_insert_eq. split; [done|]. apply (dependents_hold true).
  - eexists. rewrite lookup_insert_ne, lookup_insert_eq by done. split; [done|].
    apply (dependents_hold false).
  - intros k Hk. rewrite !lookup_insert_ne; set_solver.
Qed.
End dependents_spec.

(** ** The reconciler's runs *)

Section runs.
Context `{GoMapRange} `{GoSort}.
Variable GetPostgresqlMajorVersion : Cluster → Z * option err.
Variable semantic_equal : Backup → Backup → bool.
Local Abbreviation metadata := (reconcileBackupMetadata GetPostgresqlMajorVersion semantic_equal).
Local Abbreviation related :=
  (reconcileRelatedBackupsMetadata GetPostgresqlMajorVersion semantic_equal).
Local Abbreviation reconcile := (Reconcile GetPostgresqlMajorVersion semantic_equal).

(** Reads, and patches that change labels and annotations only. *)
Definition marks_only (e : event) : Prop :=
  match ev_op e with
  | OGet _ _ | OList _ _ => True
  | OPatch KBackup old new => ∃ l a, new = with_bk_meta old (with_marks (bk_meta old) l a)
  | _ => False
  end.

Lemma safe_list bc P :
  (∀ ns a, P (Ev (OList KBackup ns) a)) → safe P (listBackupsOwnedByBackupConfig bc).
Proof. intros HP. unfold listBackupsOwnedByBackupConfig. safe_auto. Qed.

Lemma safe_config_for_backup b P :
  (∀ k a, P (Ev (OGet KBackupConfig k) a)) → safe P (GetBackupConfigForBackup b).
Proof. intros HP. unfold GetBackupConfigForBackup. safe_auto. Qed.

Lemma safe_metadata b bc cl : safe marks_only (metadata b bc cl).
Proof.
  unfold reconcileBackupMetadata. cbv zeta. apply safe_try; [by apply safe_list|intros backups].
  destruct (semantic_equal _ _); [apply safe_ret|].
  apply safe_try; [|intros; apply safe_ret]. apply safe_call. intros ?. by eexists _, _.
Qed.

Lemma safe_related_marks backup : safe marks_only (related backup).
Proof.
  unfold reconcileRelatedBackupsMetadata. apply safe_bind; [by apply safe_call|].
  intros cl. apply safe_bind; [destruct cl as [c|e]; [|destruct (is_not_found e)]; apply safe_ret|].
  intros [c|e]; [|apply safe_ret].
  apply safe_try; [apply safe_wrap; by apply safe_config_for_backup|intros bc].
  apply safe_try; [apply safe_wrap, safe_metadata|intros [b u]]. cbn [fst].
  destruct (String.eqb _ _); [|apply safe_ret].
  apply safe_try; [by apply safe_list|intros l].
  apply safe_bind; [|intros; apply safe_ret]. apply safe_for_each. intros x _.
  destruct (String.eqb _ _); [apply safe_ret|].
  apply safe_bind; [apply safe_metadata|intros; apply safe_ret].
Qed.

(** Reconciling metadata is harmless.  Updating the labels and annotations of a Backup,
    and of every other Backup of its BackupConfig when it is a delta, never panics, and
    every write is a patch of a Backup that changes its labels and annotations and nothing
    else: finalizers, owners, phase and the rest are those of the object read. *)
Theorem related_marks_only backup : safe marks_only (related backup).
Proof. apply safe_related_marks. Qed.

Definition backup_patch (e : event) : option (Backup * Backup) :=
  match ev_op e with OPatch KBackup old new => Some (old, new) | _ => None end.

(** The Backups of the namespace, as listed, that the BackupConfig owns. *)
Definition owned_listing (bc : BackupConfig) (backups : list Backup) (t : list event) : Prop :=
  ∃ items, Ev (OList KBackup (Some (Namespace (bc_meta bc)))) (Ok items) ∈ t ∧
    backups = filter_by (is_owned_by bc) items.

(** C34: the dependents shown on a Backup.  Whenever [reconcileBackupMetadata] succeeds or writes,
    the object it writes, or finds in no need of a write, carries under the name for all
    dependents the names of exactly those Backups, among the ones its BackupConfig owns in the
    listing, that are not being deleted and whose id is reachable from its own through delta
    names, and under the name for direct dependents those whose id is that of a delta of its
    own; in name order, each as often as it is listed, whatever the map iteration order, and
    none for a Backup without an id.  Its other annotations stay. *)
Theorem all_dependents_spec backup bc cluster :
  wp (metadata backup bc cluster) (λ t r,
    let shown (b : Backup) := ∃ backups notes, owned_listing bc backups t ∧
      Annotations (bk_meta b) = Some notes ∧ shows_dependents backup backups notes in
    (∀ old new a, Ev (OPatch KBackup old new) a ∈ t → old = backup ∧ shown new) ∧
    (∀ b, r = Returned (Ok (b, false)) → shown b) ∧
    (∀ b, r = Returned (Ok (b, true)) → ∃ new, Ev (OPatch KBackup backup new) (Ok b) ∈ t)).
Proof.
  unfold reconcileBackupMetadata, listBackupsOwnedByBackupConfig. cbv zeta.
  intros [items|e]; cbn -[new_labels new_annotations].
  2: { split_and!; [|done..]. intros old new a Ha. set_solver. }
  set (backups := filter_by (is_owned_by bc) items).
  assert (∀ t, owned_listing bc backups
    (Ev (OList KBackup (Some (Namespace (bc_meta bc)))) (Ok items) :: t)) as Hl.
  { intros t. exists items. split; [by left|done]. }
  pose proof (new_annotations_show backup backups) as Hs.
  destruct (semantic_equal _ _).
  - split_and!; [intros old new a Ha; set_solver| |done]. intros b [= <-]. eexists _, _. eauto.
  - assert (∀ old new a x, Ev (OPatch KBackup old new) a ∈
        [Ev (OList KBackup (Some (Namespace (bc_meta bc)))) (Ok items); x] →
        backup_patch x = Some (old, new)) as Hone.
    { intros old new a x [[=]%(f_equal backup_patch)|[<-|[]%elem_of_nil]%elem_of_cons]%elem_of_cons.
      done. }
    intros [b|e]; cbn -[new_labels new_annotations]; split_and!; try done.
    + intros old new a [= -> <-]%Hone. split; [done|]. eexists _, _. eauto.
    + intros b' [= <-]. eexists. right. by left.
    + intros old new a [= -> <-]%Hone. split; [done|]. eexists _, _. eauto.
Qed.

(** Every read of a BackupConfig finds nothing. *)
Definition config_gone (e : event) : Prop :=
  ∀ r, got KBackupConfig e = Some r → ∃ m, r = Err (mkErr ENotFound m).

(** Programs that fail, after reads only, when every BackupConfig is gone. *)
Definition fails {A} (p : prog (res A)) : Prop :=
  ∀ t r, exec p t r → Forall config_gone t → Forall reads t ∧ ∃ e, r = Returned (Err e).

Lemma fails_err {A} e : fails (Ret (Err e : res A)).
Proof. intros t r [-> ->] _. eauto. Qed.

Lemma fails_bind {A B} (p : prog A) (f : A → prog (res B)) :
  safe reads p → (∀ a, fails (f a)) → fails (p ≫= f).
Proof.
  intros Hp Hf t r [(t1 & t2 & a & -> & H1 & H2)|(w & H1 & ->)]%exec_bind HP;
    destruct (safe_exec _ _ _ _ Hp H1) as [Ht1 [? [=]]].
  apply Forall_app in HP as [_ HP]. destruct (Hf a t2 r H2 HP) as [Ht2 He].
  split; [by apply Forall_app|done].
Qed.

Lemma fails_try {A B} (p : prog (res A)) (f : A → prog (res B)) : fails p → fails (try_bind p f).
Proof.
  intros Hp t r [(t1 & t2 & a & -> & H1 & H2)|(w & H1 & ->)]%exec_bind HP.
  - apply Forall_app in HP as [HP _]. destruct (Hp _ _ H1 HP) as [Ht1 [e [= ->]]].
    destruct H2 as [-> ->]. rewrite app_nil_r. eauto.
  - by destruct (Hp _ _ H1 HP) as [_ [? [=]]].
Qed.

Lemma fails_wrap {A} prefix (p : prog (res A)) : fails p → fails (wrap_err prefix p).
Proof.
  intros Hp t r [(t1 & t2 & a & -> & H1 & H2)|(w & H1 & ->)]%exec_bind HP.
  - apply Forall_app in HP as [HP _]. destruct (Hp _ _ H1 HP) as [Ht1 [e [= ->]]].
    destruct H2 as [-> ->]. rewrite app_nil_r. eauto.
  - by destruct (Hp _ _ H1 HP) as [_ [? [=]]].
Qed.

Lemma fails_get_config k : fails (call (OGet KBackupConfig k)).
Proof.
  intros t r (a & t' & -> & -> & ->) HP. apply Forall_cons_1 in HP as [HP _].
  destruct (HP a) as [m ->]; [apply got_OGet|]. split; [by repeat constructor|eauto].
Qed.

Lemma fails_related b : fails (related b).
Proof.
  unfold reconcileRelatedBackupsMetadata. apply fails_bind; [by apply safe_call|intros cl].
  apply fails_bind; [destruct cl as [c|e]; [|destruct (is_not_found e)]; apply safe_ret|].
  intros [c|e]; [|apply fails_err]. apply fails_try, fails_wrap.
  unfold GetBackupConfigForBackup. cbv zeta. destruct (String.eqb _ ""); [apply fails_err|].
  apply fails_wrap, fails_get_config.
Qed.

(** A Backup outlives its BackupConfig forever.  When a managed Backup is being deleted
    and its BackupConfig is already gone, [Reconcile] fails on every run, before anything is
    written or enqueued: refreshing the annotations fetches the BackupConfig first and does
    not tolerate its absence, so [EnqueueBackupDeletion], which would remove the finalizer in
    that case, is never reached. *)
Theorem deletion_stuck req backup t r :
  managed backup = true → is_zero_ptr (DeletionTimestamp (bk_meta backup)) = false →
  exec (reconcile req) (Ev (OGet KBackup req) (Ok backup) :: t) r → Forall config_gone t →
  Forall reads t ∧ ∃ e, r = Returned (done_err e).
Proof.
  intros Hm Hd He%exec_get HP. rewrite Hm, Hd in He. cbn [negb] in He.
  apply exec_bind in He as [(t1 & t2 & a & -> & H1 & H2)|(w & H1 & ->)].
  - apply Forall_app in HP as [HP _]. destruct (fails_related _ _ _ H1 HP) as [Ht1 [e [= ->]]].
    destruct H2 as [-> ->]. rewrite app_nil_r. eauto.
  - by destruct (fails_related _ _ _ H1 HP) as [_ [? [=]]].
Qed.

(** Contrast: enqueueing its deletion would have removed the finalizer. *)
Lemma enqueue_gone_removes_finalizer b m r :
  containsString (Finalizers (bk_meta b)) BackupFinalizerName = true →
  key_name (backup_config_owner b) ≠ "" →
  exec (EnqueueBackupDeletion b)
    [Ev (OGet KBackupConfig (backup_config_owner b)) (Err (mkErr ENotFound m));
     Ev (OUpdate KBackup (set_finalizers b
           (removeString (Finalizers (bk_meta b)) BackupFinalizerName))) (Ok r)]
    (Returned None).
Proof.
  intros Hf Hn%String.eqb_neq. unfold EnqueueBackupDeletion, GetBackupConfigForBackup.
  cbv zeta. rewrite Hn. eexists _, _. split; [done|]. cbn.
  unfold removeBackupFinalizer. rewrite Hf. eexists _, _. split; [done|]. done.
Qed.

Lemma emits_new_config P bc v :
  (∀ c k a, P (Ev (OCacheGet c k) a)) → (∀ c k d a, P (Ev (OCachePut c k d) a)) →
  (∀ p a, P (Ev (OMkdirAll p) a)) → (∀ p d a, P (Ev (OWriteFile p d) a)) →
  (∀ n a, P (Ev (OViperString n) a)) → (∀ p a, P (Ev (OStatIsDir p) a)) →
  emits P (client_of bc v).
Proof.
  intros. destruct bc as [bc|]; [by apply emits_NewClient|].
  unfold client_of, NewConfigWithDefaults, setWalgPrefetchDir. emits_auto.
Qed.

Lemma quiet_client_of bc v : emits quiet (client_of bc v).
Proof. by apply emits_new_config. Qed.

(** Programs that run nothing but may end with one command. *)
Definition at_most (C : Prop) (x : list string) {A} (p : prog A) : Prop :=
  wp p (λ t _, commands t = [] ∨ (commands t = [x] ∧ C)).

Lemma at_most_bind C x {A B} (p : prog A) (f : A → prog B) :
  emits quiet p → (∀ a, at_most C x (f a)) → at_most C x (p ≫= f).
Proof.
  intros Hp Hf. apply wp_bind. eapply wp_mono; [|exact Hp].
  intros t [a|w] Ht%quiet_commands; [|by left]. eapply wp_mono; [|apply (Hf a)].
  intros t' r'. unfold commands in *. rewrite omap_app, Ht. done.
Qed.

Lemma at_most_ret C x {A} (a : A) : at_most C x (Ret a).
Proof. by left. Qed.

(** Permanence.  The only command [reconcileBackupPermanence] ever runs is the one that
    marks this Backup's id as permanent, at most once; and it runs nothing unless the Backup
    is completed and has exactly one owner, so is not the work of a ScheduledBackup. *)
Theorem permanence_runs b :
  wp (reconcileBackupPermanence b) (λ t _,
    commands t = [] ∨
    (commands t = [["backup-mark"; bk_BackupID b]] ∧ bk_Phase b = BackupPhaseCompleted ∧
     length (OwnerReferences (bk_meta b)) = 1)).
Proof.
  set (C := bk_Phase b = BackupPhaseCompleted ∧ length (OwnerReferences (bk_meta b)) = 1).
  change (at_most C ["backup-mark"; bk_BackupID b] (reconcileBackupPermanence b)).
  unfold reconcileBackupPermanence. destruct (negb _) eqn:Hp; [apply at_most_ret|].
  apply at_most_bind; [by apply emits_call|intros [cl|e]; [|apply at_most_ret]].
  apply at_most_bind; [auto using safe_reads_quiet with golib|].
  intros [[bc|]|e]; [|apply at_most_ret..].
  destruct (atoi _) as [v [e|]]; [apply at_most_ret|].
  apply at_most_bind; [auto using safe_reads_quiet with golib|]. intros ws.
  destruct (match ws with Ok w => _ | Err e => _ end) as [o e].
  destruct (e ≫= ignore_not_found); [apply at_most_ret|].
  destruct (_ =? 1)%nat eqn:Ho; [|apply at_most_ret].
  apply at_most_bind; [apply quiet_client_of|]. intros c a. right. bool_to_prop. done.
Qed.

(** ** Enqueueing *)

Definition not_enqueued (e : event) : Prop :=
  match ev_op e with OEnqueue _ _ => False | _ => True end.

Lemma reads_not_enqueued e : reads e → not_enqueued e.
Proof. by destruct e as [[] ?]. Qed.

Lemma marks_only_not_enqueued e : marks_only e → not_enqueued e.
Proof. by destruct e as [[] ?]. Qed.

Lemma emits_reads {A} (p : prog A) : safe reads p → emits not_enqueued p.
Proof. intros Hp. eapply emits_mono; [apply reads_not_enqueued|by apply safe_emits]. Qed.

Lemma no_enqueue_client_of bc v : emits not_enqueued (client_of bc v).
Proof. apply emits_new_config; done. Qed.

(** What [Reconcile] does with a Backup that is not being deleted enqueues nothing. *)
Lemma kept_not_enqueued backup :
  emits not_enqueued (
    r ← (backup ←? reconcileOwnerReference backup;
         backup ←? related backup;
         backupConfig ←? GetBackupConfigForBackup backup;
         reconcileFinalizers backup backupConfig);
    match r with
    | Err e => Ret (done_err e)
    | Ok backup => e ← reconcileBackupPermanence backup;
                   Ret (mkResult 0 e)
    end).
Proof.
  apply emits_bind.
  - apply emits_try; [|intros b1]; [|apply emits_try; [|intros b2];
      [|apply emits_try; [|intros bc]]].
    + unfold reconcileOwnerReference. destruct (contains_by _ _); [apply emits_ret|].
      apply emits_bind; [apply emits_call; done|].
      intros [cl|e]; [|apply emits_ret].
      apply emits_try; [auto using emits_reads with golib|].
      intros [bc|]; [|apply emits_ret]. apply emits_call. done.
    + eapply emits_mono; [apply marks_only_not_enqueued|apply safe_emits, safe_related_marks].
    + auto using emits_reads with golib.
    + unfold reconcileFinalizers. cbv zeta.
      repeat case_match; (apply emits_ret || apply emits_call; done).
  - intros [b|e]; [|apply emits_ret]. apply emits_bind; [|intros; apply emits_ret].
    unfold reconcileBackupPermanence. destruct (negb _); [apply emits_ret|].
    apply emits_bind; [apply emits_call; done|intros [cl|e]; [|apply emits_ret]].
    apply emits_bind; [auto using emits_reads with golib|].
    intros [[bc|]|e]; [|apply emits_ret..].
    destruct (atoi _) as [v [e|]]; [apply emits_ret|].
    apply emits_bind; [auto using emits_reads with golib|]. intros ws.
    destruct (match ws with Ok w => _ | Err e => _ end) as [o e].
    destruct (e ≫= ignore_not_found); [apply emits_ret|].
    destruct (_ =? 1)%nat; [|apply emits_ret].
    apply emits_bind; [apply no_enqueue_client_of|]. intros c.
    apply emits_bind; [apply emits_call; done|intros; apply emits_ret].
Qed.

(** Only doomed Backups are enqueued.  In any run of [Reconcile], a deletion request is
    made only if the object fetched first is a Backup managed by the plugin that carries a
    deletion timestamp. *)
Theorem enqueues_only_deleting req :
  wp (reconcile req) (λ t _, Forall not_enqueued t ∨
    ∃ backup t', t = Ev (OGet KBackup req) (Ok backup) :: t' ∧ managed backup = true ∧
      is_zero_ptr (DeletionTimestamp (bk_meta backup)) = false).
Proof.
  apply wp_call. intros a. set (Q := λ t (_ : outcome ReconcileResult), Forall not_enqueued t).
  destruct a as [backup|e]; [|left; by repeat constructor].
  destruct (managed backup) eqn:Hm; cbn [negb]; [|left; by repeat constructor].
  destruct (is_zero_ptr _) eqn:Hd; cbn [negb].
  - eapply (wp_mono _ Q); [intros t r Ht; left; constructor; [done|exact Ht]|].
    apply kept_not_enqueued.
  - apply wp_exec. intros t r _. right. by exists backup, t.
Qed.

(** A request that was taken by its queue. *)
Definition taken (e : event) : Prop :=
  match e with
  | Ev o a => match o as o return ans o → Prop with
              | OEnqueue _ _ => λ a, a = None
              | _ => λ _, False
              end a
  end.

Lemma not_enqueued_taken t : Forall not_enqueued t → ¬ Exists taken t.
Proof.
  intros Ht He. apply Exists_exists in He as ([o a] & Hin & He).
  rewrite Forall_forall in Ht. specialize (Ht _ Hin). by destruct o.
Qed.

Lemma enqueue_taken b :
  wp (EnqueueBackupDeletion b) (λ t r, Exists taken t → r = Returned None).
Proof.
  unfold EnqueueBackupDeletion. apply wp_bind.
  eapply wp_mono; [|apply (emits_reads (GetBackupConfigForBackup b)); auto with golib].
  intros t r Ht%not_enqueued_taken. destruct r as [[bc|e]|w]; [| |done].
  - intros a He. apply Exists_app in He as [He|[He|He]%Exists_cons]; [done| |by apply Exists_nil in He].
    simpl in *. by subst.
  - assert (emits not_enqueued (if is_not_found e then removeBackupFinalizer b
             else Ret (Some (wrapf "failed to get BackupConfig for Backup: " e)))) as Hp.
    { destruct (is_not_found e); [|apply emits_ret]. unfold removeBackupFinalizer.
      destruct (negb _); [apply emits_ret|]. apply emits_bind; [by apply emits_call|].
      intros []; apply emits_ret. }
    eapply wp_mono; [|exact Hp]. intros t' r' Ht'%not_enqueued_taken He.
    by apply Exists_app in He as [He|He].
Qed.

(** Nobody retries.  A run of [Reconcile] whose deletion request was taken by the queue ends
    without error and without a delay: the Backup is not reconciled again because of it,
    whatever becomes of the request. *)
Theorem taken_not_requeued req :
  wp (reconcile req) (λ t r, Exists taken t → r = Returned done_ok).
Proof.
  apply wp_call. intros a.
  set (Q := λ t (r : outcome ReconcileResult), Exists taken t → r = Returned done_ok).
  apply (wp_mono _ Q); [intros t r HQ [He|He]%Exists_cons; [done|by apply HQ]|].
  assert (∀ (p : prog ReconcileResult), emits not_enqueued p → wp p Q) as Hquiet.
  { intros p Hp. eapply wp_mono; [|exact Hp]. intros t r Ht He. by destruct (not_enqueued_taken t). }
  destruct a as [backup|e]; [|by apply Hquiet, emits_ret].
  destruct (managed backup); cbn [negb]; [|by apply Hquiet, emits_ret].
  destruct (is_zero_ptr _); cbn [negb]; [apply Hquiet, kept_not_enqueued|].
  apply wp_bind. eapply wp_mono; [|apply safe_emits, safe_related_marks].
  intros t r Ht. assert (¬ Exists taken t) as Hno.
  { apply not_enqueued_taken. eapply Forall_impl; [exact Ht|apply marks_only_not_enqueued]. }
  destruct r as [[b|e]|w]; [|intros He; by rewrite app_nil_r in He|by intros ?].
  apply wp_bind. eapply wp_mono; [|apply enqueue_taken].
  intros t' r' Hr. destruct r' as [[e|]|w]; intros He;
    rewrite ?app_nil_r in He; apply Exists_app in He as [He|He]; try done; by apply Hr in He.
Qed.
End runs.

(** ** Finalizers *)

(** The server stores what it is sent, under a new resource version, or refuses. *)
Definition with_version (b : Backup) (v : string) : Backup :=
  let m := bk_meta b in
  with_bk_meta b (mkMeta (Name m) (Namespace m) (UID m) v (Generation m) (Labels m)
    (Annotations m) (Finalizers m) (OwnerReferences m) (CreationTimestamp m) (DeletionTimestamp m)).

Definition stores (e : event) : Prop :=
  ∀ o r, updated_backup e = Some (o, r) → (∃ v, r = Ok (with_version o v)) ∨ ∃ x, r = Err x.

(** The finalizer follows the policy.  When [reconcileFinalizers] succeeds, and the
    server stores what it is sent, the Backup it leaves has the cleanup finalizer exactly
    when deletion of Backups is managed, and the finalizers of others are untouched, in
    order; nothing else of the Backup changes but its resource version. *)
Theorem finalizer_follows_policy b bc t b' :
  exec (reconcileFinalizers b bc) t (Returned (Ok b')) → Forall stores t →
  (BackupFinalizerName ∈ Finalizers (bk_meta b') ↔
   IgnoreForBackupDeletion (Retention (bc_Spec bc)) = false) ∧
  removeString (Finalizers (bk_meta b')) BackupFinalizerName =
    removeString (Finalizers (bk_meta b)) BackupFinalizerName ∧
  ∃ v, b' = with_version (set_finalizers b (Finalizers (bk_meta b'))) v.
Proof.
  unfold reconcileFinalizers. cbv zeta.
  set (f := Finalizers (bk_meta b)). set (ig := IgnoreForBackupDeletion _).
  assert (b = with_version (set_finalizers b f) (ResourceVersion (bk_meta b))) as Hb
    by (by destruct b as [[] ? ? ? ? ? ?]).
  assert (∀ f' t, exec (call (OUpdate KBackup (set_finalizers b f'))) t (Returned (Ok b')) →
    Forall stores t → ∃ v, b' = with_version (set_finalizers b f') v) as Hup.
  { intros f' t0 (a & t' & -> & -> & [= <-]) [HP _]%Forall_cons_1.
    destruct (HP _ _ eq_refl) as [[v [= ->]]|[x [=]]]. by exists v. }
  destruct (containsString f BackupFinalizerName) eqn:Hc, ig; cbn [negb andb];
    [intros He HP; destruct (Hup _ _ He HP) as [v ->]|intros [_ [= ->]] _|intros [_ [= ->]] _|
     intros He HP; destruct (Hup _ _ He HP) as [v ->]];
    cbn [set_finalizers with_version with_bk_meta bk_meta with_finalizers Finalizers].
  - rewrite elem_of_removeString, removeString_twice. naive_solver.
  - split_and!; [|done|by eexists]. apply containsString_elem in Hc. naive_solver.
  - split_and!; [|done|by eexists]. apply not_true_iff_false in Hc. rewrite containsString_elem in Hc.
    naive_solver.
  - rewrite removeString_snoc, elem_of_app, list_elem_of_singleton. naive_solver.
Qed.

(** ** Concrete runs *)

Definition plugin_params : gmap string string := {["backupConfig" := "bc"]}.
Definition wal_g_plugin : PluginConfiguration := mkPlugin PluginNameDeprecated (Some plugin_params).
Definition bc_owner : OwnerReference := mkOwnerRef group_version "BackupConfig" "bc" "uid" (Some true).

Definition plugin_backup (name id : string) (del : option time) (f : list string) : Backup :=
  mkBackup (mkMeta name "ns" name "1" 1 (Some {[BackupPgVersionLabelName := "17"]}) None f [bc_owner]
              zero_time del)
    "cluster" BackupMethodPlugin (Some wal_g_plugin) BackupPhaseCompleted None id.

Definition plugin_cluster : Cluster :=
  mkCluster (mkMeta "cluster" "ns" "c" "1" 1 None None [] [] zero_time None) [wal_g_plugin] None []
    "postgres:17" "IfNotPresent".

Definition chain : list Backup :=
  [plugin_backup "a" (full_name wal_40) None [];
   plugin_backup "c" (delta_name wal_61 wal_46) None [];
   plugin_backup "b" (delta_name wal_46 wal_40) None []].

(** The Backups of a chain, and what the oldest is patched with. *)
Lemma all_dependents_spec_witness :
  let b := plugin_backup "a" (full_name wal_40) None [] in
  let notes := @new_annotations canonical_map_range insertion_go_sort b chain in
  notes !! BackupAllDependentsAnnotationName = Some "b c" ∧
  notes !! BackupDirectDependentsAnnotationName = Some "b" ∧
  wp (@reconcileBackupMetadata canonical_map_range insertion_go_sort (λ _, (17%Z, None))
        (λ x y, bool_decide (x = y)) b s3_backup_config None)
    (λ t _, ∀ old new a, Ev (OPatch KBackup old new) a ∈ t → old = b).
Proof.
  split; [vm_compute; reflexivity|]. split; [vm_compute; reflexivity|].
  eapply wp_mono; [|apply all_dependents_spec]. intros t r (H & _) old new a Ha. by apply (H old new a).
Defined.

Definition gone : err := mkErr ENotFound "backupconfigs bc not found".
Definition doomed : Backup := plugin_backup "a" (full_name wal_40) (Some 0%Z) [BackupFinalizerName].

Lemma deletion_stuck_witness :
  ∃ e, Returned (done_err (wrapf "on reconcileRelatedBackupsMetadata: "
          (wrapf "while getting BackupConfig ns/bc for backup ns/a: " gone))) =
       Returned (done_err e).
Proof.
  apply (@deletion_stuck canonical_map_range insertion_go_sort (λ _, (17%Z, None)) (λ _ _, true)
    (mkKey "ns" "a") doomed
    [Ev (OGet KCluster (mkKey "ns" "cluster")) (Ok plugin_cluster);
     Ev (OGet KBackupConfig (mkKey "ns" "bc")) (Err gone)]).
  - reflexivity.
  - reflexivity.
  - eexists _, _. split; [reflexivity|]. eexists _, _. split; [reflexivity|].
    eexists _, _. split; [reflexivity|]. split; reflexivity.
  - apply Forall_cons. split; [intros r Hr; discriminate|].
    apply Forall_cons. split; [|constructor].
    intros r Hr. rewrite got_OGet in Hr. injection Hr as <-. eexists. reflexivity.
Defined.

Lemma finalizer_follows_policy_witness :
  BackupFinalizerName ∈
    Finalizers (bk_meta (plugin_backup "a" (full_name wal_40) None [BackupFinalizerName])).
Proof.
  refine (proj2 (proj1 (finalizer_follows_policy
    (plugin_backup "a" (full_name wal_40) None []) s3_backup_config
    [Ev (OUpdate KBackup (plugin_backup "a" (full_name wal_40) None [BackupFinalizerName]))
        (Ok (with_version (plugin_backup "a" (full_name wal_40) None [BackupFinalizerName]) "2"))]
    (with_version (plugin_backup "a" (full_name wal_40) None [BackupFinalizerName]) "2") _ _)) _).
  - eexists _, _. split; [reflexivity|]. split; reflexivity.
  - apply Forall_cons. split; [|constructor]. intros o r Hr. injection Hr as <- <-. left. exists "2". reflexivity.
  - reflexivity.
Defined.

(** A nil BackupConfig crashes the operator.  A run of [reconcileBackupPermanence] on a
    manual Backup panics: the BackupConfig is found through the cluster but is gone when it is
    fetched through the owner reference; that error is tolerated, and the nil pointer beside
    it is dereferenced. *)
Theorem permanence_panics :
  exec (reconcileBackupPermanence (plugin_backup "a" (full_name wal_40) None []))
    [Ev (OGet KCluster (mkKey "ns" "cluster")) (Ok plugin_cluster);
     Ev (OGet KBackupConfig (mkKey "ns" "bc")) (Ok s3_backup_config);
     Ev (OGet KBackupConfig (mkKey "ns" "bc")) (Err gone);
     Ev (OViperString "pgdata") ""]
    (Panicked nil_deref).
Proof.
  eexists _, _. split; [reflexivity|]. eexists _, _. split; [reflexivity|].
  eexists _, _. split; [reflexivity|]. eexists _, _. split; [reflexivity|]. split; reflexivity.
Qed.
