(* ===== verification/Deletion.v ===== *)
(** [internal/controller/backup_delete_controller.go]: deleting the data of Backups and
    BackupConfigs, and the queues that serialise it.

    In the handlers [DeletionRequestTimeout] appears as errors of the calls made under the
    deadline; in [Queues], where a Backup may be given up while it waits for the semaphore, the
    deadline of a request is a step of the environment.  A
    deferred [Release] of the semaphore runs on every return; a panic ends the process. *)
From stdpp Require Import base list strings gmap relations.
From S2P Require Import Prelude GoStrings GoTime Api Effects Backups Secrets Config Client BackupCtl.
Local Open Scope string_scope.
Local Open Scope list_scope.
Local Open Scope go_scope.

(** ** Deleting one Backup *)

(** [writableCondFound && writableCondition.Status == metav1.ConditionFalse]. *)
Definition storage_unwritable (backupConfig : BackupConfig) : bool :=
  match find_first (λ c, String.eqb (c_Type c) ConditionTypeStorageWritable)
          (Conditions (bc_Status backupConfig)) with
  | Some c => String.eqb (c_Status c) ConditionFalse
  | None => false
  end.

(** The part of [deleteWALGBackup] that needs the BackupConfig. *)
Definition delete_from_storage (backup : Backup) (backupConfig : BackupConfig) (pgVersion : Z)
    : prog (option err) :=
  if storage_unwritable backupConfig then removeBackupFinalizer backup
  else
    withSecrets ← PrefetchSecretsData backupConfig;
    match withSecrets with
    | Err e => Ret (Some (wrapf "while prefetching backup secrets data for backup: " e))
    | Ok backupConfigWithSecrets =>
        if IgnoreForBackupDeletion (Retention (bc_Spec (ws_config backupConfigWithSecrets)))
        then removeBackupFinalizer backup
        else
          c ← NewClientFromBackupConfig backupConfigWithSecrets pgVersion;
          '(result, e) ← DeleteBackup c (bk_BackupID backup);
          match e with
          | Some e => Ret (Some (wrapf "while wal-g backup removal: error " e))
          | None => removeBackupFinalizer backup
          end
    end.

(** The body of [deleteWALGBackup] after the semaphore is acquired. *)
Definition delete_backup_body (backupKey : ObjectKey) : prog (option err) :=
  backup ← call (OGet KBackup backupKey);
  match (backup : res Backup) with
  | Err e => Ret (Some (wrapf ("while getting backup " +:+ key_string backupKey +:+ ": ") e))
  | Ok backup =>
      match Labels (bk_meta backup), Annotations (bk_meta backup) with
      | Some labels, Some annotations =>
          if negb (String.eqb (default "" (annotations !! BackupAllDependentsAnnotationName)) "")
          then Ret None
          else if negb (containsString (Finalizers (bk_meta backup)) BackupFinalizerName)
          then Ret None
          else if String.eqb (bk_BackupID backup) "" then removeBackupFinalizer backup
          else
            match atoi (default "" (labels !! BackupPgVersionLabelName)) with
            | (_, Some _) =>
                Ret (Some (errorf ("while wal-g backup removal: error cannot parse pgVersion from Backup label "
                                   +:+ BackupPgVersionLabelName)))
            | (pgVersion, None) =>
                backupConfig ← GetBackupConfigForBackup backup;
                match backupConfig with
                | Err e =>
                    if is_not_found e then Panic nil_deref
                    else Ret (Some (wrapf ("while getting backupconfig for backup " +:+
                                           key_string backupKey +:+ ": ") e))
                | Ok backupConfig =>
                    delete_from_storage backup backupConfig pgVersion
                end
            end
      | _, _ => Ret None
      end
  end.

Definition deleteWALGBackup (backupKey : ObjectKey) : prog (option err) :=
  e ← call OAcquire;
  match (e : option err) with
  | Some e => Ret (Some (wrapf ("acquire deletion semaphore for backup " +:+
                                key_string backupKey +:+ ": ") e))
  | None =>
      r ← delete_backup_body backupKey;
      _ ← call ORelease;
      Ret r
  end.

(** ** Deleting one BackupConfig *)

Section config.
Variable unmarshal_backups : string → res (list BackupMetadata).

(** The loop over the PostgreSQL versions, from 11 to 19. *)
Definition pg_versions : list Z := seqZ 11 9.

Fixpoint clean_versions (backupConfig : BackupConfigWithSecrets) (versions : list Z)
    : prog (option err) :=
  match versions with
  | [] => Ret None
  | pgVersion :: versions =>
      c ← NewClientFromBackupConfig backupConfig pgVersion;
      '(result, e) ← DeleteAllBackupsAndWALsInStorage unmarshal_backups c;
      match e with
      | Some e => Ret (Some (wrapf "while wal-g storage cleanup: error " e))
      | None => clean_versions backupConfig versions
      end
  end.

Definition clean_storage (backupConfig : BackupConfig) : prog (option err) :=
  if IgnoreForBackupConfigDeletion (Retention (bc_Spec backupConfig)) then Ret None
  else if storage_unwritable backupConfig then Ret None
  else
    withSecrets ← PrefetchSecretsData backupConfig;
    match withSecrets with
    | Err e => Ret (Some (wrapf ("while fetching secrets data for backupConfig " +:+
                                 key_string (key_of (bc_meta backupConfig)) +:+ ": ") e))
    | Ok backupConfigWithSecrets => clean_versions backupConfigWithSecrets pg_versions
    end.

Definition deleteBackupConfig (backupConfigKey : ObjectKey) : prog (option err) :=
  backupConfig ← call (OGet KBackupConfig backupConfigKey);
  match (backupConfig : res BackupConfig) with
  | Err e => Ret (ignore_not_found e)
  | Ok backupConfig =>
      e ← clean_storage backupConfig;
      match e with
      | Some e => Ret (Some e)
      | None =>
          let finalizers := Finalizers (bc_meta backupConfig) in
          if containsString finalizers BackupConfigFinalizerName then
            r ← call (OUpdate KBackupConfig (with_bc_meta backupConfig
                   (with_finalizers (bc_meta backupConfig)
                      (removeString finalizers BackupConfigFinalizerName))));
            match (r : res BackupConfig) with
            | Err e => Ret (Some (wrapf "while removing cleanup finalizer from BackupConfig: " e))
            | Ok _ => Ret None
            end
          else Ret None
      end
  end.

(** One request, as [processDeletionQueue] dispatches it; its error is only logged. *)
Definition process_request (request : DeletionRequest) : prog (option err) :=
  match dr_Type request with
  | ResourceTypeBackup => deleteWALGBackup (dr_Key request)
  | ResourceTypeBackupConfig => deleteBackupConfig (dr_Key request)
  end.
End config.

(** ** When the finalizer of a Backup goes *)

(** The Backups a trace writes. *)
Definition written (e : event) : option Backup := fst <$> updated_backup e.
Definition updates (t : list event) : list Backup := omap written t.

Definition no_update (e : event) : Prop := written e = None.

Lemma no_updates t : Forall no_update t → updates t = [].
Proof. induction 1 as [|e t He Ht IH]; [done|]. unfold updates in *. simpl. by rewrite He. Qed.

Lemma reads_no_update e : reads e → no_update e.
Proof. destruct e as [[] ?]; done. Qed.

Lemma emits_no_update {A} (p : prog A) : safe reads p → emits no_update p.
Proof. intros Hp. eapply emits_mono; [apply reads_no_update|by apply safe_emits]. Qed.

Lemma no_update_client bc v : emits no_update (NewClientFromBackupConfig bc v).
Proof. apply (emits_new_config _ (Some bc)); done. Qed.

(** The data of the backup is gone: wal-g deleted it, or reported that it is not there. *)
Definition deleted_from_storage (id : string) (t : list event) : Prop :=
  ∃ env result e,
    Ev (OExec "wal-g" ["delete"; "target"; id; "--confirm"] env) (result, e) ∈ t ∧
    (e = None ∨ backup_missing id result = true).

Lemma DeleteBackup_deleted c id t result e :
  exec (DeleteBackup c id) t (Returned (result, e)) →
  Forall no_update t ∧ (e = None → deleted_from_storage id t).
Proof.
  intros He. pose proof (proj1 (wp_exec _ _) (DeleteBackup_wp c id) _ _ He) as
    (a1 & res & e0 & a3 & -> & e' & [= <- <-] & Hiff).
  split; [by repeat constructor|]. intros Hn. eexists _, result, e0. split; [|by apply Hiff].
  right. left.
Qed.

Lemma removeBackupFinalizer_updates b t r :
  exec (removeBackupFinalizer b) t r →
  (∃ e, r = Returned e) ∧
  ∀ o, o ∈ updates t →
    o = set_finalizers b (removeString (Finalizers (bk_meta b)) BackupFinalizerName).
Proof.
  unfold removeBackupFinalizer. destruct (negb _); [intros [-> ->]; split; [eauto|by intros ? ?%elem_of_nil]|].
  intros (a & t' & -> & He)%exec_call.
  destruct a; destruct He as [-> ->]; (split; [eauto|]); intros o Ho;
    unfold updates in Ho; simpl in Ho; by apply list_elem_of_singleton in Ho.
Qed.

(** The status controller found the storage unwritable. *)
Definition known_unwritable (bc : BackupConfig) : Prop :=
  ∃ c, c ∈ Conditions (bc_Status bc) ∧ c_Type c = ConditionTypeStorageWritable ∧
       c_Status c = ConditionFalse.

Lemma storage_unwritable_known bc : storage_unwritable bc = true → known_unwritable bc.
Proof.
  unfold storage_unwritable. destruct (find_first _ _) as [c|] eqn:Hc; [|done].
  apply find_first_elem in Hc as [? ?%String.eqb_eq]. intros ?%String.eqb_eq. by exists c.
Qed.

(** Why the finalizer of [backup] may go, given what happened so far. *)
Definition releasable (t : list event) (backup : Backup) : Prop :=
  bk_BackupID backup = "" ∨
  (∃ bc, Ev (OGet KBackupConfig (backup_config_owner backup)) (Ok bc) ∈ t ∧
     (known_unwritable bc ∨ IgnoreForBackupDeletion (Retention (bc_Spec bc)) = true)) ∨
  deleted_from_storage (bk_BackupID backup) t.

Definition no_dependents (backup : Backup) : Prop :=
  str_map_get (Annotations (bk_meta backup)) BackupAllDependentsAnnotationName = "".

(** Every write of a run is the release of the Backup fetched under [key], and is allowed. *)
Definition releases_well (key : ObjectKey) (t : list event) : Prop :=
  ∀ o, o ∈ updates t → ∃ backup, Ev (OGet KBackup key) (Ok backup) ∈ t ∧
    o = set_finalizers backup (removeString (Finalizers (bk_meta backup)) BackupFinalizerName) ∧
    no_dependents backup ∧ releasable t backup.

Lemma releases_none key t : Forall no_update t → releases_well key t.
Proof. intros Ht%no_updates o. rewrite Ht. by intros ?%elem_of_nil. Qed.

Lemma releases_end key backup t0 t1 r :
  Forall no_update t0 → Ev (OGet KBackup key) (Ok backup) ∈ t0 →
  no_dependents backup → releasable t0 backup →
  exec (removeBackupFinalizer backup) t1 r → releases_well key (t0 ++ t1).
Proof.
  intros H0 Hin Hnd Hrel [_ H1]%removeBackupFinalizer_updates o.
  unfold updates in *. rewrite omap_app. fold (updates t0). rewrite (no_updates t0 H0).
  intros Ho. exists backup. split_and!; [by apply elem_of_app; left|by apply H1|done|].
  destruct Hrel as [?|[(bc & ? & ?)|(env & res & e & ? & ?)]];
    [by left|right; left; exists bc|right; right; exists env, res, e];
    (split; [by apply elem_of_app; left|done]).
Qed.

(** A quiet first part of a run, then the rest. *)
Lemma exec_quiet {A B} (p : prog A) (f : A → prog B) t r :
  emits no_update p → exec (p ≫= f) t r →
  (Forall no_update t ∧ ∃ w, r = Panicked w) ∨
  ∃ a t1 t2, t = t1 ++ t2 ∧ Forall no_update t1 ∧ exec p t1 (Returned a) ∧ exec (f a) t2 r.
Proof.
  intros Hp [(t1 & t2 & a & -> & H1 & H2)|(w & H1 & ->)]%exec_bind.
  - right. exists a, t1, t2. split_and!; [done| |done|done]. by eapply exec_emits.
  - left. split; [by eapply exec_emits|eauto].
Qed.

(** Beginnings of runs that update nothing, and ends that release the finalizer. *)
Section body.
Variables (key : ObjectKey) (backup : Backup).
Let e0 : event := Ev (OGet KBackup key) (Ok backup).

Lemma quiet_body t : Forall no_update t → releases_well key (e0 :: t).
Proof. intros Ht. apply releases_none. by constructor. Qed.

Lemma body_end t0 t1 r :
  no_dependents backup → Forall no_update t0 → releasable (e0 :: t0) backup →
  exec (removeBackupFinalizer backup) t1 r → releases_well key (e0 :: t0 ++ t1).
Proof.
  intros Hnd H0 Hrel Hx.
  apply (releases_end key backup (e0 :: t0) t1 r); [by constructor|by left|done..].
Qed.

Lemma delete_from_storage_releases bc pgVersion t0 t r :
  no_dependents backup → Forall no_update t0 →
  Ev (OGet KBackupConfig (backup_config_owner backup)) (Ok bc) ∈ t0 →
  exec (delete_from_storage backup bc pgVersion) t r → releases_well key (e0 :: t0 ++ t).
Proof.
  intros Hnd H0 Hin He. unfold delete_from_storage in He.
  destruct (storage_unwritable bc) eqn:Hw.
  { eapply body_end; [done|done| |done]. right. left. exists bc.
    split; [by right|left; by apply storage_unwritable_known]. }
  apply exec_quiet in He as [[Ht _]|(ws & u2 & t3 & -> & Hu2 & Hws & He)];
    [apply quiet_body; by apply Forall_app| |by apply emits_no_update, safe_reads_prefetch].
  rewrite app_assoc.
  destruct ws as [ws|e];
    [|destruct He as [-> _]; rewrite app_nil_r; apply quiet_body; by apply Forall_app].
  assert (ws_config ws = bc) as Hwc by (by eapply prefetch_config). rewrite Hwc in He.
  destruct (IgnoreForBackupDeletion _) eqn:Hig.
  { eapply body_end; [done|by apply Forall_app| |done]. right. left. exists bc.
    split; [right; by apply elem_of_app; left|by right]. }
  apply exec_quiet in He as [[Ht _]|(c & u3 & t4 & -> & Hu3 & Hc & He)];
    [apply quiet_body; by rewrite !Forall_app| |apply no_update_client].
  rewrite app_assoc.
  apply exec_bind in He as [(u4 & t5 & [result e] & -> & Hdel & He)|(w & Hdel & ->)].
  2: { exfalso. pose proof (proj1 (wp_exec _ _) (DeleteBackup_wp c (bk_BackupID backup)) _ _ Hdel)
         as (? & ? & ? & ? & _ & ? & [=] & _). }
  apply DeleteBackup_deleted in Hdel as [Hu4 Hdel]. rewrite app_assoc. destruct e as [e|].
  - destruct He as [-> _]. rewrite app_nil_r. apply quiet_body. by rewrite !Forall_app.
  - eapply body_end; [done|by rewrite !Forall_app| |done]. right. right.
    destruct (Hdel eq_refl) as (env & res & e & Hx & ?). exists env, res, e.
    split; [|done]. right. apply elem_of_app. by right.
Qed.
End body.

Lemma delete_backup_body_releases key t r :
  exec (delete_backup_body key) t r → releases_well key t.
Proof.
  unfold delete_backup_body. intros (a & t1 & -> & He)%exec_call.
  destruct a as [backup|e]; [|destruct He as [-> _]; apply releases_none; by repeat constructor].
  cbv beta iota in He.
  destruct (Labels (bk_meta backup)) as [labels|] eqn:Hl;
    [|destruct He as [-> _]; by apply quiet_body].
  destruct (Annotations (bk_meta backup)) as [ann|] eqn:Ha;
    [|destruct He as [-> _]; by apply quiet_body].
  destruct (String.eqb (default "" _) "") eqn:Hd; cbn [negb] in He;
    [|destruct He as [-> _]; by apply quiet_body].
  assert (no_dependents backup) as Hnd.
  { unfold no_dependents, str_map_get. rewrite Ha. by apply String.eqb_eq in Hd. }
  destruct (negb (containsString _ _)); [destruct He as [-> _]; by apply quiet_body|].
  destruct (String.eqb_spec (bk_BackupID backup) "").
  { apply (body_end key backup [] t1 r); [done|constructor|by left|done]. }
  destruct (atoi _) as [v [e|]]; [destruct He as [-> _]; by apply quiet_body|].
  apply exec_quiet in He as [[Ht _]|(bc & u1 & t2 & -> & Hu1 & Hbc & He)];
    [by apply quiet_body| |by apply emits_no_update, safe_reads_for_backup].
  destruct bc as [bc|e]; [|destruct (is_not_found e); destruct He as [-> _];
    rewrite app_nil_r; by apply quiet_body].
  eapply delete_from_storage_releases; [done|done| |done].
  apply GetBackupConfigForBackup_ok in Hbc as ->. by left.
Qed.

(** C6: the finalizer waits for the data.  In any run of [deleteWALGBackup] the only object
    written is the Backup fetched under the key, with the cleanup finalizer taken off and
    nothing else changed; and that happens only if no dependents are recorded on it, and
    either it has no physical backup, or its storage is known to be unwritable, or deletion
    is not managed, or wal-g has already deleted the backup (or found it missing). *)
Theorem finalizer_waits_for_data key t r :
  exec (deleteWALGBackup key) t r → releases_well key t.
Proof.
  unfold deleteWALGBackup. intros (e & t1 & -> & He)%exec_call.
  destruct e as [e|]; [destruct He as [-> _]; apply releases_none; by repeat constructor|].
  assert (∀ u v, Forall no_update u → Forall no_update v → ∀ t, releases_well key t →
    releases_well key (u ++ t ++ v)) as Hframe.
  { intros u v Hu Hv t Ht o. unfold updates. rewrite !omap_app. fold (updates u) (updates v).
    rewrite (no_updates u Hu), (no_updates v Hv), app_nil_r. intros Ho.
    destruct (Ht o Ho) as (b & Hb & -> & Hn & Hr). exists b. split_and!; [set_solver|done|done|].
    destruct Hr as [?|[(bc & ? & ?)|(env & res & e & ? & ?)]];
      [by left|right; left; exists bc|right; right; exists env, res, e]; set_solver. }
  apply exec_bind in He as [(t2 & t3 & a & -> & Hb & Hr)|(w & Hb & ->)].
  - destruct Hr as (x & t4 & -> & -> & _).
    apply (Hframe [_] [_]); [by repeat constructor..|]. by eapply delete_backup_body_releases.
  - rewrite <-(app_nil_r t1). apply (Hframe [_] []); [by repeat constructor|constructor|].
    by eapply delete_backup_body_releases.
Qed.

(** ** Concrete deletions of a Backup *)

Definition labelled (id : string) : Backup :=
  mkBackup (mkMeta "a" "ns" "u" "1" 1 (Some {[BackupPgVersionLabelName := "17"]}) (Some ∅)
              [BackupFinalizerName] [bc_owner] zero_time (Some 0%Z))
    "cluster" BackupMethodPlugin (Some wal_g_plugin) BackupPhaseCompleted None id.

(** A Backup without physical backup is released at once. *)
Lemma finalizer_waits_for_data_witness :
  ∃ backup, set_finalizers (labelled "") [] =
    set_finalizers backup (removeString (Finalizers (bk_meta backup)) BackupFinalizerName) ∧
    no_dependents backup.
Proof.
  destruct (finalizer_waits_for_data (mkKey "ns" "a")
    [Ev OAcquire None; Ev (OGet KBackup (mkKey "ns" "a")) (Ok (labelled ""));
     Ev (OUpdate KBackup (set_finalizers (labelled "") [])) (Ok (set_finalizers (labelled "") []));
     Ev ORelease tt] (Returned None))
    with (o := set_finalizers (labelled "") []) as (backup & _ & Heq & Hn & _).
  - eexists _, _. split; [reflexivity|]. eexists _, _. split; [reflexivity|].
    eexists _, _. split; [reflexivity|]. eexists _, _. split; [reflexivity|]. split; reflexivity.
  - left.
  - exists backup. split; [exact Heq|exact Hn].
Defined.

(** A missing BackupConfig crashes the operator.  When the BackupConfig of a Backup with
    a physical backup is gone, [deleteWALGBackup] tolerates the error and then reads the
    status of the nil object: the run panics, with the semaphore still held. *)
Theorem deletion_panics :
  exec (deleteWALGBackup (mkKey "ns" "a"))
    [Ev OAcquire None; Ev (OGet KBackup (mkKey "ns" "a")) (Ok (labelled "base_1"));
     Ev (OGet KBackupConfig (mkKey "ns" "bc")) (Err gone)]
    (Panicked nil_deref).
Proof.
  eexists _, _. split; [reflexivity|]. eexists _, _. split; [reflexivity|].
  eexists _, _. split; [reflexivity|]. split; reflexivity.
Qed.

(** ** When the finalizer of a BackupConfig goes *)

(** The environment addresses the storage prefix of one PostgreSQL version. *)
Definition env_version (ws : BackupConfigWithSecrets) (v : Z) (env : gmap string string) : Prop :=
  (sts_StorageType (ws_Storage ws) = StorageTypeS3 → ∃ s3, sts_S3 (ws_Storage ws) = Some s3 ∧
     env !! "WALE_S3_PREFIX" = Some (versioned_prefix (s3s_ResolvedPrefix s3) v)) ∧
  (sts_StorageType (ws_Storage ws) = StorageTypeGCS → ∃ gcs, sts_GCS (ws_Storage ws) = Some gcs ∧
     env !! "WALG_GS_PREFIX" = Some (versioned_prefix (gcss_ResolvedPrefix gcs) v)).

Lemma versioned_prefix_env s v : env_value (FString (versioned_prefix s v)) = Some (versioned_prefix s v).
Proof.
  unfold env_value. simpl.
  destruct (String.eqb_spec (versioned_prefix s v) "") as [He|]; [|done].
  unfold versioned_prefix in He. apply (f_equal String.length) in He. rewrite !length_append in He. simpl in He. lia.
Qed.

Lemma apply_storage_prefix ws v c0 t s :
  exec (apply_storage ws v c0) t (Returned s) →
  (sts_StorageType (ws_Storage ws) = StorageTypeS3 → ∃ s3, sts_S3 (ws_Storage ws) = Some s3 ∧
     ss_S3Prefix s = versioned_prefix (s3s_ResolvedPrefix s3) v) ∧
  (sts_StorageType (ws_Storage ws) = StorageTypeGCS → ∃ gcs, sts_GCS (ws_Storage ws) = Some gcs ∧
     ss_GSPrefix s = versioned_prefix (gcss_ResolvedPrefix gcs) v).
Proof.
  unfold apply_storage. cbv zeta.
  destruct (String.eqb_spec (sts_StorageType (ws_Storage ws)) StorageTypeS3) as [->|H3].
  - destruct (sts_S3 (ws_Storage ws)) as [s3|]; [|by intros [_ [=]]].
    intros He. split; [|done]. intros _. exists s3. split; [done|].
    destruct (s3_CustomCA _); [destruct (negb _)|];
      [|destruct He as [_ [= ->]]; done..].
    apply exec_bind in He as [(t1 & t2 & [p|e] & _ & _ & [_ [= ->]])|(w & _ & [=])]; done.
  - destruct (String.eqb_spec (sts_StorageType (ws_Storage ws)) StorageTypeGCS) as [Hg|Hg];
      [|intros _; by split].
    destruct (sts_GCS (ws_Storage ws)) as [gcs|]; [|by intros [_ [=]]].
    intros He. split; [done|]. intros _. exists gcs. split; [done|].
    destruct (negb _); [|destruct He as [_ [= ->]]; done].
    apply exec_bind in He as [(t1 & t2 & [p|e] & _ & _ & [_ [= ->]])|(w & _ & [=])]; done.
Qed.

Lemma new_client_env ws v t c :
  exec (NewClientFromBackupConfig ws v) t (Returned c) →
  env_version ws v (ToEnvMap (client_config c)).
Proof.
  intros [(t1 & t2 & cfg & -> & Hc & [_ [= ->]])|(w & _ & [=])]%exec_bind. simpl.
  apply exec_bind in Hc as [(t3 & t4 & c0 & -> & _ & Hc)|(w & _ & [=])].
  apply exec_bind in Hc as [(t5 & t6 & s & -> & Hs%apply_storage_prefix & Hc)|(w & _ & [=])].
  cbv zeta in Hc. destruct (match ws_Encryption ws with Some _ => _ | None => _ end) as [k tr].
  apply exec_bind in Hc as [(t7 & t8 & pre & -> & _ & [_ [= ->]])|(w & _ & [=])].
  destruct Hs as [H3 Hg]. split.
  - intros (s3 & Hs3 & Hp)%H3. exists s3. split; [done|].
    rewrite (ToEnvMap_lookup _ _ (FString (ss_S3Prefix s))) by (by do 14 right; left).
    rewrite Hp. apply versioned_prefix_env.
  - intros (gcs & Hgcs & Hp)%Hg. exists gcs. split; [done|].
    rewrite (ToEnvMap_lookup _ _ (FString (ss_GSPrefix s))) by (by do 13 right; left).
    rewrite Hp. apply versioned_prefix_env.
Qed.

Section wiping.
Variable unmarshal_backups : string → res (list BackupMetadata).

(** Everything was deleted from the storage of one version. *)
Definition wiped (ws : BackupConfigWithSecrets) (t : list event) (v : Z) : Prop :=
  ∃ env result, env_version ws v env ∧
    Ev (OExec "wal-g" ["delete"; "everything"; "FORCE"; "--confirm"] env) (result, None) ∈ t.

Lemma DeleteAll_last c t result e :
  exec (DeleteAllBackupsAndWALsInStorage unmarshal_backups c) t (Returned (result, e)) →
  Ev (OExec "wal-g" ["delete"; "everything"; "FORCE"; "--confirm"] (ToEnvMap (client_config c)))
    (result, e) ∈ t.
Proof.
  intros [(t1 & t2 & l & -> & _ & He)|(w & _ & [=])]%exec_bind.
  apply exec_bind in He as [(t3 & t4 & ? & -> & _ & (a & t5 & -> & -> & [= <-]))|(w & _ & [=])].
  apply elem_of_app. right. apply elem_of_app. right. left.
Qed.

Lemma clean_versions_runs ws vs t :
  exec (clean_versions unmarshal_backups ws vs) t (Returned None) → ∀ v, v ∈ vs →
  ∃ c t' result, exec (NewClientFromBackupConfig ws v) t' (Returned c) ∧
    Ev (OExec "wal-g" ["delete"; "everything"; "FORCE"; "--confirm"] (ToEnvMap (client_config c)))
      (result, None) ∈ t.
Proof.
  revert t. induction vs as [|v vs IH]; intros t He v' Hv; [by apply elem_of_nil in Hv|].
  apply exec_bind in He as [(t1 & t2 & c & -> & Hc & He)|(w & _ & [=])].
  apply exec_bind in He as [(t3 & t4 & [result [e|]] & -> & Hd%DeleteAll_last & He)|(w & _ & [=])];
    [by destruct He as [_ [=]]|].
  apply elem_of_cons in Hv as [->|Hv].
  - exists c, t1, result. split; [done|]. apply elem_of_app. right. apply elem_of_app. by left.
  - destruct (IH t4 He v' Hv) as (c' & t' & r & ? & ?). exists c', t', r. split; [done|].
    apply elem_of_app. right. apply elem_of_app. by right.
Qed.

Lemma clean_versions_wiped ws vs t :
  exec (clean_versions unmarshal_backups ws vs) t (Returned None) → ∀ v, v ∈ vs → wiped ws t v.
Proof.
  intros He v Hv. destruct (clean_versions_runs ws vs t He v Hv) as (c & t' & result & Hc & ?).
  exists (ToEnvMap (client_config c)), result. split; [by eapply new_client_env|done].
Qed.

(** The write of a BackupConfig. *)
Definition writes_config (e : event) : Prop :=
  match ev_op e with OUpdate KBackupConfig _ => True | _ => False end.

Definition no_config_write (e : event) : Prop :=
  match ev_op e with OUpdate KBackupConfig _ => False | _ => True end.

Lemma emits_reads_no_write {A} (p : prog A) : safe reads p → emits no_config_write p.
Proof.
  intros Hp. eapply emits_mono; [|by apply safe_emits]. by intros [[] ?].
Qed.

Lemma clean_storage_no_write bc : emits no_config_write (clean_storage unmarshal_backups bc).
Proof.
  unfold clean_storage. destruct (IgnoreForBackupConfigDeletion _); [apply emits_ret|].
  destruct (storage_unwritable bc); [apply emits_ret|].
  apply emits_bind; [apply emits_reads_no_write, safe_reads_prefetch|].
  intros [ws|e]; [|apply emits_ret].
  induction pg_versions as [|v vs IH]; [apply emits_ret|]. cbn [clean_versions].
  apply emits_bind; [by apply (emits_new_config _ (Some ws))|intros c].
  apply emits_bind; [|intros [result [e|]]; [apply emits_ret|exact IH]].
  unfold DeleteAllBackupsAndWALsInStorage, GetBackupsList, walg, UnmarkBackupPermanent,
    unmarkBackupPermanent, walg.
  emits_auto; done.
Qed.

Lemma clean_storage_wiped bc t :
  exec (clean_storage unmarshal_backups bc) t (Returned None) →
  IgnoreForBackupConfigDeletion (Retention (bc_Spec bc)) = true ∨ known_unwritable bc ∨
  ∃ ws, ws_config ws = bc ∧ ∀ v, (11 ≤ v ≤ 19)%Z → wiped ws t v.
Proof.
  unfold clean_storage. destruct (IgnoreForBackupConfigDeletion _); [by left|].
  destruct (storage_unwritable bc) eqn:Hw; [right; left; by apply storage_unwritable_known|].
  intros He. right. right.
  apply exec_bind in He as [(t1 & t2 & [ws|e] & -> & Hws & He)|(w & _ & [=])];
    [|by destruct He as [_ [=]]].
  exists ws. split; [by eapply prefetch_config|]. intros v Hv.
  destruct (clean_versions_wiped ws pg_versions t2 He v) as (env & r & ? & ?).
  { apply elem_of_seqZ. lia. }
  exists env, r. split; [done|]. apply elem_of_app. by right.
Qed.

(** The finalizer of a BackupConfig waits for the wipe.  A run of [deleteBackupConfig]
    writes the BackupConfig, taking off the cleanup finalizer, only if storage cleanup is
    disabled for it, or its storage is known to be unwritable, or wal-g has deleted
    everything, successfully, under the storage prefix of every PostgreSQL version from 11
    to 19. *)
Theorem config_finalizer_waits key t r :
  exec (deleteBackupConfig unmarshal_backups key) t r → Exists writes_config t →
  ∃ bc, head t = Some (Ev (OGet KBackupConfig key) (Ok bc)) ∧
    (IgnoreForBackupConfigDeletion (Retention (bc_Spec bc)) = true ∨
     known_unwritable bc ∨
     ∃ ws, ws_config ws = bc ∧ ∀ v, (11 ≤ v ≤ 19)%Z → wiped ws t v).
Proof.
  assert (∀ t, Forall no_config_write t → ¬ Exists writes_config t) as Hno.
  { intros t0 Ht (x & Hx & Hw)%Exists_exists. rewrite Forall_forall in Ht.
    specialize (Ht x Hx). destruct x as [o ?]. unfold writes_config, no_config_write in *.
    simpl in *. by repeat case_match. }
  intros (a & t1 & -> & He)%exec_call Hw.
  destruct a as [bc|e]; [|destruct He as [-> _]; exfalso; revert Hw; apply Hno; by repeat constructor].
  exists bc. split; [done|].
  apply exec_bind in He as [(t2 & t3 & [e|] & -> & Hc & He)|(w & Hc & ->)].
  - exfalso. destruct He as [-> _]. rewrite app_nil_r in Hw. revert Hw. apply Hno.
    constructor; [done|]. eapply exec_emits; [apply clean_storage_no_write|done].
  - apply clean_storage_wiped in Hc as [?|[?|(ws & ? & Hwi)]]; [by left|right; by left|].
    right. right. exists ws. split; [done|]. intros v Hv.
    destruct (Hwi v Hv) as (env & result & ? & ?). exists env, result. split; [done|].
    right. apply elem_of_app. by left.
  - exfalso. revert Hw. apply Hno. constructor; [done|].
    eapply exec_emits; [apply clean_storage_no_write|done].
Qed.
End wiping.

Definition unmanaged_config : BackupConfig :=
  mkBackupConfig (mkMeta "bc" "ns" "uid" "1" 1 None None [BackupConfigFinalizerName] [] zero_time (Some 0%Z))
    (mkBCSpec None None None None None 5 0 false None (mkRetention true false false 1 "7d")
       (mkStorage "s3" (Some s3_keys) None) "" (mkEncryption "" ""))
    (mkBCStatus BackupConfigPhaseNone None None None None []).

Lemma config_finalizer_waits_witness :
  ∃ bc : BackupConfig, Some (Ev (OGet KBackupConfig (mkKey "ns" "bc")) (Ok unmanaged_config)) =
    Some (Ev (OGet KBackupConfig (mkKey "ns" "bc")) (Ok bc)).
Proof.
  destruct (config_finalizer_waits (λ _, Ok []) (mkKey "ns" "bc")
    [Ev (OGet KBackupConfig (mkKey "ns" "bc")) (Ok unmanaged_config);
     Ev (OUpdate KBackupConfig (with_bc_meta unmanaged_config
           (with_finalizers (bc_meta unmanaged_config) []))) (Ok unmanaged_config)]
    (Returned None)) as (bc & Hbc & _).
  - eexists _, _. split; [reflexivity|]. eexists _, _. split; [reflexivity|]. split; reflexivity.
  - apply Exists_cons. right. apply Exists_cons. left. exact I.
  - exists bc. exact Hbc.
Defined.

(** ** The deletion queues

    One buffered channel and one worker goroutine per BackupConfig, created by the first
    request.  The state also records, for the statements, what each queue has accepted and
    what its worker has finished. *)
Module Queues.
Local Open Scope nat_scope.

(** How the worker came to the end of a request: its handler ran (for a Backup, holding the
    semaphore), or it gave up waiting for the semaphore; both end in a line of the log. *)
Inductive ending := Handled | GaveUp.

(** The queues, what each worker is at and whether it holds the semaphore; [expired] are the
    workers whose request is past its deadline.  The rest is history: what was accepted, how
    requests ended, which got the semaphore, and which saw their deadline pass. *)
Record state := mkState {
  deletionQueues : gmap string (list DeletionRequest);
  processing : gmap string DeletionRequest;
  holders : gset string;
  expired : gset string;
  accepted : gmap string (list DeletionRequest);
  finished : gmap string (list (DeletionRequest * ending));
  admitted : gmap string (list DeletionRequest);
  timed_out : gmap string (list DeletionRequest);
}.

(** [NewBackupDeletionController]. *)
Definition init : state := mkState ∅ ∅ ∅ ∅ ∅ ∅ ∅ ∅.

Definition queue_capacity : nat := 128.
Definition semaphore_weight : nat := 10.

Definition at_key {A} (m : gmap string (list A)) (k : string) : list A := default [] (m !! k).

Definition push {A} (k : string) (x : A) (m : gmap string (list A)) : gmap string (list A) :=
  <[k := at_key m k ++ [x]]> m.

(** [enqueueDeletionRequest]: create the queue if needed, then a non-blocking send. *)
Definition enqueueDeletionRequest (s : state) (queueKey : string) (request : DeletionRequest)
    : state * option err :=
  let queue := at_key (deletionQueues s) queueKey in
  if length queue <? queue_capacity then
    (mkState (<[queueKey := queue ++ [request]]> (deletionQueues s)) (processing s) (holders s)
       (expired s) (push queueKey request (accepted s)) (finished s) (admitted s) (timed_out s),
     None)
  else
    (mkState (<[queueKey := queue]> (deletionQueues s)) (processing s) (holders s) (expired s)
       (accepted s) (finished s) (admitted s) (timed_out s),
     Some (errorf ("deletion queue for " +:+ queueKey +:+ " is full"))).

(** The idle worker of a queue receives its first request, whose deadline starts now. *)
Definition receive (s : state) (queueKey : string) : option state :=
  match processing s !! queueKey, deletionQueues s !! queueKey with
  | None, Some (request :: queue) =>
      Some (mkState (<[queueKey := queue]> (deletionQueues s))
              (<[queueKey := request]> (processing s)) (holders s) (expired s ∖ {[queueKey]})
              (accepted s) (finished s) (admitted s) (timed_out s))
  | _, _ => None
  end.

(** [deletionSemaphore.Acquire] by a worker that handles a Backup. *)
Definition acquire (s : state) (queueKey : string) : option state :=
  match processing s !! queueKey with
  | Some request =>
      if bool_decide (dr_Type request = ResourceTypeBackup) &&
         negb (bool_decide (queueKey ∈ holders s)) && (size (holders s) <? semaphore_weight)
      then Some (mkState (deletionQueues s) (processing s) ({[queueKey]} ∪ holders s) (expired s)
                   (accepted s) (finished s) (push queueKey request (admitted s)) (timed_out s))
      else None
  | None => None
  end.

(** [DeletionRequestTimeout] after it was received, the context of a request ends. *)
Definition deadline (s : state) (queueKey : string) : option state :=
  match processing s !! queueKey with
  | Some request =>
      if bool_decide (queueKey ∈ expired s) then None
      else Some (mkState (deletionQueues s) (processing s) (holders s) ({[queueKey]} ∪ expired s)
                   (accepted s) (finished s) (admitted s) (push queueKey request (timed_out s)))
  | None => None
  end.

Definition finish_request (s : state) (queueKey : string) (request : DeletionRequest)
    (e : ending) : state :=
  mkState (deletionQueues s) (delete queueKey (processing s)) (holders s ∖ {[queueKey]})
    (expired s ∖ {[queueKey]}) (accepted s) (push queueKey (request, e) (finished s))
    (admitted s) (timed_out s).

(** The worker is done with its request, releasing the semaphore if it holds it; a Backup
    is only worked on while holding it. *)
Definition finish (s : state) (queueKey : string) : option state :=
  match processing s !! queueKey with
  | Some request =>
      if bool_decide (dr_Type request = ResourceTypeBackupConfig) ||
         bool_decide (queueKey ∈ holders s)
      then Some (finish_request s queueKey request Handled) else None
  | None => None
  end.

(** [Acquire] returns the error of the context that ended: the request of a Backup is over
    without anything having been done for it. *)
Definition give_up_waiting (s : state) (queueKey : string) : option state :=
  match processing s !! queueKey with
  | Some request =>
      if bool_decide (dr_Type request = ResourceTypeBackup) &&
         negb (bool_decide (queueKey ∈ holders s)) && bool_decide (queueKey ∈ expired s)
      then Some (finish_request s queueKey request GaveUp) else None
  | None => None
  end.

Inductive work (s s' : state) : Prop :=
| work_receive k : receive s k = Some s' → work s s'
| work_acquire k : acquire s k = Some s' → work s s'
| work_finish k : finish s k = Some s' → work s s'.

Inductive step (s s' : state) : Prop :=
| step_enqueue k r e : enqueueDeletionRequest s k r = (s', e) → step s s'
| step_work : work s s' → step s s'
| step_deadline k : deadline s k = Some s' → step s s'
| step_timeout k : give_up_waiting s k = Some s' → step s s'.

(** ** The invariant *)

Definition gave_up (x : DeletionRequest * ending) : option DeletionRequest :=
  match x.2 with GaveUp => Some x.1 | Handled => None end.

Definition handled_backup (x : DeletionRequest * ending) : option DeletionRequest :=
  match x.2, dr_Type x.1 with Handled, ResourceTypeBackup => Some x.1 | _, _ => None end.

(** The request the worker of [k] is at, if [k] is in the set. *)
Definition current_in (s : state) (set : gset string) (k : string) : list DeletionRequest :=
  if bool_decide (k ∈ set) then option_list (processing s !! k) else [].

Record inv (s : state) : Prop := {
  inv_fifo : ∀ k, at_key (accepted s) k =
    (at_key (finished s) k).*1 ++ option_list (processing s !! k) ++ at_key (deletionQueues s) k;
  inv_capacity : ∀ k, length (at_key (deletionQueues s) k) ≤ queue_capacity;
  inv_holders : holders s ⊆ dom (processing s);
  inv_semaphore : size (holders s) ≤ semaphore_weight;
  inv_admitted : ∀ k, at_key (admitted s) k =
    omap handled_backup (at_key (finished s) k) ++ current_in s (holders s) k;
  inv_type : ∀ k r, processing s !! k = Some r → k ∈ holders s → dr_Type r = ResourceTypeBackup;
  inv_gave_up : ∀ k, (omap gave_up (at_key (finished s) k) ++ current_in s (expired s) k)
    `sublist_of` at_key (timed_out s) k;
  inv_gave_up_type : ∀ k r, (r, GaveUp) ∈ at_key (finished s) k → dr_Type r = ResourceTypeBackup;
}.

Lemma at_key_insert {A} (m : gmap string (list A)) k l k' :
  at_key (<[k := l]> m) k' = if decide (k = k') then l else at_key m k'.
Proof.
  unfold at_key. destruct (decide (k = k')) as [->|]; [by rewrite lookup_insert_eq|].
  by rewrite lookup_insert_ne.
Qed.

Lemma at_key_push {A} (m : gmap string (list A)) k x k' :
  at_key (push k x m) k' = at_key m k' ++ (if decide (k = k') then [x] else []).
Proof.
  unfold push. rewrite at_key_insert. destruct (decide (k = k')) as [->|]; [done|].
  by rewrite app_nil_r.
Qed.

Lemma current_in_None s set k : processing s !! k = None → current_in s set k = [].
Proof. unfold current_in. intros ->. by destruct (bool_decide _). Qed.

(** Nothing changes for [k] when its request and its membership stay. *)
Lemma current_in_ext s s' set set' k :
  processing s' !! k = processing s !! k → (k ∈ set' ↔ k ∈ set) →
  current_in s' set' k = current_in s set k.
Proof. unfold current_in. intros -> Hs. by rewrite (bool_decide_ext _ _ Hs). Qed.

Lemma current_in_Some s set k r :
  processing s !! k = Some r → k ∈ set → current_in s set k = [r].
Proof. unfold current_in. intros -> Hk. by rewrite bool_decide_eq_true_2. Qed.

Lemma current_in_out s set k : k ∉ set → current_in s set k = [].
Proof. unfold current_in. intros Hk. by rewrite bool_decide_eq_false_2. Qed.

Lemma init_inv : inv init.
Proof.
  split; simpl; try done.
  - intros k. unfold at_key, queue_capacity. rewrite lookup_empty. simpl. lia.
  - unfold semaphore_weight. change (size (∅ : gset string) ≤ 10). rewrite size_empty. lia.
  - intros k r Hr. unfold at_key in Hr. rewrite lookup_empty in Hr. by apply elem_of_nil in Hr.
Qed.

Lemma enqueue_inv s k r s' e : enqueueDeletionRequest s k r = (s', e) → inv s → inv s'.
Proof.
  unfold enqueueDeletionRequest. intros Heq [Hf Hc Hh Hs Ha Ht Hg Hgt].
  destruct (length _ <? queue_capacity) eqn:Hl; injection Heq as <- _; split; simpl; try done;
    intros k'; rewrite ?at_key_push, ?at_key_insert; destruct (decide (k = k')) as [->|]; auto.
  - by rewrite Hf, !app_assoc.
  - by rewrite app_nil_r, Hf.
  - rewrite length_app. apply Nat.ltb_lt in Hl. simpl. lia.
Qed.

Lemma receive_inv s k s' : receive s k = Some s' → inv s → inv s'.
Proof.
  unfold receive. intros Heq [Hf Hc Hh Hs Ha Ht Hg Hgt].
  destruct (processing s !! k) eqn:Hp; [done|].
  destruct (deletionQueues s !! k) as [[|r q]|] eqn:Hq; simplify_eq.
  assert (at_key (deletionQueues s) k = r :: q) as Hk by (unfold at_key; by rewrite Hq).
  assert (k ∉ holders s) as Hnh.
  { intros [r' Hr']%Hh%elem_of_dom. congruence. }
  split; simpl; try done.
  - intros k'. rewrite at_key_insert. destruct (decide (k = k')) as [->|].
    + by rewrite lookup_insert_eq, Hf, Hp, Hk.
    + by rewrite lookup_insert_ne.
  - intros k'. rewrite at_key_insert. destruct (decide (k = k')) as [->|]; [|done].
    specialize (Hc k'). rewrite Hk in Hc. simpl in Hc. lia.
  - rewrite dom_insert_L. set_solver.
  - intros k'. rewrite Ha. f_equal. destruct (decide (k = k')) as [->|].
    + by rewrite !current_in_out.
    + apply eq_sym, current_in_ext; [|done]. simpl. by rewrite lookup_insert_ne.
  - intros k' r' [[<- <-]|[_ Hl]]%lookup_insert_Some Hk'; [done|eauto].
  - intros k'. destruct (decide (k = k')) as [->|].
    + rewrite current_in_out by set_solver. specialize (Hg k').
      by rewrite (current_in_None _ _ _ Hp) in Hg.
    + rewrite (current_in_ext s _ (expired s)); [done| |set_solver]. simpl.
      by rewrite lookup_insert_ne.
Qed.

Lemma acquire_inv s k s' : acquire s k = Some s' → inv s → inv s'.
Proof.
  unfold acquire. intros Heq [Hf Hc Hh Hs Ha Ht Hg Hgt].
  destruct (processing s !! k) as [r|] eqn:Hp; [|done].
  destruct (_ && _) eqn:Hb; simplify_eq. bool_to_prop. split; simpl; try done.
  - apply union_subseteq. split; [|done]. apply singleton_subseteq_l, elem_of_dom. eauto.
  - rewrite size_union by set_solver. rewrite size_singleton. unfold semaphore_weight in *. lia.
  - intros k'. rewrite at_key_push, Ha. destruct (decide (k = k')) as [->|].
    + rewrite (current_in_out s) by done. rewrite app_nil_r. f_equal.
      symmetry. apply current_in_Some; [done|set_solver].
    + rewrite app_nil_r. f_equal. apply eq_sym, current_in_ext; [done|set_solver].
  - intros k' r' Hr [->%elem_of_singleton|Hk']%elem_of_union; [by simplify_eq|eauto].
Qed.

Lemma deadline_inv s k s' : deadline s k = Some s' → inv s → inv s'.
Proof.
  unfold deadline. intros Heq [Hf Hc Hh Hs Ha Ht Hg Hgt].
  destruct (processing s !! k) as [r|] eqn:Hp; [|done].
  destruct (bool_decide _) eqn:Hb; simplify_eq. bool_to_prop. split; simpl; try done.
  intros k'. rewrite at_key_push. specialize (Hg k'). destruct (decide (k = k')) as [->|].
  - rewrite (current_in_out s) in Hg by done. rewrite app_nil_r in Hg.
    rewrite (current_in_Some _ _ _ r); [|done|set_solver]. by apply sublist_app.
  - rewrite app_nil_r, (current_in_ext s _ (expired s)); [done|done|set_solver].
Qed.

(** What the ending of a request must satisfy. *)
Definition may_end (s : state) (k : string) (r : DeletionRequest) (e : ending) : Prop :=
  match e with
  | Handled => dr_Type r = ResourceTypeBackupConfig ∨ k ∈ holders s
  | GaveUp => dr_Type r = ResourceTypeBackup ∧ ¬ k ∈ holders s ∧ k ∈ expired s
  end.

Lemma handled_current s k r e :
  processing s !! k = Some r → may_end s k r e → inv s →
  option_list (handled_backup (r, e)) = current_in s (holders s) k.
Proof.
  intros Hp He Hi. unfold handled_backup. simpl. destruct e; simpl in *.
  - destruct (decide (k ∈ holders s)) as [Hh|Hh].
    + by rewrite (current_in_Some _ _ _ r), (inv_type s Hi k r Hp Hh).
    + rewrite current_in_out by done. by destruct He as [->|].
  - by rewrite current_in_out by apply He.
Qed.

Lemma gave_up_current s k r e :
  processing s !! k = Some r → may_end s k r e →
  option_list (gave_up (r, e)) `sublist_of` current_in s (expired s) k.
Proof.
  intros Hp He. destruct e; simpl in *; [apply sublist_nil_l|].
  rewrite (current_in_Some _ _ _ r); [done|done|apply He].
Qed.

Lemma omap_app_one {A B} (f : A → option B) l x : omap f (l ++ [x]) = omap f l ++ option_list (f x).
Proof. rewrite omap_app. simpl. by destruct (f x). Qed.

Lemma finish_request_inv s k r e :
  processing s !! k = Some r → may_end s k r e → inv s → inv (finish_request s k r e).
Proof.
  intros Hp He Hi. pose proof (handled_current s k r e Hp He Hi) as Hhc.
  pose proof (gave_up_current s k r e Hp He) as Hgc.
  destruct Hi as [Hf Hc Hh Hs Ha Ht Hg Hgt]. split; simpl; try done.
  - intros k'. rewrite at_key_push, fmap_app. destruct (decide (k = k')) as [->|].
    + by rewrite lookup_delete_eq, Hf, Hp, <-app_assoc.
    + by rewrite lookup_delete_ne, app_nil_r.
  - rewrite dom_delete_L. set_solver.
  - etrans; [|exact Hs]. apply subseteq_size. set_solver.
  - intros k'. rewrite at_key_push, Ha. destruct (decide (k = k')) as [->|].
    + rewrite omap_app_one, Hhc, (current_in_out (finish_request _ _ _ _)) by set_solver.
      by rewrite app_nil_r.
    + rewrite app_nil_r. f_equal. apply eq_sym, current_in_ext; [|set_solver].
      simpl. by rewrite lookup_delete_ne.
  - intros k' r' [_ Hl]%lookup_delete_Some Hk'. eapply Ht; [done|set_solver].
  - intros k'. rewrite at_key_push. etrans; [|apply Hg]. destruct (decide (k = k')) as [->|].
    + rewrite omap_app_one, (current_in_out (finish_request _ _ _ _)) by set_solver.
      rewrite app_nil_r. by apply sublist_app.
    + rewrite app_nil_r, (current_in_ext s _ (expired s)); [done| |set_solver].
      simpl. by rewrite lookup_delete_ne.
  - intros k' r'. rewrite at_key_push. intros [Hin|Hin]%elem_of_app; [eauto|].
    destruct (decide (k = k')); [|by apply elem_of_nil in Hin].
    apply list_elem_of_singleton in Hin as [= -> <-]. apply He.
Qed.

Lemma finish_Some s k s' :
  finish s k = Some s' →
  ∃ r, processing s !! k = Some r ∧ may_end s k r Handled ∧ s' = finish_request s k r Handled.
Proof.
  unfold finish. destruct (processing s !! k) as [r|]; [|done].
  destruct (_ || _) eqn:Hb; [|done]. intros [= <-]. exists r. split_and!; [done| |done].
  apply orb_true_iff in Hb as [Hb|Hb]; apply bool_decide_eq_true in Hb; [by left|by right].
Qed.

Lemma give_up_Some s k s' :
  give_up_waiting s k = Some s' →
  ∃ r, processing s !! k = Some r ∧ may_end s k r GaveUp ∧ s' = finish_request s k r GaveUp.
Proof.
  unfold give_up_waiting. destruct (processing s !! k) as [r|]; [|done].
  destruct (_ && _) eqn:Hb; [|done]. intros [= <-]. bool_to_prop. by exists r.
Qed.

Lemma work_inv s s' : work s s' → inv s → inv s'.
Proof.
  intros [k H|k H|k H]; [by eapply receive_inv|by eapply acquire_inv|].
  apply finish_Some in H as (r & Hp & He & ->). by apply finish_request_inv.
Qed.

Lemma step_inv s s' : step s s' → inv s → inv s'.
Proof.
  intros [k r e H|H|k H|k H]; [by eapply enqueue_inv|by eapply work_inv|by eapply deadline_inv|].
  apply give_up_Some in H as (r & Hp & He & ->). by apply finish_request_inv.
Qed.

Lemma reachable_inv s : rtc step init s → inv s.
Proof.
  intros Hr. assert (∀ s0 s, rtc step s0 s → inv s0 → inv s) as H.
  { induction 1; eauto using step_inv. }
  eauto using init_inv.
Qed.

Lemma none_gave_up l : omap gave_up l = [] → ∀ x, x ∈ l → x.2 = Handled.
Proof.
  intros Hl [r []] Hx; [done|]. assert (r ∈ omap gave_up l) as Hr.
  { apply list_elem_of_omap. by exists (r, GaveUp). }
  rewrite Hl in Hr. by apply elem_of_nil in Hr.
Qed.

(** C17: deletions are serialised, and given up only at their deadline.  In every reachable state
    of the controller, each BackupConfig's accepted requests are, in order, those that ended, the
    one being processed, and those still queued: none is skipped, repeated or overtaken.  The
    Backups whose handler ran are, in order, those for which the semaphore was acquired.  A
    request that ended without its handler is that of a Backup whose deadline passed while it
    waited for the semaphore: these are among the requests whose deadline passed, in the same
    order, so with no deadline passed every request that ended was handled.  No queue exceeds
    128 requests, only workers that process the request of a Backup hold the semaphore, and at
    most ten do.  A request that was given up is not put back, [given_up_at_rest], although the
    comment on DeletionRequestTimeout says it is retried. *)
Theorem deletions_serialised s :
  rtc step init s →
  inv s ∧
  ∀ k, at_key (timed_out s) k = [] → ∀ x, x ∈ at_key (finished s) k → x.2 = Handled.
Proof.
  intros Hi%reachable_inv. split; [done|]. intros k Hk. apply none_gave_up.
  pose proof (inv_gave_up s Hi k) as Hg. rewrite Hk in Hg.
  apply sublist_nil_r, app_eq_nil in Hg as [-> _]. done.
Qed.

(** How many requests are in the queues. *)
Definition total_queued (s : state) : nat := map_weight length (deletionQueues s).

(** Two Backups of one BackupConfig: the second waits while the first is deleted. *)
Definition req (name : string) : DeletionRequest := mkRequest ResourceTypeBackup (mkKey "ns" name).
Definition two_queued : state :=
  fst (enqueueDeletionRequest (fst (enqueueDeletionRequest init "ns/bc" (req "a"))) "ns/bc" (req "b")).
Definition first_taken : state := default init (receive two_queued "ns/bc").

Lemma first_taken_reach : rtc step init first_taken.
Proof.
  eapply rtc_l; [eapply (step_enqueue init _ "ns/bc" (req "a")); reflexivity|].
  eapply rtc_l; [eapply (step_enqueue _ two_queued "ns/bc" (req "b")); reflexivity|].
  eapply rtc_l; [|apply rtc_refl]. apply step_work, (work_receive _ _ "ns/bc"). reflexivity.
Qed.

Lemma deletions_serialised_witness :
  at_key (accepted first_taken) "ns/bc" = [req "a"; req "b"] ∧ inv first_taken.
Proof.
  split; [reflexivity|]. apply (deletions_serialised first_taken). exact first_taken_reach.
Defined.

(** ** What becomes of a request that was given up *)

(** A Backup of another BackupConfig is accepted, received and gets the semaphore. *)
Definition occupy (s : state) (k : string) : state :=
  default s (s ← receive (fst (enqueueDeletionRequest s k (req k))) k; acquire s k).

Lemma occupy_steps s k : rtc step s (occupy s k).
Proof.
  unfold occupy. destruct (receive _ k) as [s1|] eqn:Hr; [|apply rtc_refl]. simpl.
  destruct (acquire s1 k) as [s2|] eqn:Ha; [|apply rtc_refl]. simpl.
  eapply rtc_l; [apply (step_enqueue _ _ k (req k) _ (surjective_pairing _))|].
  eapply rtc_l; [apply step_work, (work_receive _ _ k), Hr|].
  apply rtc_once, step_work, (work_acquire _ _ k), Ha.
Qed.

Definition finish_all (s : state) (ks : list string) : state :=
  foldl (λ s k, default s (finish s k)) s ks.

Lemma finish_all_steps s ks : rtc step s (finish_all s ks).
Proof.
  revert s. induction ks as [|k ks IH]; intros s; [apply rtc_refl|]. simpl.
  etrans; [|apply IH]. destruct (finish s k) as [s1|] eqn:Hf; [|apply rtc_refl].
  apply rtc_once, step_work, (work_finish _ _ k), Hf.
Qed.

Definition others : list string :=
  ["ns/0"; "ns/1"; "ns/2"; "ns/3"; "ns/4"; "ns/5"; "ns/6"; "ns/7"; "ns/8"; "ns/9"].

(** Ten deletions of other BackupConfigs hold the semaphore when the request is received. *)
Definition crowded : state := foldl occupy init others.
Definition waiting : state :=
  default init (receive (fst (enqueueDeletionRequest crowded "ns/bc" (req "a"))) "ns/bc").
Definition given_up : state :=
  default init (s ← deadline waiting "ns/bc"; give_up_waiting s "ns/bc").
Definition given_up_rest : state := finish_all given_up others.

Lemma crowded_reach : rtc step init crowded.
Proof.
  unfold crowded. generalize others. intros ks.
  assert (∀ s, rtc step s (foldl occupy s ks)) as H; [|done].
  induction ks as [|k ks IH]; intros s; [apply rtc_refl|]. simpl.
  etrans; [apply occupy_steps|apply IH].
Qed.

(** While ten other deletions take longer than the deadline, the request of a Backup cannot get
    the semaphore and is given up.  When those ten are done nothing is left to do: the request
    was accepted and has ended, its Backup was never worked on, and neither the worker nor, by
    [BackupCtl.taken_not_requeued], the reconciler that made it asks again. *)
Theorem given_up_at_rest :
  acquire waiting "ns/bc" = None ∧
  rtc step init given_up_rest ∧
  processing given_up_rest = ∅ ∧ total_queued given_up_rest = 0 ∧
  at_key (accepted given_up_rest) "ns/bc" = [req "a"] ∧
  at_key (finished given_up_rest) "ns/bc" = [(req "a", GaveUp)].
Proof.
  split; [by vm_compute|]. split; [|by vm_compute].
  etrans; [exact crowded_reach|].
  eapply rtc_l; [apply (step_enqueue _ _ "ns/bc" (req "a") _ (surjective_pairing _))|].
  eapply rtc_l; [apply step_work, (work_receive _ waiting "ns/bc"); reflexivity|].
  eapply rtc_l; [apply (step_deadline _ (default init (deadline waiting "ns/bc")) "ns/bc");
                 reflexivity|].
  eapply rtc_l; [apply (step_timeout _ given_up "ns/bc"); reflexivity|].
  apply finish_all_steps.
Qed.

(** ** Nothing blocks for ever *)

Definition total (q : gmap string (list DeletionRequest)) : nat := map_weight length q.

Lemma total_step q k r l : q !! k = Some (r :: l) → total q = S (total (<[k := l]> q)).
Proof. intros Hk. pose proof (map_weight_replace length q k _ l Hk) as Hw. unfold total; simpl in *. lia. Qed.

Lemma total_zero q k : total q = 0 → at_key q k = [].
Proof.
  unfold at_key. destruct (q !! k) as [[|r l]|] eqn:Hk; [done| |done].
  apply total_step in Hk. lia.
Qed.

Lemma total_nonzero q : total q ≠ 0 → ∃ k r l, q !! k = Some (r :: l).
Proof.
  induction q as [|k l q Hk IH] using map_ind; [done|]. unfold total in *.
  rewrite map_weight_insert by done.
  intros Hne. destruct l as [|r l]; [|exists k, r, l; apply lookup_insert_eq].
  destruct IH as (k' & r & l & Hk'); [done|]. exists k', r, l.
  rewrite lookup_insert_ne by congruence. done.
Qed.

Definition remaining (s : state) : nat :=
  3 * total (deletionQueues s) + 2 * size (processing s) - size (holders s).

Lemma holders_le s : inv s → size (holders s) ≤ size (processing s).
Proof. intros Hi. rewrite <-size_dom. apply subseteq_size, Hi. Qed.

(** The workers by themselves accept nothing and give nothing up. *)
Definition same_given_up (s s' : state) : Prop :=
  accepted s' = accepted s ∧
  ∀ k, omap gave_up (at_key (finished s') k) = omap gave_up (at_key (finished s) k).

Lemma work_keeps s s' : work s s' → same_given_up s s'.
Proof.
  intros [k H|k H|k H].
  1, 2: unfold receive, acquire in H; repeat case_match; by simplify_eq.
  apply finish_Some in H as (r & _ & _ & ->). split; [done|]. intros k'. simpl.
  rewrite at_key_push, omap_app. destruct (decide (k = k')); simpl; by rewrite app_nil_r.
Qed.

Lemma finish_progress s k r e :
  inv s → processing s !! k = Some r →
  remaining (finish_request s k r e) < remaining s.
Proof.
  intros Hi Hp. pose proof (holders_le s Hi) as Hle. unfold remaining; simpl.
  assert (size (processing s) ≠ 0) as Hne.
  { apply map_size_ne_0_lookup. eauto. }
  rewrite map_size_delete_Some by eauto.
  assert (size (holders s) ≤ S (size (holders s ∖ {[k]}))).
  { etrans; [apply (subseteq_size _ ({[k]} ∪ (holders s ∖ {[k]})))|].
    - intros x Hx. destruct (decide (x = k)); set_solver.
    - rewrite size_union by set_solver. by rewrite size_singleton. }
  lia.
Qed.

Lemma progress s :
  inv s → remaining s ≠ 0 → ∃ s', work s s' ∧ remaining s' < remaining s.
Proof.
  intros Hi Hr. pose proof (holders_le s Hi) as Hle.
  destruct (decide (processing s = ∅)) as [Hemp|(k & r & Hp)%map_choose].
  - assert (total (deletionQueues s) ≠ 0) as (k & r & l & Hk)%total_nonzero.
    { unfold remaining in Hr. rewrite Hemp, map_size_empty in *. lia. }
    eexists. split; [apply (work_receive _ _ k); unfold receive; by rewrite Hemp, lookup_empty, Hk|].
    unfold remaining in *; simpl. rewrite (total_step _ _ _ _ Hk).
    rewrite Hemp, map_size_empty in *. rewrite map_size_insert_None by done.
    rewrite map_size_empty. lia.
  - assert (∀ k r, processing s !! k = Some r →
      dr_Type r = ResourceTypeBackupConfig ∨ k ∈ holders s →
      ∃ s', work s s' ∧ remaining s' < remaining s) as Hfin.
    { intros k' r' Hk' Hd. exists (finish_request s k' r' Handled). split; [|by apply finish_progress].
      apply (work_finish _ _ k'). unfold finish. rewrite Hk'.
      destruct Hd as [Hd|Hd]; [rewrite (bool_decide_eq_true_2 _ Hd)|rewrite (bool_decide_eq_true_2 _ Hd)];
        by rewrite ?orb_true_r. }
    destruct (dr_Type r) eqn:Ht; [|eauto].
    destruct (decide (k ∈ holders s)) as [Hh|Hh]; [eauto|].
    destruct (decide (size (holders s) < semaphore_weight)) as [Hlt|Hge].
    + eexists. split.
      * apply (work_acquire _ _ k). unfold acquire. rewrite Hp, Ht.
        rewrite bool_decide_eq_true_2, bool_decide_eq_false_2 by done.
        by rewrite (proj2 (Nat.ltb_lt _ _) Hlt).
      * unfold remaining; simpl. rewrite size_union by set_solver. rewrite size_singleton.
        assert (size (holders s) < size (processing s)); [|lia].
        rewrite <-size_dom. apply subset_size. split; [apply Hi|].
        intros Hsub. apply Hh, Hsub, elem_of_dom. eauto.
    + destruct (set_choose_L (holders s)) as [k' Hk'].
      { intros He. rewrite He, size_empty in Hge. unfold semaphore_weight in Hge. lia. }
      pose proof (inv_holders s Hi k' Hk') as [r' Hr']%elem_of_dom. eauto.
Qed.

Lemma drain_run s :
  inv s → ∃ s', rtc work s s' ∧ inv s' ∧ remaining s' = 0 ∧ same_given_up s s'.
Proof.
  induction (well_founded_ltof _ remaining s) as [s _ IH]. intros Hi.
  destruct (decide (remaining s = 0)) as [H0|H0]; [by exists s; split_and!; [apply rtc_refl|..]|].
  destruct (progress s Hi H0) as (s1 & Hs1 & Hlt).
  destruct (IH s1 Hlt (work_inv _ _ Hs1 Hi)) as (s' & Hw & Hi' & Hr & Ha & Hg).
  destruct (work_keeps s s1 Hs1) as [Ha1 Hg1].
  exists s'. split_and!; [by eapply rtc_l|done|done|]. split; [congruence|].
  intros k. by rewrite Hg, Hg1.
Qed.

(** C18: the workers can always finish.  From every reachable state, with no new requests and
    no deadline passing, the workers have a run of receives, semaphore acquisitions and
    completions after which every queue is empty, nothing is being processed, and each
    BackupConfig's requests have ended exactly as they were accepted, in order, with no more of
    them given up than there were: the semaphore shared by all queues cannot deadlock the
    workers. *)
Theorem deletions_drain s :
  rtc step init s → ∃ s', rtc work s s' ∧ processing s' = ∅ ∧
    ∀ k, at_key (deletionQueues s') k = [] ∧ (at_key (finished s') k).*1 = at_key (accepted s) k ∧
         omap gave_up (at_key (finished s') k) = omap gave_up (at_key (finished s) k).
Proof.
  intros (s' & Hw & Hi' & Hr & Hacc & Hg)%reachable_inv%drain_run.
  pose proof (holders_le s' Hi') as Hle. unfold remaining in Hr.
  assert (processing s' = ∅) as Hemp by (apply map_size_empty_inv; lia).
  exists s'. split_and!; [done|done|]. intros k.
  assert (at_key (deletionQueues s') k = []) as Hq by (apply total_zero; lia).
  split_and!; [done| |done]. pose proof (inv_fifo s' Hi' k) as Hf.
  rewrite Hemp, lookup_empty, Hq, app_nil_r in Hf. by rewrite <-Hf, Hacc.
Qed.

Lemma deletions_drain_witness :
  ∃ s', rtc work first_taken s' ∧
    (at_key (finished s') "ns/bc").*1 = [req "a"; req "b"] ∧
    omap gave_up (at_key (finished s') "ns/bc") = [].
Proof.
  destruct (deletions_drain first_taken) as (s' & Hw & _ & Hk); [exact first_taken_reach|].
  exists s'. split; [exact Hw|]. destruct (Hk "ns/bc") as (_ & H & Hg).
  split; [exact H|exact Hg].
Defined.
End Queues.
