(* ===== verification/DeletionWorkers.v ===== *)
(** [internal/controller/backup_delete_controller.go], the goroutines: the workers that
    [enqueueDeletionRequest] starts, the cancel functions it keeps for them, and the clean-up of
    [Start] when the manager stops.

    [Deletion.Queues] describes one worker per queue.  Here a worker is a goroutine of its own,
    with its context; until the manager stops, the goroutines implement that description.  Then
    [Start] cancels them one by one.  The map of queues is read and written under its mutex, so
    each operation is one step; the reads outside of it are not modelled as races.  [handler_phases]
    ties the steps of a worker to the handlers of [Deletion]. *)
From stdpp Require Import base list strings gmap relations.
From S2P Require Import Prelude GoStrings GoTime Api Effects Backups Secrets Config Client BackupCtl Deletion.
Local Open Scope string_scope.
Local Open Scope nat_scope.
Local Open Scope list_scope.

(** ** The state *)

(** A goroutine in [processDeletionQueue]. *)
Record worker := mkWorker {
  w_key : string;
  w_request : option DeletionRequest;
  w_holds : bool;
  w_cancelled : bool;
}.

(** Where [Start] is: waiting for its context, in the loop over [queueCtxCancels], which had the
    keys [keys] when it began and has visited [seen], or back.  [started] is how many workers
    had been started when the context ended. *)
Inductive phase :=
| Running
| Stopping (keys seen : gset string) (started : nat)
| Stopped (started : nat).

Record state := mkState {
  deletionQueues : gmap string (list DeletionRequest);
  queueCtxCancels : gmap string nat;
  workers : gmap nat worker;
  used : nat;
  now : phase;
  next : nat;
}.

(** [NewBackupDeletionController]. *)
Definition init : state := mkState ∅ ∅ ∅ 0 Running 0.

Definition set_queue (s : state) (key : string) (queue : list DeletionRequest) : state :=
  mkState (<[key := queue]> (deletionQueues s)) (queueCtxCancels s) (workers s) (used s) (now s)
    (next s).
Definition set_worker (s : state) (id : nat) (w : worker) (used : nat) : state :=
  mkState (deletionQueues s) (queueCtxCancels s) (<[id := w]> (workers s)) used (now s) (next s).
Definition set_phase (s : state) (p : phase) : state :=
  mkState (deletionQueues s) (queueCtxCancels s) (workers s) (used s) p (next s).

(** ** The operations *)

Definition start_worker (s : state) (queueKey : string) : state :=
  mkState (<[queueKey := []]> (deletionQueues s)) (<[queueKey := next s]> (queueCtxCancels s))
    (<[next s := mkWorker queueKey None false false]> (workers s)) (used s) (now s) (S (next s)).

Definition ensure_queue (s : state) (queueKey : string) : state :=
  match deletionQueues s !! queueKey with Some _ => s | None => start_worker s queueKey end.

Definition enqueueDeletionRequest (s : state) (queueKey : string) (request : DeletionRequest)
    : state * option err :=
  let s := ensure_queue s queueKey in
  let queue := Queues.at_key (deletionQueues s) queueKey in
  if length queue <? Queues.queue_capacity
  then (set_queue s queueKey (queue ++ [request]), None)
  else (s, Some (errorf ("deletion queue for " +:+ queueKey +:+ " is full"))).

(** The two cases of the [select] of a worker that waits; a receive from a queue that is no
    longer in the map blocks. *)
Definition quit (s : state) (id : nat) : option state :=
  w ← workers s !! id;
  match w_request w with
  | None => if w_cancelled w
            then Some (mkState (deletionQueues s) (queueCtxCancels s) (delete id (workers s))
                         (used s) (now s) (next s))
            else None
  | Some _ => None
  end.

Definition receive (s : state) (id : nat) : option state :=
  w ← workers s !! id;
  match w_request w, deletionQueues s !! w_key w with
  | None, Some (request :: queue) =>
      Some (set_worker (set_queue s (w_key w) queue) id
              (mkWorker (w_key w) (Some request) (w_holds w) (w_cancelled w)) (used s))
  | _, _ => None
  end.

(** [deletionSemaphore.Acquire] for a Backup: it returns when there is room, or with an error. *)
Definition waits (w : worker) : bool :=
  match w_request w with
  | Some request => bool_decide (dr_Type request = ResourceTypeBackup) && negb (w_holds w)
  | None => false
  end.

Definition acquire (s : state) (id : nat) : option state :=
  w ← workers s !! id;
  if waits w && (used s <? Queues.semaphore_weight)
  then Some (set_worker s id (mkWorker (w_key w) (w_request w) true (w_cancelled w)) (S (used s)))
  else None.

Definition idle (w : worker) : worker := mkWorker (w_key w) None false (w_cancelled w).

Definition abandon (s : state) (id : nat) : option state :=
  w ← workers s !! id;
  if waits w then Some (set_worker s id (idle w) (used s)) else None.

(** The handler returns, and releases the semaphore if it was acquired. *)
Definition finish (s : state) (id : nat) : option state :=
  w ← workers s !! id;
  match w_request w with
  | Some _ => if waits w then None
              else Some (set_worker s id (idle w) (if w_holds w then used s - 1 else used s))
  | None => None
  end.

(** One round of the loop of [Start]: the context of the worker ends, its queue is removed. *)
Definition cancel (w : worker) : worker := mkWorker (w_key w) (w_request w) (w_holds w) true.

Definition clean (s : state) (queueKey : string) : option state :=
  match now s, queueCtxCancels s !! queueKey with
  | Stopping keys seen started, Some id =>
      if bool_decide (queueKey ∈ seen) then None
      else Some (mkState (delete queueKey (deletionQueues s)) (queueCtxCancels s)
                   (alter cancel id (workers s)) (used s)
                   (Stopping keys ({[queueKey]} ∪ seen) started) (next s))
  | _, _ => None
  end.

(** [ctx.Done()] of [Start] is closed; the loop is over when every key it had from the beginning
    was visited, whatever was added since. *)
Definition stop (s : state) : option state :=
  match now s with
  | Running => Some (set_phase s (Stopping (dom (queueCtxCancels s)) ∅ (next s)))
  | _ => None
  end.

Definition stopped (s : state) : option state :=
  match now s with
  | Stopping keys seen started =>
      if bool_decide (keys ⊆ seen) then Some (set_phase s (Stopped started)) else None
  | _ => None
  end.

(** A context that ended ends the wait for the semaphore. *)
Definition refused (s : state) (id : nat) : option state :=
  w ← workers s !! id; if w_cancelled w then abandon s id else None.

(** What the workers do by themselves. *)
Inductive work (s s' : state) : Prop :=
| work_quit id : quit s id = Some s' → work s s'
| work_receive id : receive s id = Some s' → work s s'
| work_acquire id : acquire s id = Some s' → work s s'
| work_finish id : finish s id = Some s' → work s s'
| work_refused id : refused s id = Some s' → work s s'.

Inductive step (s s' : state) : Prop :=
| step_enqueue k r e : enqueueDeletionRequest s k r = (s', e) → step s s'
| step_work : work s s' → step s s'
| step_timeout id : abandon s id = Some s' → step s s'
| step_stop : stop s = Some s' → step s s'
| step_clean k : clean s k = Some s' → step s s'
| step_stopped : stopped s = Some s' → step s s'.

(** ** The invariant *)

(** The worker of a queue in use: its cancel function is the one that is kept. *)
Definition owned (s : state) (id : nat) (w : worker) : Prop :=
  queueCtxCancels s !! w_key w = Some id ∧ is_Some (deletionQueues s !! w_key w) ∧
  w_cancelled w = false.

(** What holds of each worker, according to where [Start] is. *)
Definition attended (s : state) (id : nat) (w : worker) : Prop :=
  match now s with
  | Running => owned s id w
  | Stopping keys seen started =>
      id < started → w_cancelled w = true ∨ owned s id w ∧ w_key w ∈ keys ∧ w_key w ∉ seen
  | Stopped started => id < started → w_cancelled w = true
  end.

Definition start_count (s : state) : nat :=
  match now s with Running => 0 | Stopping _ _ started | Stopped started => started end.

Definition keys_known (s : state) : Prop :=
  match now s with Stopping keys _ _ => keys ⊆ dom (queueCtxCancels s) | _ => True end.

Record inv (s : state) : Prop := {
  inv_keys : keys_known s;
  inv_started : start_count s ≤ next s;
  inv_fresh : ∀ id, next s ≤ id → workers s !! id = None;
  inv_attended : ∀ id w, workers s !! id = Some w → attended s id w;
}.

Lemma workers_init_inv : inv init.
Proof. split; [done..|]. intros id w Hw. cbn [workers init] in Hw. by rewrite lookup_empty in Hw. Qed.

(** Steps of a worker keep its key and its context; queues are not removed. *)
Definition same_worker (w w' : worker) : Prop :=
  w_key w' = w_key w ∧ w_cancelled w' = w_cancelled w.

Lemma worker_step_inv s s' :
  now s' = now s → next s' = next s → queueCtxCancels s' = queueCtxCancels s →
  (∀ k, is_Some (deletionQueues s !! k) → is_Some (deletionQueues s' !! k)) →
  (∀ id w', workers s' !! id = Some w' → ∃ w, workers s !! id = Some w ∧ same_worker w w') →
  inv s → inv s'.
Proof.
  intros Hnow Hnext Hc Hq Hw [Hk Hs Hf Ha]. split.
  - unfold keys_known in *. by rewrite Hnow, Hc.
  - unfold start_count in *. by rewrite Hnow, Hnext.
  - intros id Hid. rewrite Hnext in Hid. destruct (workers s' !! id) as [w'|] eqn:Hw'; [|done].
    destruct (Hw id w' Hw') as (w & Hlw & _). rewrite Hf in Hlw by done. done.
  - intros id w' Hw'. destruct (Hw id w' Hw') as (w & Hlw & Hkey & Hcan).
    specialize (Ha id w Hlw). unfold attended, owned in *.
    rewrite Hnow, Hkey, Hcan, Hc. destruct (now s); naive_solver.
Qed.

Lemma same_insert s id w w' id' w0 :
  workers s !! id = Some w → same_worker w w' →
  <[id := w']> (workers s) !! id' = Some w0 → ∃ w1, workers s !! id' = Some w1 ∧ same_worker w1 w0.
Proof.
  intros Hw Hs [[<- <-]|[Hne Hl]]%lookup_insert_Some; [eauto|]. exists w0. by repeat split.
Qed.

Lemma workers_receive_inv s id s' : receive s id = Some s' → inv s → inv s'.
Proof.
  unfold receive. intros (w & Hw & Heq)%bind_Some.
  destruct (w_request w), (deletionQueues s !! w_key w) as [[|r q]|] eqn:Hq; simplify_eq.
  apply worker_step_inv; simpl; try done.
  - intros k Hk. destruct (decide (w_key w = k)) as [<-|].
    + rewrite lookup_insert_eq. eauto.
    + by rewrite lookup_insert_ne.
  - intros id' w0. by eapply same_insert.
Qed.

Lemma set_worker_inv s id w w' n :
  workers s !! id = Some w → same_worker w w' → inv s → inv (set_worker s id w' n).
Proof.
  intros Hw Hs. apply worker_step_inv; simpl; try done. intros id' w0. by eapply same_insert.
Qed.

Lemma abandon_inv s id s' : abandon s id = Some s' → inv s → inv s'.
Proof.
  unfold abandon. intros (w & Hw & Heq)%bind_Some. destruct (waits w); simplify_eq.
  by apply (set_worker_inv _ _ w).
Qed.

Lemma workers_work_inv s s' : work s s' → inv s → inv s'.
Proof.
  intros [id H|id H|id H|id H|id H]; [|by eapply workers_receive_inv|..];
    apply bind_Some in H as (w & Hw & H).
  - destruct (w_request w), (w_cancelled w); simplify_eq.
    apply worker_step_inv; simpl; try done.
    intros id' w' [_ Hl]%lookup_delete_Some. exists w'. by repeat split.
  - destruct (_ && _); simplify_eq. by apply (set_worker_inv _ _ w).
  - destruct (w_request w), (waits w); simplify_eq. by apply (set_worker_inv _ _ w).
  - destruct (w_cancelled w); [|done]. by eapply abandon_inv.
Qed.

Lemma attended_new s k id w :
  deletionQueues s !! k = None → inv s → workers s !! id = Some w → attended (start_worker s k) id w.
Proof.
  intros Hk [_ _ _ Ha] Hw. specialize (Ha id w Hw).
  assert (owned s id w → owned (start_worker s k) id w) as Ho.
  { intros (Hc & Hq & Hn). assert (k ≠ w_key w) as Hne.
    { intros ->. rewrite Hk in Hq. by destruct Hq. }
    unfold owned. simpl. by rewrite !lookup_insert_ne. }
  unfold attended in *. simpl. destruct (now s); naive_solver.
Qed.

Lemma ensure_queue_inv s k : inv s → inv (ensure_queue s k).
Proof.
  intros Hi. unfold ensure_queue. destruct (deletionQueues s !! k) eqn:Hk; [done|].
  pose proof (inv_started s Hi) as Hs. split; simpl.
  - pose proof (inv_keys s Hi) as Hkeys. unfold keys_known in *. simpl.
    destruct (now s); set_solver.
  - unfold start_count in *. simpl. lia.
  - intros id Hid. rewrite lookup_insert_ne by lia. apply (inv_fresh s Hi). lia.
  - intros id w [[<- <-]|[Hne Hw]]%lookup_insert_Some; [|by apply attended_new].
    unfold attended, start_count in *. simpl. destruct (now s); [|lia..].
    unfold owned. simpl. rewrite !lookup_insert_eq. eauto.
Qed.

Lemma set_queue_inv s k q : inv s → inv (set_queue s k q).
Proof.
  apply worker_step_inv; simpl; try done; [|intros id w Hw; by exists w].
  intros k' Hk'. destruct (decide (k = k')) as [<-|].
  - rewrite lookup_insert_eq. eauto.
  - by rewrite lookup_insert_ne.
Qed.

Lemma clean_attended s keys seen started k id0 :
  now s = Stopping keys seen started → queueCtxCancels s !! k = Some id0 → inv s →
  ∀ id w, alter cancel id0 (workers s) !! id = Some w → id < started →
  w_cancelled w = true ∨
  owned (mkState (delete k (deletionQueues s)) (queueCtxCancels s) (alter cancel id0 (workers s))
           (used s) (Stopping keys ({[k]} ∪ seen) started) (next s)) id w ∧
  w_key w ∈ keys ∧ w_key w ∉ {[k]} ∪ seen.
Proof.
  intros Hnow Hc Hi id w Hw Hid.
  apply lookup_alter_Some in Hw as [(-> & w0 & Hw & ->)|[Hne Hw]]; [by left|].
  pose proof (inv_attended s Hi id w Hw) as Ha. unfold attended in Ha. rewrite Hnow in Ha.
  destruct (Ha Hid) as [Hcan|((Hcw & Hq & Hn) & Hk & Hs)]; [by left|right].
  assert (k ≠ w_key w) as Hkw by congruence.
  split_and!; [|done|set_solver]. split_and!; simpl; [done| |done]. by rewrite lookup_delete_ne.
Qed.

Lemma clean_inv s k s' : clean s k = Some s' → inv s → inv s'.
Proof.
  unfold clean. intros Heq Hi. destruct (now s) as [|keys seen started|] eqn:Hnow; [done| |done].
  destruct (queueCtxCancels s !! k) as [id0|] eqn:Hc; [|done].
  destruct (bool_decide _); simplify_eq. split; simpl.
  - pose proof (inv_keys s Hi) as Hkeys. unfold keys_known in *. rewrite Hnow in Hkeys. exact Hkeys.
  - pose proof (inv_started s Hi) as Hs. unfold start_count in *. by rewrite Hnow in Hs.
  - intros id Hid. rewrite lookup_alter_None. by apply (inv_fresh s Hi).
  - intros id w Hw Hid. by apply (clean_attended s keys seen started k id0 Hnow Hc Hi).
Qed.

Lemma stop_inv s s' : stop s = Some s' → inv s → inv s'.
Proof.
  unfold stop. intros Heq Hi. destruct (now s) eqn:Hnow; simplify_eq. split; [|done| |].
  - unfold keys_known. simpl. reflexivity.
  - apply (inv_fresh s Hi).
  - intros id w Hw _. right. pose proof (inv_attended s Hi id w Hw) as Ha.
    unfold attended in Ha. rewrite Hnow in Ha. split; [done|]. split; [|set_solver].
    apply elem_of_dom. destruct Ha as [-> _]. eauto.
Qed.

Lemma stopped_inv s s' : stopped s = Some s' → inv s → inv s'.
Proof.
  unfold stopped. intros Heq Hi. destruct (now s) as [|keys seen started|] eqn:Hnow; [done| |done].
  destruct (bool_decide _) eqn:Hall; simplify_eq. apply bool_decide_eq_true in Hall.
  pose proof (inv_started s Hi) as Hs. unfold start_count in Hs. rewrite Hnow in Hs.
  split; [done..|apply (inv_fresh s Hi)|].
  intros id w Hw Hid. pose proof (inv_attended s Hi id w Hw) as Ha. unfold attended in Ha.
  rewrite Hnow in Ha. destruct (Ha Hid) as [|(_ & Hk & Hn)]; [done|]. by destruct Hn; apply Hall.
Qed.

Lemma workers_step_inv s s' : step s s' → inv s → inv s'.
Proof.
  intros [k r e H|H|id H|H|k H|H];
    [|by apply workers_work_inv|by eapply abandon_inv|by apply stop_inv|by eapply clean_inv
     |by apply stopped_inv].
  unfold enqueueDeletionRequest in H. intros Hi.
  destruct (_ <? _); injection H as <- _; [apply set_queue_inv|]; by apply ensure_queue_inv.
Qed.

Lemma steps_inv s s' : rtc step s s' → inv s → inv s'.
Proof. induction 1; eauto using workers_step_inv. Qed.

Lemma workers_reachable_inv s : rtc step init s → inv s.
Proof. intros Hr. exact (steps_inv _ _ Hr workers_init_inv). Qed.

(** ** Until the manager stops: one worker per queue *)

(** A state of the goroutines as a state of [Deletion.Queues]; the deadlines and the record of
    what was accepted and how it ended have no counterpart in the state of the goroutines. *)
Record sim (s : state) (a : Queues.state) : Prop := {
  sim_queues : Queues.deletionQueues a = deletionQueues s;
  sim_worker : ∀ id w, workers s !! id = Some w →
    Queues.processing a !! w_key w = w_request w ∧
    (w_key w ∈ Queues.holders a ↔ w_holds w = true);
  sim_busy : ∀ k, is_Some (Queues.processing a !! k) →
    ∃ id w, workers s !! id = Some w ∧ w_key w = k;
  sim_used : used s = size (Queues.holders a);
}.

Lemma init_sim : sim init Queues.init.
Proof.
  split; [done|..].
  - intros id w Hw. cbn [workers init] in Hw. by rewrite lookup_empty in Hw.
  - intros k [r Hr]. cbn [Queues.processing Queues.init] in Hr. by rewrite lookup_empty in Hr.
  - cbn [Queues.holders Queues.init]. by rewrite size_empty.
Qed.

Lemma running_owned s id w : inv s → now s = Running → workers s !! id = Some w → owned s id w.
Proof. intros Hi Hn Hw. pose proof (inv_attended s Hi id w Hw) as Ha. unfold attended in Ha. by rewrite Hn in Ha. Qed.

Lemma owned_inj s id w id' w' : owned s id w → owned s id' w' → w_key w = w_key w' → id = id'.
Proof. intros (H & _) (H' & _) Hk. rewrite Hk in H. congruence. Qed.

(** One worker moves. *)
Lemma sim_move s a s' a' id w w' :
  inv s → now s = Running → sim s a → workers s !! id = Some w → w_key w' = w_key w →
  workers s' = <[id := w']> (workers s) → Queues.deletionQueues a' = deletionQueues s' →
  Queues.processing a' !! w_key w = w_request w' →
  (w_key w ∈ Queues.holders a' ↔ w_holds w' = true) →
  (∀ k, k ≠ w_key w → Queues.processing a' !! k = Queues.processing a !! k ∧
                      (k ∈ Queues.holders a' ↔ k ∈ Queues.holders a)) →
  used s' = size (Queues.holders a') → sim s' a'.
Proof.
  intros Hi Hn Hsim Hw Hk Hws Hq Hp Hh Hother Hu. split; [done|..|done].
  - rewrite Hws. intros id0 w0 [[<- <-]|[Hne Hw0]]%lookup_insert_Some; [by rewrite Hk|].
    assert (w_key w0 ≠ w_key w) as Hkne.
    { intros Heq. apply Hne. apply eq_sym. eapply (owned_inj s id0 w0 id w); [| |done];
        by apply running_owned. }
    destruct (Hother _ Hkne) as [-> ->]. by apply (sim_worker s a Hsim id0).
  - intros k Hk'. destruct (decide (k = w_key w)) as [->|Hne].
    + exists id, w'. by rewrite Hws, lookup_insert_eq.
    + rewrite (proj1 (Hother k Hne)) in Hk'.
      destruct (sim_busy s a Hsim k Hk') as (id0 & w0 & Hw0 & <-).
      exists id0, w0. rewrite Hws, lookup_insert_ne; [done|]. intros ->. congruence.
Qed.

Lemma sim_no_queue s a k :
  inv s → now s = Running → Queues.inv a → sim s a → deletionQueues s !! k = None →
  Queues.processing a !! k = None ∧ k ∉ Queues.holders a.
Proof.
  intros Hi Hn Ha Hsim Hk.
  assert (Queues.processing a !! k = None) as Hp.
  { destruct (Queues.processing a !! k) eqn:Hp; [|done].
    destruct (sim_busy s a Hsim k) as (id & w & Hw & <-); [eauto|].
    destruct (running_owned s id w Hi Hn Hw) as (_ & [q Hq] & _). congruence. }
  split; [done|]. intros Hh. apply (Queues.inv_holders a Ha), elem_of_dom in Hh as [r Hr]. congruence.
Qed.

(** What [ensure_queue] changes is not seen: a queue that is missing is as good as an empty one. *)
Lemma sim_enqueue s a k r s' e :
  inv s → now s = Running → Queues.inv a → sim s a → enqueueDeletionRequest s k r = (s', e) →
  ∃ a', Queues.enqueueDeletionRequest a k r = (a', e) ∧ sim s' a'.
Proof.
  intros Hi Hn Ha Hsim. unfold enqueueDeletionRequest, Queues.enqueueDeletionRequest.
  rewrite (sim_queues s a Hsim). unfold ensure_queue.
  destruct (deletionQueues s !! k) as [q|] eqn:Hk.
  - assert (Queues.at_key (deletionQueues s) k = q) as Hat by (unfold Queues.at_key; by rewrite Hk).
    rewrite Hat. destruct (_ <? _) eqn:Hl; intros [= <- <-]; (eexists; split; [done|]);
      destruct Hsim as [Hq Hw Hb Hu]; split; simpl; try done.
    by rewrite insert_id.
  - assert (Queues.at_key (deletionQueues s) k = []) as ->
      by (unfold Queues.at_key; by rewrite Hk).
    simpl. unfold Queues.at_key. rewrite lookup_insert_eq. simpl. intros [= <- <-].
    destruct (sim_no_queue s a k Hi Hn Ha Hsim Hk) as [Hp Hh].
    eexists. split; [done|]. destruct Hsim as [Hq Hw Hb Hu]. split; simpl; try done.
    + by rewrite insert_insert_eq.
    + intros id w [[<- <-]|[Hne Hl]]%lookup_insert_Some; simpl; [|by apply (Hw id)].
      split; [done|]. split; [done|discriminate].
    + intros k' Hk'. destruct (Hb k' Hk') as (id & w & Hl & Hkey). exists id, w.
      rewrite lookup_insert_ne; [done|]. intros <-. by rewrite (inv_fresh s Hi) in Hl by lia.
Qed.

Lemma sim_receive s a id s' :
  inv s → now s = Running → sim s a → receive s id = Some s' →
  ∃ k a', Queues.receive a k = Some a' ∧ sim s' a'.
Proof.
  unfold receive. intros Hi Hn Hsim (w & Hw & Heq)%bind_Some.
  destruct (w_request w) eqn:Hr, (deletionQueues s !! w_key w) as [[|r q]|] eqn:Hq; simplify_eq.
  destruct (sim_worker s a Hsim id w Hw) as [Hp Hh]. rewrite Hr in Hp.
  exists (w_key w). unfold Queues.receive. rewrite Hp, (sim_queues s a Hsim), Hq.
  eexists. split; [done|].
  apply (sim_move s a _ _ id w (mkWorker (w_key w) (Some r) (w_holds w) (w_cancelled w)) Hi Hn Hsim Hw); simpl; try done.
  - by rewrite lookup_insert_eq.
  - intros k Hk. by rewrite lookup_insert_ne.
  - apply Hsim.
Qed.

Lemma sim_acquire s a id s' :
  inv s → now s = Running → sim s a → acquire s id = Some s' →
  ∃ k a', Queues.acquire a k = Some a' ∧ sim s' a'.
Proof.
  unfold acquire, waits. intros Hi Hn Hsim (w & Hw & Heq)%bind_Some.
  destruct (w_request w) as [r|] eqn:Hr; [|done].
  destruct (_ && _ && _) eqn:Hc; simplify_eq. apply andb_true_iff in Hc as [[Ht Hnh]%andb_true_iff Hu].
  destruct (sim_worker s a Hsim id w Hw) as [Hp Hh]. rewrite Hr in Hp.
  assert (w_key w ∉ Queues.holders a) as Hno.
  { intros Hin%Hh. rewrite Hin in Hnh. done. }
  exists (w_key w). unfold Queues.acquire. rewrite Hp, Ht, <-(sim_used s a Hsim), Hu.
  rewrite (bool_decide_eq_false_2 _ Hno). eexists. split; [done|].
  apply (sim_move s a _ _ id w (mkWorker (w_key w) (Some r) true (w_cancelled w)) Hi Hn Hsim Hw); simpl; try done.
  - apply Hsim.
  - split; [done|set_solver].
  - intros k Hk. set_solver.
  - rewrite size_union by set_solver. by rewrite size_singleton, (sim_used s a Hsim).
Qed.

Lemma sim_idle s a id w r e n :
  inv s → now s = Running → sim s a → workers s !! id = Some w →
  n = size (Queues.holders a ∖ {[w_key w]}) →
  sim (set_worker s id (idle w) n) (Queues.finish_request a (w_key w) r e).
Proof.
  intros Hi Hn Hsim Hw Hu.
  apply (sim_move s a _ _ id w (idle w) Hi Hn Hsim Hw); simpl; try done.
  - apply Hsim.
  - by rewrite lookup_delete_eq.
  - set_solver.
  - intros k Hk. rewrite lookup_delete_ne by done. set_solver.
Qed.

Lemma sim_finish s a id s' :
  inv s → now s = Running → sim s a → finish s id = Some s' →
  ∃ k a', Queues.finish a k = Some a' ∧ sim s' a'.
Proof.
  unfold finish, waits. intros Hi Hn Hsim (w & Hw & Heq)%bind_Some.
  destruct (w_request w) as [r|] eqn:Hr; [|done].
  destruct (_ && _) eqn:Hc; simplify_eq.
  destruct (sim_worker s a Hsim id w Hw) as [Hp Hh]. rewrite Hr in Hp.
  exists (w_key w), (Queues.finish_request a (w_key w) r Queues.Handled). split.
  - unfold Queues.finish. rewrite Hp. destruct (w_holds w) eqn:Hhold.
    + rewrite (bool_decide_eq_true_2 (_ ∈ _)) by by apply Hh. by rewrite orb_true_r.
    + rewrite andb_true_r in Hc. apply bool_decide_eq_false in Hc.
      by destruct (dr_Type r).
  - apply sim_idle; [done..|]. rewrite (sim_used s a Hsim). destruct (w_holds w) eqn:Hhold.
    + rewrite size_difference by (apply singleton_subseteq_l; by apply Hh). by rewrite size_singleton.
    + f_equal. apply set_eq. intros k. rewrite elem_of_difference, elem_of_singleton.
      split; [|tauto]. intros Hk. split; [done|]. intros ->. apply Hh in Hk. done.
Qed.

(** The deadline of a request is not part of the state of the goroutines. *)
Lemma sim_deadline s a a' k : Queues.deadline a k = Some a' → sim s a → sim s a'.
Proof.
  unfold Queues.deadline. destruct (Queues.processing a !! k); [|done].
  destruct (bool_decide _); [done|]. intros [= <-] [Hq Hw Hb Hu]. by split.
Qed.

(** By the time a worker gives up, its deadline has passed. *)
Lemma expires s a id w r :
  sim s a → workers s !! id = Some w → w_request w = Some r →
  ∃ a', rtc Queues.step a a' ∧ sim s a' ∧ w_key w ∈ Queues.expired a'.
Proof.
  intros Hsim Hw Hr. destruct (sim_worker s a Hsim id w Hw) as [Hp _]. rewrite Hr in Hp.
  destruct (decide (w_key w ∈ Queues.expired a)) as [He|He]; [by exists a; split_and!; [apply rtc_refl|..]|].
  destruct (Queues.deadline a (w_key w)) as [a'|] eqn:Hd.
  - exists a'. split_and!; [by eapply rtc_once, Queues.step_deadline|by eapply sim_deadline|].
    unfold Queues.deadline in Hd. rewrite Hp, bool_decide_eq_false_2 in Hd by done.
    injection Hd as <-. simpl. set_solver.
  - unfold Queues.deadline in Hd. by rewrite Hp, bool_decide_eq_false_2 in Hd.
Qed.

Lemma sim_abandon s a id s' :
  inv s → now s = Running → sim s a → abandon s id = Some s' →
  ∃ a', rtc Queues.step a a' ∧ sim s' a'.
Proof.
  unfold abandon, waits. intros Hi Hn Hsim (w & Hw & Heq)%bind_Some.
  destruct (w_request w) as [r|] eqn:Hr; [|done].
  destruct (_ && _) eqn:Hc; simplify_eq. apply andb_true_iff in Hc as [Ht Hnh].
  destruct (expires s a id w r Hsim Hw Hr) as (a1 & Ha1 & Hsim1 & He).
  destruct (sim_worker s a1 Hsim1 id w Hw) as [Hp Hh]. rewrite Hr in Hp.
  assert (w_key w ∉ Queues.holders a1) as Hno by (intros Hin%Hh; by rewrite Hin in Hnh).
  exists (Queues.finish_request a1 (w_key w) r Queues.GaveUp). split.
  - eapply rtc_r; [exact Ha1|]. apply (Queues.step_timeout _ _ (w_key w)).
    unfold Queues.give_up_waiting. rewrite Hp, Ht, (bool_decide_eq_false_2 _ Hno).
    by rewrite (bool_decide_eq_true_2 _ He).
  - apply sim_idle; [done..|]. rewrite (sim_used s a1 Hsim1). f_equal. set_solver.
Qed.

Lemma sim_work s a s' :
  inv s → now s = Running → sim s a → work s s' → ∃ a', rtc Queues.step a a' ∧ sim s' a'.
Proof.
  intros Hi Hn Hsim [id H|id H|id H|id H|id H].
  - unfold quit in H. apply bind_Some in H as (w & Hw & H).
    destruct (running_owned s id w Hi Hn Hw) as (_ & _ & Hc). rewrite Hc in H.
    by destruct (w_request w).
  - destruct (sim_receive s a id s') as (k & a' & Hs & Ha); [done..|].
    exists a'. split; [|done]. by apply rtc_once, Queues.step_work, (Queues.work_receive _ _ k).
  - destruct (sim_acquire s a id s') as (k & a' & Hs & Ha); [done..|].
    exists a'. split; [|done]. by apply rtc_once, Queues.step_work, (Queues.work_acquire _ _ k).
  - destruct (sim_finish s a id s') as (k & a' & Hs & Ha); [done..|].
    exists a'. split; [|done]. by apply rtc_once, Queues.step_work, (Queues.work_finish _ _ k).
  - unfold refused in H. apply bind_Some in H as (w & Hw & H).
    destruct (running_owned s id w Hi Hn Hw) as (_ & _ & Hc). by rewrite Hc in H.
Qed.

Lemma sim_step s a s' :
  inv s → now s' = Running → now s = Running → Queues.inv a → sim s a → step s s' →
  ∃ a', rtc Queues.step a a' ∧ sim s' a'.
Proof.
  intros Hi Hn' Hn Ha Hsim [k r e H|H|id H|H|k H|H].
  - destruct (sim_enqueue s a k r s' e) as (a' & Hs & Hsim'); [done..|].
    exists a'. split; [by eapply rtc_once, Queues.step_enqueue|done].
  - by eapply sim_work.
  - by eapply sim_abandon.
  - unfold stop in H. rewrite Hn in H. by simplify_eq.
  - unfold clean in H. by rewrite Hn in H.
  - unfold stopped in H. by rewrite Hn in H.
Qed.

Lemma phase_back s s' : step s s' → now s' = Running → now s = Running.
Proof.
  intros [k r e H|H|id H|H|k H|H].
  - unfold enqueueDeletionRequest, ensure_queue in H.
    destruct (deletionQueues s !! k), (_ <? _); by injection H as <- _.
  - destruct H as [id H|id H|id H|id H|id H];
      unfold quit, receive, acquire, finish, refused, abandon in H;
      apply bind_Some in H as (w & Hw & H); rewrite ?Hw in H; simpl in H;
      repeat case_match; by simplify_eq.
  - unfold abandon in H. apply bind_Some in H as (w & _ & H). by destruct (waits w); simplify_eq.
  - unfold stop in H. by destruct (now s); simplify_eq.
  - unfold clean in H. repeat case_match; by simplify_eq.
  - unfold stopped in H. repeat case_match; by simplify_eq.
Qed.

(** C19: until the manager stops, the goroutines implement the description by queues.  Whatever the
    order in which requests arrive and goroutines run, the state is that of one worker for each
    queue: it is reached by the same enqueues, receives, semaphore operations and completions, a
    worker that gives up doing so after its deadline, with the same queues and the same requests
    in work, and the count of the semaphore is the number of workers that hold it.  No two goroutines serve one BackupConfig. *)
Theorem workers_refine_queues s :
  rtc step init s → now s = Running →
  (∃ a, rtc Queues.step Queues.init a ∧ sim s a) ∧
  ∀ id id' w w', workers s !! id = Some w → workers s !! id' = Some w' →
    w_key w = w_key w' → id = id'.
Proof.
  intros Hs Hn. split.
  - revert s Hs Hn.
    apply (rtc_ind_r (λ s, now s = Running → ∃ a, rtc Queues.step Queues.init a ∧ sim s a)).
    + intros _. exists Queues.init. split; [apply rtc_refl|apply init_sim].
    + intros s s' Hs Hstep IH Hn'. pose proof (phase_back s s' Hstep Hn') as Hn.
      destruct (IH Hn) as (a & Ha & Hsim).
      destruct (sim_step s a s' (workers_reachable_inv s Hs) Hn' Hn (Queues.reachable_inv a Ha) Hsim Hstep)
        as (a' & Hs' & Hsim').
      exists a'. split; [by etrans|done].
  - intros id id' w w' Hw Hw'. apply (owned_inj s id w id' w');
      by apply running_owned; [apply workers_reachable_inv|..].
Qed.

(** A Backup is taken by its worker while another BackupConfig gets a queue. *)
Definition after_enqueue (s : state) (k name : string) : state :=
  fst (enqueueDeletionRequest s k (Queues.req name)).
Definition one_queued : state := after_enqueue init "ns/bc" "a".
Definition two_keys : state := after_enqueue one_queued "ns/other" "b".
Definition one_taken : state := default init (receive two_keys 0).

Lemma enqueue_reach s k name : step s (after_enqueue s k name).
Proof.
  apply (step_enqueue _ _ k (Queues.req name) (snd (enqueueDeletionRequest s k (Queues.req name)))).
  apply surjective_pairing.
Qed.

Lemma one_taken_reach : rtc step init one_taken.
Proof.
  eapply rtc_l; [apply (enqueue_reach init "ns/bc" "a")|].
  eapply rtc_l; [apply (enqueue_reach one_queued "ns/other" "b")|].
  eapply rtc_l; [|apply rtc_refl]. apply step_work, (work_receive _ _ 0). reflexivity.
Qed.

Lemma workers_refine_queues_witness :
  size (workers one_taken) = 2 ∧ ∃ a, rtc Queues.step Queues.init a ∧ sim one_taken a.
Proof.
  split; [reflexivity|].
  apply (workers_refine_queues one_taken); [exact one_taken_reach|reflexivity].
Defined.

(** ** The handlers, seen by the semaphore

    [acquire], [abandon] and [finish] are what the calls of [Deletion.process_request] amount to:
    each handler waits first, if at all, and releases what it acquired at its very end. *)
Definition off (e : event) : Prop :=
  match ev_op e with OAcquire | ORelease => False | _ => True end.

Lemma emits_reads_off {A} (p : prog A) : safe reads p → emits off p.
Proof. intros Hp. eapply emits_mono; [|by apply safe_emits]. by intros [[] ?]. Qed.

Lemma off_client bc v : emits off (NewClientFromBackupConfig bc v).
Proof. by apply emits_NewClient. Qed.

Lemma off_prefetch bc : emits off (PrefetchSecretsData bc).
Proof. apply emits_reads_off, safe_reads_prefetch. Qed.

Lemma off_for_backup b : emits off (GetBackupConfigForBackup b).
Proof. apply emits_reads_off, safe_reads_for_backup. Qed.

Lemma off_release_finalizer b : emits off (removeBackupFinalizer b).
Proof. unfold removeBackupFinalizer. emits_auto; done. Qed.
#[export] Hint Resolve off_client off_prefetch off_for_backup off_release_finalizer : golib.

Lemma off_from_storage b bc v : emits off (delete_from_storage b bc v).
Proof.
  unfold delete_from_storage, DeleteBackup, UnmarkBackupPermanent, unmarkBackupPermanent, walg.
  emits_auto; done.
Qed.

Lemma off_backup key : emits off (delete_backup_body key).
Proof. unfold delete_backup_body. emits_auto; try done. apply off_from_storage. Qed.

Lemma off_config unmarshal_backups key : emits off (deleteBackupConfig unmarshal_backups key).
Proof.
  assert (∀ ws vs, emits off (clean_versions unmarshal_backups ws vs)) as Hclean.
  { intros ws vs. induction vs as [|v vs IH]; [apply emits_ret|]. cbn [clean_versions].
    apply emits_bind; [apply off_client|intros c].
    apply emits_bind; [|intros [result [e|]]; [apply emits_ret|exact IH]].
    unfold DeleteAllBackupsAndWALsInStorage, GetBackupsList, walg, UnmarkBackupPermanent,
      unmarkBackupPermanent, walg.
    emits_auto; done. }
  unfold deleteBackupConfig, clean_storage. emits_auto; done.
Qed.

(** A handler waits for the semaphore only for a Backup and only as its first call.  Refused, it
    calls nothing else; admitted, its last call gives the semaphore back, unless it panics, which
    ends the process. *)
Theorem handler_phases unmarshal_backups request t r :
  exec (process_request unmarshal_backups request) t r →
  (dr_Type request = ResourceTypeBackupConfig → Forall off t) ∧
  (dr_Type request = ResourceTypeBackup →
    (∃ why e, t = [Ev OAcquire (Some why)] ∧ r = Returned (Some e)) ∨
    ∃ t', Forall off t' ∧
      ((∃ e, t = Ev OAcquire None :: t' ++ [Ev ORelease tt] ∧ r = Returned e) ∨
       (∃ why, t = Ev OAcquire None :: t' ∧ r = Panicked why))).
Proof.
  unfold process_request. destruct (dr_Type request); intros He.
  - split; [discriminate|intros _]. unfold deleteWALGBackup in He. apply exec_call in He as (a & t1 & -> & He).
    destruct a as [why|]; [left; destruct He as [-> ->]; eauto|right].
    apply exec_bind in He as [(t2 & t3 & e & -> & Hb & He)|(why & Hb & ->)];
      pose proof (exec_emits _ _ _ _ (off_backup _) Hb) as Ht.
    + apply exec_call in He as ([] & t4 & -> & -> & ->). exists t2. eauto.
    + exists t1. eauto.
  - split; [intros _|discriminate]. eapply exec_emits; [apply off_config|exact He].
Qed.

(** ** When the manager stops: every goroutine ends *)

(** The steps left to [Start] and to the workers. *)
Inductive internal (s s' : state) : Prop :=
| internal_work : work s s' → internal s s'
| internal_clean k : clean s k = Some s' → internal s s'
| internal_stopped : stopped s = Some s' → internal s s'.

Definition load (w : worker) : nat :=
  match w_request w with None => 1 | Some _ => if waits w then 3 else 2 end.
Definition keys_left (s : state) : nat :=
  match now s with
  | Stopping keys seen _ => S (size (dom (queueCtxCancels s) ∖ seen))
  | _ => 0
  end.
Definition left_to_do (s : state) : nat :=
  3 * map_weight length (deletionQueues s) + map_weight load (workers s) + keys_left s.

Lemma load_replace s id w w' n :
  workers s !! id = Some w →
  left_to_do (set_worker s id w' n) + load w = left_to_do s + load w'.
Proof.
  intros Hw. unfold left_to_do, keys_left; simpl.
  pose proof (map_weight_replace load (workers s) id w w' Hw). lia.
Qed.

Lemma waits_load w : waits w = true → load w = 3.
Proof. unfold load, waits. intros Hw. by destruct (w_request w); [rewrite Hw|]. Qed.

Lemma work_decreases s s' : work s s' → left_to_do s' < left_to_do s.
Proof.
  intros [id H|id H|id H|id H|id H]; apply bind_Some in H as (w & Hw & H).
  - destruct (w_request w) eqn:Hr, (w_cancelled w); simplify_eq.
    unfold left_to_do, keys_left; simpl. rewrite (map_weight_delete load _ _ _ Hw).
    unfold load. rewrite Hr. lia.
  - destruct (w_request w) eqn:Hr, (deletionQueues s !! w_key w) as [[|r q]|] eqn:Hq; simplify_eq.
    pose proof (load_replace s id w (mkWorker (w_key w) (Some r) (w_holds w) (w_cancelled w))
                  (used s) Hw) as Hl.
    pose proof (map_weight_replace length _ _ _ q Hq) as Hlq. unfold left_to_do, keys_left in *.
    simpl in *. assert (load w = 1) as Hw1 by (unfold load; by rewrite Hr).
    assert (load (mkWorker (w_key w) (Some r) (w_holds w) (w_cancelled w)) ≤ 3).
    { unfold load. simpl. destruct (waits _); lia. }
    lia.
  - destruct (waits w) eqn:Hwt, (_ <? _); simpl in H; simplify_eq. apply waits_load in Hwt as Hl.
    pose proof (load_replace s id w (mkWorker (w_key w) (w_request w) true (w_cancelled w))
                  (S (used s)) Hw) as He.
    assert (load (mkWorker (w_key w) (w_request w) true (w_cancelled w)) ≤ 2); [|lia].
    unfold load, waits. simpl. destruct (w_request w); [rewrite andb_false_r|]; simpl; lia.
  - destruct (w_request w) eqn:Hr, (waits w) eqn:Hwt; simplify_eq.
    pose proof (load_replace s id w (idle w) (if w_holds w then used s - 1 else used s) Hw) as He.
    assert (load w = 2) by (unfold load; by rewrite Hr, Hwt).
    change (load (idle w)) with 1 in He. lia.
  - destruct (w_cancelled w); [|done]. unfold abandon in H. rewrite Hw in H. simpl in H.
    destruct (waits w) eqn:Hwt; simplify_eq. apply waits_load in Hwt.
    pose proof (load_replace s id w (idle w) (used s) Hw) as He.
    change (load (idle w)) with 1 in He. lia.
Qed.

Lemma alter_load id (m : gmap nat worker) : map_weight load (alter cancel id m) = map_weight load m.
Proof.
  destruct (m !! id) as [w|] eqn:Hw.
  - assert (alter cancel id m = <[id := cancel w]> m) as ->.
    { apply map_eq. intros j. rewrite lookup_alter, lookup_insert.
      destruct (decide (id = j)) as [<-|]; [by rewrite Hw|done]. }
    pose proof (map_weight_replace load m id w (cancel w) Hw) as He.
    change (load (cancel w)) with (load w) in He. lia.
  - f_equal. apply alter_id. intros w Hw'. congruence.
Qed.

Lemma delete_queue_weight k (m : gmap string (list DeletionRequest)) :
  map_weight length (delete k m) ≤ map_weight length m.
Proof.
  destruct (m !! k) as [q|] eqn:Hk; [|by rewrite delete_id].
  rewrite (map_weight_delete length m k q Hk). lia.
Qed.

Lemma internal_decreases s s' : inv s → internal s s' → inv s' ∧ left_to_do s' < left_to_do s.
Proof.
  intros Hi Hst. split.
  { destruct Hst; [by eapply workers_work_inv|by eapply clean_inv|by eapply stopped_inv]. }
  destruct Hst as [H|k H|H]; [by apply work_decreases|..].
  - unfold clean in H. destruct (now s) as [|keys seen started|] eqn:Hn; [done| |done].
    destruct (queueCtxCancels s !! k) as [id|] eqn:Hk; [|done].
    destruct (bool_decide _) eqn:Hs; simplify_eq. apply bool_decide_eq_false in Hs.
    unfold left_to_do, keys_left. cbn [deletionQueues workers now queueCtxCancels].
    rewrite Hn, alter_load.
    pose proof (delete_queue_weight k (deletionQueues s)).
    assert (size (dom (queueCtxCancels s) ∖ ({[k]} ∪ seen)) < size (dom (queueCtxCancels s) ∖ seen));
      [|lia].
    apply subset_size. split; [set_solver|]. intros Hsub.
    assert (k ∈ dom (queueCtxCancels s)) by (apply elem_of_dom; eauto). set_solver.
  - unfold stopped in H. destruct (now s) as [|keys seen started|] eqn:Hn; [done| |done].
    destruct (bool_decide _); simplify_eq. unfold left_to_do, keys_left. simpl. rewrite Hn. lia.
Qed.

(** A worker whose context ended always has a next step, whatever it does. *)
Lemma cancelled_moves s id w :
  workers s !! id = Some w → w_cancelled w = true → ∃ s', work s s'.
Proof.
  intros Hw Hc. destruct (w_request w) as [r|] eqn:Hr; [destruct (waits w) eqn:Hwt|]; eexists.
  - apply (work_refused _ _ id). unfold refused, abandon. rewrite Hw. simpl. by rewrite Hc, Hwt.
  - apply (work_finish _ _ id). unfold finish. rewrite Hw. simpl. by rewrite Hr, Hwt.
  - apply (work_quit _ _ id). unfold quit. rewrite Hw. simpl. by rewrite Hr, Hc.
Qed.

(** The loop of [Start] always has a next step until it is over. *)
Lemma stopping_moves s keys seen started :
  inv s → now s = Stopping keys seen started → ∃ s', internal s s'.
Proof.
  intros Hi Hn. destruct (decide (keys ⊆ seen)) as [Hall|Hex].
  - eexists. apply internal_stopped. unfold stopped. by rewrite Hn, bool_decide_eq_true_2.
  - assert (∃ k, k ∈ keys ∧ k ∉ seen) as (k & Hk & Hs).
    { destruct (set_choose_L (keys ∖ seen)) as [k Hk]; [|exists k; set_solver].
      intros He. apply Hex. intros k Hk. destruct (decide (k ∈ seen)); [done|].
      assert (k ∈ keys ∖ seen) as H by set_solver. by rewrite He in H. }
    pose proof (inv_keys s Hi) as Hkeys. unfold keys_known in Hkeys. rewrite Hn in Hkeys.
    apply Hkeys, elem_of_dom in Hk as [id Hid].
    eexists. apply (internal_clean _ _ k). unfold clean. by rewrite Hn, Hid, bool_decide_eq_false_2.
Qed.

Definition can_move (s : state) (id : nat) (_ : worker) : Prop :=
  is_Some (quit s id) ∨ is_Some (receive s id) ∨ is_Some (acquire s id) ∨
  is_Some (finish s id) ∨ is_Some (refused s id).
#[export] Instance can_move_dec s id w : Decision (can_move s id w).
Proof. unfold can_move. apply _. Defined.

Lemma work_or_rest s : (∃ s', work s s') ∨ ∀ s', ¬ work s s'.
Proof.
  destruct (decide (map_Exists (can_move s) (workers s))) as [(id & w & Hw & Hm)|Hno].
  - left. destruct Hm as [[s' H]|[[s' H]|[[s' H]|[[s' H]|[s' H]]]]]; exists s';
      [by apply (work_quit _ _ id)|by apply (work_receive _ _ id)|by apply (work_acquire _ _ id)
      |by apply (work_finish _ _ id)|by apply (work_refused _ _ id)].
  - right. intros s' Hwk. apply Hno.
    destruct Hwk as [id H|id H|id H|id H|id H];
      pose proof H as (w & Hw & _)%bind_Some; exists id, w; (split; [done|]); unfold can_move; eauto 6.
Qed.

Lemma rest_or_step s : inv s → (∃ s', internal s s') ∨ ∀ s', ¬ internal s s'.
Proof.
  intros Hi. destruct (work_or_rest s) as [[s' H]|Hw]; [left; exists s'; by apply internal_work|].
  destruct (now s) as [|keys seen started|] eqn:Hn.
  - right. intros s' [H|k H|H]; [by eapply Hw|unfold clean in H|unfold stopped in H];
      by rewrite Hn in H.
  - left. by eapply stopping_moves.
  - right. intros s' [H|k H|H]; [by eapply Hw|unfold clean in H|unfold stopped in H];
      by rewrite Hn in H.
Qed.

Lemma internal_phase s s' :
  internal s s' → now s ≠ Running → now s' ≠ Running ∧ start_count s' = start_count s.
Proof.
  intros [H|k H|H].
  - destruct H as [id H|id H|id H|id H|id H];
      unfold quit, receive, acquire, finish, refused, abandon in H;
      apply bind_Some in H as (w & Hw & H); rewrite ?Hw in H; simpl in H;
      repeat case_match; by simplify_eq.
  - unfold clean, start_count in *. repeat case_match; simplify_eq; simpl in *; by simplify_eq.
  - unfold stopped, start_count in *. repeat case_match; simplify_eq; simpl in *; by simplify_eq.
Qed.

Lemma internals_keep s s' :
  rtc internal s s' → inv s → now s ≠ Running →
  inv s' ∧ now s' ≠ Running ∧ start_count s' = start_count s.
Proof.
  induction 1 as [s|s s1 s' Hst _ IH]; intros Hi Hn; [done|].
  destruct (internal_decreases s s1 Hi Hst) as [Hi1 _].
  destruct (internal_phase s s1 Hst Hn) as [Hn1 Hc1].
  destruct (IH Hi1 Hn1) as (? & ? & Hc). rewrite <-Hc1. done.
Qed.

(** C20: the shutdown completes.  Once the manager stops, with no new requests, the clean-up of
    [Start] and the workers have a bounded number of steps left, in whatever order they run; when
    none is left, [Start] has returned and every goroutine that was there when the context ended
    is gone, those that waited for the semaphore included. *)
Theorem shutdown_completes s :
  rtc step init s → now s ≠ Running →
  (∀ n s', nsteps internal n s s' → n ≤ left_to_do s) ∧
  (∃ s', rtc internal s s' ∧ ∀ s'', ¬ internal s' s'') ∧
  ∀ s', rtc internal s s' → (∀ s'', ¬ internal s' s'') →
    now s' = Stopped (start_count s) ∧
    ∀ id w, workers s' !! id = Some w → start_count s ≤ id.
Proof.
  intros Hi%workers_reachable_inv Hn. split_and!.
  - intros n s' Hs.
    pose proof (bounded_steps internal inv left_to_do internal_decreases n s s' Hi Hs). lia.
  - apply (comes_to_rest internal inv left_to_do internal_decreases); [apply rest_or_step|done].
  - intros s' Hs Hrest. destruct (internals_keep s s' Hs Hi Hn) as (Hi' & Hn' & Hc).
    rewrite <-Hc. unfold start_count. destruct (now s') as [|keys seen started|started] eqn:Hp.
    + done.
    + destruct (stopping_moves s' keys seen started Hi' Hp) as [s'' H]. by destruct (Hrest s'').
    + split; [done|]. intros id w Hw. destruct (decide (started ≤ id)) as [|Hlt]; [done|].
      pose proof (inv_attended s' Hi' id w Hw) as Ha. unfold attended in Ha. rewrite Hp in Ha.
      destruct (cancelled_moves s' id w Hw) as [s'' H]; [apply Ha; lia|].
      destruct (Hrest s''). by apply internal_work.
Qed.

(** The manager stops while a worker is busy and the queue of another one is full of work. *)
Definition stopping : state := default init (stop one_taken).

Lemma stopping_reach : rtc step init stopping.
Proof.
  eapply rtc_r; [exact one_taken_reach|]. apply step_stop. reflexivity.
Qed.

Lemma shutdown_completes_witness :
  start_count stopping = 2 ∧
  ∃ s', rtc internal stopping s' ∧ now s' = Stopped 2 ∧
    ∀ id w, workers s' !! id = Some w → 2 ≤ id.
Proof.
  split; [reflexivity|].
  destruct (shutdown_completes stopping stopping_reach) as (_ & (s' & Hs & Hrest) & Hend);
    [discriminate|].
  exists s'. split; [exact Hs|]. exact (Hend s' Hs Hrest).
Defined.

(** A reconciler that still runs after the clean-up starts a worker that nobody cancels, next to the
    cancelled one that is still busy with the same BackupConfig. *)
Definition cleaned : state :=
  default init (s ← clean stopping "ns/bc"; s ← clean s "ns/other"; stopped s).
Definition restarted : state := default init (receive (after_enqueue cleaned "ns/bc" "c") 2).

Theorem late_request_escapes :
  rtc step init restarted ∧ now restarted = Stopped 2 ∧
  workers restarted !! 0 = Some (mkWorker "ns/bc" (Some (Queues.req "a")) false true) ∧
  workers restarted !! 2 = Some (mkWorker "ns/bc" (Some (Queues.req "c")) false false).
Proof.
  split; [|by vm_compute]. eapply rtc_r.
  - eapply rtc_r; [|apply (enqueue_reach cleaned "ns/bc" "c")].
    eapply rtc_trans; [exact stopping_reach|].
    eapply rtc_l; [apply (step_clean _ (default init (clean stopping "ns/bc")) "ns/bc"); reflexivity|].
    eapply rtc_l; [apply (step_clean _ (default init (s ← clean stopping "ns/bc"; clean s "ns/other"))
                     "ns/other"); reflexivity|].
    apply rtc_once, step_stopped. reflexivity.
  - apply step_work, (work_receive _ _ 2). reflexivity.
Qed.
