(* ===== verification/Status.v ===== *)
(** [internal/controller/backupconfig_status_controller.go]: the status controller.

    [reconcileStatusByKey] and everything it calls are programs over the open environment
    of [Effects]; the map of archive checks is reached through [OCheckGet] and [OCheckPut],
    since other workers and the ticker write it too.  Module [Workers] is the worker pool:
    the queue, the in-flight set, the ticker, as a step relation. *)
From stdpp Require Import base list strings gmap sorting relations.
From S2P Require Import Prelude GoStrings GoTime Api Effects Backups Secrets Storage Config Client.
Local Open Scope string_scope.
Local Open Scope Z_scope.
Local Open Scope list_scope.
Local Open Scope go_scope.

Definition matchesConfig (a other : archiveCheck) : bool :=
  String.eqb (ac_uid a) (ac_uid other) && (ac_generation a =? ac_generation other) &&
  String.eqb (configHash a) (configHash other).

Definition with_pending (c : archiveCheck) (p : option BackupConfigStatus) : archiveCheck :=
  mkCheck (ac_uid c) (ac_generation c) (configHash c) (nextCheck c) p.
Definition with_next (c : archiveCheck) (t : time) : archiveCheck :=
  mkCheck (ac_uid c) (ac_generation c) (configHash c) t (pendingStatus c).

(** ** Fields of the status *)

Definition with_phase (b : BackupConfig) (p : BackupConfigPhase) : BackupConfig :=
  let s := bc_Status b in
  with_bc_status b (mkBCStatus p (FirstRecoverabilityPoint s) (LastSuccessfulBackup s)
    (LastFailedBackup s) (ConsumedStorage s) (Conditions s)).
Definition with_first (b : BackupConfig) (t : option time) : BackupConfig :=
  let s := bc_Status b in
  with_bc_status b (mkBCStatus (Phase s) t (LastSuccessfulBackup s) (LastFailedBackup s)
    (ConsumedStorage s) (Conditions s)).
Definition with_last_successful (b : BackupConfig) (t : option time) : BackupConfig :=
  let s := bc_Status b in
  with_bc_status b (mkBCStatus (Phase s) (FirstRecoverabilityPoint s) t (LastFailedBackup s)
    (ConsumedStorage s) (Conditions s)).
Definition with_last_failed (b : BackupConfig) (t : option time) : BackupConfig :=
  let s := bc_Status b in
  with_bc_status b (mkBCStatus (Phase s) (FirstRecoverabilityPoint s) (LastSuccessfulBackup s) t
    (ConsumedStorage s) (Conditions s)).
Definition with_consumed (b : BackupConfig) (c : option ConsumedStorageInfo) : BackupConfig :=
  let s := bc_Status b in
  with_bc_status b (mkBCStatus (Phase s) (FirstRecoverabilityPoint s) (LastSuccessfulBackup s)
    (LastFailedBackup s) c (Conditions s)).
Definition with_conditions (b : BackupConfig) (l : list Condition) : BackupConfig :=
  let s := bc_Status b in
  with_bc_status b (mkBCStatus (Phase s) (FirstRecoverabilityPoint s) (LastSuccessfulBackup s)
    (LastFailedBackup s) (ConsumedStorage s) l).

(** ** Conditions and phase *)

Definition with_transition (c : Condition) (t : time) : Condition :=
  mkCondition (c_Type c) (c_Status c) (c_ObservedGeneration c) t (c_Reason c) (c_Message c).

(** The loop of [setCondition], and the append after it. *)
Fixpoint place_condition (new : Condition) (l : list Condition) : list Condition :=
  match l with
  | [] => [new]
  | existing :: l =>
      if String.eqb (c_Type existing) (c_Type new)
      then (if String.eqb (c_Status existing) (c_Status new)
            then with_transition new (c_LastTransitionTime existing) else new) :: l
      else existing :: place_condition new l
  end.

Definition setCondition (b : BackupConfig) (conditionType status reason message : string)
    : prog BackupConfig :=
  now ← call ONow;
  let newCondition :=
    mkCondition conditionType status (Generation (bc_meta b)) now reason message in
  Ret (with_conditions b (place_condition newCondition (Conditions (bc_Status b)))).

Definition status_in (l : list Condition) (conditionType : string) : string :=
  match find_first (λ c, String.eqb (c_Type c) conditionType) l with
  | Some c => c_Status c
  | None => ""
  end.

Definition getConditionStatus (b : BackupConfig) (conditionType : string) : string :=
  status_in (Conditions (bc_Status b)) conditionType.

(** The loop of [determinePhase]: (hasFalse, allTrue). *)
Definition phase_flags (flags : bool * bool) (c : Condition) : bool * bool :=
  if String.eqb (c_Status c) ConditionFalse then (true, false)
  else if negb (String.eqb (c_Status c) ConditionTrue) then (fst flags, false)
  else flags.

Definition determinePhase (b : BackupConfig) : BackupConfigPhase :=
  if (length (Conditions (bc_Status b)) =? 0)%nat then BackupConfigPhaseUnknown
  else
    let '(hasFalse, allTrue) := foldl phase_flags (false, true) (Conditions (bc_Status b)) in
    let credentialsValid := getConditionStatus b ConditionTypeCredentialsValid in
    let storageReadable := getConditionStatus b ConditionTypeStorageReadable in
    let storageWritable := getConditionStatus b ConditionTypeStorageWritable in
    if String.eqb credentialsValid ConditionFalse then BackupConfigPhaseFailed
    else if String.eqb storageReadable ConditionFalse && String.eqb storageWritable ConditionFalse
    then BackupConfigPhaseFailed
    else if allTrue then BackupConfigPhaseHealthy
    else if hasFalse then BackupConfigPhaseDegraded
    else BackupConfigPhaseUnknown.

(** ** Sizes

    [float64(n)] for [0 <= n < 2^63], and the two decimals of [%.2f]: both round to the
    nearest, halves to even; the division by a power of two between them is exact. *)
Definition round_half_even (n d : Z) : Z :=
  let q := n / d in
  let r := n mod d in
  if 2 * r <? d then q
  else if d <? 2 * r then q + 1
  else if Z.even q then q else q + 1.

Definition float64_of_int (n : Z) : Z :=
  let ulp := 2 ^ Z.max 0 (Z.log2 n - 52) in
  round_half_even n ulp * ulp.

(** [float64(n) / float64(unit)] in hundredths. *)
Definition hundredths (n unit : Z) : Z := round_half_even (100 * float64_of_int n) unit.

Definition two_digits (n : Z) : string := (if n <? 10 then "0" else "") +:+ format_int n.

Definition format_float2 (n unit : Z) : string :=
  let h := hundredths n unit in
  format_int (h / 100) +:+ "." +:+ two_digits (h mod 100).

Definition kib : Z := 1024.
Definition mib : Z := 1024 * kib.
Definition gib : Z := 1024 * mib.
Definition tib : Z := 1024 * gib.

Definition formatBytesHumanReadable (bytes : Z) : string :=
  if tib <=? bytes then format_float2 bytes tib +:+ " TiB"
  else if gib <=? bytes then format_float2 bytes gib +:+ " GiB"
  else if mib <=? bytes then format_float2 bytes mib +:+ " MiB"
  else if kib <=? bytes then format_float2 bytes kib +:+ " KiB"
  else format_int bytes +:+ " B".

Example format_sizes :
  formatBytesHumanReadable <$> [-5; 1023; 1024; 1536; 1048575; 5 * gib + 5 * mib; 2 ^ 63 - 1] =
  ["-5 B"; "1023 B"; "1.00 KiB"; "1.50 KiB"; "1024.00 KiB"; "5.00 GiB"; "8388608.00 TiB"].
Proof. reflexivity. Qed.

(** ** PostgreSQL versions *)

Definition getBackupTime (backup : Backup) : time :=
  match bk_StartedAt backup with
  | Some t => t
  | None => CreationTimestamp (bk_meta backup)
  end.

Definition owned_by_name (b : BackupConfig) (backup : Backup) : bool :=
  contains_by (λ o, String.eqb (or_Kind o) "BackupConfig" &&
                    String.eqb (or_Name o) (Name (bc_meta b))) (OwnerReferences (bk_meta backup)).

Definition minKnownPGMajorVersion : Z := 11.
Definition maxKnownPGMajorVersion : Z := 19.
Definition allVersions : list Z :=
  seqZ minKnownPGMajorVersion (maxKnownPGMajorVersion - minKnownPGMajorVersion + 1).

(** The version a Backup is labelled with, if known. *)
Definition known_version (backup : Backup) : option Z :=
  match atoi (str_map_get (Labels (bk_meta backup)) BackupPgVersionLabelName) with
  | (v, None) =>
      if (v <? minKnownPGMajorVersion) || (maxKnownPGMajorVersion <? v) then None else Some v
  | (_, Some _) => None
  end.

(** The loop over the Backups; [None]: an owned one has no known version. *)
Fixpoint collect_versions (b : BackupConfig) (versions : gset Z) (l : list Backup)
    : option (gset Z) :=
  match l with
  | [] => Some versions
  | backup :: l =>
      if negb (owned_by_name b backup) then collect_versions b versions l
      else match known_version backup with
           | None => None
           | Some v => collect_versions b ({[v]} ∪ versions) l
           end
  end.

Definition versions_of (b : BackupConfig) (l : list Backup) : list Z :=
  match collect_versions b ∅ l with
  | None => allVersions
  | Some versions =>
      if decide (versions = ∅) then allVersions else merge_sort Z.le (elements versions)
  end.

Definition resolvePGVersions (b : BackupConfig) : prog (list Z) :=
  if IgnoreForBackupDeletion (Retention (bc_Spec b)) then Ret allVersions
  else
    backupsList ← call (OList KBackup (Some (Namespace (bc_meta b))));
    match (backupsList : res (list Backup)) with
    | Err _ => Ret allVersions
    | Ok items => Ret (versions_of b items)
    end.

(** ** Library code the controller calls

    [meta.SetStatusCondition] puts a condition in place of the one of its type, or at the
    end; it may take the transition time from the old condition or the clock. *)
Class StatusConditions := {
  SetStatusCondition : time → list Condition → Condition → list Condition;
  set_status_same : ∀ now l c,
    status_in (SetStatusCondition now l c) (c_Type c) = c_Status c;
  set_status_other : ∀ now l c ty, ty ≠ c_Type c →
    status_in (SetStatusCondition now l c) ty = status_in l ty;
}.

(** [retry.RetryOnConflict]: runs of the function, all but the last ending in a conflict. *)
Inductive retried {A} (f : prog (res A)) : list event → outcome (res A) → Prop :=
| retried_last t r : exec f t r → retried f t r
| retried_again t1 e t2 r :
    exec f t1 (Returned (Err e)) → is_conflict e = true → retried f t2 r →
    retried f (t1 ++ t2) r.

Class ConflictRetry := {
  RetryOnConflict : ∀ {A}, prog (res A) → prog (res A);
  RetryOnConflict_runs : ∀ A (f : prog (res A)) t r,
    exec (RetryOnConflict f) t r → retried f t r;
}.

Section status.
Context `{GoSort, StatusConditions, ConflictRetry}.
Variable unmarshal_backups : string → res (list BackupMetadata).
Variable unmarshal_timelines : string → res (list WALTimelineInfo).
(** [sha256.Sum256] of the [json.Marshal] of the resolved specification. *)
Variable spec_hash : BackupConfigWithSecrets → res string.
Variable archiveInterval : Z.

(** ** Storage checks *)

Definition checkStorageReadable (b : BackupConfig) (walgClient : Client)
    : prog (BackupConfig * bool) :=
  '(_, err) ← StorageCheckReadable walgClient;
  match err with
  | Some e => b ← setCondition b ConditionTypeStorageReadable ConditionFalse
                    "StorageReadCheckFailed" (emsg e);
              Ret (b, false)
  | None => b ← setCondition b ConditionTypeStorageReadable ConditionTrue
                  "StorageReadCheckPassed" "Storage is accessible for reading";
            Ret (b, true)
  end.

Definition checkStorageWritable (b : BackupConfig) (walgClient : Client)
    : prog (BackupConfig * bool) :=
  '(_, err) ← StorageCheckWritable walgClient;
  match err with
  | Some e => b ← setCondition b ConditionTypeStorageWritable ConditionFalse
                    "StorageWriteCheckFailed" (emsg e);
              Ret (b, false)
  | None => b ← setCondition b ConditionTypeStorageWritable ConditionTrue
                  "StorageWriteCheckPassed" "Storage is accessible for writing";
            Ret (b, true)
  end.

(** ** The archive scan *)

(** The variables of [reconcileWALStatus]. *)
Record wal_scan := mkScan {
  allTimelinesOK : bool;
  hasMissingSegments : bool;
  earliestBackupTime : option time;
}.

Definition earlier_start (earliest : option time) (backup : BackupMetadata) : option time :=
  match StartTime backup with
  | None => earliest
  | Some startTime =>
      match earliest with
      | None => Some startTime
      | Some e => if before startTime e then Some startTime else earliest
      end
  end.

Definition scan_timeline (s : wal_scan) (timeline : WALTimelineInfo) : wal_scan :=
  mkScan (if negb (IsOK timeline) then false else allTimelinesOK s)
    (if HasMissingSegments timeline then true else hasMissingSegments s)
    (foldl earlier_start (earliestBackupTime s) (wt_Backups timeline)).

Definition scan_version (ws : BackupConfigWithSecrets) (s : wal_scan) (pgVersion : Z)
    : prog wal_scan :=
  walgClient ← NewClientFromBackupConfig ws pgVersion;
  timelines ← WALShow unmarshal_timelines walgClient;
  match timelines with
  | Err _ => Ret s
  | Ok timelines => Ret (foldl scan_timeline s timelines)
  end.

Definition integrity_message (s : wal_scan) : string :=
  "WAL integrity issues detected:" +:+
  (if negb (allTimelinesOK s) then " some timelines have non-OK status" else "") +:+
  (if hasMissingSegments s
   then (if negb (allTimelinesOK s) then "," else "") +:+ " missing WAL segments detected"
   else "").

Definition reconcileWALStatus (b : BackupConfig) (ws : BackupConfigWithSecrets)
    : prog BackupConfig :=
  versions ← resolvePGVersions b;
  s ← for_fold (scan_version ws) (mkScan true false None) versions;
  let b := match earliestBackupTime s with
           | Some t => with_first b (Some t)
           | None => b
           end in
  if allTimelinesOK s && negb (hasMissingSegments s)
  then setCondition b ConditionTypeWALIntegrityCheck ConditionTrue
         "WALIntegrityCheckPassed" "All WAL timelines are OK with no missing segments"
  else setCondition b ConditionTypeWALIntegrityCheck ConditionFalse
         "WALIntegrityCheckFailed" (integrity_message s).

Definition oldest_first (a b : Backup) : bool := before (getBackupTime a) (getBackupTime b).

(** The part of [reconcileBackupTimestamps] after the listing. *)
Definition set_timestamps (b : BackupConfig) (items : list Backup) : BackupConfig :=
  let relevantBackups := filter_by (owned_by_name b) items in
  if (length relevantBackups =? 0)%nat then b
  else
    let relevantBackups := sort_slice oldest_first relevantBackups in
    let successfulBackups :=
      filter_by (λ x, bool_decide (bk_Phase x = BackupPhaseCompleted)) relevantBackups in
    let b := match head successfulBackups, last successfulBackups with
             | Some x, Some y =>
                 with_last_successful (with_first b (Some (getBackupTime x)))
                   (Some (getBackupTime y))
             | _, _ => b
             end in
    let failedBackups :=
      filter_by (λ x, bool_decide (bk_Phase x = BackupPhaseFailed)) relevantBackups in
    match last failedBackups with
    | Some x => with_last_failed b (Some (getBackupTime x))
    | None => b
    end.

Definition reconcileBackupTimestamps (b : BackupConfig) : prog BackupConfig :=
  backupList ← call (OList KBackup (Some (Namespace (bc_meta b))));
  match (backupList : res (list Backup)) with
  | Err _ => Ret b
  | Ok items => Ret (set_timestamps b items)
  end.

(** [backupBytes] and [walBytes] after one version. *)
Definition consume_version (ws : BackupConfigWithSecrets) (bytes : Z * Z) (pgVersion : Z)
    : prog (Z * Z) :=
  let '(backupBytes, walBytes) := bytes in
  walgClient ← NewClientFromBackupConfig ws pgVersion;
  backupsList ← GetBackupsList unmarshal_backups walgClient;
  match backupsList with
  | Err _ => Ret (backupBytes, walBytes)
  | Ok backupsList =>
      let backupBytes :=
        foldl (λ n x, wrap64 (n + CompressedSize x)) backupBytes backupsList in
      '(walSize, err) ← StorageLsTotalSize walgClient "wal_005/";
      match err with
      | Some _ => Ret (backupBytes, walBytes)
      | None => Ret (backupBytes, wrap64 (walBytes + walSize))
      end
  end.

Definition consumed_info (backupBytes walBytes : Z) : option ConsumedStorageInfo :=
  let totalBytes := wrap64 (backupBytes + walBytes) in
  if 0 <? totalBytes then
    Some (mkConsumed (Some totalBytes) (formatBytesHumanReadable totalBytes)
      (if 0 <? backupBytes then Some backupBytes else None)
      (if 0 <? backupBytes then formatBytesHumanReadable backupBytes else "")
      (if 0 <? walBytes then Some walBytes else None)
      (if 0 <? walBytes then formatBytesHumanReadable walBytes else ""))
  else None.

Definition reconcileConsumedStorage (b : BackupConfig) (ws : BackupConfigWithSecrets)
    : prog BackupConfig :=
  versions ← resolvePGVersions b;
  '(backupBytes, walBytes) ← for_fold (consume_version ws) (0, 0) versions;
  match consumed_info backupBytes walBytes with
  | Some storageInfo => Ret (with_consumed b (Some storageInfo))
  | None => Ret b
  end.

(** ** Saving the status *)

(** The object comes back as the server stored it. *)
Definition updateStatus (b : BackupConfig) : prog (res BackupConfig) :=
  err ← call OCtxErr;
  match err with
  | Some e => Ret (Err e)
  | None =>
      wrap_err "failed to update BackupConfig status: "
        (call (OStatusUpdate (with_phase b (determinePhase b))))
  end.

(** The closure of [updateArchiveStatus]: the new [scanned.Status]. *)
Definition save_scanned (scanned : BackupConfig) : prog (res BackupConfigStatus) :=
  let key := key_of (bc_meta scanned) in
  latest ←? call (OGet KBackupConfig key);
  let latest : BackupConfig := latest in
  if negb (String.eqb (UID (bc_meta latest)) (UID (bc_meta scanned))) ||
     negb (Generation (bc_meta latest) =? Generation (bc_meta scanned))
  then Ret (Err (errorf ("BackupConfig " +:+ key_string key +:+ " changed during archive check")))
  else
    let latest := with_first latest (FirstRecoverabilityPoint (bc_Status scanned)) in
    let latest := with_consumed latest (ConsumedStorage (bc_Status scanned)) in
    latest ← for_fold (λ latest condition,
        if String.eqb (c_Type condition) ConditionTypeWALIntegrityCheck then
          now ← call ONow;
          Ret (with_conditions latest
                 (SetStatusCondition now (Conditions (bc_Status latest)) condition))
        else Ret latest) latest (Conditions (bc_Status scanned));
    latest ← reconcileBackupTimestamps latest;
    latest ←? updateStatus latest;
    Ret (Ok (bc_Status latest)).

Definition updateArchiveStatus (scanned : BackupConfig) : prog (res BackupConfigStatus) :=
  err ← call OCtxErr;
  match err with
  | Some e => Ret (Err e)
  | None =>
      r ← RetryOnConflict (save_scanned scanned);
      err ← call OCtxErr;
      match err with
      | Some e => Ret (Err e)
      | None => Ret r
      end
  end.

(** [if err := ctx.Err(); err != nil { return err }] inside the scan. *)
Definition unless_done {A} (stop : err → A) (p : prog A) : prog A :=
  e ← call OCtxErr;
  match e with
  | Some e => Ret (stop e)
  | None => p
  end.

(** The scan proper: the check the deferred function stores, and the result. *)
Definition scan_archive (b : BackupConfig) (ws : BackupConfigWithSecrets) (check : archiveCheck)
    : prog (archiveCheck * option err) :=
  b ← reconcileWALStatus b ws;
  unless_done (λ e, (check, Some e)) (
    b ← reconcileConsumedStorage b ws;
    unless_done (λ e, (check, Some e)) (
      let check := with_pending check (Some (bc_Status b)) in
      r ← updateArchiveStatus b;
      match r with
      | Ok _ => Ret (with_pending check None, None)
      | Err e => Ret (check, Some e)
      end)).

(** The check that spares a scan: it is for this configuration and not yet due. *)
Definition not_due (check : archiveCheck) (previous : option archiveCheck)
    : prog (option archiveCheck) :=
  match previous with
  | None => Ret None
  | Some previous =>
      if matchesConfig previous check then
        now ← call ONow;
        Ret (if before now (nextCheck previous) then Some previous else None)
      else Ret None
  end.

Definition reconcileArchiveStatus (b : BackupConfig) (ws : BackupConfigWithSecrets)
    (check : archiveCheck) : prog (option err) :=
  unless_done Some (
    let key := key_of (bc_meta b) in
    previous ← call (OCheckGet key);
    fresh ← not_due check previous;
    match fresh with
    | Some previous =>
        match pendingStatus previous with
        | None => Ret None
        | Some status =>
            r ← updateArchiveStatus (with_bc_status b status);
            match r with
            | Err e => Ret (Some e)
            | Ok _ => _ ← call (OCheckPut key (with_pending previous None)); Ret None
            end
        end
    | None =>
        '(check, err) ← scan_archive b ws check;
        now ← call ONow;
        _ ← call (OCheckPut key (with_next check (now + archiveInterval)));
        Ret err
    end).

(** ** One BackupConfig *)

Definition reconcileStatusByKey (key : ObjectKey) : prog (option err) :=
  r ← call (OGet KBackupConfig key);
  match (r : res BackupConfig) with
  | Err e => Ret (ignore_not_found e)
  | Ok b =>
      ws ← PrefetchSecretsData b;
      match ws with
      | Err e =>
          b ← setCondition b ConditionTypeCredentialsValid ConditionFalse "SecretsFetchFailed"
                ("Failed to prefetch secrets: " +:+ emsg e);
          r ← call (OStatusUpdate (with_phase b BackupConfigPhaseFailed));
          Ret (match (r : res BackupConfig) with Ok _ => None | Err e => Some e end)
      | Ok ws =>
          walgClient ← NewClientFromBackupConfig ws 16;
          b ← setCondition b ConditionTypeCredentialsValid ConditionTrue "CredentialsResolved"
                "All referenced secrets and configmaps resolved successfully";
          '(b, readable) ← checkStorageReadable b walgClient;
          unless_done Some (
            '(b, _) ← checkStorageWritable b walgClient;
            match spec_hash ws with
            | Err e => Ret (Some (wrapf "hash archive check configuration: " e))
            | Ok hash =>
                let check := mkCheck (UID (bc_meta b)) (Generation (bc_meta b)) hash
                               zero_time None in
                previous ← call (OCheckGet key);
                b ← (if match previous with
                        | None => true
                        | Some p => negb (matchesConfig p check)
                        end ||
                        String.eqb (getConditionStatus b ConditionTypeWALIntegrityCheck) ""
                     then setCondition b ConditionTypeWALIntegrityCheck ConditionUnknown
                            "WALIntegrityCheckPending"
                            "WAL integrity has not been checked for the current archive configuration"
                     else Ret b);
                b ← reconcileBackupTimestamps b;
                r ← updateStatus b;
                match r with
                | Err e => Ret (Some e)
                | Ok b => if readable : bool then reconcileArchiveStatus b ws check else Ret None
                end
            end)
      end
  end.
End status.

(** ** Conditions *)

Lemma status_in_place_same new l : status_in (place_condition new l) (c_Type new) = c_Status new.
Proof.
  unfold status_in. induction l as [|c l IH]; simpl; [by rewrite String.eqb_refl|].
  destruct (String.eqb (c_Type c) (c_Type new)) eqn:Hc; simpl.
  - destruct (String.eqb (c_Status c) (c_Status new)); simpl; by rewrite String.eqb_refl.
  - rewrite Hc. exact IH.
Qed.

Lemma status_in_place_other new l ty :
  ty ≠ c_Type new → status_in (place_condition new l) ty = status_in l ty.
Proof.
  intros Hty. unfold status_in. induction l as [|c l IH]; simpl.
  { destruct (String.eqb_spec (c_Type new) ty); congruence. }
  destruct (String.eqb_spec (c_Type c) (c_Type new)) as [Hc|Hc]; simpl.
  - destruct (String.eqb_spec (c_Type c) ty); [congruence|].
    destruct (String.eqb (c_Status c) (c_Status new)); simpl;
      destruct (String.eqb_spec (c_Type new) ty); congruence.
  - destruct (String.eqb (c_Type c) ty); [done|exact IH].
Qed.

Lemma place_types new l :
  c_Type <$> place_condition new l =
  if decide (c_Type new ∈ c_Type <$> l) then c_Type <$> l else (c_Type <$> l) ++ [c_Type new].
Proof.
  induction l as [|c l IH]; [done|]. cbn [place_condition].
  destruct (String.eqb_spec (c_Type c) (c_Type new)) as [Hc|Hc]; rewrite !fmap_cons.
  - rewrite decide_True by set_solver. destruct (String.eqb _ _); simpl; by rewrite Hc.
  - rewrite IH. repeat case_decide; try done; set_solver.
Qed.

(** Conditions.  [setCondition] makes the status of its type what was asked, leaves the
    status of every other type and everything but the conditions of the object alone, never
    gives two conditions one type, and keeps the transition time of a condition whose status
    does not change. *)
Theorem condition_set b ty st reason msg :
  wp (setCondition b ty st reason msg) (λ _ r, ∃ b' now l',
    r = Returned b' ∧ b' = with_conditions b l' ∧
    getConditionStatus b' ty = st ∧
    (∀ ty', ty' ≠ ty → getConditionStatus b' ty' = getConditionStatus b ty') ∧
    (NoDup (c_Type <$> Conditions (bc_Status b)) → NoDup (c_Type <$> l')) ∧
    ∀ c, c ∈ l' → c_Type c = ty → c_LastTransitionTime c = now ∨
      ∃ old, old ∈ Conditions (bc_Status b) ∧ c_Type old = ty ∧
        c_LastTransitionTime old = c_LastTransitionTime c ∧
        (NoDup (c_Type <$> Conditions (bc_Status b)) → c_Status old = st)).
Proof.
  intros now. simpl. set (new := mkCondition ty st _ now reason msg).
  eexists _, now, _. split; [done|]. split; [done|]. split; [apply (status_in_place_same new)|].
  split; [intros ty' Hty; by apply (status_in_place_other new)|].
  generalize (Conditions (bc_Status b)) as l. intros l. split.
  - rewrite place_types. case_decide as Hin; [done|]. intros Hl.
    apply NoDup_app. split_and!; [done|set_solver|apply NoDup_singleton].
  - induction l as [|c l IH]; intros x; simpl.
    + intros ->%list_elem_of_singleton _. by left.
    + destruct (String.eqb_spec (c_Type c) ty) as [Hc|Hc].
      * intros [->|Hx]%elem_of_cons Hty.
        -- destruct (String.eqb_spec (c_Status c) st); [right|by left].
           exists c. set_solver.
        -- right. exists x. split_and!; [set_solver|done|done|]. rewrite NoDup_cons.
           intros [[] _]. rewrite Hc, <-Hty. by apply list_elem_of_fmap_2.
      * intros [->|Hx]%elem_of_cons Hty; [done|].
        destruct (IH x Hx Hty) as [->|(old & ? & ? & ? & Hst)]; [by left|].
        right. exists old. split_and!; [set_solver|done|done|].
        rewrite NoDup_cons. intros [_ ?]. auto.
Qed.

(** ** The phase *)

Lemma phase_flags_fold l f a :
  foldl phase_flags (f, a) l =
  (f || contains_by (λ c, String.eqb (c_Status c) ConditionFalse) l,
   a && forallb (λ c, String.eqb (c_Status c) ConditionTrue) l).
Proof.
  revert f a. induction l as [|c l IH]; intros f a; simpl; [by rewrite orb_false_r, andb_true_r|].
  unfold phase_flags at 2. destruct (String.eqb_spec (c_Status c) ConditionFalse) as [Hc|Hc].
  - rewrite IH, Hc. simpl. by rewrite orb_true_r, andb_false_r.
  - destruct (String.eqb (c_Status c) ConditionTrue); simpl; rewrite IH; simpl; [done|].
    by rewrite andb_false_r.
Qed.

Lemma status_in_elem l ty : status_in l ty ≠ "" → ∃ c, c ∈ l ∧ c_Type c = ty ∧ c_Status c = status_in l ty.
Proof.
  unfold status_in. destruct (find_first _ l) as [c|] eqn:Hc; [|done]. intros _.
  apply find_first_elem in Hc as [? Hty]. apply String.eqb_eq in Hty. eauto.
Qed.

Definition is_failed (b : BackupConfig) : Prop :=
  getConditionStatus b ConditionTypeCredentialsValid = ConditionFalse ∨
  (getConditionStatus b ConditionTypeStorageReadable = ConditionFalse ∧
   getConditionStatus b ConditionTypeStorageWritable = ConditionFalse).

Lemma failed_has_false b :
  is_failed b → ∃ c, c ∈ Conditions (bc_Status b) ∧ c_Status c = ConditionFalse.
Proof.
  unfold is_failed, getConditionStatus. intros Hf.
  assert (∃ ty, status_in (Conditions (bc_Status b)) ty = ConditionFalse) as [ty Hty]
    by (destruct Hf as [?|[? _]]; eauto).
  destruct (status_in_elem (Conditions (bc_Status b)) ty) as (c & ? & _ & Hc); [by rewrite Hty|].
  exists c. by rewrite Hc.
Qed.

Lemma determinePhase_failed b : is_failed b → determinePhase b = BackupConfigPhaseFailed.
Proof.
  intros Hf. pose proof (failed_has_false b Hf) as (c & Hc & _). unfold determinePhase.
  destruct (Conditions (bc_Status b)) as [|c' l] eqn:Hl; [set_solver|]. cbn [length Nat.eqb].
  rewrite <-Hl, phase_flags_fold. cbv beta iota zeta.
  destruct Hf as [->|[-> ->]]; simpl; [done|]. by destruct (String.eqb _ _).
Qed.

Lemma determinePhase_not_failed b :
  ¬ is_failed b →
  determinePhase b =
    if (length (Conditions (bc_Status b)) =? 0)%nat then BackupConfigPhaseUnknown
    else if forallb (λ c, String.eqb (c_Status c) ConditionTrue) (Conditions (bc_Status b))
    then BackupConfigPhaseHealthy
    else if contains_by (λ c, String.eqb (c_Status c) ConditionFalse) (Conditions (bc_Status b))
    then BackupConfigPhaseDegraded else BackupConfigPhaseUnknown.
Proof.
  intros Hf. unfold determinePhase. destruct (_ =? 0)%nat; [done|].
  rewrite phase_flags_fold. cbv beta iota zeta. simpl.
  destruct (String.eqb_spec (getConditionStatus b ConditionTypeCredentialsValid) ConditionFalse);
    [by destruct Hf; left|].
  destruct (String.eqb_spec (getConditionStatus b ConditionTypeStorageReadable) ConditionFalse);
    [|done].
  destruct (String.eqb_spec (getConditionStatus b ConditionTypeStorageWritable) ConditionFalse);
    [by destruct Hf; right|done].
Qed.

#[export] Instance is_failed_dec b : Decision (is_failed b).
Proof. unfold is_failed. apply _. Defined.

(** The phase.  Failed: the credentials are invalid, or the storage can be neither read
    nor written.  Healthy: there are conditions and all of them are true.  Degraded: not
    failed, but some condition is false.  Unknown: in every other case, that is, no condition
    is false and either there are none or one is not true either. *)
Theorem phase_meaning b :
  let l := Conditions (bc_Status b) in
  let some_false := ∃ c, c ∈ l ∧ c_Status c = ConditionFalse in
  (determinePhase b = BackupConfigPhaseFailed ↔ is_failed b) ∧
  (determinePhase b = BackupConfigPhaseHealthy ↔
     l ≠ [] ∧ ∀ c, c ∈ l → c_Status c = ConditionTrue) ∧
  (determinePhase b = BackupConfigPhaseDegraded ↔ ¬ is_failed b ∧ some_false) ∧
  (determinePhase b = BackupConfigPhaseUnknown ↔
     ¬ some_false ∧ (l = [] ∨ ∃ c, c ∈ l ∧ c_Status c ≠ ConditionTrue)).
Proof.
  cbv zeta. assert (Hnf : (∃ c, c ∈ Conditions (bc_Status b) ∧ c_Status c = ConditionFalse) →
    ¬ ∀ c, c ∈ Conditions (bc_Status b) → c_Status c = ConditionTrue).
  { intros (c & Hc & Hf) Ht. specialize (Ht c Hc). by rewrite Hf in Ht. }
  destruct (decide (is_failed b)) as [Hf|Hf].
  { rewrite (determinePhase_failed b Hf). pose proof (failed_has_false b Hf). naive_solver. }
  rewrite (determinePhase_not_failed b Hf).
  destruct (Conditions (bc_Status b)) as [|c l] eqn:Hl; [set_solver|]. rewrite <-Hl in *.
  replace (_ =? 0)%nat with false by (by rewrite Hl).
  assert (Conditions (bc_Status b) ≠ []) as Hne by (by rewrite Hl).
  destruct (forallb _ _) eqn:Ht.
  { rewrite forallb_forall in Ht. setoid_rewrite <-list_elem_of_In in Ht.
    setoid_rewrite String.eqb_eq in Ht. naive_solver. }
  assert (∃ c, c ∈ Conditions (bc_Status b) ∧ c_Status c ≠ ConditionTrue) as Hnt.
  { clear -Ht. induction (Conditions (bc_Status b)) as [|x k IH]; [done|]. simpl in Ht.
    apply andb_false_iff in Ht as [Hx|Hk]; [apply String.eqb_neq in Hx; set_solver|].
    destruct (IH Hk) as (y & ? & ?). set_solver. }
  destruct (contains_by _ _) eqn:Hs.
  - apply contains_by_true in Hs as (x & ? & Hx%String.eqb_eq). naive_solver.
  - rewrite contains_by_false in Hs. setoid_rewrite String.eqb_neq in Hs. naive_solver.
Qed.

(** ** Sizes *)

Lemma round_half_even_spec n d :
  0 < d → 2 * Z.abs (n - round_half_even n d * d) ≤ d.
Proof.
  intros Hd. unfold round_half_even.
  pose proof (Z.div_mod n d ltac:(lia)). pose proof (Z.mod_pos_bound n d Hd).
  destruct (Z.ltb_spec (2 * (n mod d)) d); [nia|].
  destruct (Z.ltb_spec d (2 * (n mod d))); [nia|]. destruct (Z.even _); nia.
Qed.

Lemma float64_exact n : 0 ≤ n < 2 ^ 53 → float64_of_int n = n.
Proof.
  intros Hn. unfold float64_of_int. replace (Z.max 0 (Z.log2 n - 52)) with 0.
  - unfold round_half_even. rewrite Z.pow_0_r, Z.mod_1_r, Z.div_1_r. simpl. lia.
  - destruct (decide (n = 0)) as [->|]; [done|]. assert (Z.log2 n < 53) by (apply Z.log2_lt_pow2; lia). lia.
Qed.

(** C40: sizes.  The text of a size below 8 PiB is its number of hundredths of the largest
    unit that fits, two decimals, off by at most half a hundredth; below 1 KiB it is the
    exact number of bytes. *)
Theorem size_text n :
  0 ≤ n < 2 ^ 53 →
  (n < kib → formatBytesHumanReadable n = format_int n +:+ " B") ∧
  (kib ≤ n → ∃ unit name h,
     (unit, name) ∈ [(kib, " KiB"); (mib, " MiB"); (gib, " GiB"); (tib, " TiB")] ∧
     unit ≤ n ∧ (unit = tib ∨ n < 1024 * unit) ∧
     2 * Z.abs (100 * n - h * unit) ≤ unit ∧
     formatBytesHumanReadable n =
       format_int (h / 100) +:+ "." +:+ two_digits (h mod 100) +:+ name).
Proof.
  intros Hn. unfold formatBytesHumanReadable, format_float2, hundredths.
  rewrite (float64_exact n Hn).
  pose proof (eq_refl : kib = 1024) as Hk. pose proof (eq_refl : mib = 1048576) as Hm.
  pose proof (eq_refl : gib = 1073741824) as Hg. pose proof (eq_refl : tib = 1099511627776) as Ht.
  split.
  { intros. by rewrite !(proj2 (Z.leb_gt _ n)) by lia. }
  intros Hkib.
  assert (∀ u, 0 < u → 2 * Z.abs (100 * n - round_half_even (100 * n) u * u) ≤ u) as Hr
    by (intros; by apply round_half_even_spec).
  destruct (Z.leb_spec tib n); [exists tib, " TiB"|
    destruct (Z.leb_spec gib n); [exists gib, " GiB"|
      destruct (Z.leb_spec mib n); [exists mib, " MiB"|
        destruct (Z.leb_spec kib n); [exists kib, " KiB"|lia]]]];
    (eexists; split; [set_solver|]; split; [done|]; split; [lia|]; split; [apply Hr; lia|];
     by rewrite <-!append_assoc).
Qed.

Lemma size_text_witness :
  0 ≤ 1536 < 2 ^ 53 ∧ formatBytesHumanReadable 1536 = "1.50 KiB" ∧
  (1536 < kib → formatBytesHumanReadable 1536 = format_int 1536 +:+ " B").
Proof. split; [lia|]. split; [reflexivity|]. apply (size_text 1536). lia. Defined.

(** ** PostgreSQL versions *)

Lemma StronglySorted_strict (l : list Z) : StronglySorted Z.le l → NoDup l → StronglySorted Z.lt l.
Proof.
  induction 1 as [|x l Hl IH Hx]; intros Hnd; [constructor|].
  apply NoDup_cons in Hnd as [Hn Hnd]. constructor; [auto|].
  rewrite Forall_forall in Hx |- *. intros y Hy. specialize (Hx y Hy).
  assert (x ≠ y) by congruence. lia.
Qed.

Lemma elem_of_allVersions v : v ∈ allVersions ↔ 11 ≤ v ≤ 19.
Proof.
  unfold allVersions, minKnownPGMajorVersion, maxKnownPGMajorVersion. rewrite elem_of_seqZ. lia.
Qed.

(** The label of a Backup is the number of a known version. *)
Definition labelled_version (x : Backup) (v : Z) : Prop :=
  atoi (str_map_get (Labels (bk_meta x)) BackupPgVersionLabelName) = (v, None) ∧ 11 ≤ v ≤ 19.

Lemma known_version_Some x v : known_version x = Some v ↔ labelled_version x v.
Proof.
  unfold known_version, labelled_version, minKnownPGMajorVersion, maxKnownPGMajorVersion.
  destruct (atoi _) as [n [|]]; [naive_solver|].
  destruct (_ || _) eqn:Hr; [|bool_to_prop; split; [intros [= ->]; split; [done|lia]|naive_solver]].
  split; [done|]. intros [[= ->] ?]. apply orb_true_iff in Hr as [?%Z.ltb_lt|?%Z.ltb_lt]; lia.
Qed.

Lemma known_version_None x : known_version x = None ↔ ∀ v, ¬ labelled_version x v.
Proof.
  setoid_rewrite <-known_version_Some. destruct (known_version x); naive_solver.
Qed.

Lemma owned_by_name_spec b x : owned_by_name b x = true ↔ owned_by b x.
Proof. apply owned_by_contains. Qed.

(** The versions some owned Backup of [l] is labelled with; one of unknown version. *)
Definition has_version (b : BackupConfig) (l : list Backup) (v : Z) : Prop :=
  ∃ x, x ∈ l ∧ owned_by b x ∧ labelled_version x v.
Definition version_unknown (b : BackupConfig) (l : list Backup) : Prop :=
  ∃ x, x ∈ l ∧ owned_by b x ∧ ∀ v, ¬ labelled_version x v.

Lemma has_version_cons b x l v :
  has_version b (x :: l) v ↔ (owned_by_name b x = true ∧ known_version x = Some v) ∨ has_version b l v.
Proof.
  rewrite known_version_Some, owned_by_name_spec. unfold has_version.
  setoid_rewrite elem_of_cons. split; [intros (y & [->|?] & ?); eauto|].
  intros [?|(y & ? & ?)]; [by exists x; auto|exists y; auto].
Qed.

Lemma version_unknown_cons b x l :
  version_unknown b (x :: l) ↔ (owned_by_name b x = true ∧ known_version x = None) ∨ version_unknown b l.
Proof.
  rewrite known_version_None, owned_by_name_spec. unfold version_unknown.
  setoid_rewrite elem_of_cons. split; [intros (y & [->|?] & ?); eauto|].
  intros [?|(y & ? & ?)]; [by exists x; auto|exists y; auto].
Qed.

Lemma has_version_nil b v : ¬ has_version b [] v.
Proof. by intros (x & ?%elem_of_nil & _). Qed.

Lemma version_unknown_nil b : ¬ version_unknown b [].
Proof. by intros (x & ?%elem_of_nil & _). Qed.

Lemma collect_versions_spec b l vs :
  match collect_versions b vs l with
  | Some vs' => ¬ version_unknown b l ∧ ∀ v, v ∈ vs' ↔ v ∈ vs ∨ has_version b l v
  | None => version_unknown b l
  end.
Proof.
  revert vs. induction l as [|x l IH]; intros vs; simpl.
  { split; [apply version_unknown_nil|]. intros v. pose proof (has_version_nil b v). tauto. }
  assert (∀ vs' : gset Z, (¬ version_unknown b (x :: l) ∧ ∀ v, v ∈ vs' ↔ v ∈ vs ∨ has_version b (x :: l) v) ↔
    ¬ ((owned_by_name b x = true ∧ known_version x = None) ∨ version_unknown b l) ∧
    ∀ v, v ∈ vs' ↔ v ∈ vs ∨ (owned_by_name b x = true ∧ known_version x = Some v) ∨ has_version b l v)
    as Hrw.
  { intros vs'. rewrite version_unknown_cons. by setoid_rewrite has_version_cons. }
  destruct (owned_by_name b x) eqn:Ho; simpl.
  - destruct (known_version x) as [v|] eqn:Hk; [|apply version_unknown_cons; by left].
    specialize (IH ({[v]} ∪ vs)).
    destruct (collect_versions _ _ l) as [vs'|]; [|apply version_unknown_cons; by right].
    apply Hrw. destruct IH as [Hu IH]. split; [naive_solver|].
    intros w. rewrite IH, elem_of_union, elem_of_singleton. naive_solver.
  - specialize (IH vs). destruct (collect_versions _ _ l) as [vs'|];
      [|apply version_unknown_cons; by right].
    apply Hrw. destruct IH as [Hu IH]. split; [naive_solver|]. intros w. rewrite IH. naive_solver.
Qed.

(** When the Backups do not tell the versions. *)
Definition must_probe (b : BackupConfig) (l : list Backup) : Prop :=
  version_unknown b l ∨ ∀ v, ¬ has_version b l v.

Lemma has_version_range b l v : has_version b l v → 11 ≤ v ≤ 19.
Proof. by intros (x & _ & _ & _ & Hx). Qed.

Lemma versions_of_spec b l :
  StronglySorted Z.lt (versions_of b l) ∧
  ∀ v, v ∈ versions_of b l ↔ has_version b l v ∨ (must_probe b l ∧ 11 ≤ v ≤ 19).
Proof.
  assert (Hall : StronglySorted Z.lt allVersions).
  { vm_compute. repeat constructor. }
  pose proof (has_version_range b l) as Hr. unfold versions_of, must_probe.
  pose proof (collect_versions_spec b l ∅) as Hc. destruct (collect_versions b ∅ l) as [vs|].
  - destruct Hc as [Hu Hvs]. case_decide as Hempty.
    + split; [done|]. intros v. rewrite elem_of_allVersions.
      assert (∀ w, ¬ has_version b l w) by set_solver. naive_solver.
    + split.
      * apply StronglySorted_strict; [apply (StronglySorted_merge_sort Z.le _)|].
        rewrite merge_sort_Permutation. apply NoDup_elements.
      * intros v. rewrite merge_sort_Permutation, elem_of_elements, Hvs.
        split; [set_solver|]. intros [?|[[?|Hn] _]]; [by right|done|].
        destruct Hempty. set_solver.
  - split; [done|]. intros v. rewrite elem_of_allVersions. naive_solver.
Qed.

(** Probed versions.  The versions the archive scan looks at are distinct, in order and
    between 11 and 19, and there is always one.  They are exactly the versions the owned
    Backups are labelled with, unless deleting a Backup keeps its archive, the Backups cannot
    be listed, none is owned, or one has no known version: then they are all nine. *)
Theorem versions_resolved b :
  wp (resolvePGVersions b) (λ t r, ∃ l,
    r = Returned l ∧ l ≠ [] ∧ StronglySorted Z.lt l ∧
    ∀ v, v ∈ l ↔ 11 ≤ v ≤ 19 ∧
      (IgnoreForBackupDeletion (Retention (bc_Spec b)) = true ∨
       ∃ a : res (list Backup), t = [Ev (OList KBackup (Some (Namespace (bc_meta b)))) a] ∧
         match a with
         | Ok items => must_probe b items ∨ has_version b items v
         | Err _ => True
         end)).
Proof.
  assert (Hall : StronglySorted Z.lt allVersions) by apply (versions_of_spec b []).
  unfold resolvePGVersions. destruct (IgnoreForBackupDeletion _) eqn:Hi.
  { eexists. split_and!; [done|done|done|]. intros v. rewrite elem_of_allVersions. naive_solver. }
  intros [items|e]; simpl.
  - destruct (versions_of_spec b items) as [Hs Hv]. eexists. split; [done|].
    assert (∀ v, v ∈ versions_of b items ↔ 11 ≤ v ≤ 19 ∧ (must_probe b items ∨ has_version b items v))
      as Hv'. { intros v. rewrite Hv. pose proof (has_version_range b items v). tauto. }
    split_and!; [|done|].
    + intros Hn. rewrite Hn in Hv'. setoid_rewrite elem_of_nil in Hv'.
      assert (∀ v, ¬ has_version b items v) as Hno.
      { intros w Hw. apply (Hv' w). split; [by eapply has_version_range|by right]. }
      apply (Hv' 11). split; [lia|]. left. by right.
    + intros v. rewrite Hv'. split; [intros [? ?]; split; [done|]; right; by eexists|].
      intros [? [?|(a & Heq & ?)]]; [done|]. split; [done|].
      assert (Ok items = a) as <- by (apply (f_equal (hd (Ev ORelease tt))) in Heq; by apply Ev_OList_inj in Heq). done.
  - eexists. split_and!; [done|done|done|]. intros v. rewrite elem_of_allVersions.
    split; [|by intros [? _]]. intros ?. split; [done|]. right. by eexists.
Qed.

(** ** Timestamps *)

Lemma oldest_first_swo P : strict_weak_order oldest_first P.
Proof. split; unfold oldest_first, before; intros; bool_to_prop; lia. Qed.

Lemma not_after_le x y : not_after oldest_first x y ↔ getBackupTime x ≤ getBackupTime y.
Proof. apply Z.ltb_ge. Qed.

Lemma sorted_head_least {A} (R : A → A → Prop) l x z :
  (∀ y, R y y) → StronglySorted R l → head l = Some x → z ∈ l → R x z.
Proof.
  intros HR [|y l' _ Hy]; [done|]. intros [= ->]. rewrite Forall_forall in Hy.
  intros [->|?]%elem_of_cons; auto.
Qed.

Lemma sorted_last_greatest {A} (R : A → A → Prop) l x z :
  (∀ y, R y y) → StronglySorted R l → last l = Some x → z ∈ l → R z x.
Proof.
  intros HR. induction 1 as [|y l Hl IH Hy]; [done|]. rewrite last_cons. intros Hx.
  intros [->|Hz]%elem_of_cons.
  - destruct (last l) as [w|] eqn:Hw; injection Hx as ->; [|done].
    rewrite Forall_forall in Hy. apply Hy. by apply last_Some_elem_of in Hw.
  - destruct (last l) as [w|] eqn:Hw; injection Hx as ->; [by apply IH|].
    apply last_None in Hw as ->. by apply elem_of_nil in Hz.
Qed.

Definition completed (x : Backup) : Prop := bk_Phase x = BackupPhaseCompleted.
Definition failed (x : Backup) : Prop := bk_Phase x = BackupPhaseFailed.

(** The Backups of [l] owned by [b] and in a phase. *)
Definition owned_in (b : BackupConfig) (l : list Backup) (P : Backup → Prop) (x : Backup) : Prop :=
  x ∈ l ∧ owned_by b x ∧ P x.

(** [t] is the time of a Backup satisfying [P], and no such Backup is earlier ([later]). *)
Definition earliest (P : Backup → Prop) (t : option time) : Prop :=
  ∃ x, P x ∧ t = Some (getBackupTime x) ∧ ∀ z, P z → getBackupTime x ≤ getBackupTime z.
Definition latest_of (P : Backup → Prop) (t : option time) : Prop :=
  ∃ x, P x ∧ t = Some (getBackupTime x) ∧ ∀ z, P z → getBackupTime z ≤ getBackupTime x.

Section timestamps.
Context `{GoSort}.

Lemma sorted_in_phase b l ph :
  let k := filter_by (λ x, bool_decide (bk_Phase x = ph))
             (sort_slice oldest_first (filter_by (owned_by_name b) l)) in
  StronglySorted (not_after oldest_first) k ∧
  ∀ x, x ∈ k ↔ owned_in b l (λ x, bk_Phase x = ph) x.
Proof.
  cbv zeta. split.
  - apply StronglySorted_filter_by.
    apply sort_slice_sorted, oldest_first_swo.
  - intros x. rewrite elem_of_filter_by, sort_slice_perm, elem_of_filter_by, bool_decide_eq_true,
      owned_by_name_spec.
    unfold owned_in. tauto.
Qed.

Lemma ends_in_phase b l ph :
  let k := filter_by (λ x, bool_decide (bk_Phase x = ph))
             (sort_slice oldest_first (filter_by (owned_by_name b) l)) in
  let P := owned_in b l (λ x, bk_Phase x = ph) in
  match head k, last k with
  | Some x, Some y => earliest P (Some (getBackupTime x)) ∧ latest_of P (Some (getBackupTime y))
  | None, None => ∀ x, ¬ P x
  | _, _ => False
  end.
Proof.
  cbv zeta. destruct (sorted_in_phase b l ph) as [Hs Hk]. revert Hs Hk.
  generalize (filter_by (λ x, bool_decide (bk_Phase x = ph))
    (sort_slice oldest_first (filter_by (owned_by_name b) l))) as k. intros k Hs Hk.
  destruct (last k) as [y|] eqn:Hy.
  - destruct (head k) as [x|] eqn:Hx; [|by destruct k].
    assert (∀ z, not_after oldest_first z z) as Hr by (intros z; apply not_after_le; lia). split.
    + exists x. split_and!; [apply Hk; by apply head_Some_elem_of|done|]. intros z Hz%Hk.
      apply not_after_le. by apply (sorted_head_least (not_after oldest_first) k).
    + exists y. split_and!; [apply Hk; by apply last_Some_elem_of|done|]. intros z Hz%Hk.
      apply not_after_le. by apply (sorted_last_greatest (not_after oldest_first) k).
  - apply last_None in Hy as ->. simpl. intros x Hx%Hk. by apply elem_of_nil in Hx.
Qed.

(** Timestamps.  Given the Backups of the namespace, the first recoverability point and
    the last success become the earliest and latest time of a completed Backup the
    BackupConfig owns, the last failure the latest time of a failed one; each stays as it was
    when there is no such Backup, and when they cannot be listed.  Nothing else changes. *)
Theorem timestamps_span b :
  wp (reconcileBackupTimestamps b) (λ t r, ∃ first success failure,
    r = Returned (with_last_failed (with_last_successful (with_first b first) success) failure) ∧
    ∃ a : res (list Backup), t = [Ev (OList KBackup (Some (Namespace (bc_meta b)))) a] ∧
    let same := first = FirstRecoverabilityPoint (bc_Status b) ∧
                success = LastSuccessfulBackup (bc_Status b) in
    let failure_same := failure = LastFailedBackup (bc_Status b) in
    match a with
    | Err _ => same ∧ failure_same
    | Ok items =>
        ((∀ x, ¬ owned_in b items completed x) ∧ same ∨
         earliest (owned_in b items completed) first ∧
         latest_of (owned_in b items completed) success) ∧
        ((∀ x, ¬ owned_in b items failed x) ∧ failure_same ∨
         latest_of (owned_in b items failed) failure)
    end).
Proof.
  intros [items|e]; simpl.
  2: { eexists _, _, _. split; [|eexists; split; [done|]; cbv beta iota zeta; by repeat split].
       destruct b as [m s []]. done. }
  unfold set_timestamps. cbv zeta.
  pose proof (ends_in_phase b items BackupPhaseCompleted) as Hc.
  pose proof (ends_in_phase b items BackupPhaseFailed) as Hf. cbv zeta in Hc, Hf.
  fold completed in Hc. fold failed in Hf.
  destruct (length (filter_by (owned_by_name b) items) =? 0)%nat eqn:Hl.
  { bool_to_prop. apply nil_length_inv in Hl.
    assert (∀ P x, ¬ owned_in b items P x) as Hno.
    { intros P x (Hx & Ho & _). apply (not_elem_of_nil x). rewrite <-Hl.
      apply elem_of_filter_by. by rewrite owned_by_name_spec. }
    eexists _, _, _. split; [|eexists; split; [done|]; split; left; split; try done; by eauto].
    destruct b as [m s []]. done. }
  destruct (head _) as [x|], (last _) as [y|] in Hc |- *; try done;
    destruct (head _) as [x'|], (last _) as [y'|] in Hf |- *; try done;
    (eexists _, _, _; split; [|eexists; split; [done|]; split;
      first [right; exact Hc|right; apply Hf|left; split; [exact Hc|done]|left; split; [exact Hf|done]]]);
    destruct b as [m s []]; done.
Qed.
End timestamps.

(** ** What is written, and when *)

Section writes.
Context `{GoSort, StatusConditions, ConflictRetry}.
Variable unmarshal_backups : string → res (list BackupMetadata).
Variable unmarshal_timelines : string → res (list WALTimelineInfo).
Variable spec_hash : BackupConfigWithSecrets → res string.
Variable archiveInterval : Z.

Lemma emits_retry {A} P (f : prog (res A)) : emits P f → emits P (RetryOnConflict f).
Proof.
  intros Hf. apply wp_exec. intros t r Hr%RetryOnConflict_runs.
  pose proof (proj1 (wp_exec f _) Hf) as Hx.
  induction Hr as [t r Ht|t1 e t2 r Ht1 _ _ IH]; [by apply (Hx t r)|].
  apply Forall_app. split; [by apply (Hx _ _ Ht1)|done].
Qed.

Lemma emits_unless_done {A} P (stop : err → A) p :
  (∀ a, P (Ev OCtxErr a)) → emits P p → emits P (unless_done stop p).
Proof.
  intros HP Hp. apply emits_bind; [by apply emits_call|]. intros [e|]; [apply emits_ret|done].
Qed.

Lemma emits_for_fold {A S} P (f : S → A → prog S) s l :
  (∀ s x, emits P (f s x)) → emits P (for_fold f s l).
Proof.
  intros Hf. revert s. induction l as [|x l IH]; intros s; simpl; [apply emits_ret|].
  apply emits_bind; auto.
Qed.

Lemma emits_setCondition P b ty st r m :
  (∀ a, P (Ev ONow a)) → emits P (setCondition b ty st r m).
Proof. intros HP. apply emits_bind; [by apply emits_call|]. intros now. apply emits_ret. Qed.

(** Events that write no object, delete nothing and enqueue nothing. *)
Definition no_status (e : event) : Prop :=
  match ev_op e with
  | OCreate _ _ | OUpdate _ _ | OPatch _ _ _ | ODelete _ _ | OStatusUpdate _ | OEnqueue _ _ => False
  | OExec _ args _ => head args ≠ Some "delete"
  | _ => True
  end.

Lemma reads_no_status e : reads e → no_status e.
Proof. destruct e as [[] ?]; done. Qed.

Lemma no_status_client ws v : emits no_status (NewClientFromBackupConfig ws v).
Proof. by apply emits_NewClient. Qed.

Lemma no_status_versions b : emits no_status (resolvePGVersions b).
Proof. unfold resolvePGVersions. emits_auto; done. Qed.

Lemma no_status_timestamps b : emits no_status (reconcileBackupTimestamps b).
Proof. unfold reconcileBackupTimestamps. emits_auto; done. Qed.

Lemma no_status_wal b ws : emits no_status (reconcileWALStatus unmarshal_timelines b ws).
Proof.
  unfold reconcileWALStatus. apply emits_bind; [apply no_status_versions|]. intros versions.
  apply emits_bind.
  - apply emits_for_fold. intros s v. apply emits_bind; [apply no_status_client|]. intros c.
    unfold WALShow, walg. emits_auto; done.
  - intros s. cbv zeta. destruct (_ && _); by apply emits_setCondition.
Qed.

Lemma no_status_consumed b ws : emits no_status (reconcileConsumedStorage unmarshal_backups b ws).
Proof.
  unfold reconcileConsumedStorage. apply emits_bind; [apply no_status_versions|]. intros versions.
  apply emits_bind.
  - apply emits_for_fold. intros [] v. apply emits_bind; [apply no_status_client|]. intros c.
    unfold GetBackupsList, StorageLsTotalSize, walg. emits_auto; done.
  - intros [x y]. emits_auto.
Qed.

(** The only writes are those of a status that satisfies [P]. *)
Definition writes_only (P : BackupConfig → Prop) (e : event) : Prop :=
  match ev_op e with
  | OStatusUpdate b => P b
  | _ => no_status e
  end.

Lemma no_status_writes P {A} (p : prog A) : emits no_status p → emits (writes_only P) p.
Proof. apply emits_mono. by intros [[] ?]. Qed.

Definition phase_ok (b : BackupConfig) : Prop := Phase (bc_Status b) = determinePhase b.

Lemma phase_ok_determined b : phase_ok (with_phase b (determinePhase b)).
Proof. unfold phase_ok. by destruct b as [m s []]. Qed.

Lemma emits_updateStatus b : emits (writes_only phase_ok) (updateStatus b).
Proof.
  apply emits_bind; [by apply emits_call|]. intros [e|]; [apply emits_ret|].
  apply emits_wrap, emits_call. intros a. apply phase_ok_determined.
Qed.

(** Saving reads the clock, the object and the Backups, and writes the status. *)
Lemma emits_save P scanned :
  (∀ a, P (Ev OCtxErr a)) → (∀ a, P (Ev ONow a)) → (∀ k key a, P (Ev (OGet k key) a)) →
  (∀ k ns a, P (Ev (OList k ns) a)) →
  (∀ b a, P (Ev (OStatusUpdate (with_phase b (determinePhase b))) a)) →
  emits P (updateArchiveStatus scanned).
Proof.
  intros ? ? ? ? Hw. apply emits_bind; [by apply emits_call|]. intros [e|]; [apply emits_ret|].
  apply emits_bind; [apply emits_retry|intros r; emits_auto; done].
  apply emits_try; [by apply emits_call|]. intros latest. cbv zeta.
  destruct (_ || _); [apply emits_ret|]. apply emits_bind.
  - apply emits_for_fold. intros s c. destruct (String.eqb _ _); [|apply emits_ret].
    apply emits_bind; [by apply emits_call|intros; apply emits_ret].
  - intros l. apply emits_bind; [unfold reconcileBackupTimestamps; emits_auto; done|]. intros l'.
    unfold updateStatus. emits_auto; done.
Qed.

Lemma emits_updateArchiveStatus scanned : emits (writes_only phase_ok) (updateArchiveStatus scanned).
Proof. by apply emits_save. Qed.

Lemma emits_archive b ws check :
  emits (writes_only phase_ok)
    (reconcileArchiveStatus unmarshal_backups unmarshal_timelines archiveInterval b ws check).
Proof.
  apply emits_unless_done; [done|]. cbv zeta. apply emits_bind; [by apply emits_call|].
  intros previous. apply emits_bind.
  { unfold not_due. emits_auto; done. }
  intros [p|].
  - destruct (pendingStatus p); [|apply emits_ret].
    apply emits_bind; [apply emits_updateArchiveStatus|]. intros [a|e]; [|apply emits_ret].
    apply emits_bind; [by apply emits_call|intros; apply emits_ret].
  - apply emits_bind; [|intros []; emits_auto; done].
    apply emits_bind; [apply no_status_writes, no_status_wal|]. intros b'.
    apply emits_unless_done; [done|].
    apply emits_bind; [apply no_status_writes, no_status_consumed|]. intros b2.
    apply emits_unless_done; [done|]. cbv zeta.
    apply emits_bind; [apply emits_updateArchiveStatus|]. intros [|]; apply emits_ret.
Qed.

Lemma emits_check P (f : Client → prog (RunResult * option err)) b c s1 s2 m1 m2 m3 :
  emits P (f c) → (∀ a, P (Ev ONow a)) →
  emits P ('(_, err) ← f c;
           match err with
           | Some e => b ← setCondition b s1 ConditionFalse m1 (emsg e); Ret (b, false)
           | None => b ← setCondition b s1 ConditionTrue m2 m3; Ret (b, s2 : bool)
           end).
Proof.
  intros Hf HP. apply emits_bind; [done|]. intros [x [e|]];
    (apply emits_bind; [by apply emits_setCondition|intros; apply emits_ret]).
Qed.

Lemma failed_phase b c :
  c_Type c = ConditionTypeCredentialsValid → c_Status c = ConditionFalse →
  phase_ok (with_phase (with_conditions b (place_condition c (Conditions (bc_Status b))))
              BackupConfigPhaseFailed).
Proof.
  intros Hty Hst. unfold phase_ok. rewrite determinePhase_failed; [done|]. left.
  change (status_in (place_condition c (Conditions (bc_Status b))) ConditionTypeCredentialsValid
          = ConditionFalse).
  by rewrite <-Hty, status_in_place_same.
Qed.

(** The calls of reconciling a BackupConfig write its status only, with the right phase. *)
Lemma emits_reconcileStatus key :
  emits (writes_only phase_ok)
    (reconcileStatusByKey unmarshal_backups unmarshal_timelines spec_hash archiveInterval key).
Proof.
  apply emits_bind; [by apply emits_call|]. intros [b|e]; [|apply emits_ret].
  apply emits_bind.
  { apply no_status_writes. eapply emits_mono; [apply reads_no_status|].
    apply safe_emits, safe_reads_prefetch. }
  intros [ws|e].
  2: { intros now. simpl. intros a. apply Forall_cons. split; [done|].
       apply Forall_cons. split; [|constructor]. by apply failed_phase. }
  apply emits_bind; [apply no_status_writes, no_status_client|]. intros c.
  apply emits_bind; [by apply emits_setCondition|]. intros b1.
  apply emits_bind; [apply (emits_check _ StorageCheckReadable);
    [unfold StorageCheckReadable, walg; emits_auto; done|done]|]. intros [b2 readable].
  apply emits_unless_done; [done|].
  apply emits_bind; [apply (emits_check _ StorageCheckWritable);
    [unfold StorageCheckWritable, walg; emits_auto; done|done]|]. intros [b3 writable].
  destruct (spec_hash ws); [|apply emits_ret]. cbv zeta.
  apply emits_bind; [by apply emits_call|]. intros previous.
  apply emits_bind; [destruct (_ || _); [by apply emits_setCondition|apply emits_ret]|]. intros b4.
  apply emits_bind; [apply no_status_writes, no_status_timestamps|]. intros b5.
  apply emits_bind; [apply emits_updateStatus|]. intros [b6|e]; [|apply emits_ret].
  destruct readable; [apply emits_archive|apply emits_ret].
Qed.

(** C15: the phase follows the conditions.  Reconciling the status of a BackupConfig writes
    nothing but that status and makes wal-g delete nothing, on every path and whatever the
    environment answers, and every status written carries the phase its own conditions
    determine; in particular when the secrets cannot be read. *)
Theorem phase_follows_conditions key :
  emits (writes_only phase_ok)
    (reconcileStatusByKey unmarshal_backups unmarshal_timelines spec_hash archiveInterval key).
Proof. apply emits_reconcileStatus. Qed.

(** ** How often the archive is scanned *)

(** Two checks are of the same object, specification and resolved configuration. *)
Definition same_config (a b : archiveCheck) : Prop :=
  ac_uid a = ac_uid b ∧ ac_generation a = ac_generation b ∧ configHash a = configHash b.

Lemma matchesConfig_spec a b : matchesConfig a b = true ↔ same_config a b.
Proof.
  unfold matchesConfig, same_config.
  rewrite !andb_true_iff, !String.eqb_eq, Z.eqb_eq. tauto.
Qed.

Lemma same_config_updated c t p : same_config (with_next (with_pending c p) t) c.
Proof. done. Qed.

Lemma with_pending_same c : with_pending c (pendingStatus c) = c.
Proof. by destruct c. Qed.

Lemma scan_keeps_check b ws check :
  wp (scan_archive unmarshal_backups unmarshal_timelines b ws check)
    (λ _ r, match r with
            | Returned (c, _) => ∃ p, c = with_pending check p
            | Panicked _ => True
            end).
Proof.
  assert (∃ p, check = with_pending check p) as Hc by (eexists; symmetry; apply with_pending_same).
  apply wp_exec. intros t r [(? & t1 & b1 & _ & _ & He)|(w & _ & ->)]%exec_bind; [|done].
  apply exec_call in He as ([e|] & t2 & _ & He); [by destruct He as [_ ->]|].
  apply exec_bind in He as [(? & t3 & b2 & _ & _ & He)|(w & _ & ->)]; [|done].
  apply exec_call in He as ([e|] & t4 & _ & He); [by destruct He as [_ ->]|].
  apply exec_bind in He as [(? & t5 & [st|e] & _ & _ & He)|(w & _ & ->)]; [..|done];
    destruct He as [_ ->]; by eexists.
Qed.

Lemma quiet_save scanned : emits quiet (updateArchiveStatus scanned).
Proof. by apply emits_save. Qed.

Lemma not_due_run check previous t r :
  exec (not_due check previous) t r →
  ∃ fresh, r = Returned fresh ∧
    match fresh with
    | Some p => previous = Some p ∧ ∃ now, t = [Ev ONow now] ∧ now < nextCheck p
    | None => previous = None ∧ t = [] ∨
        ∃ p, previous = Some p ∧ (matchesConfig p check = false ∧ t = [] ∨
          ∃ now, t = [Ev ONow now] ∧ nextCheck p ≤ now)
    end.
Proof.
  unfold not_due. destruct previous as [p|]; [|intros [-> ->]; exists None; eauto].
  destruct (matchesConfig p check) eqn:Hm.
  2: { intros [-> ->]. exists None. split; [done|]. right. exists p. auto. }
  intros (now & t' & -> & -> & ->)%exec_call. eexists. split; [done|]. unfold before.
  destruct (Z.ltb_spec now (nextCheck p)); [by eauto|].
  right. exists p. split; [done|]. right. exists now. split; [done|lia].
Qed.

Lemma commands_app t t' : commands (t ++ t') = commands t ++ commands t'.
Proof. apply omap_app. Qed.

(** Throttling.  A run that finds the check of an earlier scan of the same configuration,
    not due yet, runs no wal-g command, and does nothing at all when the result of that scan
    is saved.  A run that does run wal-g stores, whatever comes of the scan, a check for this
    configuration that is not due before the archive interval has passed. *)
Theorem archive_scan_throttled b ws check :
  let key := key_of (bc_meta b) in
  wp (reconcileArchiveStatus unmarshal_backups unmarshal_timelines archiveInterval b ws check)
    (λ t r,
      (∀ previous now t',
         t = Ev OCtxErr None :: Ev (OCheckGet key) (Some previous) :: Ev ONow now :: t' →
         same_config previous check → now < nextCheck previous →
         commands t = [] ∧ (pendingStatus previous = None → t' = [] ∧ r = Returned None)) ∧
      (commands t ≠ [] →
         (∃ w, r = Panicked w) ∨
         ∃ t0 now c, t = t0 ++ [Ev ONow now; Ev (OCheckPut key c) tt] ∧
           same_config c check ∧ nextCheck c = now + archiveInterval)).
Proof.
  cbv zeta. set (key := key_of (bc_meta b)). apply wp_exec. intros t r He.
  apply exec_call in He as ([e|] & t1 & -> & He).
  { destruct He as [-> ->]. split; [by intros ? ? ? Heq%(f_equal length)|by intros Hn; destruct Hn]. }
  apply exec_call in He as (previous & t2 & -> & He). fold key in He.
  apply exec_bind in He as [(t3 & t4 & fresh & -> & Hdue & He)|(w & Hw & ->)].
  2: { by apply not_due_run in Hw as (? & [=] & _). }
  apply not_due_run in Hdue as (fresh' & [= <-] & Hdue). destruct fresh as [p|].
  - destruct Hdue as (-> & now & -> & Hnow). assert (commands t4 = [] ∧
      (pendingStatus p = None → t4 = [] ∧ r = Returned None)) as [Ht4 Hp].
    { destruct (pendingStatus p) as [s|]; [|by destruct He as [-> ->]]. split; [|done].
      apply quiet_commands. revert He. apply exec_emits.
      apply emits_bind; [apply quiet_save|]. intros [x|e]; [|apply emits_ret].
      by apply emits_bind; [apply emits_call|intros; apply emits_ret]. }
    split; [|by intros Hn; destruct Hn].
    intros p' now' t' Heq _ _.
    pose proof (f_equal (λ l, nth 1 l (Ev ORelease tt)) Heq) as [= <-]%Ev_OCheckGet_inj.
    apply (f_equal (drop 3)) in Heq. simpl in Heq. by rewrite !drop_0 in Heq; subst t'.
  - split.
    + intros p' now' t' Heq Hm%matchesConfig_spec Hlt.
      pose proof (f_equal (λ l, nth 1 l (Ev ORelease tt)) Heq) as ->%Ev_OCheckGet_inj.
      apply (f_equal (drop 2)) in Heq. simpl in Heq.
      destruct Hdue as [[[=] _]|(p & [= <-] & [[Hf _]|(now & -> & Hle)])]; [congruence|].
      apply (f_equal (hd (Ev ORelease tt))), Ev_ONow_inj in Heq. lia.
    + intros _. apply exec_bind in He as [(t5 & t6 & [c x] & -> & Hs & He)|(w & _ & ->)]; [|eauto].
      right. pose proof (proj1 (wp_exec _ _) (scan_keeps_check b ws check) _ _ Hs) as [q ->].
      destruct He as (now & t7 & -> & [] & t8 & -> & -> & ->).
      eexists (_ :: _ :: t3 ++ t5), now, _. split; [simpl; by rewrite <-!app_assoc|].
      split; [apply same_config_updated|done].
Qed.

(** ** What saving a scan changes *)

Definition not_get (e : event) : Prop := match ev_op e with OGet _ _ => False | _ => True end.

(** The status of the last WAL integrity condition of [l], [old] when there is none. *)
Definition wal_result (l : list Condition) (old : string) : string :=
  foldl (λ s c, if String.eqb (c_Type c) ConditionTypeWALIntegrityCheck then c_Status c else s) old l.

(** [w] is [latest] with the result of the scan [scanned]. *)
Record merged (scanned latest w : BackupConfig) : Prop := {
  merged_meta : bc_meta w = bc_meta latest;
  merged_spec : bc_Spec w = bc_Spec latest;
  merged_uid : UID (bc_meta latest) = UID (bc_meta scanned);
  merged_generation : Generation (bc_meta latest) = Generation (bc_meta scanned);
  merged_consumed : ConsumedStorage (bc_Status w) = ConsumedStorage (bc_Status scanned);
  merged_wal : getConditionStatus w ConditionTypeWALIntegrityCheck =
    wal_result (Conditions (bc_Status scanned))
      (getConditionStatus latest ConditionTypeWALIntegrityCheck);
  merged_others : ∀ ty, ty ≠ ConditionTypeWALIntegrityCheck →
    getConditionStatus w ty = getConditionStatus latest ty;
}.

Lemma merge_conditions latest l :
  wp (for_fold (λ latest condition,
        if String.eqb (c_Type condition) ConditionTypeWALIntegrityCheck then
          now ← call ONow;
          Ret (with_conditions latest
                 (SetStatusCondition now (Conditions (bc_Status latest)) condition))
        else Ret latest) latest l)
    (λ t r, Forall (λ e, not_get e ∧ no_status e) t ∧ ∃ k,
       r = Returned (with_conditions latest k) ∧
       status_in k ConditionTypeWALIntegrityCheck =
         wal_result l (getConditionStatus latest ConditionTypeWALIntegrityCheck) ∧
       ∀ ty, ty ≠ ConditionTypeWALIntegrityCheck → status_in k ty = getConditionStatus latest ty).
Proof.
  revert latest. induction l as [|c l IH]; intros latest; simpl.
  { split; [done|]. exists (Conditions (bc_Status latest)). by destruct latest as [m s []]. }
  destruct (String.eqb_spec (c_Type c) ConditionTypeWALIntegrityCheck) as [Hc|Hc].
  - intros now. simpl. eapply wp_mono; [|apply IH]. intros t r (Ht & k & -> & Hw & Ho).
    split; [by constructor|]. exists k. split; [done|].
    split.
    + rewrite Hw. unfold getConditionStatus. simpl. by rewrite <-Hc, set_status_same.
    + intros ty Hty. rewrite Ho by done. unfold getConditionStatus. simpl.
      by rewrite set_status_other by congruence.
  - simpl. eapply wp_mono; [|apply IH]. intros t r (Ht & k & -> & Hw & Ho). split; [done|].
    by exists k.
Qed.

Lemma set_timestamps_shape b items :
  ∃ f s l, set_timestamps b items = with_last_failed (with_last_successful (with_first b f) s) l.
Proof.
  destruct b as [m sp [ph f s l c k]]. unfold set_timestamps. cbv zeta.
  destruct (_ =? 0)%nat; [by eexists _, _, _|].
  match goal with |- context [head ?l] => destruct (head l), (last l) end;
    match goal with |- context [last ?l] => destruct (last l) end;
    unfold with_last_failed, with_last_successful, with_first, with_bc_status; simpl;
    by eexists _, _, _.
Qed.

Lemma timestamps_keep b :
  wp (reconcileBackupTimestamps b) (λ t r, Forall (λ e, not_get e ∧ no_status e) t ∧ ∃ f s l,
    r = Returned (with_last_failed (with_last_successful (with_first b f) s) l)).
Proof.
  intros [items|e]; simpl; (split; [by repeat constructor|]).
  - destruct (set_timestamps_shape b items) as (f & s & l & ->). by eexists _, _, _.
  - destruct b as [m sp [ph f s l c k]]. by exists f, s, l.
Qed.

(** Every write in [t] is the merge of the scan with the object read last before it. *)
Definition saves (scanned : BackupConfig) (t : list event) : Prop :=
  ∀ u w a v, t = u ++ Ev (OStatusUpdate w) a :: v →
    ∃ u1 u2 latest,
      u = u1 ++ Ev (OGet KBackupConfig (key_of (bc_meta scanned))) (Ok latest) :: u2 ∧
      Forall not_get u2 ∧ merged scanned latest w.

Lemma saves_none scanned t : Forall no_status t → saves scanned t.
Proof.
  intros Ht u w a v ->. apply Forall_app in Ht as [_ Ht]. by apply Forall_cons in Ht as [[] _].
Qed.

Lemma saves_app scanned t1 t2 : saves scanned t1 → saves scanned t2 → saves scanned (t1 ++ t2).
Proof.
  intros Hl Hr u w a v [(k & -> & Hk)|(k & -> & Hk)]%app_eq_inv.
  - destruct k as [|x k].
    + destruct (Hr [] w a v (eq_sym Hk)) as (u1 & ? & ? & Hn & _).
      by apply app_cons_not_nil in Hn.
    + pose proof (f_equal (hd x) Hk) as Hx. simpl in Hx. subst x. by apply (Hl u w a k).
  - destruct (Hr k w a v Hk) as (u1 & u2 & latest & -> & ? & ?).
    exists (t1 ++ u1), u2, latest. by rewrite <-app_assoc.
Qed.

Lemma save_scanned_saves scanned t r : exec (save_scanned scanned) t r → saves scanned t.
Proof.
  intros (a & t1 & -> & He)%exec_call. destruct a as [latest|e].
  2: { destruct He as [-> _]. apply saves_none. by repeat constructor. }
  cbv beta iota zeta in He.
  destruct (negb (String.eqb _ _) || _) eqn:Hsame.
  { destruct He as [-> _]. apply saves_none. by repeat constructor. }
  apply orb_false_iff in Hsame as [Huid%negb_false_iff%String.eqb_eq Hgen%negb_false_iff%Z.eqb_eq].
  set (l1 := with_consumed _ _) in He.
  assert (Forall not_get t1 ∧ Forall (writes_only (merged scanned latest)) t1) as [Hng Hw].
  { apply exec_bind in He as [(t2 & t3 & l2 & -> & Hm & He)|(w & Hm & _)];
      pose proof (proj1 (wp_exec _ _) (merge_conditions l1 _) _ _ Hm) as (Ht2 & k & Heq & Hw & Ho);
      [injection Heq as ->|done].
    apply exec_bind in He as [(t4 & t5 & l3 & -> & Hts & He)|(w & Hts & _)];
      pose proof (proj1 (wp_exec _ _) (timestamps_keep _) _ _ Hts) as (Ht4 & f & s & l & Heq);
      [injection Heq as ->|done].
    set (l3 := with_last_failed _ _) in He.
    assert (merged scanned latest (with_phase l3 (determinePhase l3))) as Hmerged by by constructor.
    assert (emits (λ e, not_get e ∧ writes_only (merged scanned latest) e)
      (try_bind (updateStatus l3) (λ x, Ret (Ok (bc_Status x))))) as Hu.
    { unfold updateStatus. emits_auto; done. }
    pose proof (exec_emits _ _ _ _ Hu He) as Hx. rewrite !Forall_app.
    rewrite Forall_and in Ht2, Ht4, Hx. destruct Ht2, Ht4, Hx.
    split_and!; try done; (eapply Forall_impl; [done|]); by intros [[] ?]. }
  intros [|e u] w a v Heq; [done|]. injection Heq as <- ->.
  apply Forall_app in Hng as [Hng _], Hw as [_ [Hw _]%Forall_cons].
  exists [], u, latest. split; [done|]. split; [done|]. by apply Hw.
Qed.

(** Saving a scan.  Every status [updateArchiveStatus] writes, in any attempt, is that of
    the object it read last before, of the same UID and generation as the scanned one, with
    the consumed storage and the WAL integrity of the scan: the statuses of all other
    conditions, metadata and specification are those of the object just read. *)
Theorem archive_save_merges scanned t r :
  exec (updateArchiveStatus scanned) t r → saves scanned t.
Proof.
  intros (e & t1 & -> & He)%exec_call. change (Ev OCtxErr e :: t1) with ([Ev OCtxErr e] ++ t1).
  apply saves_app; [apply saves_none; by repeat constructor|].
  destruct e as [e|]; [destruct He as [-> _]; by apply saves_none|].
  assert (∀ t r, exec (RetryOnConflict (save_scanned scanned)) t r → saves scanned t) as Hretry.
  { intros t' r' Hr%RetryOnConflict_runs.
    induction Hr as [t' r' Ht|t2 e t3 r' Ht _ _ IH]; [by eapply save_scanned_saves|].
    apply saves_app; [by eapply save_scanned_saves|done]. }
  apply exec_bind in He as [(t2 & t3 & x & -> & Ha & Hb)|(w & Ha & ->)]; [|by eapply Hretry].
  apply saves_app; [by eapply Hretry|]. apply saves_none.
  destruct Hb as ([e|] & t4 & -> & -> & _); by repeat constructor.
Qed.
End writes.

(** ** Concrete library code, and runs *)

Definition place_status_conditions : StatusConditions.
Proof.
  refine {| SetStatusCondition := λ _ l c, place_condition c l |}.
  - intros _ l c. apply status_in_place_same.
  - intros _ l c ty Hty. by apply status_in_place_other.
Defined.

(** At most [steps] more attempts. *)
Fixpoint retry_steps {A} (steps : nat) (f : prog (res A)) : prog (res A) :=
  match steps with
  | O => f
  | S steps =>
      r ← f;
      match r with
      | Err e => if is_conflict e then retry_steps steps f else Ret (Err e)
      | Ok a => Ret (Ok a)
      end
  end.

Lemma retry_steps_runs n A (f : prog (res A)) t r : exec (retry_steps n f) t r → retried f t r.
Proof.
  revert t. induction n as [|n IH]; intros t; simpl; [apply retried_last|].
  intros [(t1 & t2 & [a|e] & -> & H1 & H2)|(w & H1 & ->)]%exec_bind.
  - destruct H2 as [-> ->]. rewrite app_nil_r. by apply retried_last.
  - destruct (is_conflict e) eqn:He; [eapply retried_again; eauto|].
    destruct H2 as [-> ->]. rewrite app_nil_r. by apply retried_last.
  - by apply retried_last.
Qed.

Definition four_attempts : ConflictRetry :=
  {| RetryOnConflict := λ A, retry_steps 3; RetryOnConflict_runs := retry_steps_runs 3 |}.

Definition wal_condition (st : string) : Condition :=
  mkCondition ConditionTypeWALIntegrityCheck st 1 0 "r" "m".
Definition scanned_config : BackupConfig :=
  with_conditions s3_backup_config [wal_condition ConditionTrue].

(** The object read has no conditions yet; the first attempt to save meets a conflict. *)
Lemma archive_save_merges_witness :
  ∃ u1 u2 latest,
    [Ev OCtxErr None; Ev (OGet KBackupConfig (mkKey "ns" "bc")) (Ok s3_backup_config);
     Ev ONow 5; Ev (OList KBackup (Some "ns")) (Ok []); Ev OCtxErr None] =
      u1 ++ Ev (OGet KBackupConfig (mkKey "ns" "bc")) (Ok latest) :: u2 ∧
    merged scanned_config latest (with_phase scanned_config BackupConfigPhaseHealthy).
Proof.
  destruct (@archive_save_merges insertion_go_sort place_status_conditions four_attempts
    scanned_config
    [Ev OCtxErr None; Ev (OGet KBackupConfig (mkKey "ns" "bc")) (Ok s3_backup_config);
     Ev ONow 5; Ev (OList KBackup (Some "ns")) (Ok []); Ev OCtxErr None;
     Ev (OStatusUpdate (with_phase scanned_config BackupConfigPhaseHealthy)) (Ok scanned_config);
     Ev OCtxErr None]
    (Returned (Ok (bc_Status scanned_config))))
    with (u := [Ev OCtxErr None; Ev (OGet KBackupConfig (mkKey "ns" "bc")) (Ok s3_backup_config);
     Ev ONow 5; Ev (OList KBackup (Some "ns")) (Ok []); Ev OCtxErr None])
    (w := with_phase scanned_config BackupConfigPhaseHealthy)
    (a := Ok scanned_config : res BackupConfig) (v := [Ev OCtxErr None])
    as (u1 & u2 & latest & Heq & _ & Hm).
  - repeat (eexists _, _; split; [reflexivity|]). split; reflexivity.
  - reflexivity.
  - exists u1, u2, latest. split; [exact Heq|exact Hm].
Defined.

(** ** The worker pool *)

Module Workers.
Local Open Scope nat_scope.

Inductive worker := Idle | Received (key : NamespacedName) | Busy (key : NamespacedName).

(** [pending] is what the ticker has still to send. *)
Record state := mkState {
  queue : list NamespacedName;
  inFlight : gset string;
  workers : list worker;
  archiveChecks : gmap NamespacedName archiveCheck;
  pending : list NamespacedName;
}.

Definition statusReconcileQueueSize : nat := 256.
Definition maxStatusReconcileConcurrency : nat := 3.

(** [NewBackupConfigStatusController], and the pool started by [Start]. *)
Definition init : state :=
  mkState [] ∅ (replicate maxStatusReconcileConcurrency Idle) ∅ [].

(** A full queue drops the request. *)
Definition EnqueueStatusUpdate (q : list NamespacedName) (key : NamespacedName)
    : list NamespacedName :=
  if length q <? statusReconcileQueueSize then q ++ [key] else q.

Definition tryAcquire (f : gset string) (queueKey : string) : bool * gset string :=
  if decide (queueKey ∈ f) then (false, f) else (true, {[queueKey]} ∪ f).

Definition release (f : gset string) (queueKey : string) : gset string := f ∖ {[queueKey]}.

(** The loop over [archiveChecks] that drops deleted resources. *)
Definition prune (checks : gmap NamespacedName archiveCheck) (active : list NamespacedName)
    : gmap NamespacedName archiveCheck :=
  filter (λ kv, kv.1 ∈ active) checks.

(** [enqueueAllStatuses] up to the loop that sends. *)
Definition enqueueAllStatuses (s : state) (items : list BackupConfig) : state :=
  let keys := (λ b, key_of (bc_meta b)) <$> items in
  let checks := prune (archiveChecks s) keys in
  if 0 <? length (queue s) then mkState (queue s) (inFlight s) (workers s) checks (pending s)
  else mkState (queue s) (inFlight s) (workers s) checks keys.

Inductive step : state → state → Prop :=
| step_enqueue q f w c p key :
    step (mkState q f w c p) (mkState (EnqueueStatusUpdate q key) f w c p)
| step_tick s items :
    pending s = [] → step s (enqueueAllStatuses s items)
| step_send q f w c key p :
    step (mkState q f w c (key :: p)) (mkState (EnqueueStatusUpdate q key) f w c p)
| step_receive key q f w1 w2 c p :
    step (mkState (key :: q) f (w1 ++ Idle :: w2) c p)
      (mkState q f (w1 ++ Received key :: w2) c p)
| step_acquire q f f' w1 key w2 c p :
    tryAcquire f (key_string key) = (true, f') →
    step (mkState q f (w1 ++ Received key :: w2) c p) (mkState q f' (w1 ++ Busy key :: w2) c p)
| step_skip q f f' w1 key w2 c p :
    tryAcquire f (key_string key) = (false, f') →
    step (mkState q f (w1 ++ Received key :: w2) c p) (mkState q f' (w1 ++ Idle :: w2) c p)
| step_check q f w1 key w2 c p check :
    step (mkState q f (w1 ++ Busy key :: w2) c p)
      (mkState q f (w1 ++ Busy key :: w2) (<[key := check]> c) p)
| step_release q f w1 key w2 c p :
    step (mkState q f (w1 ++ Busy key :: w2) c p)
      (mkState q (release f (key_string key)) (w1 ++ Idle :: w2) c p).

Definition busy_key (w : worker) : option string :=
  match w with Busy key => Some (key_string key) | _ => None end.
Definition busy_keys (l : list worker) : list string := omap busy_key l.

Record inv (s : state) : Prop := {
  inv_nodup : NoDup (busy_keys (workers s));
  inv_flight : ∀ k, k ∈ inFlight s ↔ k ∈ busy_keys (workers s);
  inv_workers : length (workers s) = maxStatusReconcileConcurrency;
  inv_queue : length (queue s) ≤ statusReconcileQueueSize;
}.

Lemma busy_keys_mid w1 w w2 :
  busy_keys (w1 ++ w :: w2) =
  busy_keys w1 ++ match busy_key w with Some k => [k] | None => [] end ++ busy_keys w2.
Proof. unfold busy_keys. rewrite omap_app. simpl. by destruct (busy_key w). Qed.

Lemma busy_keys_length l : length (busy_keys l) ≤ length l.
Proof.
  induction l as [|w l IH]; [done|]. change (w :: l) with ([] ++ w :: l).
  rewrite busy_keys_mid. simpl. destruct (busy_key w); simpl; lia.
Qed.

Lemma enqueue_bound q key :
  length q ≤ statusReconcileQueueSize →
  length (EnqueueStatusUpdate q key) ≤ statusReconcileQueueSize.
Proof.
  unfold EnqueueStatusUpdate. destruct (Nat.ltb_spec (length q) statusReconcileQueueSize); [|done].
  rewrite length_app. simpl. lia.
Qed.

Lemma pool_step s s' : inv s → step s s' → inv s'.
Proof.
  intros [Hn Hf Hw Hq] Hs.
  destruct Hs as [| |q f w c key p|key q f w1 w2 c p|q f f' w1 key w2 c p Ha|q f f' w1 key w2 c p Ha
    |q f w1 key w2 c p check|q f w1 key w2 c p]; simpl in *;
    rewrite ?length_app in Hw; simpl in Hw;
    try (rewrite busy_keys_mid in Hn, Hf; simpl in Hn, Hf).
  - split; simpl; auto using enqueue_bound.
  - unfold enqueueAllStatuses. destruct (_ <? _); by split.
  - split; simpl; auto using enqueue_bound.
  - split; simpl; [| |rewrite length_app; simpl; lia|lia]; by rewrite busy_keys_mid.
  - unfold tryAcquire in Ha. case_decide as Hk; [done|]. injection Ha as <-.
    split; simpl; [| |rewrite length_app; simpl; lia|done]; rewrite busy_keys_mid; simpl.
    + rewrite <-Permutation_middle. apply NoDup_cons. by rewrite <-Hf.
    + intros k. rewrite elem_of_union, elem_of_singleton, Hf. set_solver.
  - unfold tryAcquire in Ha. case_decide; [|done]. injection Ha as <-.
    split; simpl; [| |rewrite length_app; simpl; lia|done]; by rewrite busy_keys_mid.
  - split; simpl; [| |rewrite length_app; simpl; lia|done]; by rewrite busy_keys_mid.
  - rewrite <-Permutation_middle in Hn. apply NoDup_cons in Hn as [Hk Hn].
    split; simpl; [| |rewrite length_app; simpl; lia|done]; rewrite busy_keys_mid; simpl; [done|].
    intros k. unfold release. rewrite elem_of_difference, Hf, elem_of_singleton. set_solver.
Qed.

Lemma pool_init : inv init.
Proof. split; simpl; [constructor|set_solver|done|lia]. Qed.

Lemma pool_reachable s : rtc step init s → inv s.
Proof.
  revert s. apply rtc_ind_r; [apply pool_init|]. intros y z _ ? ?. by eapply pool_step.
Qed.

(** C16: one worker per BackupConfig.  However enqueueing, ticks and the three workers
    interleave, no two workers ever reconcile the same BackupConfig, the in-flight set is
    exactly what they are reconciling (so nothing stays marked), and the queue never exceeds
    its 256 places. *)
Theorem reconciles_exclusively s :
  rtc step init s →
  NoDup (busy_keys (workers s)) ∧ (∀ k, k ∈ inFlight s ↔ k ∈ busy_keys (workers s)) ∧
  size (inFlight s) ≤ maxStatusReconcileConcurrency ∧
  length (queue s) ≤ statusReconcileQueueSize.
Proof.
  intros [Hn Hf Hw Hq]%pool_reachable. split_and!; [done|done| |done].
  assert (inFlight s = list_to_set (busy_keys (workers s))) as -> by set_solver.
  etrans; [apply size_list_to_set_le|]. rewrite <-Hw.  apply busy_keys_length.
Qed.

(** A second request for a BackupConfig in flight is skipped. *)
Lemma reconciles_exclusively_witness :
  let k := mkKey "ns" "bc" in
  rtc step init (mkState [] {["ns/bc"]} [Busy k; Idle; Idle] ∅ []) ∧
  NoDup (busy_keys [Busy k; Idle; Idle]).
Proof.
  cbv zeta. set (k := mkKey "ns" "bc").
  assert (rtc step init (mkState [] {["ns/bc"]} [Busy k; Idle; Idle] ∅ [])) as Hr.
  { eapply rtc_l; [apply (step_enqueue [] ∅ _ ∅ [] k)|].
    eapply rtc_l; [apply (step_enqueue [k] ∅ _ ∅ [] k)|].
    eapply rtc_l; [apply (step_receive k [k] ∅ [] [Idle; Idle])|].
    eapply rtc_l; [apply (step_receive k [] ∅ [Received k] [Idle])|].
    eapply rtc_l; [apply (step_acquire [] ∅ {["ns/bc"]} [] k [Received k; Idle]); reflexivity|].
    eapply rtc_l; [apply (step_skip [] {["ns/bc"]} {["ns/bc"]} [Busy k] k [Idle]); reflexivity|].
    apply rtc_refl. }
  split; [exact Hr|]. exact (proj1 (reconciles_exclusively _ Hr)).
Defined.
End Workers.
