(* ===== verification/Protection.v ===== *)
(** [internal/controller/backupconfig_controller.go], [backupconfig_secrets.go],
    [backupconfig_configmaps.go], [secret_reconciler.go] and [configmap_reconciler.go]:
    the life cycle of a BackupConfig, and the finalizers that protect the Secrets and ConfigMaps
    it names for credentials, CA certificate and encryption key.  A prefix, region or endpoint
    may be taken from a Secret or ConfigMap too; those references the code does not collect.

    controller-runtime's [AddFinalizer] and [RemoveFinalizer] are a class with their
    documented laws. *)
From stdpp Require Import base list strings gmap.
From S2P Require Import Prelude GoStrings GoTime Api Effects Secrets Webhook BackupCtl.
Local Open Scope string_scope.
Local Open Scope list_scope.
Local Open Scope go_scope.

(** [controllerutil.AddFinalizer] and [RemoveFinalizer] on the list of finalizers: the new
    list, and whether it changed. *)
Class FinalizerUtil := {
  AddFinalizer : list string → string → list string * bool;
  RemoveFinalizer : list string → string → list string * bool;
  AddFinalizer_spec : ∀ l f,
    AddFinalizer l f = if decide (f ∈ l) then (l, false) else (l ++ [f], true);
  RemoveFinalizer_elem : ∀ l f x, x ∈ (RemoveFinalizer l f).1 ↔ x ∈ l ∧ x ≠ f;
  RemoveFinalizer_changed : ∀ l f, (RemoveFinalizer l f).2 = bool_decide (f ∈ l);
}.

Definition with_secret_finalizers (s : Secret) (f : list string) : Secret :=
  mkSecret (with_finalizers (sec_meta s) f) (sec_Type s) (sec_Data s).
Definition with_config_map_finalizers (c : ConfigMap) (f : list string) : ConfigMap :=
  mkConfigMap (with_finalizers (cm_meta c) f) (cm_Data c).

(** ** References *)

Definition getSecretReferencesFromBackupConfig (backupConfig : BackupConfig)
    : list NamespacedName :=
  let key name := mkKey (Namespace (bc_meta backupConfig)) name in
  let ref (r : option SecretKeySelector) :=
    match r with Some r => [key (sel_Name r)] | None => [] end in
  let spec := bc_Spec backupConfig in
  match st_S3 (Storage spec) with
  | Some s3 =>
      ref (s3_AccessKeyIDRef s3) ++ ref (s3_AccessKeySecretRef s3) ++
      match s3_CustomCA s3 with
      | Some ca => if String.eqb (ca_Kind ca) "Secret" then [key (ca_Name ca)] else []
      | None => []
      end
  | None => []
  end ++
  match st_GCS (Storage spec) with
  | Some gcs => ref (gcs_CredentialsSecretRef gcs)
  | None => []
  end ++
  (if negb (String.eqb (enc_Method (Encryption spec)) "") &&
      negb (String.eqb (enc_Method (Encryption spec)) "none")
   then [key (GetBackupConfigEncryptionSecretName backupConfig)] else []).

Definition getConfigMapReferencesFromBackupConfig (backupConfig : BackupConfig)
    : list NamespacedName :=
  match st_S3 (Storage (bc_Spec backupConfig)) with
  | Some s3 =>
      match s3_CustomCA s3 with
      | Some ca => if String.eqb (ca_Kind ca) "ConfigMap"
                   then [mkKey (Namespace (bc_meta backupConfig)) (ca_Name ca)] else []
      | None => []
      end
  | None => []
  end.

(** The two loops over the list: some BackupConfig has a reference to [m]. *)
Definition referenced (refs : BackupConfig → list NamespacedName) (m : ObjectMeta)
    (items : list BackupConfig) : bool :=
  contains_by (λ backupConfig,
    contains_by (λ ref, String.eqb (key_name ref) (Name m) && String.eqb (key_ns ref) (Namespace m))
      (refs backupConfig)) items.

Definition isSecretReferencedByAnyBackupConfig (secret : Secret) : prog (res bool) :=
  items ←? wrap_err "failed to list BackupConfigs: "
    (call (OList KBackupConfig (Some (Namespace (sec_meta secret)))));
  Ret (Ok (referenced getSecretReferencesFromBackupConfig (sec_meta secret) items)).

Definition isConfigMapReferencedByAnyBackupConfig (configmap : ConfigMap) : prog (res bool) :=
  items ←? wrap_err "failed to list BackupConfigs: "
    (call (OList KBackupConfig (Some (Namespace (cm_meta configmap)))));
  Ret (Ok (referenced getConfigMapReferencesFromBackupConfig (cm_meta configmap) items)).

(** [if err := r.Update(..); err != nil { return err }; return nil]. *)
Definition update_result {k} (prefix : string) (o : obj k) : prog ReconcileResult :=
  r ← call (OUpdate k o);
  match (r : res (obj k)) with
  | Err e => Ret (done_err (wrapf prefix e))
  | Ok _ => Ret done_ok
  end.

Module SecretReconciler.
Section reconciler.
Context `{FinalizerUtil}.

Definition Reconcile (req : NamespacedName) : prog ReconcileResult :=
  r ← call (OGet KSecret req);
  match (r : res Secret) with
  | Err e => Ret (mkResult 0 (ignore_not_found e))
  | Ok secret =>
      let m := sec_meta secret in
      if negb (is_zero_ptr (DeletionTimestamp m)) &&
         containsString (Finalizers m) BackupConfigSecretFinalizerName
      then
        isReferenced ← isSecretReferencedByAnyBackupConfig secret;
        match isReferenced with
        | Err e => Ret (done_err e)
        | Ok true => Ret (mkResult (30 * second) None)
        | Ok false =>
            let '(finalizers, changed) :=
              RemoveFinalizer (Finalizers m) BackupConfigSecretFinalizerName in
            if changed : bool
            then update_result (k := KSecret)
                   ("while removing finalizer from secret " +:+ Name m +:+ ": ")
                   (with_secret_finalizers secret finalizers)
            else Ret done_ok
        end
      else
        isReferenced ← isSecretReferencedByAnyBackupConfig secret;
        match isReferenced with
        | Err e => Ret (done_err e)
        | Ok true => Ret done_ok
        | Ok false =>
            let '(finalizers, changed) :=
              RemoveFinalizer (Finalizers m) BackupConfigSecretFinalizerName in
            if changed : bool
            then update_result (k := KSecret) "" (with_secret_finalizers secret finalizers)
            else Ret done_ok
        end
  end.
End reconciler.
End SecretReconciler.

Module ConfigMapReconciler.
Section reconciler.
Context `{FinalizerUtil}.

Definition Reconcile (req : NamespacedName) : prog ReconcileResult :=
  r ← call (OGet KConfigMap req);
  match (r : res ConfigMap) with
  | Err e => Ret (mkResult 0 (ignore_not_found e))
  | Ok configmap =>
      let m := cm_meta configmap in
      if negb (is_zero_ptr (DeletionTimestamp m)) &&
         containsString (Finalizers m) BackupConfigCMFinalizerName
      then
        isReferenced ← isConfigMapReferencedByAnyBackupConfig configmap;
        match isReferenced with
        | Err e => Ret (done_err e)
        | Ok true => Ret (mkResult (30 * second) None)
        | Ok false =>
            let '(finalizers, changed) :=
              RemoveFinalizer (Finalizers m) BackupConfigCMFinalizerName in
            if changed : bool
            then update_result (k := KConfigMap)
                   ""
                   (with_config_map_finalizers configmap finalizers)
            else Ret done_ok
        end
      else
        isReferenced ← isConfigMapReferencedByAnyBackupConfig configmap;
        match isReferenced with
        | Err e => Ret (done_err e)
        | Ok true => Ret done_ok
        | Ok false =>
            let '(finalizers, changed) :=
              RemoveFinalizer (Finalizers m) BackupConfigCMFinalizerName in
            if changed : bool
            then update_result (k := KConfigMap) "" (with_config_map_finalizers configmap finalizers)
            else Ret done_ok
        end
  end.
End reconciler.
End ConfigMapReconciler.

Module BackupConfigReconciler.
Section reconciler.
Context `{FinalizerUtil}.

Definition DeletionRequestTimeout : Z := 5 * minute.

(** Errors are only logged. *)
Definition protect_secret (secretRef : NamespacedName) : prog () :=
  r ← call (OGet KSecret secretRef);
  match (r : res Secret) with
  | Err _ => Ret tt
  | Ok secret =>
      let '(finalizers, added) :=
        AddFinalizer (Finalizers (sec_meta secret)) BackupConfigSecretFinalizerName in
      if added : bool
      then _ ← call (OUpdate KSecret (with_secret_finalizers secret finalizers)); Ret tt
      else Ret tt
  end.

Definition reconcileReferencedSecrets (backupConfig : BackupConfig) : prog () :=
  for_each protect_secret (getSecretReferencesFromBackupConfig backupConfig).

Definition protect_config_map (cmRef : NamespacedName) : prog () :=
  r ← call (OGet KConfigMap cmRef);
  match (r : res ConfigMap) with
  | Err _ => Ret tt
  | Ok configMap =>
      let '(finalizers, added) :=
        AddFinalizer (Finalizers (cm_meta configMap)) BackupConfigCMFinalizerName in
      if added : bool
      then _ ← call (OUpdate KConfigMap (with_config_map_finalizers configMap finalizers)); Ret tt
      else Ret tt
  end.

Definition reconcileReferencedConfigMaps (backupConfig : BackupConfig) : prog () :=
  for_each protect_config_map (getConfigMapReferencesFromBackupConfig backupConfig).

Definition child_of (backupConfig : BackupConfig) (b : Backup) : bool :=
  contains_by (λ owner, String.eqb (or_Kind owner) "BackupConfig" &&
                        String.eqb (or_Name owner) (Name (bc_meta backupConfig)))
    (OwnerReferences (bk_meta b)).

(** The branch for a BackupConfig that is being deleted. *)
Definition reconcile_deleting (req : NamespacedName) (backupConfig : BackupConfig)
    : prog ReconcileResult :=
  if negb (containsString (Finalizers (bc_meta backupConfig)) BackupConfigFinalizerName)
  then Ret done_ok
  else
    backupList ← call (OList KBackup (Some (key_ns req)));
    match (backupList : res (list Backup)) with
    | Err e => Ret (done_err e)
    | Ok items =>
        if contains_by (child_of backupConfig) items then Ret (mkResult (30 * second) None)
        else
          e ← EnqueueBackupConfigDeletion backupConfig;
          match e with
          | Some _ => Ret (mkResult (5 * second) None)
          | None => Ret (mkResult (DeletionRequestTimeout + 2 * minute) None)
          end
    end.

(** The finalizers the policy asks for, and whether they are new. *)
Definition policy_finalizers (backupConfig : BackupConfig) : list string * bool :=
  let finalizers := Finalizers (bc_meta backupConfig) in
  let ignore := IgnoreForBackupConfigDeletion (Retention (bc_Spec backupConfig)) in
  if negb (containsString finalizers BackupConfigFinalizerName) && negb ignore
  then (finalizers ++ [BackupConfigFinalizerName], true)
  else if ignore && containsString finalizers BackupConfigFinalizerName
  then (removeString finalizers BackupConfigFinalizerName, true)
  else (finalizers, false).

Definition Reconcile (req : NamespacedName) : prog ReconcileResult :=
  r ← call (OGet KBackupConfig req);
  match (r : res BackupConfig) with
  | Err e => Ret (mkResult 0 (ignore_not_found e))
  | Ok backupConfig =>
      if negb (is_zero_ptr (DeletionTimestamp (bc_meta backupConfig)))
      then reconcile_deleting req backupConfig
      else
        let '(finalizers, finalizersChanged) := policy_finalizers backupConfig in
        updated ← (if finalizersChanged : bool
          then wrap_err "while updating finalizers on BackupConfig: "
                 (call (OUpdate KBackupConfig (with_bc_meta backupConfig
                          (with_finalizers (bc_meta backupConfig) finalizers))))
          else Ret (Ok backupConfig));
        match (updated : res BackupConfig) with
        | Err e => Ret (done_err e)
        | Ok backupConfig =>
            _ ← reconcileReferencedSecrets backupConfig;
            _ ← reconcileReferencedConfigMaps backupConfig;
            Ret done_ok
        end
  end.
End reconciler.
End BackupConfigReconciler.

(** ** What a BackupConfig refers to, written down independently of the code *)

(** Credentials, CA certificate and encryption key: the references the code collects for the
    protection. *)
Inductive collects_secret (b : BackupConfig) : string → Prop :=
| collects_access_key_id s3 r : st_S3 (Storage (bc_Spec b)) = Some s3 →
    s3_AccessKeyIDRef s3 = Some r → collects_secret b (sel_Name r)
| collects_access_key_secret s3 r : st_S3 (Storage (bc_Spec b)) = Some s3 →
    s3_AccessKeySecretRef s3 = Some r → collects_secret b (sel_Name r)
| collects_ca_secret s3 ca : st_S3 (Storage (bc_Spec b)) = Some s3 → s3_CustomCA s3 = Some ca →
    ca_Kind ca = "Secret" → collects_secret b (ca_Name ca)
| collects_gcs_credentials gcs r : st_GCS (Storage (bc_Spec b)) = Some gcs →
    gcs_CredentialsSecretRef gcs = Some r → collects_secret b (sel_Name r)
| collects_encryption_key : enc_Method (Encryption (bc_Spec b)) ∉ [""; "none"] →
    collects_secret b (GetBackupConfigEncryptionSecretName b).

Inductive collects_config_map (b : BackupConfig) : string → Prop :=
| collects_ca_config_map s3 ca : st_S3 (Storage (bc_Spec b)) = Some s3 →
    s3_CustomCA s3 = Some ca → ca_Kind ca = "ConfigMap" → collects_config_map b (ca_Name ca).

(** The sources of a prefix, region or endpoint, which the code does not collect. *)
Inductive takes_from (b : BackupConfig) : ValueFromSource → Prop :=
| takes_s3_prefix s3 v : st_S3 (Storage (bc_Spec b)) = Some s3 → s3_PrefixFrom s3 = Some v →
    takes_from b v
| takes_s3_region s3 v : st_S3 (Storage (bc_Spec b)) = Some s3 → s3_RegionFrom s3 = Some v →
    takes_from b v
| takes_s3_endpoint s3 v : st_S3 (Storage (bc_Spec b)) = Some s3 →
    s3_EndpointURLFrom s3 = Some v → takes_from b v
| takes_gcs_prefix gcs v : st_GCS (Storage (bc_Spec b)) = Some gcs →
    gcs_PrefixFrom gcs = Some v → takes_from b v.

Definition takes_secret (b : BackupConfig) (n : string) : Prop :=
  ∃ v r, takes_from b v ∧ SecretKeyRef v = Some r ∧ n = sel_Name r.
Definition takes_config_map (b : BackupConfig) (n : string) : Prop :=
  ∃ v r, takes_from b v ∧ ConfigMapKeyRef v = Some r ∧ n = sel_Name r.

(** All the names in the BackupConfig. *)
Definition names_secret (b : BackupConfig) (n : string) : Prop :=
  collects_secret b n ∨ takes_secret b n.
Definition names_config_map (b : BackupConfig) (n : string) : Prop :=
  collects_config_map b n ∨ takes_config_map b n.

(** Its references, complete, and the part of them that is collected. *)
Definition refers_to_secret (b : BackupConfig) (key : ObjectKey) : Prop :=
  key_ns key = Namespace (bc_meta b) ∧ names_secret b (key_name key).
Definition refers_to_config_map (b : BackupConfig) (key : ObjectKey) : Prop :=
  key_ns key = Namespace (bc_meta b) ∧ names_config_map b (key_name key).
Definition collected_secret (b : BackupConfig) (key : ObjectKey) : Prop :=
  key_ns key = Namespace (bc_meta b) ∧ collects_secret b (key_name key).
Definition collected_config_map (b : BackupConfig) (key : ObjectKey) : Prop :=
  key_ns key = Namespace (bc_meta b) ∧ collects_config_map b (key_name key).

(** No prefix, region or endpoint comes from a Secret or ConfigMap. *)
Definition without_sources (b : BackupConfig) : Prop := ∀ v, ¬ takes_from b v.

(** Without such sources all references are collected. *)
Lemma without_sources_secret b key :
  without_sources b → collected_secret b key ↔ refers_to_secret b key.
Proof.
  intros Hw. unfold collected_secret, refers_to_secret, names_secret. split; [tauto|].
  intros [? [?|(v & _ & Hv & _)]]; [done|by apply Hw in Hv].
Qed.

Lemma without_sources_config_map b key :
  without_sources b → collected_config_map b key ↔ refers_to_config_map b key.
Proof.
  intros Hw. unfold collected_config_map, refers_to_config_map, names_config_map. split; [tauto|].
  intros [? [?|(v & _ & Hv & _)]]; [done|by apply Hw in Hv].
Qed.

Lemma elem_of_match_option {A B} (o : option A) (f : A → list B) x :
  x ∈ match o with Some a => f a | None => [] end ↔ ∃ a, o = Some a ∧ x ∈ f a.
Proof. destruct o; set_solver. Qed.

Lemma elem_of_if_singleton {A} (c : bool) (x y : A) :
  x ∈ (if c then [y] else []) ↔ c = true ∧ x = y.
Proof. destruct c; set_solver. Qed.

Lemma in_namespace ns n key : key = mkKey ns n ↔ key_ns key = ns ∧ key_name key = n.
Proof. destruct key; simpl. naive_solver. Qed.

Lemma secret_references b key :
  key ∈ getSecretReferencesFromBackupConfig b ↔ collected_secret b key.
Proof.
  unfold getSecretReferencesFromBackupConfig, collected_secret. cbv zeta.
  rewrite !elem_of_app, !elem_of_match_option, elem_of_if_singleton.
  setoid_rewrite elem_of_app. setoid_rewrite elem_of_app.
  setoid_rewrite elem_of_match_option. setoid_rewrite list_elem_of_singleton.
  setoid_rewrite elem_of_if_singleton. setoid_rewrite String.eqb_eq.
  setoid_rewrite in_namespace. rewrite andb_true_iff, !negb_true_iff, !String.eqb_neq. split.
  - intros [(s3 & Hs & [(r & ? & ? & ->)|[(r & ? & ? & ->)|(ca & ? & ? & ? & ->)]])|
      [(gcs & ? & r & ? & ? & ->)|[[? ?] [? ->]]]]; (split; [done|]); econstructor; eauto; set_solver.
  - intros [? Hu]. inversion Hu; eauto 12; [].
    right. right. set_solver.
Qed.

Lemma config_map_references b key :
  key ∈ getConfigMapReferencesFromBackupConfig b ↔ collected_config_map b key.
Proof.
  unfold getConfigMapReferencesFromBackupConfig, collected_config_map.
  rewrite elem_of_match_option. setoid_rewrite elem_of_match_option.
  setoid_rewrite elem_of_if_singleton. setoid_rewrite String.eqb_eq.
  setoid_rewrite in_namespace. split.
  - intros (s3 & ? & ca & ? & ? & ? & ->). split; [done|]. by econstructor.
  - intros [? Hu]. inversion Hu; eauto 10.
Qed.

(** No BackupConfig of the list refers to the object. *)
Definition unreferenced (refers : BackupConfig → ObjectKey → Prop) (m : ObjectMeta)
    (items : list BackupConfig) : Prop := ∀ bc, bc ∈ items → ¬ refers bc (key_of m).

Lemma referenced_false refs refers m items :
  (∀ bc key, key ∈ refs bc ↔ refers bc key) →
  referenced refs m items = false ↔ unreferenced refers m items.
Proof.
  intros Hr. rewrite <-not_true_iff_false. unfold referenced, unreferenced.
  rewrite contains_by_true. setoid_rewrite contains_by_true. setoid_rewrite andb_true_iff.
  setoid_rewrite String.eqb_eq. setoid_rewrite <-Hr. split.
  - intros Hn bc Hbc Hk. apply Hn. exists bc. split; [done|]. by exists (key_of m).
  - intros Hn (bc & Hbc & [ns n] & Hk & ? & ?). simpl in *. subst. by apply (Hn bc).
Qed.

(** The list [f] is [l] without [x]. *)
Definition without (x : string) (l f : list string) : Prop := ∀ y, y ∈ f ↔ y ∈ l ∧ y ≠ x.

(** ** When the protection of a Secret or ConfigMap ends *)

Section release.
Context `{FinalizerUtil}.

(** How a run of one of the two protection reconcilers can go: the object is read, then the
    BackupConfigs of its namespace are listed, then the finalizer goes if it is there and
    nothing refers to the object. *)
Definition release_run {k} (req : ObjectKey) (fin : string)
    (refers : BackupConfig → ObjectKey → Prop) (set : obj k → list string → obj k)
    (t : list event) : Prop :=
  (∃ e, t = [Ev (OGet k req) (Err e)]) ∨
  ∃ o, let listing a := Ev (OList KBackupConfig (Some (Namespace (obj_meta o)))) a in
    (∃ e, t = [Ev (OGet k req) (Ok o); listing (Err e)]) ∨
    ∃ items,
      (t = [Ev (OGet k req) (Ok o); listing (Ok items)] ∧
       (fin ∉ Finalizers (obj_meta o) ∨ ¬ unreferenced refers (obj_meta o) items)) ∨
      ∃ f a, t = [Ev (OGet k req) (Ok o); listing (Ok items); Ev (OUpdate k (set o f)) a] ∧
        fin ∈ Finalizers (obj_meta o) ∧ unreferenced refers (obj_meta o) items ∧
        without fin (Finalizers (obj_meta o)) f.

Lemma update_result_wp {k} prefix (o : obj k) :
  wp (update_result prefix o) (λ t r, ∃ a x, t = [Ev (OUpdate k o) a] ∧ r = Returned x).
Proof. intros [o'|e]; simpl; eauto. Qed.

Lemma RemoveFinalizer_without l x : without x l (RemoveFinalizer l x).1.
Proof. intros y. apply RemoveFinalizer_elem. Qed.

(** Both reconcilers, from their first call on; [meta] is the object's metadata field. *)
Ltac release_proof meta fin isReferenced references :=
  apply wp_call; let s := fresh "s" in intros [s|?]; [|by split; [eauto|left; eauto]];
  pose proof (RemoveFinalizer_without (Finalizers (meta s)) fin) as Hw;
  pose proof (RemoveFinalizer_changed (Finalizers (meta s)) fin) as Hc;
  cbv beta iota zeta; unfold isReferenced; destruct (_ && _);
  (intros [items|e]; cbn -[referenced RemoveFinalizer];
   [|split; [by eexists|]; right; exists s; left; by eexists];
   let Hr := fresh "Hr" in
   destruct (referenced _ _ items) eqn:Hr; cbn -[RemoveFinalizer];
   [ apply not_false_iff_true in Hr; rewrite (referenced_false _ _ _ _ references) in Hr;
     split; [by eexists|]; right; exists s; right; exists items; left; split; [done|by right]
   | apply (referenced_false _ _ _ _ references) in Hr;
     destruct (RemoveFinalizer _ _) as [f [|]]; simpl in Hw, Hc; symmetry in Hc; bool_to_prop;
     [ intros [?|?]; simpl; (split; [by eexists|]); right; exists s; right; exists items; right;
       eexists _, _; by eauto
     | simpl; split; [by eexists|]; right; exists s; right; exists items; left; by eauto ]]).

Lemma secret_release_run req :
  wp (SecretReconciler.Reconcile req) (λ t r, (∃ x, r = Returned x) ∧
    release_run (k := KSecret) req BackupConfigSecretFinalizerName
      collected_secret with_secret_finalizers t).
Proof.
  release_proof sec_meta BackupConfigSecretFinalizerName isSecretReferencedByAnyBackupConfig
    secret_references.
Qed.

Lemma config_map_release_run req :
  wp (ConfigMapReconciler.Reconcile req) (λ t r, (∃ x, r = Returned x) ∧
    release_run (k := KConfigMap) req BackupConfigCMFinalizerName
      collected_config_map with_config_map_finalizers t).
Proof.
  release_proof cm_meta BackupConfigCMFinalizerName isConfigMapReferencedByAnyBackupConfig
    config_map_references.
Qed.

Lemma unreferenced_complete (collected refers : BackupConfig → ObjectKey → Prop) m items :
  (∀ b key, b ∈ items → collected b key ↔ refers b key) →
  unreferenced collected m items ↔ unreferenced refers m items.
Proof. intros Hc. unfold unreferenced. split; intros Hu bc Hb Hk; by eapply Hu, Hc. Qed.

(** C28: protection ends with the last collected reference.  Whatever the API server answers,
    the reconcilers of Secrets and ConfigMaps return without panicking, and they take their
    finalizer off an object, changing nothing else, exactly when it carries the finalizer and
    no BackupConfig of the listing of its namespace names it for its credentials, its CA
    certificate or its encryption key; whether the object is being deleted makes no difference.
    When no BackupConfig of the listing takes its prefix, region or endpoint from a Secret or
    ConfigMap, that is when none refers to the object at all; but an object that is named only
    as such a source loses the finalizer, against the purpose of the finalizer
    ([sources_unprotected]). *)
Theorem protection_ends_unreferenced req :
  wp (SecretReconciler.Reconcile req) (λ t r, (∃ x, r = Returned x) ∧
    release_run (k := KSecret) req BackupConfigSecretFinalizerName
      collected_secret with_secret_finalizers t) ∧
  wp (ConfigMapReconciler.Reconcile req) (λ t r, (∃ x, r = Returned x) ∧
    release_run (k := KConfigMap) req BackupConfigCMFinalizerName
      collected_config_map with_config_map_finalizers t) ∧
  ∀ m items, (∀ b, b ∈ items → without_sources b) →
    (unreferenced collected_secret m items ↔ unreferenced refers_to_secret m items) ∧
    (unreferenced collected_config_map m items ↔ unreferenced refers_to_config_map m items).
Proof.
  split; [apply secret_release_run|]. split; [apply config_map_release_run|].
  intros m items Hw. split; apply unreferenced_complete; intros b key Hb.
  - by apply without_sources_secret, Hw.
  - by apply without_sources_config_map, Hw.
Qed.

(** ** Protection of what a BackupConfig refers to *)

(** Reconciling one referenced Secret leaves it protected, or could not read it. *)
Definition protected {k} (fin : string) (set : obj k → list string → obj k) (ref : ObjectKey)
    (t : list event) : Prop :=
  ∃ a, Ev (OGet k ref) a ∈ t ∧ ∀ o, a = Ok o →
    fin ∈ Finalizers (obj_meta o) ∨
    ∃ x, Ev (OUpdate k (set o (Finalizers (obj_meta o) ++ [fin]))) x ∈ t.

Lemma protected_mono {k} fin set ref (t t' : list event) :
  t ⊆ t' → @protected k fin set ref t → protected fin set ref t'.
Proof.
  intros Ht (a & Ha & Ho). exists a. split; [by apply Ht|]. intros o [?|(x & Hx)]%Ho; [by left|].
  right. exists x. by apply Ht.
Qed.

Ltac protect_proof fin :=
  intros [o|?]; simpl;
  [ rewrite AddFinalizer_spec; case_decide; simpl;
    [ split; [done|]; eexists; split; [by left|]; intros ? [= ->]; by left
    | let a := fresh "a" in intros a; split; [done|]; eexists; split; [by left|];
      intros ? [= ->]; right; exists a; right; by left ]
  | split; [done|]; eexists; split; [by left|]; by intros ].

Lemma protect_secret_wp ref :
  wp (BackupConfigReconciler.protect_secret ref) (λ t r, r = Returned tt ∧
    protected (k := KSecret) BackupConfigSecretFinalizerName with_secret_finalizers ref t).
Proof. protect_proof BackupConfigSecretFinalizerName. Qed.

Lemma protect_config_map_wp ref :
  wp (BackupConfigReconciler.protect_config_map ref) (λ t r, r = Returned tt ∧
    protected (k := KConfigMap) BackupConfigCMFinalizerName with_config_map_finalizers ref t).
Proof. protect_proof BackupConfigCMFinalizerName. Qed.

(** Every element of the list is treated by a loop that cannot fail. *)
Lemma for_each_wp {A} (f : A → prog ()) (P : A → list event → Prop) l :
  (∀ x t t', t ⊆ t' → P x t → P x t') →
  (∀ x, wp (f x) (λ t r, r = Returned tt ∧ P x t)) →
  wp (for_each f l) (λ t r, r = Returned tt ∧ ∀ x, x ∈ l → P x t).
Proof.
  intros Hmono Hf. induction l as [|x l IH]; simpl.
  { split; [done|]. by intros ? ?%elem_of_nil. }
  apply wp_bind. eapply wp_mono; [|apply Hf]. intros t r [-> Hx].
  eapply wp_mono; [|exact IH]. intros t' r [-> Hl]. split; [done|].
  intros y [->|Hy]%elem_of_cons; (eapply Hmono; [|by eauto]); set_solver.
Qed.
End release.

(** ** The life of a BackupConfig *)

Section life.
Context `{FinalizerUtil}.
Import BackupConfigReconciler.

Definition deleting (b : BackupConfig) : Prop :=
  is_zero_ptr (DeletionTimestamp (bc_meta b)) = false.

#[local] Abbreviation fins b := (Finalizers (bc_meta b)).
#[local] Abbreviation ignored b := (IgnoreForBackupConfigDeletion (Retention (bc_Spec b))).

(** The calls after the read of a deleted BackupConfig that has its finalizer. *)
Definition cleanup_run (req : ObjectKey) (b : BackupConfig) (t : list event) : Prop :=
  let listing a := Ev (OList KBackup (Some (key_ns req))) a in
  (∃ e, t = [listing (Err e)]) ∨
  ∃ items,
    (t = [listing (Ok items)] ∧ ∃ x, x ∈ items ∧ owned_by b x) ∨
    ∃ a, t = [listing (Ok items);
              Ev (OEnqueue (Namespace (bc_meta b) +:+ "/" +:+ Name (bc_meta b))
                    (mkRequest ResourceTypeBackupConfig (key_of (bc_meta b)))) a] ∧
      ∀ x, x ∈ items → ¬ owned_by b x.

(** Each collected reference is protected by the run or could not be read, no other Secret or
    ConfigMap is so much as read; and if the BackupConfig has no sources, that is each reference
    it has. *)
Definition protects (b : BackupConfig) (t : list event) : Prop :=
  let secret ref := protected (k := KSecret) BackupConfigSecretFinalizerName
                      with_secret_finalizers ref t in
  let config_map ref := protected (k := KConfigMap) BackupConfigCMFinalizerName
                          with_config_map_finalizers ref t in
  (∀ ref, collected_secret b ref → secret ref) ∧
  (∀ ref, collected_config_map b ref → config_map ref) ∧
  (∀ ref a, Ev (OGet KSecret ref) a ∈ t → collected_secret b ref) ∧
  (∀ ref a, Ev (OGet KConfigMap ref) a ∈ t → collected_config_map b ref) ∧
  (without_sources b →
     (∀ ref, refers_to_secret b ref → secret ref) ∧
     (∀ ref, refers_to_config_map b ref → config_map ref)).

(** The calls after the read of a BackupConfig that is not being deleted: its own finalizer
    is brought in line with the policy, unless it is already, and then the objects the
    stored BackupConfig refers to are protected. *)
Definition live_run (b : BackupConfig) (t : list event) (r : outcome ReconcileResult) : Prop :=
  let agrees f := BackupConfigFinalizerName ∈ f ↔ ignored b = false in
  (agrees (fins b) ∧ r = Returned done_ok ∧ protects b t) ∨
  (¬ agrees (fins b) ∧ ∃ f a t',
     t = Ev (OUpdate KBackupConfig (with_bc_meta b (with_finalizers (bc_meta b) f))) a :: t' ∧
     agrees f ∧ (∀ x, x ≠ BackupConfigFinalizerName → x ∈ f ↔ x ∈ fins b) ∧
     match a with
     | Ok stored => r = Returned done_ok ∧ protects stored t'
     | Err _ => (∃ e, r = Returned (done_err e)) ∧ t' = []
     end).

Lemma reconcile_deleting_wp req b :
  wp (reconcile_deleting req b) (λ t r, (∃ x, r = Returned x) ∧
    (BackupConfigFinalizerName ∉ fins b → t = []) ∧
    (BackupConfigFinalizerName ∈ fins b → cleanup_run req b t)).
Proof.
  unfold reconcile_deleting. destruct (containsString _ _) eqn:Hf; cbn [negb].
  2: { apply not_true_iff_false in Hf. rewrite containsString_elem in Hf. simpl.
       split_and!; [by eexists|done|done]. }
  apply containsString_elem in Hf. apply wp_call. intros [items|e]; cbv beta iota zeta.
  2: { simpl. split_and!; [by eexists|done|]. intros _. left. by eexists. }
  destruct (contains_by (child_of b) items) eqn:Hc.
  - simpl. split_and!; [by eexists|done|]. intros _. right. exists items. left. split; [done|].
    apply contains_by_true in Hc as (x & ? & ?%owned_by_contains). eauto.
  - intros a. destruct a; simpl; (split_and!; [by eexists|done|]); intros _; right; exists items;
      right; eexists; (split; [done|]); intros x Hx Ho%owned_by_contains;
      apply not_true_iff_false in Hc; apply Hc, contains_by_true; exists x; by split.
Qed.

Lemma policy_finalizers_spec b :
  let '(f, changed) := policy_finalizers b in
  (BackupConfigFinalizerName ∈ f ↔ ignored b = false) ∧
  (∀ x, x ≠ BackupConfigFinalizerName → x ∈ f ↔ x ∈ fins b) ∧
  (changed = false → f = fins b) ∧
  (changed = true → ¬ (BackupConfigFinalizerName ∈ fins b ↔ ignored b = false)).
Proof.
  unfold policy_finalizers. cbv zeta. destruct (containsString _ _) eqn:Hf, (ignored b); simpl;
    rewrite <-?not_true_iff_false in Hf; rewrite containsString_elem in Hf;
    repeat setoid_rewrite elem_of_app; repeat setoid_rewrite elem_of_removeString;
    repeat setoid_rewrite list_elem_of_singleton; naive_solver.
Qed.

#[local] Abbreviation references b :=
  (_ ← reconcileReferencedSecrets b; _ ← reconcileReferencedConfigMaps b; Ret done_ok).

Lemma references_protected b :
  wp (references b) (λ t r, r = Returned done_ok ∧
    (∀ ref, collected_secret b ref →
       protected (k := KSecret) BackupConfigSecretFinalizerName with_secret_finalizers ref t) ∧
    (∀ ref, collected_config_map b ref →
       protected (k := KConfigMap) BackupConfigCMFinalizerName with_config_map_finalizers ref t)).
Proof.
  apply wp_bind. unfold reconcileReferencedSecrets. eapply wp_mono.
  2: { apply (for_each_wp _ (λ ref t, protected (k := KSecret) BackupConfigSecretFinalizerName
         with_secret_finalizers ref t)); [intros *; apply protected_mono|apply protect_secret_wp]. }
  intros t r [-> Hs]. apply wp_bind. unfold reconcileReferencedConfigMaps. eapply wp_mono.
  2: { apply (for_each_wp _ (λ ref t, protected (k := KConfigMap) BackupConfigCMFinalizerName
         with_config_map_finalizers ref t)); [intros *; apply protected_mono|
         apply protect_config_map_wp]. }
  intros t' r [-> Hc]. simpl. rewrite app_nil_r. split; [done|].
  split; intros ref Href; eapply protected_mono;
    [|by apply Hs, secret_references| |by apply Hc, config_map_references]; set_solver.
Qed.

(** Only collected references are read. *)
Definition reads_collected (b : BackupConfig) (e : event) : Prop :=
  match ev_op e with
  | OGet KSecret key => collected_secret b key
  | OGet KConfigMap key => collected_config_map b key
  | _ => True
  end.

Lemma references_read b : emits (reads_collected b) (references b).
Proof.
  apply emits_bind; [|intros _; apply emits_bind; [|intros _; apply emits_ret]];
    apply emits_for_each; intros ref Hr;
    [apply secret_references in Hr|apply config_map_references in Hr];
    (apply emits_bind; [by apply emits_call|]); intros [o|e]; try apply emits_ret;
    destruct (AddFinalizer _ _) as [f [|]]; try apply emits_ret;
    (apply emits_bind; [by apply emits_call|intros _; apply emits_ret]).
Qed.

Lemma reconcile_references_wp b :
  wp (references b) (λ t r, r = Returned done_ok ∧ protects b t).
Proof.
  apply wp_exec. intros t r He.
  destruct (proj1 (wp_exec _ _) (references_protected b) t r He) as (-> & Hs & Hc).
  pose proof (exec_emits _ _ _ _ (references_read b) He) as Hr. rewrite Forall_forall in Hr.
  split; [done|]. split_and!; [done|done|..].
  - intros ref a Hin. by apply Hr in Hin.
  - intros ref a Hin. by apply Hr in Hin.
  - intros Hw. split; intros ref Href.
    + by apply Hs, without_sources_secret.
    + by apply Hc, without_sources_config_map.
Qed.

Lemma live_wp b :
  wp (let '(finalizers, finalizersChanged) := policy_finalizers b in
      updated ← (if finalizersChanged : bool
        then wrap_err "while updating finalizers on BackupConfig: "
               (call (OUpdate KBackupConfig (with_bc_meta b
                        (with_finalizers (bc_meta b) finalizers))))
        else Ret (Ok b));
      match (updated : res BackupConfig) with
      | Err e => Ret (done_err e)
      | Ok backupConfig =>
          _ ← reconcileReferencedSecrets backupConfig;
          _ ← reconcileReferencedConfigMaps backupConfig;
          Ret done_ok
      end) (live_run b).
Proof.
  pose proof (policy_finalizers_spec b) as Hp.
  destruct (policy_finalizers b) as [f [|]]; destruct Hp as (Hf & Ho & Hsame & Hch).
  - apply wp_bind, wp_call. intros a. destruct a as [stored|e].
    + change (wp (_ ← reconcileReferencedSecrets stored;
                  _ ← reconcileReferencedConfigMaps stored; Ret done_ok)
        (λ t r, live_run b (Ev (OUpdate KBackupConfig (with_bc_meta b
           (with_finalizers (bc_meta b) f))) (Ok stored) :: t) r)).
      eapply wp_mono; [|apply reconcile_references_wp]. intros t r [-> Hpr].
      right. split; [by apply Hch|]. eexists f, (Ok stored), t. done.
    + right. split; [by apply Hch|]. eexists f, (Err e), []. split_and!; try done. by eexists.
  - change (wp (_ ← reconcileReferencedSecrets b; _ ← reconcileReferencedConfigMaps b;
                Ret done_ok) (live_run b)).
    eapply wp_mono; [|apply reconcile_references_wp]. intros t r [-> Hpr]. left. rewrite Hsame in Hf by done. done.
Qed.

(** C27: cleanup waits for the Backups, and collected references are protected.  Whatever the
    API server answers, the BackupConfig reconciler returns without panicking.  For a
    BackupConfig that is being deleted it does nothing without the cleanup finalizer; with it,
    the cleanup is enqueued exactly when the listing of the namespace's Backups holds none owned
    by the BackupConfig.  For one that is not being deleted, the cleanup finalizer is brought in
    line with the retention policy, and every Secret and ConfigMap it names for its credentials,
    its CA certificate or its encryption key gets its finalizer unless it cannot be read, and no
    other one.  That is all it refers to when it takes neither prefix, region nor endpoint from
    a Secret or ConfigMap; what it names only as such a source stays unprotected. *)
Theorem backup_config_life req :
  wp (Reconcile req) (λ t r, (∃ x, r = Returned x) ∧
    ((∃ e, t = [Ev (OGet KBackupConfig req) (Err e)]) ∨
     ∃ b t', t = Ev (OGet KBackupConfig req) (Ok b) :: t' ∧
       (deleting b → BackupConfigFinalizerName ∉ fins b → t' = []) ∧
       (deleting b → BackupConfigFinalizerName ∈ fins b → cleanup_run req b t') ∧
       (¬ deleting b → live_run b t' r))).
Proof.
  apply wp_call. intros [b|e]; cbv beta iota zeta; [|split; [|left]; by eexists].
  destruct (is_zero_ptr _) eqn:Hz; cbn [negb].
  - eapply wp_mono; [|apply live_wp]. intros t r Hl. split.
    + destruct Hl as [(_ & -> & _)|(_ & f & [a|e] & t' & _ & _ & _ & Hl)]; [by eexists|..];
        [destruct Hl as [-> _]; by eexists|destruct Hl as [[? ->] _]; by eexists].
    + right. exists b, t. unfold deleting. rewrite Hz. done.
  - eapply wp_mono; [|apply reconcile_deleting_wp]. intros t r (Hr & H1 & H2). split; [done|].
    right. exists b, t. unfold deleting. rewrite Hz. done.
Qed.
End life.

(** ** What is read for a backup, and what of it is protected *)

(** The call reads an object the BackupConfig uses or takes a value from. *)
Definition reads_named (b : BackupConfig) (e : event) : Prop :=
  match ev_op e with
  | OGet KSecret key => key_ns key = Namespace (bc_meta b) ∧
      names_secret b (key_name key)
  | OGet KConfigMap key => key_ns key = Namespace (bc_meta b) ∧
      names_config_map b (key_name key)
  | _ => False
  end.

Lemma named_secret b ref :
  (∀ r, ref = Some r → names_secret b (sel_Name r)) →
  safe (reads_named b) (extractValueFromSecret ref (Namespace (bc_meta b))).
Proof.
  intros Hr. unfold extractValueFromSecret. safe_auto. split; [done|]. by apply Hr.
Qed.

Lemma named_config_map b ref :
  (∀ r, ref = Some r → names_config_map b (sel_Name r)) →
  safe (reads_named b) (extractValueFromConfigMap ref (Namespace (bc_meta b))).
Proof.
  intros Hr. unfold extractValueFromConfigMap. safe_auto. split; [done|]. by apply Hr.
Qed.

Lemma named_resolve b d from n :
  (∀ v, from = Some v → takes_from b v) → safe (reads_named b) (resolveStringValue b d from n).
Proof.
  intros Hf. unfold resolveStringValue, extractValueFromSource.
  destruct from as [v|]; [|apply safe_ret]. specialize (Hf v eq_refl).
  destruct (negb _); [apply safe_ret|].
  destruct (SecretKeyRef v) as [r|] eqn:Hs, (ConfigMapKeyRef v) as [r'|] eqn:Hc;
    try apply safe_ret; [apply named_secret|apply named_config_map];
    intros ? [= <-]; right; exists v; eauto.
Qed.

Lemma named_ca b s3 :
  st_S3 (Storage (bc_Spec b)) = Some s3 → safe (reads_named b) (ca_cert_data b (s3_CustomCA s3)).
Proof.
  intros Hs. unfold ca_cert_data. destruct (s3_CustomCA s3) as [ca|] eqn:Hca; [|apply safe_ret].
  cbv zeta. destruct (String.eqb_spec (ca_Kind ca) "Secret").
  { apply safe_wrap, named_secret. intros ? [= <-]. left. by eapply collects_ca_secret. }
  destruct (String.eqb_spec (ca_Kind ca) "ConfigMap"); [|apply safe_ret].
  apply safe_wrap, named_config_map. intros ? [= <-]. left. by eapply collects_ca_config_map.
Qed.

Lemma named_s3 b : safe (reads_named b) (makeS3StorageConfigWithPrefilledSecrets b).
Proof.
  unfold makeS3StorageConfigWithPrefilledSecrets.
  destruct (st_S3 _) as [s3|] eqn:Hs; [|apply safe_ret].
  repeat (apply safe_try; [|intros ?]); [..|apply safe_ret].
  - apply named_secret. intros r Hr. left. by eapply collects_access_key_id.
  - apply named_secret. intros r Hr. left. by eapply collects_access_key_secret.
  - by apply named_ca.
  - apply named_resolve. intros v Hv. by eapply takes_s3_prefix.
  - apply named_resolve. intros v Hv. by eapply takes_s3_region.
  - apply named_resolve. intros v Hv. by eapply takes_s3_endpoint.
Qed.

Lemma named_gcs b : safe (reads_named b) (makeGCSStorageConfigWithPrefilledSecrets b).
Proof.
  unfold makeGCSStorageConfigWithPrefilledSecrets.
  destruct (st_GCS _) as [gcs|] eqn:Hs; [|apply safe_ret].
  repeat (apply safe_try; [|intros ?]); [..|apply safe_ret].
  - destruct (gcs_CredentialsSecretRef gcs) as [ref|] eqn:Hr; [|apply safe_ret].
    apply named_secret. intros r [= <-]. left. by eapply collects_gcs_credentials.
  - apply named_resolve. intros v Hv. by eapply takes_gcs_prefix.
Qed.

Lemma named_encryption b : safe (reads_named b) (makeEncryptionConfigWithPrefilledSecrets b).
Proof.
  unfold makeEncryptionConfigWithPrefilledSecrets. cbv zeta.
  destruct (String.eqb_spec (enc_Method (Encryption (bc_Spec b))) "libsodium") as [Hm|].
  - apply safe_try; [|intros; apply safe_ret]. apply named_secret. intros r [= <-]. left.
    apply collects_encryption_key. rewrite Hm. set_solver.
  - destruct (_ || _); apply safe_ret.
Qed.

Lemma prefetch_reads_named b : safe (reads_named b) (PrefetchSecretsData b).
Proof.
  repeat (apply safe_try; [|intros ?]); try apply safe_ret.
  - apply named_s3.
  - apply named_gcs.
  - apply named_encryption.
Qed.

(** ** A concrete instance *)

(** controller-runtime's functions. *)
#[export, refine] Instance finalizer_util : FinalizerUtil := {
  AddFinalizer l f := if containsString l f then (l, false) else (l ++ [f], true);
  RemoveFinalizer l f := (removeString l f, containsString l f);
}.
Proof.
  - intros l f. case_decide as Hd; [by apply containsString_elem in Hd as ->|].
    destruct (containsString l f) eqn:Hc; [|done]. by apply containsString_elem in Hc.
  - intros l f x. apply elem_of_removeString.
  - intros l f. simpl. apply eq_true_iff_eq. by rewrite containsString_elem, bool_decide_eq_true.
Defined.

(** A BackupConfig whose region comes from a Secret of its own. *)
Definition region_config : BackupConfig :=
  mkBackupConfig (bc_meta s3_backup_config)
    (mkBCSpec None None None None None 5 0 false None (mkRetention false false false 1 "7d")
       (mkStorage "s3" (Some (mkS3 "s3://bucket/pg" None "" (Some (mkValueFrom
          (Some (mkSelector "region" "name")) None)) "" None false "STANDARD" None
          (Some (mkSelector "keys" "id")) (Some (mkSelector "keys" "secret")))) None) ""
       (mkEncryption "" ""))
    (bc_Status s3_backup_config).

(** The Secret of the region, with the protecting finalizer. *)
Definition region_secret (finalizers : list string) : Secret :=
  mkSecret (mkMeta "region" "ns" "r" "1" 1 None None finalizers [] zero_time None) "Opaque"
    {["name" := "eu"]}.

(** Sources are not protected.  There is a BackupConfig that the webhook accepts and whose
    prefetching succeeds only with the Secret of its region, and yet the Secret reconciler,
    given the very listing that holds this BackupConfig, takes the protecting finalizer off
    that Secret. *)
Theorem sources_unprotected :
  validateBackupConfig region_config = [] ∧
  (∃ t ws, exec (PrefetchSecretsData region_config) t (Returned (Ok ws)) ∧
     Ev (OGet KSecret (mkKey "ns" "region")) (Ok (region_secret [])) ∈ t) ∧
  exec (SecretReconciler.Reconcile (mkKey "ns" "region"))
    [Ev (OGet KSecret (mkKey "ns" "region"))
        (Ok (region_secret [BackupConfigSecretFinalizerName]));
     Ev (OList KBackupConfig (Some "ns")) (Ok [region_config]);
     Ev (OUpdate KSecret (region_secret [])) (Ok (region_secret []))]
    (Returned done_ok).
Proof.
  split; [reflexivity|]. split.
  - eexists [keys_read; keys_read; Ev (OGet KSecret (mkKey "ns" "region")) (Ok (region_secret []))], _.
    split; [|set_solver].
    do 3 (eexists _, _; split; [reflexivity|]). split; reflexivity.
  - do 3 (eexists _, _; split; [reflexivity|]). split; reflexivity.
Qed.
