(* ===== verification/Roles.v ===== *)
(** [internal/controller/backupconfig_roles.go] and [internal/operator/plugin_reconciler.go]:
    the hook CloudNativePG calls before it reconciles a cluster, which makes the encryption
    key and gives the sidecar the role it reads its BackupConfigs, Secrets and ConfigMaps
    with.

    Parameters: the string sets of CloudNativePG's machinery library ([StringSets]), the
    decoders of the request, [equality.Semantic.DeepEqual] on roles (equal up to nil and empty
    maps and slices, [role_equiv]), and CloudNativePG's
    API constants. *)
From Stdlib Require Import Ascii.
From stdpp Require Import base list strings gmap.
From S2P Require Import Prelude GoStrings GoTime Api Effects Secrets Config Webhook BackupCtl.
From S2P Require Import Protection.
Local Open Scope string_scope.
Local Open Scope list_scope.
Local Open Scope go_scope.

(** [stringset.Data.ToSortedList]. *)
Class StringSets := {
  ToSortedList : gset string → list string;
  ToSortedList_elem : ∀ X x, x ∈ ToSortedList X ↔ x ∈ X;
}.

(** ** [backupconfig_roles.go] *)

Definition GetRoleNameForBackupConfig (clusterName : string) : string :=
  clusterName +:+ "-backups".

(** [.Name] of a pointer to a selector. *)
Definition selector_name (ref : option SecretKeySelector) : prog string :=
  match ref with Some r => Ret (sel_Name r) | None => Panic nil_deref end.

(** What a [ValueFromSource] adds to the two lists. *)
Definition source_names (from : option ValueFromSource) (names : list string * list string)
    : list string * list string :=
  match from with
  | None => names
  | Some v =>
      (match SecretKeyRef v with Some r => names.1 ++ [sel_Name r] | None => names.1 end,
       match ConfigMapKeyRef v with Some r => names.2 ++ [sel_Name r] | None => names.2 end)
  end.

Definition s3_names (s3 : option S3StorageConfig) : prog (list string * list string) :=
  match s3 with
  | None => Panic nil_deref
  | Some s3Config =>
      id ← selector_name (s3_AccessKeyIDRef s3Config);
      secret ← selector_name (s3_AccessKeySecretRef s3Config);
      let names := source_names (s3_EndpointURLFrom s3Config)
        (source_names (s3_RegionFrom s3Config)
           (source_names (s3_PrefixFrom s3Config) ([id; secret], []))) in
      Ret match s3_CustomCA s3Config with
          | None => names
          | Some ca => if String.eqb (ca_Kind ca) "Secret"
                       then (names.1 ++ [ca_Name ca], names.2)
                       else (names.1, names.2 ++ [ca_Name ca])
          end
  end.

Definition gcs_names (gcs : option GCSStorageConfig) (names : list string * list string)
    : prog (list string * list string) :=
  match gcs with
  | None => Panic nil_deref
  | Some gcsConfig =>
      let names := match gcs_CredentialsSecretRef gcsConfig with
                   | Some r => (names.1 ++ [sel_Name r], names.2)
                   | None => names
                   end in
      Ret (source_names (gcs_PrefixFrom gcsConfig) names)
  end.

Definition collectSecretsAndConfigMapsNamesFromBackupConfig (config : BackupConfig)
    : prog (list string * list string) :=
  let storage := Storage (bc_Spec config) in
  let method := enc_Method (Encryption (bc_Spec config)) in
  names ← (if String.eqb (st_StorageType storage) StorageTypeS3
           then s3_names (st_S3 storage) else Ret ([], []));
  names ← (if String.eqb (st_StorageType storage) StorageTypeGCS
           then gcs_names (st_GCS storage) names else Ret names);
  Ret (if negb (String.eqb method "") && negb (String.eqb method "none")
       then let encryptionSecretName := GetBackupConfigEncryptionSecretName config in
            if negb (String.eqb encryptionSecretName "")
            then (names.1 ++ [encryptionSecretName], names.2) else names
       else names).

(** The three sets the loop over the BackupConfigs fills: BackupConfigs, Secrets and
    ConfigMaps. *)
Definition name_sets : Type := gset string * gset string * gset string.
Definition collect_names (sets : name_sets) (config : BackupConfig) : prog name_sets :=
  let '(backupConfigNames, secretsNames, configMapsNames) := sets in
  names ← collectSecretsAndConfigMapsNamesFromBackupConfig config;
  Ret ({[Name (bc_meta config)]} ∪ backupConfigNames, list_to_set names.1 ∪ secretsNames,
       list_to_set names.2 ∪ configMapsNames).

Section roles.
Context `{StringSets}.
(** [cnpgv1.SchemeGroupVersion.String()] and [cnpgv1.ClusterKind]. *)
Variables SchemeGroupVersion ClusterKind : string.

Definition cluster_owner (cluster : Cluster) : OwnerReference :=
  mkOwnerRef SchemeGroupVersion ClusterKind (Name (cl_meta cluster)) (UID (cl_meta cluster))
    (Some true).

Definition role_rules (sets : name_sets) : list PolicyRule :=
  let '(backupConfigNames, secretsNames, configMapsNames) := sets in
  [mkRule ["cnpg-extensions.yandex.cloud"] ["watch"; "get"; "list"] ["backupconfigs"]
     (ToSortedList backupConfigNames);
   mkRule ["cnpg-extensions.yandex.cloud"] ["update"] ["backupconfigs/status"]
     (ToSortedList backupConfigNames);
   mkRule [""] ["watch"; "get"; "list"] ["secrets"] (ToSortedList secretsNames);
   mkRule [""] ["watch"; "get"; "list"] ["configmaps"] (ToSortedList configMapsNames)].

(** The role the Go code fills in place. *)
Definition BuildRoleForBackupConfigs (role : Role) (cluster : Cluster)
    (backupConfigs : list BackupConfig) : prog Role :=
  sets ← for_fold collect_names (∅, ∅, ∅) backupConfigs;
  Ret (mkRole (with_owners (role_meta role) [cluster_owner cluster]) (role_rules sets)).

Definition named_meta (namespace name : string) : ObjectMeta :=
  mkMeta name namespace "" "" 0 None None [] [] zero_time None.

Definition BuildRoleBindingForBackupConfig (cluster : Cluster) : RoleBinding :=
  let m := cl_meta cluster in
  mkRoleBinding
    (with_owners (named_meta (Namespace m) (GetRoleNameForBackupConfig (Name m)))
       [cluster_owner cluster])
    [mkSubject "ServiceAccount" "" (Name m) (Namespace m)]
    (mkRoleRef "rbac.authorization.k8s.io" "Role" (GetRoleNameForBackupConfig (Name m))).

(** ** [plugin_reconciler.go] *)

(** [equality.Semantic.DeepEqual(&role, oldRole)]. *)
Variable semantic_role_equal : Role → Role → bool.

(** [return r.Client.Create(..)] and the like: the error of a write. *)
Definition error_of {A} (r : res A) : option err :=
  match r with Ok _ => None | Err e => Some e end.

Definition role_key (cluster : Cluster) : ObjectKey :=
  mkKey (Namespace (cl_meta cluster)) (GetRoleNameForBackupConfig (Name (cl_meta cluster))).

Definition new_role (cluster : Cluster) : Role :=
  mkRole (named_meta (key_ns (role_key cluster)) (key_name (role_key cluster))) [].

Definition ensureRole (cluster : Cluster) (backupConfigs : list BackupConfig)
    : prog (option err) :=
  r ← call (OGet KRole (role_key cluster));
  match (r : res Role) with
  | Err e =>
      if negb (is_not_found e) then Ret (Some e)
      else
        newRole ← BuildRoleForBackupConfigs (new_role cluster) cluster backupConfigs;
        r ← call (OCreate KRole newRole); Ret (error_of r)
  | Ok oldRole =>
      role ← BuildRoleForBackupConfigs oldRole cluster backupConfigs;
      if semantic_role_equal role oldRole then Ret None
      else r ← call (OPatch KRole oldRole role); Ret (error_of r)
  end.

Definition createRoleBinding (cluster : Cluster) : prog (option err) :=
  r ← call (OCreate KRoleBinding (BuildRoleBindingForBackupConfig cluster)); Ret (error_of r).

Definition ensureRoleBinding (cluster : Cluster) : prog (option err) :=
  r ← call (OGet KRoleBinding (role_key cluster));
  match (r : res RoleBinding) with
  | Err e => if is_not_found e then createRoleBinding cluster else Ret (Some e)
  | Ok _ => Ret None
  end.

Definition generateRandomHexString (bytesNum : Z) : prog (res string) :=
  keyBytes ←? wrap_err "failed to generate random key: " (call (ORandRead bytesNum));
  Ret (Ok (hex_encode keyBytes)).

Definition encryption_secret (backupConfig : BackupConfig) (key : string) : Secret :=
  mkSecret
    (with_owners (named_meta (Namespace (bc_meta backupConfig))
                    (GetBackupConfigEncryptionSecretName backupConfig))
       [mkOwnerRef group_version BackupConfigKind (Name (bc_meta backupConfig))
          (UID (bc_meta backupConfig)) (Some true)])
    "Opaque" {["libsodiumKey" := key]}.

Definition ensureEncryptionSecret (backupConfig : BackupConfig) : prog (option err) :=
  let encryption := Encryption (bc_Spec backupConfig) in
  if negb (String.eqb (enc_Method encryption) "libsodium") then Ret None
  else if negb (String.eqb (enc_ExistingEncryptionSecretName encryption) "") then Ret None
  else
    secret ← call (OGet KSecret (mkKey (Namespace (bc_meta backupConfig))
                     (GetBackupConfigEncryptionSecretName backupConfig)));
    match (secret : res Secret) with
    | Ok _ => Ret None
    | Err e =>
        if negb (is_not_found e)
        then Ret (Some (wrapf "failed to check if encryption key secret exists: " e))
        else
          key ← generateRandomHexString 32;
          match key with
          | Err e => Ret (Some (wrapf "failed to generate random data for secret: " e))
          | Ok key =>
              r ← call (OCreate KSecret (encryption_secret backupConfig key));
              Ret (wrap_opt "failed to create encryption key secret: "
                     (error_of (r : res Secret)))
          end
    end.

(** The loop over the BackupConfigs, left at the first error. *)
Fixpoint ensure_encryption_secrets (backupConfigs : list BackupConfig) : prog (option err) :=
  match backupConfigs with
  | [] => Ret None
  | backupConfig :: rest =>
      e ← ensureEncryptionSecret backupConfig;
      match e with Some e => Ret (Some e) | None => ensure_encryption_secrets rest end
  end.

Inductive Behavior := BEHAVIOR_CONTINUE | BEHAVIOR_REQUEUE.

(** [GetCapabilities] of the hooks. *)
Inductive reconciled_kind := KIND_CLUSTER | KIND_BACKUP.
Definition reconciler_GetCapabilities : list reconciled_kind := [KIND_CLUSTER; KIND_BACKUP].

Record HooksRequest := mkHooksRequest {
  ResourceDefinition : string;
  ClusterDefinition : string;
}.

(** [object.GetKind], and [json.Unmarshal] into an empty Cluster. *)
Variable GetKind : string → res string.
Variable unmarshal_cluster : string → Cluster * option err.

(** [internal/common/cnpg_cluster.go] *)
Definition CnpgClusterFromJSON (clusterJSON : string) : Cluster * option err :=
  let '(result, e) := unmarshal_cluster clusterJSON in
  (result, wrap_opt "error unmarshalling object JSON: " e).

(** The result, nil when the kind cannot be read, and the error. *)
Definition HooksResult : Type := option Behavior * option err.

Definition Pre (request : HooksRequest) : prog HooksResult :=
  match GetKind (ResourceDefinition request) with
  | Err e => Ret (None, Some e)
  | Ok kind =>
      if negb (String.eqb kind "Cluster") then Ret (Some BEHAVIOR_CONTINUE, None)
      else match CnpgClusterFromJSON (ClusterDefinition request) with
      | (_, Some _) => Ret (Some BEHAVIOR_REQUEUE, None)
      | (cluster, None) =>
          archive ← GetBackupConfigForCluster cluster;
          match archive with
          | Err _ => Ret (Some BEHAVIOR_REQUEUE, None)
          | Ok archiveBackupConfig =>
              recovery ← GetBackupConfigForClusterRecovery cluster;
              match recovery with
              | Err _ => Ret (Some BEHAVIOR_REQUEUE, None)
              | Ok recoveryBackupConfig =>
                  let backupConfigs :=
                    option_list archiveBackupConfig ++ option_list recoveryBackupConfig in
                  e ← ensure_encryption_secrets backupConfigs;
                  match e with
                  | Some _ => Ret (Some BEHAVIOR_REQUEUE, None)
                  | None =>
                      e ← ensureRole cluster backupConfigs;
                      match e with
                      | Some e => Ret (Some BEHAVIOR_REQUEUE, Some e)
                      | None =>
                          e ← ensureRoleBinding cluster;
                          match e with
                          | Some e => Ret (Some BEHAVIOR_REQUEUE, Some e)
                          | None => Ret (Some BEHAVIOR_CONTINUE, None)
                          end
                      end
                  end
              end
          end
      end
  end.

Definition Post (request : HooksRequest) : HooksResult := (Some BEHAVIOR_CONTINUE, None).
End roles.

(** ** The names in a role *)

Definition from_secret (from : option ValueFromSource) (n : string) : Prop :=
  ∃ v r, from = Some v ∧ SecretKeyRef v = Some r ∧ n = sel_Name r.
Definition from_config_map (from : option ValueFromSource) (n : string) : Prop :=
  ∃ v r, from = Some v ∧ ConfigMapKeyRef v = Some r ∧ n = sel_Name r.

Lemma source_names_secret from names n :
  n ∈ (source_names from names).1 ↔ n ∈ names.1 ∨ from_secret from n.
Proof.
  unfold source_names, from_secret. destruct from as [v|]; [|naive_solver]. simpl.
  destruct (SecretKeyRef v) as [r|] eqn:Hr; rewrite ?elem_of_app, ?list_elem_of_singleton; naive_solver.
Qed.

Lemma source_names_config_map from names n :
  n ∈ (source_names from names).2 ↔ n ∈ names.2 ∨ from_config_map from n.
Proof.
  unfold source_names, from_config_map. destruct from as [v|]; [|naive_solver]. simpl.
  destruct (ConfigMapKeyRef v) as [r|] eqn:Hr; rewrite ?elem_of_app, ?list_elem_of_singleton; naive_solver.
Qed.

#[local] Arguments source_names : simpl never.

(** The names of the objects a section of the storage, or the encryption, refers to. *)
Definition s3_secret_name (s3 : S3StorageConfig) (n : string) : Prop :=
  (∃ r, s3_AccessKeyIDRef s3 = Some r ∧ n = sel_Name r) ∨
  (∃ r, s3_AccessKeySecretRef s3 = Some r ∧ n = sel_Name r) ∨
  (∃ ca, s3_CustomCA s3 = Some ca ∧ ca_Kind ca = "Secret" ∧ n = ca_Name ca) ∨
  from_secret (s3_PrefixFrom s3) n ∨ from_secret (s3_RegionFrom s3) n ∨
  from_secret (s3_EndpointURLFrom s3) n.
Definition s3_config_map_name (s3 : S3StorageConfig) (n : string) : Prop :=
  (∃ ca, s3_CustomCA s3 = Some ca ∧ ca_Kind ca = "ConfigMap" ∧ n = ca_Name ca) ∨
  from_config_map (s3_PrefixFrom s3) n ∨ from_config_map (s3_RegionFrom s3) n ∨
  from_config_map (s3_EndpointURLFrom s3) n.
Definition gcs_secret_name (gcs : GCSStorageConfig) (n : string) : Prop :=
  (∃ r, gcs_CredentialsSecretRef gcs = Some r ∧ n = sel_Name r) ∨
  from_secret (gcs_PrefixFrom gcs) n.
Definition encryption_name (b : BackupConfig) (n : string) : Prop :=
  (enc_Method (Encryption (bc_Spec b)) ∉ [""; "none"]) ∧ n = GetBackupConfigEncryptionSecretName b.

Lemma secrets_by_section b n :
  names_secret b n ↔
  (∃ s3, st_S3 (Storage (bc_Spec b)) = Some s3 ∧ s3_secret_name s3 n) ∨
  (∃ gcs, st_GCS (Storage (bc_Spec b)) = Some gcs ∧ gcs_secret_name gcs n) ∨
  encryption_name b n.
Proof.
  unfold s3_secret_name, gcs_secret_name, encryption_name, from_secret, takes_secret. split.
  - intros [[]|(v & r & [] & ? & ->)]; naive_solver.
  - intros [(s3 & Hs & Hn)|[(gcs & Hs & Hn)|[? ->]]];
      [destruct_or! Hn|destruct_or! Hn|left; by constructor];
      repeat match goal with H : ex _ |- _ => destruct H | H : _ ∧ _ |- _ => destruct H end;
      subst; first [left; by econstructor|right; eexists _, _; split; [by econstructor|done]].
Qed.

Lemma config_maps_by_section b n :
  names_config_map b n ↔
  (∃ s3, st_S3 (Storage (bc_Spec b)) = Some s3 ∧ s3_config_map_name s3 n) ∨
  (∃ gcs, st_GCS (Storage (bc_Spec b)) = Some gcs ∧ from_config_map (gcs_PrefixFrom gcs) n).
Proof.
  unfold s3_config_map_name, from_config_map, takes_config_map. split.
  - intros [[]|(v & r & [] & ? & ->)]; naive_solver.
  - intros [(s3 & Hs & Hn)|(gcs & Hs & Hn)]; [destruct_or! Hn|];
      repeat match goal with H : ex _ |- _ => destruct H | H : _ ∧ _ |- _ => destruct H end;
      subst; first [left; by econstructor|right; eexists _, _; split; [by econstructor|done]].
Qed.

(** Only the section of the storage type is filled in. *)
Definition own_section (b : BackupConfig) : Prop :=
  (is_Some (st_S3 (Storage (bc_Spec b))) → st_StorageType (Storage (bc_Spec b)) = "s3") ∧
  (is_Some (st_GCS (Storage (bc_Spec b))) → st_StorageType (Storage (bc_Spec b)) = "gcs").

(** What the webhook and the CRD's schema let through. *)
Definition admitted (b : BackupConfig) : Prop := validateBackupConfig b = [] ∧ schema_ok b.

Lemma exists_some {A} (x : A) (P : A → Prop) : (∃ y, Some x = Some y ∧ P y) ↔ P x.
Proof. split; [by intros (? & [= <-] & ?)|eauto]. Qed.
Lemma exists_none {A} (P : A → Prop) : (∃ y, None = Some y ∧ P y) ↔ False.
Proof. naive_solver. Qed.

(** Membership in the lists of names, as disjunctions. *)
Ltac names_solver :=
  split; intros ?n; rewrite ?elem_of_app, ?source_names_secret, ?source_names_config_map; simpl;
  rewrite ?elem_of_cons, ?elem_of_nil, ?exists_some, ?exists_none; intuition congruence.

Lemma s3_names_spec b s3 :
  schema_ok b → st_S3 (Storage (bc_Spec b)) = Some s3 →
  ∃ names, s3_names (Some s3) = Ret names ∧ (∀ n, n ∈ names.1 ↔ s3_secret_name s3 n) ∧
    (∀ n, n ∈ names.2 ↔ s3_config_map_name s3 n).
Proof.
  intros [Hs3 _] Hs. rewrite Hs in Hs3. destruct Hs3 as ([id Hid] & [sec Hsec] & Hca).
  unfold s3_names, s3_secret_name, s3_config_map_name. rewrite Hid, Hsec. simpl.
  eexists. split; [done|]. destruct (s3_CustomCA s3) as [ca|].
  - destruct Hca as [Hk|Hk]; rewrite Hk; simpl; names_solver.
  - names_solver.
Qed.

Lemma gcs_names_spec gcs :
  ∃ names, gcs_names (Some gcs) ([], []) = Ret names ∧
    (∀ n, n ∈ names.1 ↔ gcs_secret_name gcs n) ∧
    (∀ n, n ∈ names.2 ↔ from_config_map (gcs_PrefixFrom gcs) n).
Proof.
  unfold gcs_names, gcs_secret_name. eexists. split; [done|].
  destruct (gcs_CredentialsSecretRef gcs); names_solver.
Qed.

Lemma encryption_secret_name_nonempty b : GetBackupConfigEncryptionSecretName b ≠ "".
Proof.
  unfold GetBackupConfigEncryptionSecretName.
  destruct (String.eqb_spec (enc_ExistingEncryptionSecretName (Encryption (bc_Spec b))) "");
    [|done]. by destruct (Name (bc_meta b)).
Qed.

(** The names of an admitted BackupConfig: nothing it does not refer to, and everything when
    only the section of its storage type is there. *)
Definition names_sound (b : BackupConfig) (names : list string * list string) : Prop :=
  (∀ n, n ∈ names.1 → names_secret b n) ∧
  (∀ n, n ∈ names.2 → names_config_map b n).
Definition names_complete (b : BackupConfig) (names : list string * list string) : Prop :=
  (∀ n, names_secret b n → n ∈ names.1) ∧
  (∀ n, names_config_map b n → n ∈ names.2).

Lemma add_encryption_name b (names : list string * list string) n :
  let method := enc_Method (Encryption (bc_Spec b)) in
  let secretName := GetBackupConfigEncryptionSecretName b in
  n ∈ (if negb (String.eqb method "") && negb (String.eqb method "none")
       then if negb (String.eqb secretName "") then (names.1 ++ [secretName], names.2) else names
       else names).1 ↔ n ∈ names.1 ∨ encryption_name b n.
Proof.
  cbv zeta. unfold encryption_name. pose proof (encryption_secret_name_nonempty b) as Hne.
  apply String.eqb_neq in Hne. rewrite Hne. simpl.
  destruct (String.eqb_spec (enc_Method (Encryption (bc_Spec b))) "") as [->|];
    [simpl; set_solver|].
  destruct (String.eqb_spec (enc_Method (Encryption (bc_Spec b))) "none") as [->|];
    simpl; set_solver.
Qed.

Lemma add_encryption_config_maps b (names : list string * list string) :
  let method := enc_Method (Encryption (bc_Spec b)) in
  let secretName := GetBackupConfigEncryptionSecretName b in
  (if negb (String.eqb method "") && negb (String.eqb method "none")
   then if negb (String.eqb secretName "") then (names.1 ++ [secretName], names.2) else names
   else names).2 = names.2.
Proof. cbv zeta. by repeat case_match. Qed.

Lemma collect_spec b :
  admitted b →
  ∃ names, collectSecretsAndConfigMapsNamesFromBackupConfig b = Ret names ∧
    names_sound b names ∧ (own_section b → names_complete b names).
Proof.
  intros [(Hst & _ & _)%accepted_parts Hok]. unfold names_sound, names_complete, own_section.
  setoid_rewrite secrets_by_section. setoid_rewrite config_maps_by_section.
  unfold collectSecretsAndConfigMapsNamesFromBackupConfig. cbv zeta.
  unfold validateStorage in Hst. cbv zeta in Hst.
  destruct (String.eqb_spec (st_StorageType (Storage (bc_Spec b))) StorageTypeS3) as [Ht|Ht].
  - rewrite Ht in Hst |- *. simpl in Hst |- *.
    destruct (st_S3 (Storage (bc_Spec b))) as [s3|] eqn:Hs; [|done].
    destruct (s3_names_spec b s3 Hok Hs) as (names & -> & Hsec & Hcm). simpl.
    eexists. split; [done|]. setoid_rewrite add_encryption_name.
    rewrite add_encryption_config_maps. setoid_rewrite Hsec. setoid_rewrite Hcm.
    destruct (st_GCS _); naive_solver.
  - destruct (String.eqb_spec (st_StorageType (Storage (bc_Spec b))) StorageTypeGCS) as [Hg|Hg].
    + simpl in Hst |- *.
      destruct (st_GCS (Storage (bc_Spec b))) as [gcs|] eqn:Hs; [|done].
      destruct (gcs_names_spec gcs) as (names & -> & Hsec & Hcm). simpl.
      eexists. split; [done|]. setoid_rewrite add_encryption_name.
      rewrite add_encryption_config_maps. setoid_rewrite Hsec. setoid_rewrite Hcm.
      destruct (st_S3 _); naive_solver.
    + eexists. split; [reflexivity|].
      setoid_rewrite (add_encryption_name b ([], [])).
      rewrite (add_encryption_config_maps b ([], [])). simpl.
      destruct (st_S3 _), (st_GCS _); repeat setoid_rewrite elem_of_nil; naive_solver.
Qed.

(** ** The role *)

Lemma collect_all configs sets :
  Forall admitted configs →
  ∃ sets', for_fold collect_names sets configs = Ret sets' ∧
    (∀ n, n ∈ sets'.1.1 ↔ n ∈ sets.1.1 ∨ ∃ b, b ∈ configs ∧ n = Name (bc_meta b)) ∧
    (∀ n, n ∈ sets'.1.2 ↔ n ∈ sets.1.2 ∨ ∃ b names, b ∈ configs ∧
       collectSecretsAndConfigMapsNamesFromBackupConfig b = Ret names ∧ n ∈ names.1) ∧
    (∀ n, n ∈ sets'.2 ↔ n ∈ sets.2 ∨ ∃ b names, b ∈ configs ∧
       collectSecretsAndConfigMapsNamesFromBackupConfig b = Ret names ∧ n ∈ names.2).
Proof.
  intros Ha. revert sets. induction Ha as [|b configs Hb Ha IH]; intros [[bs ss] cs].
  { eexists. split; [done|]. split_and!; intros n; simpl; set_solver. }
  destruct (collect_spec b Hb) as (names & Hn & _). simpl. rewrite Hn. simpl.
  destruct (IH ({[Name (bc_meta b)]} ∪ bs, list_to_set names.1 ∪ ss, list_to_set names.2 ∪ cs))
    as (sets' & -> & H1 & H2 & H3).
  exists sets'. split; [done|]. simpl in *. split_and!; intros n.
  - rewrite H1. set_solver.
  - rewrite H2, elem_of_union, elem_of_list_to_set. split.
    + intros [[?|?]|(b' & ns & ? & ? & ?)]; [right|by left|right]; set_solver.
    + intros [?|(b' & ns & [->|?]%elem_of_cons & Hc & ?)]; [by auto| |right; eauto 10].
      rewrite Hn in Hc. injection Hc as ->. auto.
  - rewrite H3, elem_of_union, elem_of_list_to_set. split.
    + intros [[?|?]|(b' & ns & ? & ? & ?)]; [right|by left|right]; set_solver.
    + intros [?|(b' & ns & [->|?]%elem_of_cons & Hc & ?)]; [by auto| |right; eauto 10].
      rewrite Hn in Hc. injection Hc as ->. auto.
Qed.

(** The role allows the verb on the object of this name.  In RBAC a rule without resource names
    is for all of them. *)
Definition grants (role : Role) (group resource verb name : string) : Prop :=
  ∃ rule, rule ∈ Rules role ∧ group ∈ APIGroups rule ∧ verb ∈ Verbs rule ∧
    resource ∈ RuleResources rule ∧ (ResourceNames rule = [] ∨ name ∈ ResourceNames rule).

(** The verbs of a caching client. *)
Definition reading_verbs : list string := ["watch"; "get"; "list"].
Definition grants_reading (role : Role) (group resource name : string) : Prop :=
  ∀ verb, verb ∈ reading_verbs → grants role group resource verb name.

(** The call is a read of a Secret or ConfigMap that the role allows, once or for good. *)
Definition allowed_read (role : Role) (e : event) : Prop :=
  match ev_op e with
  | OGet KSecret key =>
      key_ns key = Namespace (role_meta role) ∧
      grants_reading role "" "secrets" (key_name key)
  | OGet KConfigMap key =>
      key_ns key = Namespace (role_meta role) ∧
      grants_reading role "" "configmaps" (key_name key)
  | _ => False
  end.

Section grants.
Context `{StringSets} (SchemeGroupVersion ClusterKind : string).

Lemma ToSortedList_nil X : ToSortedList X = [] ↔ X = ∅.
Proof.
  split; intros Hx.
  - apply set_eq. intros x. rewrite <-ToSortedList_elem, Hx. set_solver.
  - apply elem_of_nil_inv. intros x. rewrite ToSortedList_elem. set_solver.
Qed.

Lemma grants_rules m (sets : name_sets) resource verb n :
  verb ∈ reading_verbs →
  grants (mkRole m (role_rules sets)) "" resource verb n ↔
  (resource = "secrets" ∧ (sets.1.2 = ∅ ∨ n ∈ sets.1.2)) ∨
  (resource = "configmaps" ∧ (sets.2 = ∅ ∨ n ∈ sets.2)).
Proof.
  intros Hv. destruct sets as [[bs ss] cs]. unfold grants. simpl. split.
  - intros (rule & Hr & Hg & _ & Hres & Hn).
    rewrite !elem_of_cons, elem_of_nil in Hr.
    destruct Hr as [->|[->|[->|[->|[]]]]]; simpl in *; try set_solver;
      rewrite ToSortedList_nil, ToSortedList_elem in Hn; set_solver.
  - intros [[-> Hn]|[-> Hn]]; rewrite <-ToSortedList_nil, <-ToSortedList_elem in Hn.
    + eexists. split; [do 2 right; by left|]. simpl. set_solver.
    + eexists. split; [do 3 right; by left|]. simpl. set_solver.
Qed.

(** What the role of a list of BackupConfigs is good for: it names only objects one of them
    refers to, unless there are none to name, and lets the sidecar read whatever prefetching one
    of them reads. *)
Definition role_fits (configs : list BackupConfig) (role : Role) : Prop :=
  (∀ n, grants role "" "secrets" "get" n →
     (∃ b, b ∈ configs ∧ names_secret b n) ∨
     (∀ b n', b ∈ configs → own_section b → ¬ names_secret b n')) ∧
  (∀ n, grants role "" "configmaps" "get" n →
     (∃ b, b ∈ configs ∧ names_config_map b n) ∨
     (∀ b n', b ∈ configs → own_section b → ¬ names_config_map b n')) ∧
  (∀ b, b ∈ configs → own_section b → Namespace (bc_meta b) = Namespace (role_meta role) →
     safe (allowed_read role) (PrefetchSecretsData b)) ∧
  (∀ b, b ∈ configs → grants_reading role Group "backupconfigs" (Name (bc_meta b)) ∧
     grants role Group "backupconfigs/status" "update" (Name (bc_meta b))).

Lemma get_reading : "get" ∈ reading_verbs.
Proof. right. by left. Qed.

(** The rules of a list of admitted BackupConfigs. *)
Lemma role_rules_fit configs (sets : name_sets) m :
  Forall admitted configs →
  (∀ n, n ∈ sets.1.1 ↔ ∃ b, b ∈ configs ∧ n = Name (bc_meta b)) →
  (∀ n, n ∈ sets.1.2 ↔ ∃ b names, b ∈ configs ∧
     collectSecretsAndConfigMapsNamesFromBackupConfig b = Ret names ∧ n ∈ names.1) →
  (∀ n, n ∈ sets.2 ↔ ∃ b names, b ∈ configs ∧
     collectSecretsAndConfigMapsNamesFromBackupConfig b = Ret names ∧ n ∈ names.2) →
  role_fits configs (mkRole m (role_rules sets)).
Proof.
  intros Ha Hbc Hs Hc. rewrite Forall_forall in Ha.
  assert (∀ b names, b ∈ configs →
    collectSecretsAndConfigMapsNamesFromBackupConfig b = Ret names →
    names_sound b names ∧ (own_section b → names_complete b names)) as Hspec.
  { intros b names Hb Hn. destruct (collect_spec b (Ha b Hb)) as (names' & Hn' & ?).
    rewrite Hn in Hn'. by injection Hn' as ->. }
  assert (∀ b, b ∈ configs → own_section b → ∃ names, names_complete b names ∧
    collectSecretsAndConfigMapsNamesFromBackupConfig b = Ret names) as Hall.
  { intros b Hb Hown. destruct (collect_spec b (Ha b Hb)) as (names & Hcol & _ & Hcomp). eauto. }
  split_and!.
  - intros n [[_ [He|Hn]]|[? _]]%grants_rules; [right|left|done|apply get_reading].
    + intros b n' Hb Hown Hn. destruct (Hall b Hb Hown) as (names & [Hcomp _] & Hcol).
      apply Hcomp in Hn. assert (n' ∈ sets.1.2) as Hin by (apply Hs; eauto). set_solver.
    + apply Hs in Hn as (b & names & Hb & Hcol & Hn). exists b. split; [done|].
      by apply (Hspec b names Hb Hcol).
  - intros n [[? _]|[_ [He|Hn]]]%grants_rules; [done|right|left|apply get_reading].
    + intros b n' Hb Hown Hn. destruct (Hall b Hb Hown) as (names & [_ Hcomp] & Hcol).
      apply Hcomp in Hn. assert (n' ∈ sets.2) as Hin by (apply Hc; eauto). set_solver.
    + apply Hc in Hn as (b & names & Hb & Hcol & Hn). exists b. split; [done|].
      by apply (Hspec b names Hb Hcol).
  - intros b Hb Hown Hns. eapply safe_mono; [|apply prefetch_reads_named].
    destruct (Hall b Hb Hown) as (names & [Hsec Hcm] & Hcol).
    intros [[] a]; try done. unfold reads_named, allowed_read; simpl.
    destruct k; try done; rewrite Hns; intros [-> Hn]; (split; [done|]); intros verb Hv;
      apply grants_rules; try done; [left|right]; (split; [done|]); right;
      [apply Hs|apply Hc]; eauto 10.
  - intros b Hin. destruct sets as [[bs ss] cs]. simpl in *.
    assert (Name (bc_meta b) ∈ ToSortedList bs) as Hn by (apply ToSortedList_elem, Hbc; eauto).
    split; [intros verb Hv|]; eexists; [split; [by left|]|split; [right; by left|]]; simpl; set_solver.
Qed.

Lemma build_role role cluster configs :
  Forall admitted configs →
  ∃ role', BuildRoleForBackupConfigs SchemeGroupVersion ClusterKind role cluster configs
             = Ret role' ∧
    key_of (role_meta role') = key_of (role_meta role) ∧ role_fits configs role'.
Proof.
  intros Ha. unfold BuildRoleForBackupConfigs.
  destruct (collect_all configs (∅, ∅, ∅) Ha) as (sets & -> & Hbc & Hs & Hc). simpl.
  eexists. split; [done|]. split; [done|].
  apply role_rules_fit; [done|intros n; rewrite ?Hbc, ?Hs, ?Hc; simpl; set_solver..].
Qed.

(** C30: the role is enough, and no more when there is anything to name.  For admitted
    BackupConfigs building the role cannot panic, keeps the role's name and namespace, and lets
    the sidecar read each of them, once or by a watch, and update its status; it allows every
    single read of [PrefetchSecretsData] on each of them that is in the role's namespace and has
    no storage section besides the one of its storage type (with another section left in it,
    reads may be denied: [leftover_section_denied] below).  It grants reading only of Secrets and ConfigMaps that one of the
    BackupConfigs refers to, unless none of them refers to a Secret, or to a ConfigMap. *)
Theorem role_exact role cluster configs :
  Forall admitted configs →
  ∃ role', BuildRoleForBackupConfigs SchemeGroupVersion ClusterKind role cluster configs
             = Ret role' ∧
    key_of (role_meta role') = key_of (role_meta role) ∧ role_fits configs role'.
Proof. apply build_role. Qed.

(** Without names there is no limit.  A role for BackupConfigs none of which refers to a
    ConfigMap, as one without a custom CA does not, lets the sidecar read and watch every
    ConfigMap of the namespace; one for no BackupConfig at all every Secret and BackupConfig
    too. *)
Theorem nothing_to_name role cluster configs :
  Forall admitted configs →
  (∀ b n, b ∈ configs → ¬ names_config_map b n) →
  ∃ role', BuildRoleForBackupConfigs SchemeGroupVersion ClusterKind role cluster configs
             = Ret role' ∧
    (∀ n, grants_reading role' "" "configmaps" n) ∧
    (configs = [] → ∀ n, grants_reading role' "" "secrets" n ∧
       grants_reading role' Group "backupconfigs" n).
Proof.
  intros Ha Hno. unfold BuildRoleForBackupConfigs.
  destruct (collect_all configs (∅, ∅, ∅) Ha) as (sets & Hsets & _ & _ & Hc). rewrite Hsets. simpl.
  eexists. split; [done|]. split.
  - intros n verb Hv. apply grants_rules; [done|]. right. split; [done|]. left.
    apply set_eq. intros n'. rewrite Hc. split; [|set_solver].
    intros [?|(b & names & Hb & Hcol & Hn)]; [set_solver|]. exfalso. rewrite Forall_forall in Ha.
    destruct (collect_spec b (Ha b Hb)) as (names' & Hcol' & [_ Hsound] & _).
    rewrite Hcol in Hcol'. injection Hcol' as <-. eapply Hno; eauto.
  - intros -> n. injection Hsets as <-. split; intros verb Hv.
    + apply grants_rules; [done|]. left. by auto.
    + eexists. split; [by left|]. simpl. split_and!; [set_solver|done|set_solver|].
      left. by apply ToSortedList_nil.
Qed.
End grants.

(** ** The encryption key *)

(** [hex.DecodeString], on lower case. *)
Definition hex_val (c : ascii) : option nat :=
  let n := nat_of_ascii c in
  if (48 <=? n)%nat && (n <=? 57)%nat then Some (n - 48)%nat
  else if (97 <=? n)%nat && (n <=? 102)%nat then Some (n - 87)%nat else None.
Fixpoint hex_decode (s : string) : option string :=
  match s with
  | "" => Some ""
  | String a (String b s) =>
      x ← hex_val a; y ← hex_val b; r ← hex_decode s; Some (String (ascii_of_nat (16 * x + y)) r)
  | _ => None
  end.

Lemma hex_decode_encode s : hex_decode (hex_encode s) = Some s.
Proof.
  assert (∀ c, (x ← hex_val (hex_digit (nat_of_ascii c / 16));
                y ← hex_val (hex_digit (nat_of_ascii c mod 16));
                Some (ascii_of_nat (16 * x + y))) = Some c) as Hc.
  { intros [[] [] [] [] [] [] [] []]; vm_compute; reflexivity. }
  induction s as [|c s IH]; [done|]. specialize (Hc c). cbn [hex_encode hex_decode].
  destruct (hex_val (hex_digit (nat_of_ascii c / 16))) as [x|]; [|done].
  destruct (hex_val (hex_digit (nat_of_ascii c mod 16))) as [y|]; [|done].
  simpl in Hc |- *. rewrite IH. simpl. by injection Hc as ->.
Qed.

(** The BackupConfig leaves its libsodium key to the plugin. *)
Definition makes_key (b : BackupConfig) : Prop :=
  enc_Method (Encryption (bc_Spec b)) = "libsodium" ∧
  enc_ExistingEncryptionSecretName (Encryption (bc_Spec b)) = "".
Definition own_key (b : BackupConfig) : ObjectKey :=
  mkKey (Namespace (bc_meta b)) (Name (bc_meta b) +:+ "-encryption").

(** After the key's Secret was found missing: 32 random bytes are stored, in hex. *)
Definition key_created (b : BackupConfig) (t : list event) (e : option err) : Prop :=
  (∃ x, t = [Ev (ORandRead 32) (Err x)] ∧ is_Some e) ∨
  ∃ bytes s a, t = [Ev (ORandRead 32) (Ok bytes); Ev (OCreate KSecret s) a] ∧
    key_of (sec_meta s) = own_key b ∧
    (sec_Data s !! "libsodiumKey" ≫= hex_decode) = Some bytes ∧
    (or_UID <$> OwnerReferences (sec_meta s)) = [UID (bc_meta b)] ∧
    (e = None ↔ ∃ x, a = Ok x).

Definition key_run (b : BackupConfig) (t : list event) (e : option err) : Prop :=
  ∃ a t', t = Ev (OGet KSecret (own_key b)) a :: t' ∧
    match a with
    | Ok _ => t' = [] ∧ e = None
    | Err x => if is_not_found x then key_created b t' e else t' = [] ∧ is_Some e
    end.

Lemma encryption_secret_text b key :
  sec_Data (encryption_secret b key) !! "libsodiumKey" = Some key.
Proof. done. Qed.

Lemma ensure_encryption_wp b :
  wp (ensureEncryptionSecret b) (λ t r, ∃ e, r = Returned e ∧
    (¬ makes_key b → t = [] ∧ e = None) ∧ (makes_key b → key_run b t e)).
Proof.
  unfold ensureEncryptionSecret, makes_key. cbv zeta.
  destruct (String.eqb_spec (enc_Method (Encryption (bc_Spec b))) "libsodium");
    [|by eexists; split_and!; naive_solver].
  destruct (String.eqb_spec (enc_ExistingEncryptionSecretName (Encryption (bc_Spec b))) "")
    as [Hex|]; [|by eexists; split_and!; naive_solver].
  assert (GetBackupConfigEncryptionSecretName b = Name (bc_meta b) +:+ "-encryption") as Hname
    by (unfold GetBackupConfigEncryptionSecretName; by rewrite Hex).
  cbn [negb]. apply wp_call. unfold key_run, own_key. rewrite Hname.
  intros [s|x]; cbv beta iota zeta.
  { eexists. split; [done|]. split; [naive_solver|]. intros _. by eexists (Ok s), _. }
  destruct (is_not_found x) eqn:Hx; cbn [negb].
  2: { eexists. split; [done|]. split; [naive_solver|]. intros _. eexists (Err x), _.
       split; [done|]. rewrite Hx. by eauto. }
  intros [bytes|y].
  2: { simpl. eexists. split; [done|]. split; [naive_solver|]. intros _. eexists (Err x), _.
       split; [done|]. rewrite Hx. left. by eauto. }
  intros a. destruct a as [s|y]; simpl; (eexists; split; [done|]; split; [naive_solver|]);
    intros _; eexists (Err x), _; (split; [done|]); rewrite Hx; right;
    eexists bytes, _, _; (split; [done|]); rewrite encryption_secret_text;
    unfold own_key; simpl; rewrite Hname, hex_decode_encode; naive_solver.
Qed.

(** An encryption key is never replaced.  [ensureEncryptionSecret] touches nothing unless
    the BackupConfig uses libsodium without naming a Secret of its own; then it creates the
    Secret only after the API server answered that it does not exist, with the hex text of 32
    random bytes and owned by the BackupConfig, and it reports success exactly when the Secret
    was there or has been created. *)
Theorem encryption_key_kept b :
  wp (ensureEncryptionSecret b) (λ t r, ∃ e, r = Returned e ∧
    (¬ makes_key b → t = [] ∧ e = None) ∧ (makes_key b → key_run b t e)).
Proof. apply ensure_encryption_wp. Qed.

(** ** The hook *)

(** The BackupConfigs a run has read. *)
Definition fetched_config (e : event) : option BackupConfig :=
  match got KBackupConfig e with Some (Ok b) => Some b | _ => None end.
Definition fetched (t : list event) : list BackupConfig := omap fetched_config t.

(** The API server has the object under this key when the run ends: it was read and left
    alone, created, or patched. *)
Definition stored {k} (key : ObjectKey) (o : obj k) (t : list event) : Prop :=
  Ev (OGet k key) (Ok o) ∈ t ∨
  (∃ x, Ev (OCreate k o) (Ok x) ∈ t ∧ key_of (obj_meta o) = key) ∨
  (∃ old x, Ev (OGet k key) (Ok old) ∈ t ∧ Ev (OPatch k old o) (Ok x) ∈ t).

Lemma stored_mono {k} key (o : obj k) t t' : t ⊆ t' → stored key o t → stored key o t'.
Proof. unfold stored. intros Ht. naive_solver. Qed.

Definition no_config (e : event) : Prop := fetched_config e = None.

Lemma fetched_none t : Forall no_config t → fetched t = [].
Proof. induction 1 as [|e t He _ IH]; [done|]. unfold fetched; simpl. by rewrite He. Qed.

Lemma fetched_app t1 t2 : fetched (t1 ++ t2) = fetched t1 ++ fetched t2.
Proof. apply omap_app. Qed.

Lemma fetched_plugin_config p ns t o :
  exec (getBackupConfigFromPluginConfig p ns) t (Returned (Ok o)) → fetched t = option_list o.
Proof.
  unfold getBackupConfigFromPluginConfig.
  destruct p as [p|]; [|by intros [-> [= ->]]].
  destruct (plugin_Parameters p) as [params|]; [|by intros [-> [= ->]]].
  destruct (negb _); [by intros [-> [= ->]]|].
  destruct (params !! _) as [n|]; [|by intros [_ [=]]].
  intros (t1 & t2 & b & -> & (a & t' & -> & -> & [= <-]) & [-> [= ->]])%exec_try_ok. done.
Qed.

Lemma ensure_encryption_ok b t :
  exec (ensureEncryptionSecret b) t (Returned None) →
  fetched t = [] ∧ (makes_key b → ∃ s, stored (k := KSecret) (own_key b) s t).
Proof.
  intros He. pose proof (ensure_encryption_wp b) as Hw.
  rewrite wp_exec in Hw. destruct (Hw _ _ He) as (e & [= <-] & Hno & Hyes). clear Hw He.
  assert (Decision (makes_key b)) as [Hm|Hm] by (unfold makes_key; apply _).
  2: { destruct (Hno Hm) as [-> _]. done. }
  destruct (Hyes Hm) as (a & t' & -> & Ha). destruct a as [s|x].
  { destruct Ha as [-> _]. split; [done|]. intros _. exists s. left. by left. }
  destruct (is_not_found x); [|by destruct Ha as [_ [? [=]]]].
  destruct Ha as [(? & _ & ? & [=])|(bytes & s & a & -> & Hk & _ & _ & Hok)].
  split; [done|]. intros _. destruct (proj1 Hok eq_refl) as [x' ->].
  exists s. right; left. exists x'. split; [set_solver|done].
Qed.

Lemma ensure_encryptions_ok configs t :
  exec (ensure_encryption_secrets configs) t (Returned None) →
  fetched t = [] ∧
  ∀ b, b ∈ configs → makes_key b → ∃ s, stored (k := KSecret) (own_key b) s t.
Proof.
  revert t. induction configs as [|b configs IH]; intros t.
  { intros [-> _]. split; [done|]. by intros ? ?%elem_of_nil. }
  intros [(t1 & t2 & e & -> & H1 & H2)|(w & _ & [=])]%exec_bind.
  destruct e as [e|]; [by destruct H2 as [_ [=]]|].
  apply ensure_encryption_ok in H1 as [Hf1 Hs1]. apply IH in H2 as [Hf2 Hs2].
  split; [by rewrite fetched_app, Hf1, Hf2|].
  intros b' [->|Hb]%elem_of_cons Hm; [destruct (Hs1 Hm) as [s Hs]|destruct (Hs2 _ Hb Hm) as [s Hs]];
    exists s; (eapply stored_mono; [|exact Hs]); set_solver.
Qed.

(** *** Equality up to nil and empty *)

(** What [equality.Semantic.DeepEqual] identifies: maps that are nil or empty (slices are, in the
    model, lists, for which the two are one). *)
Definition map_equiv (a b : option (gmap string string)) : Prop := default ∅ a = default ∅ b.
Record meta_equiv (a b : ObjectMeta) : Prop := {
  me_labels : map_equiv (Labels a) (Labels b);
  me_annotations : map_equiv (Annotations a) (Annotations b);
  me_rest : with_marks a None None = with_marks b None None;
}.
Definition role_equiv (a b : Role) : Prop :=
  meta_equiv (role_meta a) (role_meta b) ∧ Rules a = Rules b.

#[export] Instance role_equiv_equivalence : Equivalence role_equiv.
Proof.
  split.
  - intros a. by split_and!.
  - intros a b [[? ? ?] ?]. by split_and!.
  - intros a b c [[Hl Ha Hr] ?] [[Hl' Ha' Hr'] ?].
    split; [split; [exact (eq_trans Hl Hl')|exact (eq_trans Ha Ha')|exact (eq_trans Hr Hr')]|congruence].
Qed.

Lemma role_equiv_parts a b :
  role_equiv a b ↔
  map_equiv (Labels (role_meta a)) (Labels (role_meta b)) ∧
  map_equiv (Annotations (role_meta a)) (Annotations (role_meta b)) ∧
  with_marks (role_meta a) None None = with_marks (role_meta b) None None ∧ Rules a = Rules b.
Proof. split; [intros [[? ? ?] ?]|intros (? & ? & ? & ?)]; by split_and!. Qed.

#[export] Instance map_equiv_dec a b : Decision (map_equiv a b).
Proof. unfold map_equiv. apply _. Defined.

#[export] Instance role_equiv_dec a b : Decision (role_equiv a b).
Proof.
  destruct (decide (map_equiv (Labels (role_meta a)) (Labels (role_meta b)) ∧
    map_equiv (Annotations (role_meta a)) (Annotations (role_meta b)) ∧
    with_marks (role_meta a) None None = with_marks (role_meta b) None None ∧ Rules a = Rules b))
    as [He|He]; [left|right]; abstract (rewrite role_equiv_parts; exact He).
Defined.

Lemma meta_equiv_key a b : meta_equiv a b → key_of a = key_of b.
Proof. intros [_ _ Hr]. exact (f_equal key_of Hr). Qed.

(** What a role grants, and so whether it fits, does not depend on the difference. *)
#[export] Instance grants_proper : Proper (role_equiv ==> eq ==> eq ==> eq ==> eq ==> iff) grants.
Proof. intros a b [_ Hr] g ? <- r ? <- v ? <- n ? <-. unfold grants. by rewrite Hr. Qed.

#[export] Instance grants_reading_proper :
  Proper (role_equiv ==> eq ==> eq ==> eq ==> iff) grants_reading.
Proof.
  intros a b Hab g ? <- r ? <- n ? <-. unfold grants_reading.
  split; intros Hg verb Hv; [rewrite <-Hab|rewrite Hab]; by apply Hg.
Qed.

Lemma role_equiv_namespace a b :
  role_equiv a b → Namespace (role_meta a) = Namespace (role_meta b).
Proof. intros [Hm _]. exact (f_equal key_ns (meta_equiv_key _ _ Hm)). Qed.

#[export] Instance allowed_read_proper :
  Proper (role_equiv ==> pointwise_relation _ iff) allowed_read.
Proof.
  intros a b Hab e. unfold allowed_read. rewrite (role_equiv_namespace a b Hab).
  destruct (ev_op e); try done. destruct k; try done; by rewrite Hab.
Qed.

#[export] Instance role_fits_proper : Proper (eq ==> role_equiv ==> iff) role_fits.
Proof.
  intros configs ? <- a b Hab. unfold role_fits. rewrite (role_equiv_namespace a b Hab).
  repeat setoid_rewrite Hab. done.
Qed.

Section hook.
Context `{StringSets} (SchemeGroupVersion ClusterKind : string).
Context (semantic_role_equal : Role → Role → bool).
Hypothesis semantic_role_equal_spec : ∀ a b, semantic_role_equal a b = true → role_equiv a b.
Context (GetKind : string → res string) (unmarshal_cluster : string → Cluster * option err).

Lemma build_role_calls role cluster configs t role' :
  exec (BuildRoleForBackupConfigs SchemeGroupVersion ClusterKind role cluster configs) t
    (Returned role') → Forall admitted configs → t = [] ∧ role_fits configs role' ∧
    key_of (role_meta role') = key_of (role_meta role).
Proof.
  intros He Ha. destruct (build_role SchemeGroupVersion ClusterKind role cluster configs Ha)
    as (r & Hr & Hk & Hf). rewrite Hr in He. by destruct He as [-> [= ->]].
Qed.

Lemma build_no_config role cluster configs :
  emits no_config (BuildRoleForBackupConfigs SchemeGroupVersion ClusterKind role cluster configs).
Proof.
  unfold BuildRoleForBackupConfigs. apply emits_bind; [|intros; apply emits_ret].
  generalize (∅ : gset string, ∅ : gset string, ∅ : gset string) as sets.
  induction configs as [|b configs IH]; intros sets; [apply emits_ret|].
  apply emits_bind; [|intros; apply IH]. destruct sets as [[bs ss] cs].
  unfold collect_names, collectSecretsAndConfigMapsNamesFromBackupConfig, s3_names, gcs_names,
    selector_name. emits_auto.
Qed.

Lemma ensure_role_no_config cluster configs :
  emits no_config (ensureRole SchemeGroupVersion ClusterKind semantic_role_equal cluster configs).
Proof.
  unfold ensureRole. apply emits_bind; [by apply emits_call|]. intros [role|e].
  - apply emits_bind; [apply build_no_config|]. intros r. emits_auto; done.
  - destruct (negb _); [apply emits_ret|].
    apply emits_bind; [apply build_no_config|]. intros r. emits_auto; done.
Qed.

Lemma ensure_role_ok cluster configs t :
  exec (ensureRole SchemeGroupVersion ClusterKind semantic_role_equal cluster configs) t
    (Returned None) → Forall admitted configs →
  ∃ role, stored (k := KRole) (role_key cluster) role t ∧ role_fits configs role.
Proof.
  intros (a & t' & -> & He)%exec_call Ha. destruct a as [old|x]; cbv beta iota zeta in He.
  - apply exec_bind in He as [(t1 & t2 & role & -> & H1 & H2)|(w & _ & [=])].
    destruct (build_role_calls _ _ _ _ _ H1 Ha) as (-> & Hf & _). simpl.
    destruct (semantic_role_equal role old) eqn:Heq.
    + apply semantic_role_equal_spec in Heq. exists old. split; [left; by left|by rewrite <-Heq].
    + exists role. split; [|done]. destruct H2 as (a & t' & -> & -> & Hr). destruct a as [x|e]; [|done].
      right; right. exists old, x. set_solver.
  - destruct (negb _); [by destruct He as [_ [=]]|].
    apply exec_bind in He as [(t1 & t2 & role & -> & H1 & H2)|(w & _ & [=])].
    destruct (build_role_calls _ _ _ _ _ H1 Ha) as (-> & Hf & Hk). simpl.
    exists role. split; [|done]. destruct H2 as (a & t' & -> & -> & Hr).
    destruct a as [y|e]; [|done]. right; left. exists y. split; [set_solver|].
    etransitivity; [exact Hk|done].
Qed.

Lemma ensure_binding_ok cluster t :
  exec (ensureRoleBinding SchemeGroupVersion ClusterKind cluster) t (Returned None) →
  fetched t = [] ∧ ∃ rb, stored (k := KRoleBinding) (role_key cluster) rb t.
Proof.
  intros (a & t' & -> & He)%exec_call. destruct a as [rb|x]; cbv beta iota zeta in He.
  - destruct He as [-> _]. split; [done|]. exists rb. left. by left.
  - destruct (is_not_found x); [|by destruct He as [_ [=]]].
    destruct He as (a & t'' & -> & -> & Hr). destruct a as [y|e]; [|done].
    split; [done|]. exists (BuildRoleBindingForBackupConfig SchemeGroupVersion ClusterKind cluster).
    right; left. exists y. split; [set_solver|done].
Qed.

(** C29: reconciliation only goes on when the sidecar can work.  When the hook lets
    CloudNativePG continue with a cluster, then for the BackupConfigs it has read: every
    libsodium key the plugin has to make is stored, the role binding is stored, and, if the
    BackupConfigs were admitted, a role is stored that fits them.  The role found on the server
    may differ from the one built as [equality.Semantic.DeepEqual] allows, by nil against empty
    maps and slices; that does not matter to what it grants. *)
Theorem continue_ready request t :
  exec (Pre SchemeGroupVersion ClusterKind semantic_role_equal GetKind unmarshal_cluster request)
    t (Returned (Some BEHAVIOR_CONTINUE, None)) →
  GetKind (ResourceDefinition request) = Ok "Cluster" →
  ∃ cluster, unmarshal_cluster (ClusterDefinition request) = (cluster, None) ∧
    (∀ b, b ∈ fetched t → makes_key b → ∃ s, stored (k := KSecret) (own_key b) s t) ∧
    (∃ rb, stored (k := KRoleBinding) (role_key cluster) rb t) ∧
    (Forall admitted (fetched t) →
       ∃ role, stored (k := KRole) (role_key cluster) role t ∧ role_fits (fetched t) role).
Proof.
  intros He Hk. unfold Pre, CnpgClusterFromJSON in He. rewrite Hk in He. cbn [negb String.eqb] in He.
  destruct (unmarshal_cluster _) as [cluster [e|]]; cbn [wrap_opt] in He; [by destruct He as [_ [=]]|].
  exists cluster. split; [done|].
  apply exec_bind in He as [(t1 & u1 & [a|e] & -> & H1 & He)|(w & _ & [=])];
    [|by destruct He as [_ [=]]]. apply fetched_plugin_config in H1.
  apply exec_bind in He as [(t2 & u2 & [r|e] & -> & H2 & He)|(w & _ & [=])];
    [|by destruct He as [_ [=]]]. apply fetched_plugin_config in H2.
  apply exec_bind in He as [(t3 & u3 & [e|] & -> & H3 & He)|(w & _ & [=])];
    [by destruct He as [_ [=]]|]. apply ensure_encryptions_ok in H3 as [H3 Hkeys].
  apply exec_bind in He as [(t4 & u4 & [e|] & -> & H4 & He)|(w & _ & [=])];
    [by destruct He as [_ [=]]|].
  pose proof (fetched_none _ (exec_emits _ _ _ _ (ensure_role_no_config _ _) H4)) as Hf4.
  apply exec_bind in He as [(t5 & u5 & [e|] & -> & H5 & He)|(w & _ & [=])];
    [by destruct He as [_ [=]]|]. apply ensure_binding_ok in H5 as [H5 [rb Hrb]].
  destruct He as [-> _].
  rewrite !fetched_app, H1, H2, H3, Hf4, H5, !app_nil_r. simpl. split_and!.
  - intros b Hb Hm. destruct (Hkeys b Hb Hm) as [s Hs]. exists s.
    eapply stored_mono; [|exact Hs]. set_solver.
  - exists rb. eapply stored_mono; [|exact Hrb]. set_solver.
  - intros Ha. destruct (ensure_role_ok _ _ _ H4 Ha) as (role & Hr & Hf). exists role.
    split; [|done]. eapply stored_mono; [|exact Hr]. set_solver.
Qed.
End hook.

(** ** Concrete instances *)

#[export, refine] Instance string_sets : StringSets := {
  ToSortedList X := insertion_sort String.ltb (elements X);
}.
Proof. intros X x. by rewrite insertion_sort_perm, elem_of_elements. Defined.

Lemma s3_admitted : admitted s3_backup_config.
Proof. split; [reflexivity|]. repeat split; try (eexists; reflexivity). right. left. Qed.

Definition cluster_role : Role :=
  mkRole (with_owners (named_meta "ns" "cluster-backups")
            [mkOwnerRef "postgresql.cnpg.io/v1" "Cluster" "cluster" "c" (Some true)])
    [mkRule ["cnpg-extensions.yandex.cloud"] ["watch"; "get"; "list"] ["backupconfigs"] ["bc"];
     mkRule ["cnpg-extensions.yandex.cloud"] ["update"] ["backupconfigs/status"] ["bc"];
     mkRule [""] ["watch"; "get"; "list"] ["secrets"] ["keys"];
     mkRule [""] ["watch"; "get"; "list"] ["configmaps"] []].

Lemma role_exact_witness :
  admitted s3_backup_config ∧
  ∃ role', BuildRoleForBackupConfigs "postgresql.cnpg.io/v1" "Cluster" (new_role plugin_cluster)
             plugin_cluster [s3_backup_config] = Ret role' ∧
    role_fits [s3_backup_config] role'.
Proof.
  split; [exact s3_admitted|].
  destruct (role_exact "postgresql.cnpg.io/v1" "Cluster" (new_role plugin_cluster)
    plugin_cluster [s3_backup_config]) as (role' & Hr & _ & Hf).
  - apply Forall_cons. split; [exact s3_admitted|constructor].
  - exists role'. split; assumption.
Defined.

(** The BackupConfig has no custom CA, so the sidecar may read the ConfigMaps of others. *)
Lemma nothing_to_name_witness :
  ∃ role', BuildRoleForBackupConfigs "postgresql.cnpg.io/v1" "Cluster" (new_role plugin_cluster)
             plugin_cluster [s3_backup_config] = Ret role' ∧
    grants role' "" "configmaps" "list" "of-another-application".
Proof.
  destruct (nothing_to_name "postgresql.cnpg.io/v1" "Cluster" (new_role plugin_cluster)
    plugin_cluster [s3_backup_config]) as (role' & Hr & Hcm & _).
  - apply Forall_cons. split; [exact s3_admitted|constructor].
  - intros b n Hb. apply list_elem_of_singleton in Hb as ->. rewrite config_maps_by_section.
    unfold s3_config_map_name, from_config_map. simpl. naive_solver.
  - exists role'. split; [exact Hr|]. apply Hcm. right. right. left.
Defined.

Definition cluster_binding : RoleBinding :=
  BuildRoleBindingForBackupConfig "postgresql.cnpg.io/v1" "Cluster" plugin_cluster.

(** The hook makes the role and the binding of a new cluster. *)
Lemma continue_ready_witness :
  ∃ role, stored (k := KRole) (mkKey "ns" "cluster-backups") role
            [Ev (OGet KBackupConfig (mkKey "ns" "bc")) (Ok s3_backup_config);
             Ev (OGet KRole (mkKey "ns" "cluster-backups")) (Err gone);
             Ev (OCreate KRole cluster_role) (Ok cluster_role);
             Ev (OGet KRoleBinding (mkKey "ns" "cluster-backups")) (Err gone);
             Ev (OCreate KRoleBinding cluster_binding) (Ok cluster_binding)] ∧
          role_fits [s3_backup_config] role.
Proof.
  destruct (continue_ready "postgresql.cnpg.io/v1" "Cluster" (λ a b, bool_decide (role_equiv a b))
    (λ a b H, proj1 (bool_decide_eq_true _) H) (λ _, Ok "Cluster") (λ _, (plugin_cluster, None))
    (mkHooksRequest "{}" "{}")
    [Ev (OGet KBackupConfig (mkKey "ns" "bc")) (Ok s3_backup_config);
     Ev (OGet KRole (mkKey "ns" "cluster-backups")) (Err gone);
     Ev (OCreate KRole cluster_role) (Ok cluster_role);
     Ev (OGet KRoleBinding (mkKey "ns" "cluster-backups")) (Err gone);
     Ev (OCreate KRoleBinding cluster_binding) (Ok cluster_binding)])
    as (cluster & Hc & _ & _ & Hr).
  - do 5 (eexists _, _; split; [reflexivity|]). split; reflexivity.
  - reflexivity.
  - injection Hc as <-. apply Hr. apply Forall_cons. split; [exact s3_admitted|constructor].
Defined.

(** A BackupConfig for GCS that still has the section of an S3 storage, with its keys. *)
Definition both_sections : BackupConfig :=
  mkBackupConfig (bc_meta s3_backup_config)
    (mkBCSpec None None None None None 5 0 false None (mkRetention false false false 1 "7d")
       (mkStorage "gcs" (Some s3_keys) (Some (mkGCS "gs://bucket/pg" None
          (Some (mkSelector "gcs" "json"))))) "" (mkEncryption "" ""))
    (bc_Status s3_backup_config).

(** A leftover section locks the sidecar out.  There is a BackupConfig that the webhook
    and the schema admit, and whose prefetching starts by reading a Secret that the role built
    for it does not allow. *)
Theorem leftover_section_denied :
  admitted both_sections ∧
  ∃ role a t r,
    BuildRoleForBackupConfigs "postgresql.cnpg.io/v1" "Cluster" (new_role plugin_cluster)
      plugin_cluster [both_sections] = Ret role ∧
    exec (PrefetchSecretsData both_sections)
      (Ev (OGet KSecret (mkKey "ns" "keys")) a :: t) r ∧
    ¬ grants role "" "secrets" "get" "keys".
Proof.
  split.
  { split; [reflexivity|]. repeat split; try (eexists; reflexivity). right. left. }
  eexists (mkRole _ (role_rules ({["bc"]} ∪ ∅, list_to_set ["gcs"] ∪ ∅, list_to_set [] ∪ ∅))),
    (Err gone), [], _.
  split; [reflexivity|]. split.
  { eexists _, _. split; [reflexivity|]. split; reflexivity. }
  intros [[_ [Hn|Hn]]|[? _]]%grants_rules; [set_solver|set_solver|done|apply get_reading].
Qed.
