(* ===== verification/Lifecycle.v ===== *)
(** [internal/operator/plugin_lifecycle.go]: the hook CloudNativePG calls for the pods and
    jobs of a cluster, which injects the plugin's sidecar container.

    Parameters: the decoders of the request's objects, [object.CreatePatch], and
    CloudNativePG's version of a cluster. *)
From stdpp Require Import base list strings gmap.
From S2P Require Import Prelude GoStrings GoTime Api Effects Secrets Config.
Local Open Scope string_scope.
Local Open Scope list_scope.
Local Open Scope go_scope.

(** ** Pods: the fields the hook reads or writes; the others are opaque strings *)

Record EnvVar := mkEnv { env_Name : string; env_Value : string; env_ValueFrom : option string }.

Record VolumeMount := mkMount { vm_Name : string; vm_MountPath : string; vm_Other : string }.

(** [EmptyDir], or some other source. *)
Inductive VolumeSource := EmptyDir | OtherSource (source : string).
Record Volume := mkVolume { vol_Name : string; vol_Source : VolumeSource }.

Record SecurityContext := mkSecurityContext {
  AllowPrivilegeEscalation : option bool;
  RunAsNonRoot : option bool;
  Privileged : option bool;
  ReadOnlyRootFilesystem : option bool;
  SeccompProfile : option string;
  DropCapabilities : list string;
}.

Record Container := mkContainer {
  ctr_Name : string;
  ctr_Image : string;
  ctr_ImagePullPolicy : string;
  ctr_Args : list string;
  ctr_Env : list EnvVar;
  ctr_Resources : string;
  ctr_VolumeMounts : list VolumeMount;
  ctr_SecurityContext : option SecurityContext;
  ctr_RestartPolicy : option string;
  ctr_Other : string;
}.

Definition with_mounts (c : Container) (m : list VolumeMount) : Container :=
  mkContainer (ctr_Name c) (ctr_Image c) (ctr_ImagePullPolicy c) (ctr_Args c) (ctr_Env c)
    (ctr_Resources c) m (ctr_SecurityContext c) (ctr_RestartPolicy c) (ctr_Other c).
Definition with_env (c : Container) (e : list EnvVar) : Container :=
  mkContainer (ctr_Name c) (ctr_Image c) (ctr_ImagePullPolicy c) (ctr_Args c) e
    (ctr_Resources c) (ctr_VolumeMounts c) (ctr_SecurityContext c) (ctr_RestartPolicy c)
    (ctr_Other c).
Definition with_restart_policy (c : Container) (r : option string) : Container :=
  mkContainer (ctr_Name c) (ctr_Image c) (ctr_ImagePullPolicy c) (ctr_Args c) (ctr_Env c)
    (ctr_Resources c) (ctr_VolumeMounts c) (ctr_SecurityContext c) r (ctr_Other c).

Record PodSpec := mkPodSpec {
  Volumes : list Volume;
  InitContainers : list Container;
  Containers : list Container;
  pod_Other : string;
}.

Record Pod := mkPod { pod_meta : ObjectMeta; pod_Spec : PodSpec }.

(** [job_template] is [job.Spec.Template.Labels], [job_Spec] [job.Spec.Template.Spec]. *)
Record Job := mkJob {
  job_meta : ObjectMeta;
  job_template_labels : option (gmap string string);
  job_Spec : PodSpec;
}.

(** ** Injection *)

Definition pluginVolumeName : string := "plugins".
Definition plugin_volume : Volume := mkVolume pluginVolumeName EmptyDir.
Definition plugin_mount : VolumeMount := mkMount pluginVolumeName "/plugins" "".

Definition injectPluginVolumePodSpec (spec : PodSpec) (mainContainerName : string) : PodSpec :=
  if contains_by (λ v, String.eqb (vol_Name v) pluginVolumeName) (Volumes spec) then spec
  else mkPodSpec (Volumes spec ++ [plugin_volume]) (InitContainers spec)
         ((λ c, if String.eqb (ctr_Name c) mainContainerName
                then with_mounts c (ctr_VolumeMounts c ++ [plugin_mount]) else c)
          <$> Containers spec) (pod_Other spec).

(** The last container of that name. *)
Definition main_mounts (spec : PodSpec) (mainContainerName : string) : option (list VolumeMount) :=
  ctr_VolumeMounts <$>
    find_last (λ c, String.eqb (ctr_Name c) mainContainerName) (Containers spec).

(** The new spec, and the error; the spec is changed in place also when there is an error. *)
Definition injectPluginSidecarPodSpec (spec : PodSpec) (sidecar : Container)
    (mainContainerName : string) (restartPolicy : option string) : PodSpec * option err :=
  let spec := injectPluginVolumePodSpec spec mainContainerName in
  match main_mounts spec mainContainerName with
  | None => (spec, Some (errorf "main container not found"))
  | Some volumeMounts =>
      if contains_by (λ c, String.eqb (ctr_Name c) (ctr_Name sidecar)) (InitContainers spec)
      then (spec, None)
      else
        let sidecar := with_mounts sidecar (ctr_VolumeMounts sidecar ++ volumeMounts) in
        let sidecar := match restartPolicy with
                       | Some p => with_restart_policy sidecar (Some p)
                       | None => sidecar
                       end in
        (mkPodSpec (Volumes spec) (InitContainers spec ++ [sidecar]) (Containers spec)
           (pod_Other spec), None)
  end.

(** The loops that append the variables whose name is not there yet. *)
Definition merge_env (existing added : list EnvVar) : list EnvVar :=
  foldl (λ env e, if contains_by (λ x, String.eqb (env_Name x) (env_Name e)) env
                  then env else env ++ [e]) existing added.

(** The environment of the first container of that name. *)
Definition main_env (spec : PodSpec) (mainContainerName : string) : list EnvVar :=
  match find_first (λ c, String.eqb (ctr_Name c) mainContainerName) (Containers spec) with
  | Some c => ctr_Env c
  | None => []
  end.

Definition default_envs (cluster : Cluster) (pgMajorVersion : Z) : list EnvVar :=
  [mkEnv "NAMESPACE" (Namespace (cl_meta cluster)) None;
   mkEnv "CLUSTER_NAME" (Name (cl_meta cluster)) None;
   mkEnv "PGDATA" "/var/lib/postgresql/data/pgdata" None;
   mkEnv "PG_MAJOR" (format_int pgMajorVersion) None].

Definition sidecar_container (cluster : Cluster) (backupConfig : BackupConfig)
    (image jobRole : string) : Container :=
  mkContainer "plugin-wal-g" image (cl_ImagePullPolicy cluster)
    (if String.eqb jobRole "full-recovery" then ["instance"; "--mode"; "recovery"]
     else ["instance"; "--mode"; "normal"])
    [] (Resources (bc_Spec backupConfig)) []
    (Some (mkSecurityContext (Some false) (Some true) (Some false) (Some false)
             (Some "RuntimeDefault") ["ALL"]))
    None "".

Section lifecycle.
Context `{GoMapRange}.
Variable GetPostgresqlMajorVersion : Cluster → Z * option err.

Definition reconcilePodSpecWithPluginSidecar (cluster : Cluster) (backupConfig : BackupConfig)
    (spec : PodSpec) (jobRole : string) (additionalEnvs : list EnvVar)
    : prog (PodSpec * option err) :=
  match GetPostgresqlMajorVersion cluster with
  | (_, Some e) => Ret (spec, Some (wrapf "while getting Postgresql version for cluster: " e))
  | (pgMajorVersion, None) =>
      let envs := default_envs cluster pgMajorVersion ++ additionalEnvs in
      image ← call (OViperString "cnpg-i-pg-sidecar-image");
      let sidecarConfig := sidecar_container cluster backupConfig image jobRole in
      let env := merge_env (merge_env (ctr_Env sidecarConfig) (main_env spec jobRole)) envs in
      Ret (injectPluginSidecarPodSpec spec (with_env sidecarConfig env) jobRole
             (GetInitContainerRestartPolicy cluster))
  end.

(** [getCNPGJobRole]: a label of the job's template, any one if several match. *)
Definition getCNPGJobRole (job : Job) : string :=
  match job_template_labels job with
  | None => ""
  | Some labels =>
      match find_first (λ kv, has_suffix kv.1 "/jobRole") (map_range labels) with
      | Some kv => kv.2
      | None => ""
      end
  end.

(** ** The hook *)

(** [lifecycle.OperatorOperationType_Type]; the message that holds it may be nil. *)
Inductive OperationType :=
| TYPE_UNSPECIFIED | TYPE_CREATE | TYPE_PATCH | TYPE_UPDATE | TYPE_DELETE | TYPE_EVALUATE.

(** [GetCapabilities]: the group and kind of the objects, with the operations CNPG is to send. *)
Definition lifecycle_GetCapabilities : list (string * string * list OperationType) :=
  [("", "Pod", [TYPE_CREATE; TYPE_PATCH; TYPE_EVALUATE]); ("batch", "Job", [TYPE_CREATE])].

Record LifecycleRequest := mkLifecycleRequest {
  RequestOperationType : option OperationType;
  ObjectDefinition : string;
  lc_ClusterDefinition : string;
}.

(** The patch of the response, empty when nothing is to be done. *)
Definition LifecycleResponse : Type := string.

Variable GetKind : string → res string.
Variable DecodeCluster : string → res Cluster.
Variable DecodePodJSON : string → res Pod.
Variable DecodeJob : string → res Job.
Variable CreatePodPatch : Pod → Pod → res string.
Variable CreateJobPatch : Job → Job → res string.

Definition reconcilePod (cluster : Cluster) (request : LifecycleRequest)
    : prog (res LifecycleResponse) :=
  match DecodePodJSON (ObjectDefinition request) with
  | Err e => Ret (Err e)
  | Ok pod =>
      match RequestOperationType request with
      | None => Panic nil_deref
      | Some (TYPE_CREATE | TYPE_EVALUATE) =>
          backupConfig ←? wrap_err "while getting backup configuration for cluster: "
                            (GetBackupConfigForCluster cluster);
          match backupConfig with
          | None => Ret (Ok "")
          | Some backupConfig =>
              r ← reconcilePodSpecWithPluginSidecar cluster backupConfig (pod_Spec pod)
                    "postgres" [];
              match r with
              | (_, Some e) => Ret (Err (wrapf "while reconciling pod spec for pod: " e))
              | (spec, None) => Ret (CreatePodPatch (mkPod (pod_meta pod) spec) pod)
              end
          end
      | Some _ => Ret (Ok "")
      end
  end.

Definition reconcileJob (cluster : Cluster) (request : LifecycleRequest)
    : prog (res LifecycleResponse) :=
  match DecodeJob (ObjectDefinition request) with
  | Err e => Ret (Err e)
  | Ok job =>
      if negb (String.eqb (getCNPGJobRole job) "full-recovery") then Ret (Ok "")
      else
        recoveryBackupConfig ←?
          wrap_err "while getting recovery backups configuration for cluster: "
            (GetBackupConfigForClusterRecovery cluster);
        match recoveryBackupConfig with
        | None => Ret (Ok "")
        | Some recoveryBackupConfig =>
            r ← reconcilePodSpecWithPluginSidecar cluster recoveryBackupConfig (job_Spec job)
                  "full-recovery" [];
            match r with
            | (_, Some e) => Ret (Err (wrapf "while reconciling pod spec for job: " e))
            | (spec, None) =>
                Ret (CreateJobPatch (mkJob (job_meta job) (job_template_labels job) spec) job)
            end
        end
  end.

(** [Enum()] of an operation type, the zero value for a nil message, points to a copy and is
    never nil. *)
Definition LifecycleHook (request : LifecycleRequest) : prog (res LifecycleResponse) :=
  match GetKind (ObjectDefinition request) with
  | Err e => Ret (Err e)
  | Ok kind =>
      match DecodeCluster (lc_ClusterDefinition request) with
      | Err e => Ret (Err e)
      | Ok cluster =>
          if String.eqb kind "Pod" then reconcilePod cluster request
          else if String.eqb kind "Job" then reconcileJob cluster request
          else Ret (Err (errorf ("unsupported kind: " +:+ kind)))
      end
  end.
End lifecycle.

(** ** Environments *)

(** The variable a process sees under this name when names are unique: the first one. *)
Definition first_env (n : string) (l : list EnvVar) : option EnvVar :=
  head (base.filter (λ e, env_Name e = n) l).

Lemma first_env_app n l k :
  first_env n (l ++ k) = match first_env n l with Some e => Some e | None => first_env n k end.
Proof. unfold first_env. rewrite filter_app. by destruct (base.filter _ l). Qed.

Lemma first_env_None n l : first_env n l = None ↔ n ∉ env_Name <$> l.
Proof.
  unfold first_env. induction l as [|e l IH]; [set_solver|].
  rewrite filter_cons. case_decide as He; simpl.
  - split; [done|]. rewrite He. set_solver.
  - rewrite IH, not_elem_of_cons. naive_solver.
Qed.

Lemma env_named_spec n l :
  contains_by (λ x, String.eqb (env_Name x) n) l = true ↔ n ∈ env_Name <$> l.
Proof.
  rewrite contains_by_true, list_elem_of_fmap. setoid_rewrite String.eqb_eq. naive_solver.
Qed.

(** Merging keeps names unique and lets the variables already there win. *)
Lemma merge_env_spec l k :
  NoDup (env_Name <$> l) →
  NoDup (env_Name <$> merge_env l k) ∧ ∀ n, first_env n (merge_env l k) = first_env n (l ++ k).
Proof.
  revert l. induction k as [|e k IH]; intros l Hl; simpl; [by rewrite app_nil_r|].
  destruct (contains_by _ l) eqn:Hc.
  - apply env_named_spec in Hc. destruct (IH l Hl) as [Hnd Hf]. split; [done|].
    intros n. rewrite Hf, !first_env_app. destruct (first_env n l) eqn:Hn; [done|].
    apply first_env_None in Hn. unfold first_env. rewrite filter_cons.
    case_decide; [congruence|done].
  - apply not_true_iff_false in Hc. rewrite env_named_spec in Hc.
    destruct (IH (l ++ [e])) as [Hnd Hf].
    { rewrite fmap_app. simpl. apply NoDup_app. split_and!; [done| |apply NoDup_singleton].
      set_solver. }
    split; [done|]. intros n. by rewrite Hf, <-app_assoc.
Qed.

(** ** Injection *)

Definition has_container (n : string) (l : list Container) : Prop :=
  ∃ c, c ∈ l ∧ ctr_Name c = n.

Lemma has_container_spec n l :
  contains_by (λ c, String.eqb (ctr_Name c) n) l = true ↔ has_container n l.
Proof. rewrite contains_by_true. by setoid_rewrite String.eqb_eq. Qed.

(** The plugin's volume is in the pod and mounted in the containers of the given name, unless
    a volume of that name was there before. *)
Definition volume_added (main : string) (spec spec1 : PodSpec) : Prop :=
  ((∃ v, v ∈ Volumes spec ∧ vol_Name v = "plugins") ∧ spec1 = spec) ∨
  ((∀ v, v ∈ Volumes spec → vol_Name v ≠ "plugins") ∧
   Volumes spec1 = Volumes spec ++ [mkVolume "plugins" EmptyDir] ∧
   InitContainers spec1 = InitContainers spec ∧ pod_Other spec1 = pod_Other spec ∧
   Forall2 (λ c c1, (ctr_Name c ≠ main ∧ c1 = c) ∨
     (ctr_Name c = main ∧
      c1 = with_mounts c (ctr_VolumeMounts c ++ [mkMount "plugins" "/plugins" ""])))
     (Containers spec) (Containers spec1)).

Lemma volume_added_spec main spec : volume_added main spec (injectPluginVolumePodSpec spec main).
Proof.
  unfold injectPluginVolumePodSpec, volume_added.
  destruct (contains_by _ _) eqn:Hc.
  - left. split; [|done]. apply contains_by_true in Hc as (v & ? & Hv%String.eqb_eq). by exists v.
  - right. split_and!; try done.
    + intros v Hv Hn. apply contains_by_false with (x := v) in Hc; [|done].
      by apply String.eqb_neq in Hc.
    + simpl. induction (Containers spec) as [|c l IH]; constructor; [|done].
      destruct (String.eqb_spec (ctr_Name c) main); auto.
Qed.

Lemma volume_added_names main spec spec1 :
  volume_added main spec spec1 →
  ctr_Name <$> Containers spec1 = ctr_Name <$> Containers spec ∧
  InitContainers spec1 = InitContainers spec ∧
  ∃ v, v ∈ Volumes spec1 ∧ vol_Name v = "plugins".
Proof.
  intros [[Hv ->]|(_ & Hv & Hi & _ & Hc)]; [done|]. split_and!; [|done|].
  - induction Hc as [|c c1 l l1 Hx _ IH]; [done|]. rewrite !fmap_cons, IH. f_equal.
    destruct Hx as [[_ ->]|[_ ->]]; done.
  - rewrite Hv. eexists. split; [apply elem_of_app; right; by left|done].
Qed.

Lemma has_container_names n l : has_container n l ↔ n ∈ ctr_Name <$> l.
Proof. unfold has_container. rewrite list_elem_of_fmap. naive_solver. Qed.

(** The sidecar: what it runs, as whom, with which mounts and which environment. *)
Definition is_sidecar (cluster : Cluster) (bc : BackupConfig) (image main : string)
    (version : Z) (spec spec1 : PodSpec) (s : Container) : Prop :=
  ctr_Name s = "plugin-wal-g" ∧ ctr_Image s = image ∧
  ctr_ImagePullPolicy s = cl_ImagePullPolicy cluster ∧
  ctr_Args s = ["instance"; "--mode";
                if decide (main = "full-recovery") then "recovery" else "normal"] ∧
  ctr_Resources s = Resources (bc_Spec bc) ∧
  (∃ sc, ctr_SecurityContext s = Some sc ∧ AllowPrivilegeEscalation sc = Some false ∧
     RunAsNonRoot sc = Some true ∧ Privileged sc = Some false ∧ DropCapabilities sc = ["ALL"]) ∧
  ctr_RestartPolicy s = GetInitContainerRestartPolicy cluster ∧
  (∃ c, c ∈ Containers spec1 ∧ ctr_Name c = main ∧ ctr_VolumeMounts s = ctr_VolumeMounts c) ∧
  ∃ pre c post, Containers spec = pre ++ c :: post ∧ ctr_Name c = main ∧
    ¬ has_container main pre ∧ NoDup (env_Name <$> ctr_Env s) ∧
    ∀ n, first_env n (ctr_Env s) = first_env n (ctr_Env c ++
      [mkEnv "NAMESPACE" (Namespace (cl_meta cluster)) None;
       mkEnv "CLUSTER_NAME" (Name (cl_meta cluster)) None;
       mkEnv "PGDATA" "/var/lib/postgresql/data/pgdata" None;
       mkEnv "PG_MAJOR" (format_int version) None]).

(** The outcome for a pod spec, the error case included. *)
Definition injected (cluster : Cluster) (bc : BackupConfig) (image main : string) (version : Z)
    (spec : PodSpec) (r : PodSpec * option err) : Prop :=
  ∃ spec1, volume_added main spec spec1 ∧
    ((¬ has_container main (Containers spec) ∧ is_Some r.2) ∨
     (has_container main (Containers spec) ∧
      has_container "plugin-wal-g" (InitContainers spec) ∧ r = (spec1, None)) ∨
     (has_container main (Containers spec) ∧
      ¬ has_container "plugin-wal-g" (InitContainers spec) ∧
      ∃ s, is_sidecar cluster bc image main version spec spec1 s ∧
        r = (mkPodSpec (Volumes spec1) (InitContainers spec1 ++ [s]) (Containers spec1)
               (pod_Other spec1), None))).

Lemma main_mounts_spec spec main :
  match main_mounts spec main with
  | Some m => ∃ c, c ∈ Containers spec ∧ ctr_Name c = main ∧ m = ctr_VolumeMounts c
  | None => ¬ has_container main (Containers spec)
  end.
Proof.
  unfold main_mounts. destruct (find_last _ _) as [c|] eqn:Hf; simpl.
  - apply find_last_elem in Hf as [? Hn%String.eqb_eq]. by exists c.
  - apply find_last_None in Hf. intros (c & Hc & Hn). rewrite Forall_forall in Hf.
    specialize (Hf c Hc). simpl in Hf. by apply String.eqb_neq in Hf.
Qed.

Lemma main_env_spec spec main :
  has_container main (Containers spec) →
  ∃ pre c post, Containers spec = pre ++ c :: post ∧ ctr_Name c = main ∧
    ¬ has_container main pre ∧ main_env spec main = ctr_Env c.
Proof.
  intros Hm. unfold main_env. destruct (find_first _ _) as [c|] eqn:Hf.
  - apply find_first_Some in Hf as (pre & post & -> & Hc%String.eqb_eq & Hpre).
    exists pre, c, post. split_and!; [done..| |done].
    intros (x & Hx & Hn). rewrite Forall_forall in Hpre. specialize (Hpre x Hx). simpl in Hpre.
    by apply String.eqb_neq in Hpre.
  - apply find_first_None in Hf. destruct Hm as (c & Hc & Hn).
    rewrite Forall_forall in Hf. specialize (Hf c Hc). simpl in Hf.
    by apply String.eqb_neq in Hf.
Qed.

Section injection.
Context `{GoMapRange} (GetPostgresqlMajorVersion : Cluster → Z * option err).

Lemma reconcile_injected cluster bc spec main version :
  GetPostgresqlMajorVersion cluster = (version, None) →
  wp (reconcilePodSpecWithPluginSidecar GetPostgresqlMajorVersion cluster bc spec main [])
    (λ t r, ∃ image x, t = [Ev (OViperString "cnpg-i-pg-sidecar-image") image] ∧
       r = Returned x ∧ injected cluster bc image main version spec x).
Proof.
  intros Hv. unfold reconcilePodSpecWithPluginSidecar. rewrite Hv, app_nil_r.
  intros image. simpl. eexists image, _. split_and!; [done..|].
  unfold injectPluginSidecarPodSpec. cbv zeta.
  pose proof (volume_added_spec main spec) as Hva.
  destruct (volume_added_names _ _ _ Hva) as (Hn & Hi & _).
  set (spec1 := injectPluginVolumePodSpec spec main) in *. exists spec1. split; [done|].
  pose proof (main_mounts_spec spec1 main) as Hmm.
  destruct (main_mounts spec1 main) as [m|].
  2: { left. rewrite has_container_names, Hn, <-has_container_names in Hmm. by eauto. }
  destruct Hmm as (c & Hc & Hcn & ->).
  assert (has_container main (Containers spec)) as Hmain.
  { rewrite has_container_names, <-Hn, <-has_container_names. by exists c. }
  right. rewrite Hi. destruct (contains_by _ _) eqn:Hs.
  { left. by apply has_container_spec in Hs. }
  right. apply not_true_iff_false in Hs. rewrite has_container_spec in Hs.
  split_and!; [done..|]. eexists. split; [|done].
  destruct (main_env_spec spec main Hmain) as (pre & c' & post & Hcs & Hc' & Hpre & Henv).
  destruct (merge_env_spec [] (main_env spec main)) as [Hnd1 Hf1]; [constructor|].
  destruct (merge_env_spec (merge_env [] (main_env spec main)) (default_envs cluster version))
    as [Hnd2 Hf2]; [done|].
  assert (∀ n, first_env n (merge_env (merge_env [] (main_env spec main))
    (default_envs cluster version)) = first_env n (ctr_Env c' ++ default_envs cluster version))
    as Hf by (intros n; by rewrite Hf2, first_env_app, Hf1, <-first_env_app, Henv).
  unfold is_sidecar. split_and!;
    try (destruct (GetInitContainerRestartPolicy cluster); done).
  - destruct (GetInitContainerRestartPolicy cluster); simpl;
      by destruct (String.eqb_spec main "full-recovery"); case_decide.
  - eexists. split; [by destruct (GetInitContainerRestartPolicy cluster)|done].
  - exists c. split_and!; [done..|]. by destruct (GetInitContainerRestartPolicy cluster).
  - exists pre, c', post. split_and!; [done..| |];
      destruct (GetInitContainerRestartPolicy cluster); done.
Qed.
End injection.

(** ** Theorems *)

Section hook.
Context `{GoMapRange} (GetPostgresqlMajorVersion : Cluster → Z * option err).
Context (GetKind : string → res string) (DecodeCluster : string → res Cluster)
  (DecodePodJSON : string → res Pod) (DecodeJob : string → res Job)
  (CreatePodPatch : Pod → Pod → res string) (CreateJobPatch : Job → Job → res string).

#[local] Abbreviation inject := (reconcilePodSpecWithPluginSidecar GetPostgresqlMajorVersion).

Lemma inject_ok cluster bc spec main t r :
  exec (inject cluster bc spec main []) t (Returned r) → r.2 = None →
  ∃ version image, GetPostgresqlMajorVersion cluster = (version, None) ∧
    injected cluster bc image main version spec r.
Proof.
  intros He Hr. destruct (GetPostgresqlMajorVersion cluster) as [version [e|]] eqn:Hv.
  { unfold reconcilePodSpecWithPluginSidecar in He. rewrite Hv in He.
    destruct He as [_ [= ->]]. done. }
  pose proof (reconcile_injected GetPostgresqlMajorVersion cluster bc spec main version Hv) as Hw.
  rewrite wp_exec in Hw. destruct (Hw _ _ He) as (image & x & _ & [= ->] & Hi). eauto.
Qed.

(** A spec that came out of an injection. *)
Lemma injected_again cluster bc image main version spec spec' :
  injected cluster bc image main version spec (spec', None) →
  (∃ v, v ∈ Volumes spec' ∧ vol_Name v = "plugins") ∧
  has_container main (Containers spec') ∧ has_container "plugin-wal-g" (InitContainers spec').
Proof.
  intros (spec1 & (Hn & Hi & Hv)%volume_added_names & Hcase).
  rewrite !has_container_names, <-Hn in Hcase. rewrite !has_container_names.
  destruct Hcase as [[_ [? [=]]]|[(Hm & Hs & [= ->])|(Hm & _ & s & Hs & [= ->])]]; simpl.
  - by rewrite Hi.
  - split_and!; [done..|]. destruct Hs as [Hs _]. rewrite fmap_app, elem_of_app. right.
    simpl. rewrite Hs. by left.
Qed.

(** Injection is idempotent.  A pod spec that came out of a successful injection is a
    fixed point: running the injection on it again, for whatever BackupConfig, image and
    cluster settings, changes nothing and succeeds.  CloudNativePG evaluates pods over and
    over, and this is what keeps it from restarting them. *)
Theorem injection_idempotent cluster bc spec main t spec' cluster' bc' version' t' r :
  exec (reconcilePodSpecWithPluginSidecar GetPostgresqlMajorVersion cluster bc spec main [])
    t (Returned (spec', None)) →
  GetPostgresqlMajorVersion cluster' = (version', None) →
  exec (reconcilePodSpecWithPluginSidecar GetPostgresqlMajorVersion cluster' bc' spec' main [])
    t' (Returned r) →
  r = (spec', None).
Proof.
  intros He Hv He'. destruct (inject_ok _ _ _ _ _ _ He eq_refl) as (version & image & _ & Hi).
  destruct (injected_again _ _ _ _ _ _ _ Hi) as (Hvol & Hmain & Hside).
  pose proof (reconcile_injected GetPostgresqlMajorVersion cluster' bc' spec' main version' Hv)
    as Hw. rewrite wp_exec in Hw.
  destruct (Hw _ _ He') as (image' & x & _ & [= ->] & spec1 & Hva & Hcase).
  assert (spec1 = spec') as ->.
  { destruct Hva as [[_ ->]|[Hno _]]; [done|]. destruct Hvol as (v & Hin & Hn).
    by destruct (Hno v Hin). }
  destruct Hcase as [[? _]|[(_ & _ & ->)|(_ & ? & _)]]; done.
Qed.

Lemma fetched_for_plugin p ns t b :
  exec (getBackupConfigFromPluginConfig p ns) t (Returned (Ok (Some b))) →
  ∃ n, Ev (OGet KBackupConfig (mkKey ns n)) (Ok b) ∈ t.
Proof.
  unfold getBackupConfigFromPluginConfig.
  destruct p as [p|]; [|by intros [_ [=]]].
  destruct (plugin_Parameters p) as [params|]; [|by intros [_ [=]]].
  destruct (negb _); [by intros [_ [=]]|].
  destruct (params !! _) as [n|]; [|by intros [_ [=]]].
  intros (t1 & t2 & b' & -> & (a & t' & -> & -> & [= <-]) & [-> [= ->]])%exec_try_ok.
  exists n. by left.
Qed.

(** The job is CloudNativePG's recovery job. *)
Definition recovery_job (job : Job) : Prop :=
  ∃ labels k, job_template_labels job = Some labels ∧ labels !! k = Some "full-recovery" ∧
    has_suffix k "/jobRole" = true.

Lemma getCNPGJobRole_recovery job : getCNPGJobRole job = "full-recovery" → recovery_job job.
Proof.
  unfold getCNPGJobRole, recovery_job. destruct (job_template_labels job) as [labels|]; [|done].
  destruct (find_first _ _) as [[k v]|] eqn:Hf; [|done]. simpl. intros ->.
  apply find_first_elem in Hf as [Hin Hs]. rewrite map_range_perm in Hin.
  apply elem_of_map_to_list in Hin. exists labels, k. done.
Qed.

(** What the hook may answer with. *)
Definition patched (request : LifecycleRequest) (t : list event) (patch : string) : Prop :=
  ∃ cluster b n image version, DecodeCluster (lc_ClusterDefinition request) = Ok cluster ∧
    Ev (OGet KBackupConfig (mkKey (Namespace (cl_meta cluster)) n)) (Ok b) ∈ t ∧
    GetPostgresqlMajorVersion cluster = (version, None) ∧
    ((∃ pod spec, GetKind (ObjectDefinition request) = Ok "Pod" ∧
        (RequestOperationType request = Some TYPE_CREATE ∨
         RequestOperationType request = Some TYPE_EVALUATE) ∧
        DecodePodJSON (ObjectDefinition request) = Ok pod ∧
        injected cluster b image "postgres" version (pod_Spec pod) (spec, None) ∧
        CreatePodPatch (mkPod (pod_meta pod) spec) pod = Ok patch) ∨
     (∃ job spec, GetKind (ObjectDefinition request) = Ok "Job" ∧
        DecodeJob (ObjectDefinition request) = Ok job ∧ recovery_job job ∧
        injected cluster b image "full-recovery" version (job_Spec job) (spec, None) ∧
        CreateJobPatch (mkJob (job_meta job) (job_template_labels job) spec) job = Ok patch)).

Lemma pod_patches cluster request t patch :
  GetKind (ObjectDefinition request) = Ok "Pod" →
  DecodeCluster (lc_ClusterDefinition request) = Ok cluster →
  exec (reconcilePod GetPostgresqlMajorVersion DecodePodJSON CreatePodPatch cluster request) t
    (Returned (Ok patch)) → patch = "" ∨ patched request t patch.
Proof.
  intros Hk Hc. unfold reconcilePod.
  destruct (DecodePodJSON _) as [pod|e] eqn:Hp; [|by intros [_ [=]]].
  destruct (RequestOperationType request) as [op|] eqn:Hop; [|by intros [_ [=]]].
  assert (op = TYPE_CREATE ∨ op = TYPE_EVALUATE ∨ op ≠ TYPE_CREATE ∧ op ≠ TYPE_EVALUATE) as Ho
    by (destruct op; auto).
  intros He. destruct (decide (patch = "")) as [|Hne]; [by left|right].
  assert (exec (backupConfig ←? wrap_err "while getting backup configuration for cluster: "
                            (GetBackupConfigForCluster cluster);
          match backupConfig with
          | None => Ret (Ok "")
          | Some backupConfig =>
              r ← inject cluster backupConfig (pod_Spec pod) "postgres" [];
              match r with
              | (_, Some e) => Ret (Err (wrapf "while reconciling pod spec for pod: " e))
              | (spec, None) => Ret (CreatePodPatch (mkPod (pod_meta pod) spec) pod)
              end
          end) t (Returned (Ok patch)) ∧ (op = TYPE_CREATE ∨ op = TYPE_EVALUATE)) as [He' Hop'].
  { destruct op; try by destruct He as [_ [= ->]]; split; auto. all: split; auto. }
  clear He Ho.
  apply exec_try_ok in He' as (t1 & t2 & [b|] & -> & H1%exec_wrap_ok & He);
    [|by destruct He as [_ [= ->]]].
  apply fetched_for_plugin in H1 as [n Hn].
  apply exec_bind in He as [(t3 & t4 & [spec [e|]] & -> & H3 & He)|(w & _ & [=])];
    [by destruct He as [_ [=]]|]. destruct He as [-> [= He]].
  destruct (inject_ok _ _ _ _ _ _ H3 eq_refl) as (version & image & Hv & Hi).
  exists cluster, b, n, image, version. split_and!; [done|set_solver|done|].
  left. exists pod, spec. rewrite Hop. split_and!; try done. naive_solver.
Qed.

Lemma job_patches cluster request t patch :
  GetKind (ObjectDefinition request) = Ok "Job" →
  DecodeCluster (lc_ClusterDefinition request) = Ok cluster →
  exec (reconcileJob GetPostgresqlMajorVersion DecodeJob CreateJobPatch cluster request) t
    (Returned (Ok patch)) → patch = "" ∨ patched request t patch.
Proof.
  intros Hk Hc. unfold reconcileJob.
  destruct (DecodeJob _) as [job|e] eqn:Hp; [|by intros [_ [=]]].
  destruct (String.eqb_spec (getCNPGJobRole job) "full-recovery") as [Hrole%getCNPGJobRole_recovery|];
    [|by intros [_ [= ->]]; left]. cbn [negb].
  intros (t1 & t2 & [b|] & -> & H1%exec_wrap_ok & He)%exec_try_ok;
    [|by destruct He as [_ [= ->]]; left]. right.
  apply fetched_for_plugin in H1 as [n Hn].
  apply exec_bind in He as [(t3 & t4 & [spec [e|]] & -> & H3 & He)|(w & _ & [=])];
    [by destruct He as [_ [=]]|]. destruct He as [-> [= He]].
  destruct (inject_ok _ _ _ _ _ _ H3 eq_refl) as (version & image & Hv & Hi).
  exists cluster, b, n, image, version. split_and!; [done|set_solver|done|].
  right. exists job, spec. split_and!; done.
Qed.

(** C33: what the hook patches.  Whatever request it gets and whatever the API server answers,
    a successful run of [LifecycleHook] answers either with no patch, or with the patch of an
    injection: into the container ["postgres"] of a pod that is created or evaluated, or into
    the container ["full-recovery"] of the recovery job, for a BackupConfig it has read in the
    cluster's namespace.  The injected pod keeps its containers, init containers and volumes;
    the sidecar comes last of the init containers, unprivileged, with the mounts of the main
    container, and its environment has unique names, the main container's values first. *)
Theorem hook_patches request t patch :
  exec (LifecycleHook GetPostgresqlMajorVersion GetKind DecodeCluster DecodePodJSON DecodeJob
          CreatePodPatch CreateJobPatch request) t (Returned (Ok patch)) →
  patch = "" ∨ patched request t patch.
Proof.
  unfold LifecycleHook. destruct (GetKind _) as [kind|e] eqn:Hk; [|by intros [_ [=]]].
  destruct (DecodeCluster _) as [cluster|e] eqn:Hc; [|by intros [_ [=]]].
  destruct (String.eqb_spec kind "Pod") as [->|]; [by apply pod_patches|].
  destruct (String.eqb_spec kind "Job") as [->|]; [by apply job_patches|].
  by intros [_ [=]].
Qed.

(** A request without an operation type is not refused, as it is meant to be: for a pod it
    crashes the handler. *)
Theorem nil_operation_panics request cluster pod :
  RequestOperationType request = None → GetKind (ObjectDefinition request) = Ok "Pod" →
  DecodeCluster (lc_ClusterDefinition request) = Ok cluster →
  DecodePodJSON (ObjectDefinition request) = Ok pod →
  exec (LifecycleHook GetPostgresqlMajorVersion GetKind DecodeCluster DecodePodJSON DecodeJob
          CreatePodPatch CreateJobPatch request) [] (Panicked nil_deref).
Proof.
  intros Hop Hk Hc Hp. unfold LifecycleHook. rewrite Hk, Hc. simpl.
  unfold reconcilePod. by rewrite Hp, Hop.
Qed.
End hook.

(** ** Concrete instances *)

Definition main_container : Container :=
  mkContainer "postgres" "postgres:17" "IfNotPresent" [] [mkEnv "PGDATA" "/pgdata" None] ""
    [mkMount "pgdata" "/pgdata" ""] None None "".
Definition plain_pod : PodSpec := mkPodSpec [mkVolume "pgdata" (OtherSource "pvc")] []
  [main_container] "".
Definition wal_g_cluster : Cluster :=
  mkCluster (mkMeta "cluster" "ns" "c" "1" 1 None None [] [] zero_time None)
    [mkPlugin PluginNameDeprecated (Some {["backupConfig" := "bc"]})] None [] "postgres:17"
    "IfNotPresent".
Definition mounted_container : Container :=
  with_mounts main_container [mkMount "pgdata" "/pgdata" ""; plugin_mount].
Definition injected_sidecar : Container :=
  mkContainer "plugin-wal-g" "sidecar:1" "IfNotPresent" ["instance"; "--mode"; "normal"]
    [mkEnv "PGDATA" "/pgdata" None; mkEnv "NAMESPACE" "ns" None;
     mkEnv "CLUSTER_NAME" "cluster" None; mkEnv "PG_MAJOR" "17" None] ""
    [mkMount "pgdata" "/pgdata" ""; plugin_mount]
    (Some (mkSecurityContext (Some false) (Some true) (Some false) (Some false)
             (Some "RuntimeDefault") ["ALL"])) (Some "Always") "".
Definition injected_pod : PodSpec :=
  mkPodSpec [mkVolume "pgdata" (OtherSource "pvc"); plugin_volume] [injected_sidecar]
    [mounted_container] "".

Lemma injection_idempotent_witness :
  (injected_pod, @None err) = (injected_pod, None).
Proof.
  apply (injection_idempotent (λ _, (17%Z, None)) wal_g_cluster
    s3_backup_config plain_pod "postgres"
    [Ev (OViperString "cnpg-i-pg-sidecar-image") "sidecar:1"] injected_pod wal_g_cluster
    s3_backup_config 17 [Ev (OViperString "cnpg-i-pg-sidecar-image") "sidecar:2"]).
  - eexists _, _. split; [reflexivity|]. split; reflexivity.
  - reflexivity.
  - eexists _, _. split; [reflexivity|]. split; reflexivity.
Defined.

Definition create_pod : LifecycleRequest := mkLifecycleRequest (Some TYPE_CREATE) "pod" "cluster".

Lemma hook_patches_witness :
  "patch" = "" ∨
  patched (λ _, (17%Z, None)) (λ _, Ok "Pod") (λ _, Ok wal_g_cluster)
    (λ _, Ok (mkPod empty_meta plain_pod)) (λ _, Err (errorf "no job")) (λ _ _, Ok "patch")
    (λ _ _, Ok "") create_pod
    [Ev (OGet KBackupConfig (mkKey "ns" "bc")) (Ok s3_backup_config);
     Ev (OViperString "cnpg-i-pg-sidecar-image") "sidecar:1"] "patch".
Proof.
  apply (@hook_patches canonical_map_range).
  eexists _, _. split; [reflexivity|]. eexists _, _. split; [reflexivity|].
  split; reflexivity.
Defined.
