(* ===== verification/Process.v ===== *)
(** [internal/util/cmd/cmd.go] and [process_state.go]: what a finished process is reported as,
    and the environment it runs with.

    A wait status is the 32-bit word of the Linux kernel, as in [syscall.WaitStatus].  How the
    status gets to the caller is the subject of [Reaper]. *)
From Stdlib Require Import ZArith.
From stdpp Require Import base list strings gmap.
From S2P Require Import Prelude GoStrings Effects.
Local Open Scope string_scope.
Local Open Scope list_scope.
Local Open Scope Z_scope.

(** ** [syscall.WaitStatus] *)

Definition WaitStatus : Type := Z.

Definition mask : Z := 0x7F.
Definition core : Z := 0x80.
Definition exited : Z := 0x00.
Definition stopped : Z := 0x7F.
Definition shift : Z := 8.
Definition SIGTRAP : Z := 5.

Definition Exited (w : WaitStatus) : bool := Z.land w mask =? exited.
Definition Signaled (w : WaitStatus) : bool :=
  negb (Z.land w mask =? stopped) && negb (Z.land w mask =? exited).
Definition Stopped (w : WaitStatus) : bool := Z.land w 0xFF =? stopped.
Definition Continued (w : WaitStatus) : bool := w =? 0xFFFF.
Definition CoreDump (w : WaitStatus) : bool := Signaled w && negb (Z.land w core =? 0).
Definition ExitStatus (w : WaitStatus) : Z :=
  if negb (Exited w) then -1 else Z.land (Z.shiftr w shift) 0xFF.
Definition Signal (w : WaitStatus) : Z := if negb (Signaled w) then -1 else Z.land w mask.
Definition StopSignal (w : WaitStatus) : Z :=
  if negb (Stopped w) then -1 else Z.land (Z.shiftr w shift) 0xFF.
Definition TrapCause (w : WaitStatus) : Z :=
  if negb (StopSignal w =? SIGTRAP) then -1 else Z.shiftr (Z.shiftr w shift) 8.

(** The kernel's words for a process that exited with a code, and for one that a signal
    ended. *)
Definition exited_with (code : Z) : WaitStatus := Z.shiftl (Z.land code 0xFF) 8.
Definition killed_by (signal : Z) (dumped : bool) : WaitStatus :=
  Z.lor signal (if dumped then core else 0).

(** [syscall.Signal.String]. *)
Definition signals : list string :=
  [""; "hangup"; "interrupt"; "quit"; "illegal instruction"; "trace/breakpoint trap"; "aborted";
   "bus error"; "floating point exception"; "killed"; "user defined signal 1";
   "segmentation fault"; "user defined signal 2"; "broken pipe"; "alarm clock"; "terminated";
   "stack fault"; "child exited"; "continued"; "stopped (signal)"; "stopped";
   "stopped (tty input)"; "stopped (tty output)"; "urgent I/O condition";
   "CPU time limit exceeded"; "file size limit exceeded"; "virtual timer expired";
   "profiling timer expired"; "window changed"; "I/O possible"; "power failure";
   "bad system call"].

Definition signal_string (s : Z) : string :=
  match (if 0 <=? s then signals !! Z.to_nat s else None) with
  | Some name => if String.eqb name "" then "signal " +:+ format_int s else name
  | None => "signal " +:+ format_int s
  end.

(** ** [ProcessState] *)

Record ProcessState := mkProcessState { pid : Z; status : WaitStatus }.

Definition Pid (p : ProcessState) : Z := pid p.
Definition ps_Exited (p : ProcessState) : bool := Exited (status p).
Definition Success (p : ProcessState) : bool := ExitStatus (status p) =? 0.

(** [ExitCode] and [String] take a pointer that may be nil. *)
Definition ExitCode (p : option ProcessState) : Z :=
  match p with None => -1 | Some p => ExitStatus (status p) end.

Definition state_string (p : option ProcessState) : string :=
  match p with
  | None => "<nil>"
  | Some p =>
      let status := status p in
      let res :=
        if Exited status then "exit status " +:+ format_int (ExitStatus status)
        else if Signaled status then "signal: " +:+ signal_string (Signal status)
        else if Stopped status then
          "stop signal: " +:+ signal_string (StopSignal status) +:+
          (if (StopSignal status =? SIGTRAP) && negb (TrapCause status =? 0)
           then " (trap " +:+ format_int (TrapCause status) +:+ ")" else "")
        else if Continued status then "continued" else "" in
      if CoreDump status then res +:+ " (core dumped)" else res
  end.

(** ** The environment of a command *)

Section env.
Context `{GoMapRange}.

(** [Builder.envsList], in some order. *)
Definition envsList (envMap : gmap string string) : list string :=
  (λ kv, kv.1 +:+ "=" +:+ kv.2) <$> map_range envMap.

(** [cmd.Env] of [Builder.Run]. *)
Definition command_env (environ : list string) (envMap : gmap string string) : list string :=
  environ ++ envsList envMap.
End env.

(** [Builder.WithEnv]: the added variables win. *)
Definition WithEnv (builder added : gmap string string) : gmap string string := added ∪ builder.

(** How [os/exec] and a Unix process see a list of ["key=value"] strings: the last one of a
    key counts. *)
Definition split_env (kv : string) : option (string * string) := cut kv "=".
Definition getenv (env : list string) (key : string) : option string :=
  match find_last (λ kv, match split_env kv with
                         | Some (k, _) => String.eqb k key
                         | None => false
                         end) env with
  | Some kv => snd <$> split_env kv
  | None => None
  end.

(** ** The end of [Builder.Run] *)

(** What [Run] returns for a command it could not start. *)
Definition run_not_started (e : err) : RunResult * option err :=
  (mkRun "" "" None, Some (wrapf "subprocess cmd.Start() error: " e)).

(** [wait]: the status that arrived, or the error of a context that ended first. *)
Definition wait (received : option WaitStatus) : WaitStatus * option err :=
  match received with
  | Some status => (status, None)
  | None => (0, Some (errorf "context deadline exceeded"))
  end.

(** What [Run] returns once the process is gone: [own] is [cmd.ProcessState.String()], the
    state [cmd.Wait] saw itself, if any. *)
Definition run_finished (processPid : Z) (own : string) (received : option WaitStatus)
    (stdout stderr : string) : RunResult * option err :=
  let '(cmdWaitStatus, e) := wait received in
  let state := mkProcessState processPid cmdWaitStatus in
  let result := mkRun stdout stderr (Some (ExitCode (Some state))) in
  match e with
  | Some e => (result, Some (wrapf ("subprocess run error while waiting cmd " +:+ own +:+ ": ") e))
  | None =>
      if negb (ExitCode (Some state) =? 0)
      then (result, Some (errorf ("subprocess run cmd result " +:+ state_string (Some state))))
      else (result, None)
  end.

(** ** Wait statuses *)

Lemma land_mask w : Z.land w mask = w mod 128.
Proof. exact (Z.land_ones w 7 ltac:(lia)). Qed.
Lemma land_byte w : Z.land w 0xFF = w mod 256.
Proof. exact (Z.land_ones w 8 ltac:(lia)). Qed.

Lemma exited_with_mod code : exited_with code = (code mod 256) * 256.
Proof. unfold exited_with. rewrite land_byte, Z.shiftl_mul_pow2 by lia. done. Qed.

Lemma Exited_exited_with code : Exited (exited_with code) = true.
Proof.
  unfold Exited, exited. rewrite land_mask, exited_with_mod, Z.eqb_eq.
  replace (code mod 256 * 256) with (code mod 256 * 2 * 128) by lia. apply Z.mod_mul. lia.
Qed.

Lemma ExitStatus_exited_with code : ExitStatus (exited_with code) = code mod 256.
Proof.
  unfold ExitStatus. rewrite Exited_exited_with. cbn [negb].
  rewrite land_byte, Z.shiftr_div_pow2, exited_with_mod by (unfold shift; lia).
  change (2 ^ shift) with 256. rewrite Z.div_mul, Z.mod_mod by lia. done.
Qed.

Lemma killed_by_mask signal dumped :
  0 < signal < 127 → Z.land (killed_by signal dumped) mask = signal.
Proof.
  intros Hs. unfold killed_by. rewrite Z.land_lor_distr_l.
  replace (Z.land (if dumped then core else 0) mask) with 0 by (by destruct dumped).
  rewrite Z.lor_0_r, land_mask. apply Z.mod_small. lia.
Qed.

Lemma killed_by_core signal dumped :
  0 < signal < 127 → negb (Z.land (killed_by signal dumped) core =? 0) = dumped.
Proof.
  intros Hs. unfold killed_by. rewrite Z.land_lor_distr_l.
  assert (Z.land signal core = 0) as ->.
  { apply Z.bits_inj'. intros n Hn. rewrite Z.land_spec, Z.bits_0.
    change core with (2 ^ 7). rewrite Z.pow2_bits_eqb by lia.
    destruct (Z.eqb_spec 7 n) as [<-|]; [|apply andb_false_r]. rewrite andb_true_r.
    apply Z.bits_above_log2; [lia|]. apply Z.log2_lt_pow2; lia. }
  by destruct dumped.
Qed.

Lemma killed_not_exited signal dumped :
  0 < signal < 127 →
  Exited (killed_by signal dumped) = false ∧ Signaled (killed_by signal dumped) = true.
Proof.
  intros Hs. unfold Exited, Signaled. rewrite killed_by_mask by done. unfold exited, stopped.
  split; [apply Z.eqb_neq; lia|]. apply andb_true_iff.
  split; apply negb_true_iff, Z.eqb_neq; lia.
Qed.

(** A wait status determines how the process ended, and is determined by it. *)
Inductive how := HowExited (code : Z) | HowKilled (signal : Z) (dumped : bool).

Definition decode (w : WaitStatus) : option how :=
  if Exited w then Some (HowExited (ExitStatus w))
  else if Signaled w then Some (HowKilled (Signal w) (CoreDump w)) else None.

Definition encode (h : how) : WaitStatus :=
  match h with
  | HowExited code => exited_with code
  | HowKilled signal dumped => killed_by signal dumped
  end.

Definition how_ok (h : how) : Prop :=
  match h with HowExited code => 0 <= code < 256 | HowKilled signal _ => 0 < signal < 127 end.

(** Wait statuses are read back.  For every way a process can end, the accessors applied
    to the kernel's word give that way back: the code of an exit, or the signal and whether
    there was a core dump. *)
Theorem wait_status_roundtrip h : how_ok h → decode (encode h) = Some h.
Proof.
  destruct h as [code|signal dumped]; simpl; intros Hok; unfold decode.
  - rewrite Exited_exited_with, ExitStatus_exited_with, Z.mod_small by lia. done.
  - destruct (killed_not_exited signal dumped Hok) as [-> Hs]. rewrite Hs.
    unfold Signal, CoreDump. by rewrite Hs, killed_by_mask, killed_by_core.
Qed.

Lemma wait_status_roundtrip_witness :
  decode (encode (HowExited 74)) = Some (HowExited 74) ∧
  decode (encode (HowKilled 9 true)) = Some (HowKilled 9 true).
Proof. split; apply wait_status_roundtrip; simpl; lia. Defined.

(** ** The verdict of a run *)

(** What a run reports.  A command that could not be started reports no state and an
    error.  A finished one reports success exactly when its own status came and says exit code
    0; otherwise there is an error, and the exit code beside it is the process's for an exit,
    -1 after a signal, and 0 when the context ended first. *)
Theorem run_verdict processPid own stdout stderr :
  (∀ e, rr_exit (run_not_started e).1 = None ∧ is_Some (run_not_started e).2) ∧
  (∀ h, how_ok h →
     let '(result, e) := run_finished processPid own (Some (encode h)) stdout stderr in
     rr_stdout result = stdout ∧ rr_stderr result = stderr ∧
     rr_exit result = Some (match h with HowExited code => code | HowKilled _ _ => -1 end) ∧
     (e = None ↔ h = HowExited 0)) ∧
  let '(result, e) := run_finished processPid own None stdout stderr in
  rr_stdout result = stdout ∧ rr_stderr result = stderr ∧ rr_exit result = Some 0 ∧ is_Some e.
Proof.
  split; [by intros e; simpl; eauto|]. split; [|by simpl; eauto].
  intros [code|signal dumped]; simpl; intros Hok; unfold run_finished, wait, ExitCode; simpl.
  - rewrite ExitStatus_exited_with, Z.mod_small by lia.
    destruct (Z.eqb_spec code 0) as [->|]; simpl; split_and!; naive_solver.
  - destruct (killed_not_exited signal dumped Hok) as [Hx _].
    unfold ExitStatus. rewrite Hx. simpl. split_and!; naive_solver.
Qed.

(** ** Environments *)

Lemma cut_first c k v :
  contains k (String c "") = false → cut (k +:+ String c v) (String c "") = Some (k, v).
Proof.
  induction k as [|d k IH]; intros Hk.
  - simpl. by rewrite Ascii.eqb_refl.
  - rewrite contains_char_cons in Hk. apply orb_false_iff in Hk as [Hd Hk].
    rewrite append_cons. simpl. rewrite Ascii.eqb_sym, Hd. by rewrite IH.
Qed.

(** The bindings of a map are found again in its list of variables. *)
Lemma split_env_binding k v :
  contains k "=" = false → split_env (k +:+ "=" +:+ v) = Some (k, v).
Proof. apply cut_first. Qed.

Section env_facts.
Context `{GoMapRange}.

Definition plain_keys (m : gmap string string) : Prop :=
  ∀ k v, m !! k = Some v → contains k "=" = false.

Lemma elem_of_envsList m s :
  s ∈ envsList m ↔ ∃ k v, m !! k = Some v ∧ s = k +:+ "=" +:+ v.
Proof.
  unfold envsList. rewrite list_elem_of_fmap. split.
  - intros ([k v] & -> & Hkv). rewrite map_range_perm in Hkv.
    apply elem_of_map_to_list in Hkv. eauto.
  - intros (k & v & Hm & ->). exists (k, v).
    by rewrite map_range_perm, elem_of_map_to_list.
Qed.

Definition env_key_is (key kv : string) : bool :=
  match split_env kv with Some (k, _) => String.eqb k key | None => false end.

Lemma getenv_app l l' k :
  getenv (l ++ l') k = match getenv l' k with Some v => Some v | None => getenv l k end.
Proof.
  unfold getenv. fold (env_key_is k).
  destruct (find_last (env_key_is k) l') as [kv|] eqn:Hl'.
  - apply find_last_Some in Hl' as (l1 & l2 & -> & Hp & Hn).
    assert (find_last (env_key_is k) (l ++ l1 ++ kv :: l2) = Some kv) as ->.
    { apply find_last_Some. exists (l ++ l1), l2. by rewrite <-app_assoc. }
    unfold env_key_is in Hp. by destruct (split_env kv) as [[??]|].
  - apply find_last_None in Hl'.
    destruct (find_last (env_key_is k) l) as [kv|] eqn:Hl.
    + apply find_last_Some in Hl as (l1 & l2 & -> & Hp & Hn).
      assert (find_last (env_key_is k) ((l1 ++ kv :: l2) ++ l') = Some kv) as ->; [|done].
      apply find_last_Some. exists l1, (l2 ++ l'). rewrite <-app_assoc.
      split_and!; [done|done|by apply Forall_app].
    + apply find_last_None in Hl.
      assert (find_last (env_key_is k) (l ++ l') = None) as ->; [|done].
      apply find_last_None. by apply Forall_app.
Qed.

Lemma getenv_envsList m k :
  plain_keys m → getenv (envsList m) k = m !! k.
Proof.
  intros Hm. unfold getenv. fold (env_key_is k).
  destruct (find_last (env_key_is k) (envsList m)) as [kv|] eqn:Hf.
  - apply find_last_elem in Hf as [(k' & v & Hk & ->)%elem_of_envsList Hp].
    unfold env_key_is in Hp. rewrite split_env_binding in Hp |- * by eauto.
    apply String.eqb_eq in Hp as ->. by rewrite Hk.
  - destruct (m !! k) as [v|] eqn:Hk; [|done]. apply find_last_None in Hf.
    rewrite Forall_forall in Hf. specialize (Hf (k +:+ "=" +:+ v)).
    unfold env_key_is in Hf. rewrite split_env_binding, String.eqb_refl in Hf by eauto.
    discriminate Hf. apply elem_of_envsList. eauto.
Qed.

(** The environment of a command.  Whatever order Go ranges over the map in, the command
    sees every variable of the map with the map's value, and of the others what the process's
    own environment says; adding variables twice lets the later ones win. *)
Theorem command_env_lookup environ m m' k :
  plain_keys m → plain_keys m' →
  getenv (command_env environ (WithEnv m m')) k =
    match m' !! k, m !! k with
    | Some v, _ => Some v
    | None, Some v => Some v
    | None, None => getenv environ k
    end.
Proof.
  intros Hm Hm'. unfold command_env, WithEnv. rewrite getenv_app, getenv_envsList.
  - rewrite lookup_union. by destruct (m' !! k), (m !! k).
  - intros x v [?|[_ ?]]%lookup_union_Some_raw; eauto.
Qed.
End env_facts.

Lemma command_env_lookup_witness :
  @getenv (@command_env canonical_map_range ["PATH=/bin"; "HOME=/root"]
    (WithEnv {["HOME" := "/tmp"]} {["WALG_X" := "a=b"]})) "HOME" = Some "/tmp".
Proof.
  rewrite (@command_env_lookup canonical_map_range); [reflexivity| |];
    intros k v [<- <-]%lookup_singleton_Some; reflexivity.
Defined.
