(* ===== verification/Command.v ===== *)
(** [internal/util/cmd/cmd.go]: the [Builder], from [New] to the process it starts.

    A [Builder] is passed by value, but its variables are in a map, which all copies share; so it
    lives in the heap of [Memory], whose cells are maps here.  [Process] has what [Run] makes of
    a finished process; [Client] runs every command of wal-g by the chain of [walg_command]. *)
From Stdlib Require Import ZArith.
From stdpp Require Import base list gmap strings option.
From S2P Require Import Prelude GoStrings Effects Memory Config Process.
Local Open Scope string_scope.
Local Open Scope list_scope.

(** A location holds a [map[string]string]. *)
Abbreviation envs := (gmap string string).
#[export] Instance env_cell : Cell (C := envs) envs := {|
  inj m := m; prj m := Some m; zero := ∅; prj_inj _ := eq_refl;
|}.

Section command.
Context `{GoMapRange} {Context_t : Type} (Background : Context_t).

Abbreviation prog := (mem (C := envs)).

(** ** Builders *)

Record Builder := mkBuilder {
  b_ctx : Context_t;
  b_name : string;
  b_envMap : loc;
  b_args : list string;
}.

Definition New (name : string) (arg : list string) : prog Builder :=
  envMap ← new envs;
  mret (mkBuilder Background name envMap arg).

(** [for key, value := range envMap { c.envMap[key] = value }]. *)
Fixpoint set_variables (envMap : loc) (added : list (string * string)) : prog () :=
  match added with
  | [] => mret tt
  | (key, value) :: added =>
      m ← load envMap;
      _ ← store envMap (<[key := value]> m);
      set_variables envMap added
  end.

Definition Builder_WithEnv (c : Builder) (envMap : loc) : prog Builder :=
  m ← load envMap;
  _ ← set_variables (b_envMap c) (map_range m);
  mret c.

Definition WithContext (c : Builder) (ctx : Context_t) : prog Builder :=
  mret (mkBuilder ctx (b_name c) (b_envMap c) (b_args c)).

Definition Builder_envsList (c : Builder) : prog (list string) :=
  m ← load (b_envMap c);
  mret (envsList m).

(** ** [Run] *)

(** The [exec.Cmd] that [Run] starts. *)
Record Cmd := mkCmd {
  cmd_ctx : Context_t;
  cmd_name : string;
  cmd_args : list string;
  cmd_Env : list string;
}.

(** What becomes of it: it does not start, or it gets a process id, and in the end its output is
    read, with the status that [startAndSubscribe] delivers before the context ends, if any. *)
Inductive outcome :=
| NotStarted (e : err)
| Ended (processPid : Z) (own : string) (received : option WaitStatus) (stdout stderr : string).

Definition run_outcome (o : outcome) : RunResult * option err :=
  match o with
  | NotStarted e => run_not_started e
  | Ended processPid own received stdout stderr => run_finished processPid own received stdout stderr
  end.

(** [environ] is the environment of this process, [os] what the operating system does. *)
Definition Run (environ : list string) (os : Cmd → outcome) (c : Builder)
    : prog (Cmd * (RunResult * option err)) :=
  env ← Builder_envsList c;
  let cmd := mkCmd (b_ctx c) (b_name c) (b_args c) (environ ++ env) in
  mret (cmd, run_outcome (os cmd)).

(** [cmd.New("wal-g", args...).WithContext(ctx).WithEnv(env).Run()], as in every operation of
    [pkg/walg]. *)
Definition walg_command (environ : list string) (os : Cmd → outcome) (ctx : Context_t)
    (args : list string) (env : loc) : prog (Cmd * (RunResult * option err)) :=
  c ← New "wal-g" args;
  c ← WithContext c ctx;
  c ← Builder_WithEnv c env;
  Run environ os c.

(** ** What they do to the maps *)

Lemma load_map (h : gmap loc envs) a m : h !! a = Some m → load a h = Some (m, h).
Proof. intros Ha. by apply (load_inj (M := envs)). Qed.

Lemma set_variables_spec added (h : gmap loc envs) a m :
  h !! a = Some m →
  set_variables a added h = Some (tt, <[a := foldl (λ m kv, <[kv.1 := kv.2]> m) m added]> h).
Proof.
  revert h m. induction added as [|[key value] added IH]; intros h m Ha; simpl.
  - by rewrite insert_id.
  - rewrite (mem_bind_some _ _ _ _ _ (load_map _ _ _ Ha)).
    rewrite (mem_bind_some _ _ _ _ _ (store_some (M := envs) _ _ _ (ex_intro _ _ Ha))).
    rewrite (IH _ (<[key := value]> m)) by apply lookup_insert_eq.
    by rewrite insert_insert_eq.
Qed.

Lemma set_all_lookup (added : list (string * string)) (m : envs) k :
  NoDup added.*1 →
  foldl (λ m kv, <[kv.1 := kv.2]> m) m added !! k =
    match (list_to_map added : envs) !! k with Some v => Some v | None => m !! k end.
Proof.
  revert m. induction added as [|[key value] added IH]; intros m; simpl; [done|].
  intros [Hk Hn]%list.NoDup_cons. rewrite IH by done. destruct (decide (k = key)) as [->|Hne].
  - by rewrite (not_elem_of_list_to_map_1 _ _ Hk), !lookup_insert_eq.
  - by rewrite !lookup_insert_ne.
Qed.

(** Ranging over the added variables, in any order, sets all of them. *)
Lemma set_all_union (added m : envs) :
  foldl (λ m kv, <[kv.1 := kv.2]> m) m (map_range added) = WithEnv m added.
Proof.
  apply map_eq. intros k.
  assert (NoDup (map_range added).*1) as Hn.
  { rewrite map_range_perm. apply NoDup_fst_map_to_list. }
  rewrite set_all_lookup by done. unfold WithEnv. rewrite lookup_union.
  rewrite (list_to_map_proper _ (map_to_list added)), list_to_map_to_list
    by (done || apply map_range_perm).
  by destruct (added !! k), (m !! k).
Qed.

(** [WithEnv] writes into the map of its receiver, and returns a builder with the same map. *)
Lemma Builder_WithEnv_spec (h : gmap loc envs) c e m added :
  h !! b_envMap c = Some m → h !! e = Some added →
  Builder_WithEnv c e h = Some (c, <[b_envMap c := WithEnv m added]> h).
Proof.
  intros Hm He. unfold Builder_WithEnv. rewrite (mem_bind_some _ _ _ _ _ (load_map _ _ _ He)).
  rewrite (mem_bind_some _ _ _ _ _ (set_variables_spec _ _ _ _ Hm)).
  by rewrite set_all_union.
Qed.

Lemma Run_spec environ os (h : gmap loc envs) c m :
  h !! b_envMap c = Some m →
  let cmd := mkCmd (b_ctx c) (b_name c) (b_args c) (command_env environ m) in
  Run environ os c h = Some ((cmd, run_outcome (os cmd)), h).
Proof.
  intros Hm. unfold Run, Builder_envsList.
  erewrite mem_bind_some; [|by rewrite (mem_bind_some _ _ _ _ _ (load_map _ _ _ Hm))]. done.
Qed.

(** ** The commands of wal-g *)

(** The commands of wal-g are the commands asked for.  Whatever maps there are and in whatever
    order Go ranges over them, the chain ends, starts wal-g once, in the context and with the
    arguments given, and returns what became of it; the process sees every variable of the
    client with the client's value and all others as the plugin's own environment has them.  No
    map that existed before is changed, so two commands do not see each other's variables. *)
Lemma walg_command_spec environ os ctx args (h : gmap loc envs) e env :
  h !! e = Some env → plain_keys env →
  ∃ cmd h', walg_command environ os ctx args e h = Some ((cmd, run_outcome (os cmd)), h') ∧
    h ⊆ h' ∧
    cmd_ctx cmd = ctx ∧ cmd_name cmd = "wal-g" ∧ cmd_args cmd = args ∧
    cmd_Env cmd = command_env environ env ∧
    ∀ k, getenv (cmd_Env cmd) k =
      match env !! k with Some v => Some v | None => getenv environ k end.
Proof.
  intros He Hp. set (a := fresh (dom h)).
  assert (h !! a = None) as Ha by (apply not_elem_of_dom, is_fresh).
  assert (a ≠ e) as Hne by congruence.
  set (c := mkBuilder ctx "wal-g" a args). set (h1 := <[a := ∅ : envs]> h).
  assert (WithEnv ∅ env = env) as Henv by (unfold WithEnv; apply map_union_empty).
  exists (mkCmd ctx "wal-g" args (command_env environ env)), (<[a := env]> h1).
  assert (Builder_WithEnv c e h1 = Some (c, <[a := env]> h1)) as Hw.
  { rewrite (Builder_WithEnv_spec h1 c e ∅ env); [by rewrite Henv|apply lookup_insert_eq|].
    unfold h1. by rewrite lookup_insert_ne. }
  split_and!; [| |done..|].
  - unfold walg_command, New.
    rewrite (mem_bind_some _ _ h (mkBuilder Background "wal-g" a args) h1) by done.
    rewrite (mem_bind_some _ _ h1 c h1) by done. rewrite (mem_bind_some _ _ _ _ _ Hw).
    by rewrite (Run_spec _ _ _ c env) by apply lookup_insert_eq.
  - unfold h1. rewrite insert_insert_eq. by apply insert_subseteq.
  - intros k. simpl. rewrite <-Henv at 1. rewrite command_env_lookup; [|by intros ?? ?|done].
    by rewrite lookup_empty.
Qed.

Lemma ToEnvMap_other config k : k ∉ (config_fields config).*1 → ToEnvMap config !! k = None.
Proof. intros Hk. unfold ToEnvMap. by rewrite foldl_add_field_other. Qed.

Lemma config_names_plain config n : n ∈ (config_fields config).*1 → contains n "=" = false.
Proof.
  assert (Forall (λ n, contains n "=" = false) (config_fields config).*1) as Hf
    by (repeat constructor).
  rewrite list.Forall_forall in Hf. apply Hf.
Qed.

Lemma ToEnvMap_plain config : plain_keys (ToEnvMap config).
Proof.
  intros k v Hk. destruct (decide (k ∈ (config_fields config).*1)) as [Hin|Hn].
  - by eapply config_names_plain.
  - by rewrite ToEnvMap_other in Hk.
Qed.

(** C13: wal-g gets exactly the configuration of its client.  From any heap that holds the
    variables of a configuration, in whatever order Go ranges over them, the chain every
    command of [pkg/walg] is made of ends, starts wal-g with the arguments and in the context
    given, and returns what became of it.  The process sees every field of the configuration
    that is set with its value, every other variable as the plugin's own environment has it,
    and so the ones whose field is empty too.  No map that existed before is changed. *)
Theorem client_command environ os ctx args (h : gmap loc envs) e config :
  h !! e = Some (ToEnvMap config) →
  ∃ cmd h', walg_command environ os ctx args e h = Some ((cmd, run_outcome (os cmd)), h') ∧
    h ⊆ h' ∧ cmd_ctx cmd = ctx ∧ cmd_name cmd = "wal-g" ∧ cmd_args cmd = args ∧
    (∀ n f, (n, f) ∈ config_fields config → is_zero f = false →
       getenv (cmd_Env cmd) n = Some (field_string f)) ∧
    (∀ n f, (n, f) ∈ config_fields config → is_zero f = true →
       getenv (cmd_Env cmd) n = getenv environ n) ∧
    (∀ n, n ∉ (config_fields config).*1 → getenv (cmd_Env cmd) n = getenv environ n).
Proof.
  intros He. destruct (walg_command_spec environ os ctx args h e _ He (ToEnvMap_plain config))
    as (cmd & h' & Hrun & Hsub & Hctx & Hname & Hargs & _ & Henv).
  exists cmd, h'. split_and!; [done..| | |].
  - intros n f Hin Hz. by rewrite Henv, (ToEnvMap_lookup _ _ _ Hin); unfold env_value; rewrite Hz.
  - intros n f Hin Hz. by rewrite Henv, (ToEnvMap_lookup _ _ _ Hin); unfold env_value; rewrite Hz.
  - intros n Hn. by rewrite Henv, ToEnvMap_other.
Qed.

(** [WithEnv] "returns new Builder": the old one runs with the added variables as well. *)
Theorem with_env_shared environ os (h : gmap loc envs) c e m added :
  h !! b_envMap c = Some m → h !! e = Some added →
  ∃ h', Builder_WithEnv c e h = Some (c, h') ∧
    ∃ cmd, Run environ os c h' = Some ((cmd, run_outcome (os cmd)), h') ∧
      cmd_Env cmd = command_env environ (WithEnv m added).
Proof.
  intros Hm He. eexists. split; [by apply Builder_WithEnv_spec|].
  eexists. split; [apply Run_spec, lookup_insert_eq|done].
Qed.
End command.

(** A configuration that sets the prefix, over an environment that sets another and the
    region. *)
Definition some_config : Config :=
  mkConfig "" "" false "" "" "" "" 5 "/controller/run" "postgres" "" 32 "" "" "s3://bucket/17" "30s"
    "brotli" 6 314572800 12 0 "0m" false "1KB" "" "" "" "" 536870912 "" "" "True" "" "STANDARD"
    "False" 0 16 8.
Definition some_environ : list string := ["AWS_REGION=eu"; "WALE_S3_PREFIX=s3://other"].

Lemma client_command_witness :
  let os := λ cmd, Ended 7 "exit status 0" (Some 0%Z) (hd "" (cmd_args cmd)) "" in
  ∃ cmd h,
    @walg_command canonical_map_range () tt some_environ os tt ["st"; "ls"] 4
      {[4 := ToEnvMap some_config]} = Some ((cmd, (mkRun "st" "" (Some 0%Z), None)), h) ∧
    getenv (cmd_Env cmd) "WALE_S3_PREFIX" = Some "s3://bucket/17" ∧
    getenv (cmd_Env cmd) "AWS_REGION" = Some "eu".
Proof.
  intros os.
  destruct (@client_command canonical_map_range () tt some_environ os tt ["st"; "ls"]
    {[4 := ToEnvMap some_config]} 4 some_config (lookup_singleton_eq _ _))
    as (cmd & h & Hrun & _ & _ & _ & Hargs & Hset & Hunset & _).
  exists cmd, h. split; [|split].
  - rewrite Hrun. unfold os. rewrite Hargs. reflexivity.
  - apply (Hset "WALE_S3_PREFIX" (FString "s3://bucket/17")); [|reflexivity].
    eapply (list_elem_of_lookup_2 _ 14). reflexivity.
  - rewrite (Hunset "AWS_REGION" (FString "")); [reflexivity| |reflexivity].
    eapply (list_elem_of_lookup_2 _ 3). reflexivity.
Defined.
