(* ===== verification/Reaper.v ===== *)
(** [internal/util/cmd/subscribe.go] and [reaper.go], with [Builder.Run] and [wait] of
    [cmd.go]: how the exit status of a process gets from the zombie reaper, which waits for
    every child of this process, to the caller that started it.

    All goroutines and the kernel are one step relation.  Each function that runs under
    [subscribersMx] from end to end is one step; a caller's other steps are the receive of
    [wait], the two waits of [cmd.Wait] (for the process, then for the end of its output, which
    descendants may hold open after it) and the deferred unsubscription, so every interleaving
    of callers, reaper, exits, descendants and reuse of process ids is covered.

    A process is a number of its own besides its id, and stands for the channel made for it.
    [os.Process.Wait] of Go 1.26 on Linux waits on a pidfd, hence for the process it started
    and no other of the same id.  [Wait4(-1, .., WNOHANG)] answers with a zombie, that there
    is none, ECHILD or EINTR. *)
From Stdlib Require Import ZArith.
From stdpp Require Import base list gmap relations.
From S2P Require Import Prelude Process.
Local Open Scope list_scope.

(** A child of this process: alive, or a zombie with its status. *)
Record child := mkChild { ch_proc : nat; ch_exit : option WaitStatus }.

(** A call of [Run] after [startAndSubscribe]: in [wait]; in [cmd.Wait], with the status
    received or none after the context ended, until its process is gone; there still, until the
    goroutines that copy stdout and stderr see the end of their pipes; at the deferred
    unsubscription; returned. *)
Inductive caller :=
| Waiting (pid : Z)
| Draining (pid : Z) (received : option WaitStatus)
| Copying (pid : Z) (received : option WaitStatus)
| Unsubscribing (pid : Z) (received : option WaitStatus)
| Finished (received : option WaitStatus).

(** [ZombieProcessReaper]: before [signal.Notify], in [doReaping], at the select, returned. *)
Inductive reaper_state := NotStarted | Reaping | Idle | Stopped.

(** [channels] holds what is in the buffer of each process's channel.  [sigCh] tells whether
    a SIGCHLD is pending.  [ended] is what the kernel knows and no code reads: the status each
    process ended with.  [pipes] counts, for each command, its descendants that have its stdout
    or stderr open; they may outlive it. *)
Record state := mkState {
  children : gmap Z child;
  subscribers : gmap Z nat;
  channels : gmap nat (option WaitStatus);
  callers : gmap nat caller;
  reaper : reaper_state;
  sigCh : bool;
  next : nat;
  ended : gmap nat WaitStatus;
  pipes : gmap nat nat;
}.

Definition init : state := mkState ∅ ∅ ∅ ∅ NotStarted false 0 ∅ ∅.

Definition set_children (s : state) (c : gmap Z child) : state :=
  mkState c (subscribers s) (channels s) (callers s) (reaper s) (sigCh s) (next s) (ended s) (pipes s).
Definition set_subscribers (s : state) (m : gmap Z nat) : state :=
  mkState (children s) m (channels s) (callers s) (reaper s) (sigCh s) (next s) (ended s) (pipes s).
Definition set_channel (s : state) (ch : nat) (v : option WaitStatus) : state :=
  mkState (children s) (subscribers s) (<[ch := v]> (channels s)) (callers s) (reaper s)
    (sigCh s) (next s) (ended s) (pipes s).
Definition set_caller (s : state) (p : nat) (c : caller) : state :=
  mkState (children s) (subscribers s) (channels s) (<[p := c]> (callers s)) (reaper s)
    (sigCh s) (next s) (ended s) (pipes s).
Definition set_reaper (s : state) (r : reaper_state) (sig : bool) : state :=
  mkState (children s) (subscribers s) (channels s) (callers s) r sig (next s) (ended s) (pipes s).

(** ** [subscribe.go] *)

(** [startAndSubscribe] of a command that gets this process id. *)
Definition startAndSubscribe (pid : Z) (s : state) : state :=
  let p := next s in
  mkState (<[pid := mkChild p None]> (children s)) (<[pid := p]> (subscribers s))
    (<[p := None]> (channels s)) (<[p := Waiting pid]> (callers s)) (reaper s) (sigCh s) (S p)
    (ended s) (pipes s).

Definition unsubscribeFromProcessExits (pid : Z) (ch : nat) (s : state) : state :=
  if decide (subscribers s !! pid = Some ch)
  then set_subscribers s (delete pid (subscribers s)) else s.

(** [None]: the send blocks, with the mutex held. *)
Definition notifyProcessExitLocked (pid : Z) (wstatus : WaitStatus) (s : state) : option state :=
  match subscribers s !! pid with
  | None => Some s
  | Some ch =>
      match channels s !! ch with
      | Some None => Some (set_channel (set_subscribers s (delete pid (subscribers s))) ch
                             (Some wstatus))
      | _ => None
      end
  end.

(** ** [reaper.go] *)

(** [reapProcess] when [Wait4] answers with the zombie [pid]. *)
Definition reapProcess (pid : Z) (s : state) : option state :=
  match children s !! pid with
  | Some (mkChild _ (Some status)) =>
      notifyProcessExitLocked pid status (set_children s (delete pid (children s)))
  | _ => None
  end.

Definition is_zombie (c : child) : Prop := is_Some (ch_exit c).
Definition zombies (s : state) : Prop := ∃ pid c, children s !! pid = Some c ∧ is_zombie c.

(** ** [Run] *)

(** [cmd.Wait] of a caller waits first for its own process, and reaps it itself if the reaper
    has not. *)
Definition cmdWait (p : nat) (pid : Z) (received : option WaitStatus) (s : state)
    : option state :=
  let leave s := set_caller s p (Copying pid received) in
  match children s !! pid with
  | Some (mkChild q e) =>
      if decide (q = p)
      then match e with
           | None => None
           | Some _ => Some (leave (set_children s (delete pid (children s))))
           end
      else Some (leave s)
  | None => Some (leave s)
  end.

Definition descendants (s : state) (p : nat) : nat := default 0 (pipes s !! p).

(** Then for the goroutines that copy the output, which read until every holder of the pipes has
    closed them; there is no [WaitDelay], and the end of the context does not end this. *)
Definition cmdWaitOutput (p : nat) (pid : Z) (received : option WaitStatus) (s : state)
    : option state :=
  match descendants s p with
  | 0 => Some (set_caller s p (Unsubscribing pid received))
  | S _ => None
  end.

(** ** Steps *)

(** What the kernel and the users do. *)
Definition adopt (pid : Z) (s : state) : state :=
  let p := next s in
  mkState (<[pid := mkChild p None]> (children s)) (subscribers s) (channels s) (callers s)
    (reaper s) (sigCh s) (S p) (ended s) (pipes s).

(** The process ends and SIGCHLD is sent; a full [sigCh] drops it, and nobody listens before
    [signal.Notify]. *)
Definition process_exit (pid : Z) (p : nat) (status : WaitStatus) (s : state) : state :=
  mkState (<[pid := mkChild p (Some status)]> (children s)) (subscribers s) (channels s)
    (callers s) (reaper s)
    (match reaper s with Reaping | Idle => true | _ => sigCh s end)
    (next s) (<[p := status]> (ended s)) (pipes s).

Definition set_pipes (s : state) (p : nat) (n : nat) : state :=
  mkState (children s) (subscribers s) (channels s) (callers s) (reaper s) (sigCh s) (next s)
    (ended s) (<[p := n]> (pipes s)).

(** The command itself or a descendant that has its pipes can pass them on. *)
Definition can_inherit (s : state) (p : nat) : Prop :=
  descendants s p ≠ 0 ∨ ∃ pid, children s !! pid = Some (mkChild p None).

Inductive external : state → state → Prop :=
| ext_start s pid : children s !! pid = None → external s (startAndSubscribe pid s)
| ext_adopt s pid : children s !! pid = None → external s (adopt pid s)
| ext_exit s pid p status : children s !! pid = Some (mkChild p None) →
    external s (process_exit pid p status s)
| ext_inherit s p : can_inherit s p → external s (set_pipes s p (S (descendants s p)))
| ext_close s p n : descendants s p = S n → external s (set_pipes s p n)
| ext_cancel s p pid : callers s !! p = Some (Waiting pid) →
    external s (set_caller s p (Draining pid None))
| ext_reaper_start s : reaper s = NotStarted → external s (set_reaper s Reaping (sigCh s))
| ext_reaper_stop s : reaper s = Idle → external s (set_reaper s Stopped (sigCh s)).

(** What the code does by itself. *)
Inductive internal : state → state → Prop :=
| int_reap s pid s' : reaper s = Reaping → reapProcess pid s = Some s' → internal s s'
| int_no_more s : reaper s = Reaping → ¬ zombies s → internal s (set_reaper s Idle (sigCh s))
| int_wake s : reaper s = Idle → sigCh s = true → internal s (set_reaper s Reaping false)
| int_receive s p pid status : callers s !! p = Some (Waiting pid) →
    channels s !! p = Some (Some status) →
    internal s (set_channel (set_caller s p (Draining pid (Some status))) p None)
| int_wait s p pid received s' : callers s !! p = Some (Draining pid received) →
    cmdWait p pid received s = Some s' → internal s s'
| int_output s p pid received s' : callers s !! p = Some (Copying pid received) →
    cmdWaitOutput p pid received s = Some s' → internal s s'
| int_unsubscribe s p pid received : callers s !! p = Some (Unsubscribing pid received) →
    internal s (set_caller (unsubscribeFromProcessExits pid p s) p (Finished received)).

Definition step (s s' : state) : Prop := external s s' ∨ internal s s'.
Definition reachable (s : state) : Prop := rtc step init s.

(** ** The invariant *)

Definition caller_pid (c : caller) : option Z :=
  match c with
  | Waiting pid | Draining pid _ | Copying pid _ | Unsubscribing pid _ => Some pid
  | Finished _ => None
  end.

(** The child of a waiting caller is still to be reaped, or its status is in the channel. *)
Definition served (s : state) (p : nat) (pid : Z) : Prop :=
  (∃ e, children s !! pid = Some (mkChild p e) ∧ subscribers s !! pid = Some p ∧
     channels s !! p = Some None) ∨
  (∃ w, channels s !! p = Some (Some w) ∧ ended s !! p = Some w ∧
     (∀ pid' e, children s !! pid' ≠ Some (mkChild p e)) ∧ subscribers s !! pid ≠ Some p).

Record inv (s : state) : Prop := {
  inv_fresh_child : ∀ pid p e, children s !! pid = Some (mkChild p e) → p < next s;
  inv_fresh_caller : ∀ p c, callers s !! p = Some c → p < next s;
  inv_fresh_ended : ∀ p w, ended s !! p = Some w → p < next s;
  inv_child_inj : ∀ pid pid' p e e', children s !! pid = Some (mkChild p e) →
    children s !! pid' = Some (mkChild p e') → pid = pid';
  inv_child_pid : ∀ pid p e c pid', children s !! pid = Some (mkChild p e) →
    callers s !! p = Some c → caller_pid c = Some pid' → pid' = pid;
  inv_child_ended : ∀ pid p e, children s !! pid = Some (mkChild p e) → ended s !! p = e;
  inv_subscriber : ∀ pid p, subscribers s !! pid = Some p →
    channels s !! p = Some None ∧
    ∃ c, callers s !! p = Some c ∧ caller_pid c = Some pid;
  inv_waiting : ∀ p pid, callers s !! p = Some (Waiting pid) → served s p pid;
  inv_zombies : zombies s → reaper s = Idle → sigCh s = true;
}.

Lemma runner_init_inv : inv init.
Proof. split; simpl; naive_solver. Qed.

(** A new process, with or without a caller, is unknown to everything there is. *)
Lemma fresh_next s : inv s →
  callers s !! next s = None ∧ ended s !! next s = None ∧
  (∀ pid e, children s !! pid ≠ Some (mkChild (next s) e)) ∧
  (∀ pid, subscribers s !! pid ≠ Some (next s)).
Proof.
  intros Hi. split_and!.
  - apply eq_None_not_Some. intros [c Hc%inv_fresh_caller]; [lia|done].
  - apply eq_None_not_Some. intros [w Hw%inv_fresh_ended]; [lia|done].
  - intros pid e Hc%inv_fresh_child; [lia|done].
  - intros pid Hp. apply inv_subscriber in Hp as (_ & c & Hc%inv_fresh_caller & _); [lia|done..].
Qed.

Lemma start_inv s pid : inv s → children s !! pid = None → inv (startAndSubscribe pid s).
Proof.
  intros Hi Hpid. destruct (fresh_next s Hi) as (Hc & He & Hch & Hs). split; simpl.
  - intros pid' p e [[_ [= <- <-]]|[_ H]]%lookup_insert_Some; [lia|].
    apply (inv_fresh_child s Hi) in H. lia.
  - intros p c [[<- _]|[_ H]]%lookup_insert_Some; [lia|]. apply (inv_fresh_caller s Hi) in H. lia.
  - intros p w H. apply (inv_fresh_ended s Hi) in H. lia.
  - intros p1 p2 p e e' [[<- [= <- <-]]|[? H1]]%lookup_insert_Some
      [[<- ?]|[? H2]]%lookup_insert_Some; [done|by apply Hch in H2|naive_solver|].
    by eapply (inv_child_inj s Hi).
  - intros pid' p e c pid'' [[<- [= <- <-]]|[? H1]]%lookup_insert_Some
      [[? <-]|[? H2]]%lookup_insert_Some Hp; simplify_eq/=; [done|by apply Hch in H1|].
    by eapply (inv_child_pid s Hi).
  - intros pid' p e [[<- [= <- <-]]|[? H1]]%lookup_insert_Some; [done|].
    by eapply (inv_child_ended s Hi).
  - intros pid' p [[<- <-]|[? H1]]%lookup_insert_Some.
    + rewrite !lookup_insert_eq. split; [done|]. by eexists.
    + assert (p ≠ next s) by (by intros ->; apply Hs in H1).
      rewrite !lookup_insert_ne by done. by apply (inv_subscriber s Hi).
  - intros p pid' [[<- [= <-]]|[? H1]]%lookup_insert_Some.
    + left. exists None. simpl. by rewrite !lookup_insert_eq.
    + destruct (inv_waiting s Hi _ _ H1) as [(e & H2 & H3 & H4)|(w & H2 & H3 & H4 & H5)].
      * left. exists e. simpl. assert (pid' ≠ pid) by congruence.
        by rewrite !lookup_insert_ne by done.
      * right. exists w. simpl. rewrite lookup_insert_ne by done. split_and!; [done|done| |].
        -- intros pid'' e [[_ [= Heq _]]|[_ H6]]%lookup_insert_Some; [lia|by apply H4 in H6].
        -- intros [[_ Heq]|[_ H6]]%lookup_insert_Some; [lia|by apply H5 in H6].
  - intros (pid' & c & H1 & Hz). simpl in H1.
    apply lookup_insert_Some in H1 as [[<- <-]|[? H1]]; [by destruct Hz|].
    apply (inv_zombies s Hi). by exists pid', c.
Qed.

Lemma adopt_inv s pid : inv s → children s !! pid = None → inv (adopt pid s).
Proof.
  intros Hi Hpid. destruct (fresh_next s Hi) as (Hc & He & Hch & Hs). split; simpl.
  - intros pid' p e [[_ [= <- <-]]|[_ H]]%lookup_insert_Some; [lia|].
    apply (inv_fresh_child s Hi) in H. lia.
  - intros p c H. apply (inv_fresh_caller s Hi) in H. lia.
  - intros p w H. apply (inv_fresh_ended s Hi) in H. lia.
  - intros p1 p2 p e e' [[<- [= <- <-]]|[? H1]]%lookup_insert_Some
      [[<- ?]|[? H2]]%lookup_insert_Some; [done|by apply Hch in H2|naive_solver|].
    by eapply (inv_child_inj s Hi).
  - intros pid' p e c pid'' [[<- [= <- <-]]|[? H1]]%lookup_insert_Some H2 Hp; [naive_solver|].
    by eapply (inv_child_pid s Hi).
  - intros pid' p e [[<- [= <- <-]]|[? H1]]%lookup_insert_Some; [done|].
    by eapply (inv_child_ended s Hi).
  - apply (inv_subscriber s Hi).
  - intros p pid' H1.
    destruct (inv_waiting s Hi _ _ H1) as [(e & H2 & H3 & H4)|(w & H2 & H3 & H4 & H5)].
    + left. exists e. simpl. assert (pid' ≠ pid) by congruence.
      by rewrite lookup_insert_ne by done.
    + right. exists w. simpl. split_and!; [done..| |done].
      intros pid'' e [[_ [= <- _]]|[_ H6]]%lookup_insert_Some; [naive_solver|by apply H4 in H6].
  - intros (pid' & c & H1 & Hz). simpl in H1.
    apply lookup_insert_Some in H1 as [[<- <-]|[? H1]]; [by destruct Hz|].
    apply (inv_zombies s Hi). by exists pid', c.
Qed.

Lemma exit_inv s pid p w :
  inv s → children s !! pid = Some (mkChild p None) → inv (process_exit pid p w s).
Proof.
  intros Hi Hpid. pose proof (inv_child_ended s Hi _ _ _ Hpid) as Hend. split; simpl.
  - intros pid' q e [[_ [= <- <-]]|[_ H]]%lookup_insert_Some; by eapply (inv_fresh_child s Hi).
  - apply (inv_fresh_caller s Hi).
  - intros q w' [[<- _]|[_ H]]%lookup_insert_Some; [by eapply (inv_fresh_child s Hi)|].
    by eapply (inv_fresh_ended s Hi).
  - intros p1 p2 q e e' [[<- [= <- <-]]|[? H1]]%lookup_insert_Some
      [[<- ?]|[? H2]]%lookup_insert_Some; simplify_eq; [done|..];
      by eapply (inv_child_inj s Hi).
  - intros pid' q e c pid'' [[<- [= <- <-]]|[? H1]]%lookup_insert_Some H2 Hp;
      by eapply (inv_child_pid s Hi).
  - intros pid' q e [[<- [= <- <-]]|[Hne H1]]%lookup_insert_Some; [apply lookup_insert_eq|].
    rewrite lookup_insert_ne; [by eapply (inv_child_ended s Hi)|].
    intros <-. apply Hne. by eapply (inv_child_inj s Hi).
  - apply (inv_subscriber s Hi).
  - intros q pid' H1.
    destruct (inv_waiting s Hi _ _ H1) as [(e & H2 & H3 & H4)|(w' & H2 & H3 & H4 & H5)].
    + left. simpl. destruct (decide (pid' = pid)) as [->|Hne].
      * exists (Some w). rewrite lookup_insert_eq. naive_solver.
      * exists e. by rewrite lookup_insert_ne by done.
    + right. exists w'. simpl. assert (q ≠ p) by (intros ->; by apply H4 in Hpid).
      rewrite lookup_insert_ne by done. split_and!; [done..| |done].
      intros pid'' e [[_ [= Heq _]]|[_ H6]]%lookup_insert_Some; [done|by apply H4 in H6].
  - intros _ Hr. by rewrite Hr.
Qed.

(** *** Small changes that keep the invariant *)

Definition not_waiting (s : state) (p : nat) : Prop :=
  ∀ pid, callers s !! p ≠ Some (Waiting pid).

Lemma set_caller_inv s p c c' :
  inv s → callers s !! p = Some c →
  (∀ pid, caller_pid c' = Some pid → caller_pid c = Some pid) →
  (∀ pid, subscribers s !! pid = Some p → caller_pid c' = Some pid) →
  (∀ pid, c' ≠ Waiting pid) → inv (set_caller s p c').
Proof.
  intros Hi Hp Hpid Hsub Hw. split; simpl; try apply Hi.
  - intros q c1 [[<- _]|[_ H]]%lookup_insert_Some; by eapply (inv_fresh_caller s Hi).
  - intros pid q e c1 pid' H1 [[<- <-]|[_ H2]]%lookup_insert_Some Hq;
      [eapply (inv_child_pid s Hi); eauto|by eapply (inv_child_pid s Hi)].
  - intros pid q H1. destruct (inv_subscriber s Hi _ _ H1) as (Hc & c1 & Hq & Hpid1).
    split; [done|]. destruct (decide (q = p)) as [->|Hne].
    + rewrite lookup_insert_eq. eexists. split; [done|]. by apply Hsub.
    + rewrite lookup_insert_ne by done. eauto.
  - intros q pid [[<- H]|[_ H]]%lookup_insert_Some; [by apply Hw in H|].
    by apply (inv_waiting s Hi).
Qed.

Lemma set_channel_inv s p v :
  inv s → not_waiting s p → (v = None ∨ ∀ pid, subscribers s !! pid ≠ Some p) →
  inv (set_channel s p v).
Proof.
  intros Hi Hp Hv. split; simpl; try apply Hi.
  - intros pid q H1. destruct (inv_subscriber s Hi _ _ H1) as (Hc & Hq). split; [|done].
    destruct (decide (q = p)) as [->|Hne]; [|by rewrite lookup_insert_ne].
    rewrite lookup_insert_eq. destruct Hv as [->|Hv]; [done|by apply Hv in H1].
  - intros q pid H1. assert (q ≠ p) by (intros ->; by apply Hp in H1).
    unfold served; simpl. rewrite lookup_insert_ne by done. by apply (inv_waiting s Hi).
Qed.

Lemma delete_subscriber_inv s pid p :
  inv s → subscribers s !! pid = Some p → not_waiting s p →
  inv (set_subscribers s (delete pid (subscribers s))).
Proof.
  intros Hi Hs Hp. split; simpl; try apply Hi.
  - intros pid' q [_ H1]%lookup_delete_Some. by apply (inv_subscriber s Hi).
  - intros q pid' H1. destruct (inv_waiting s Hi _ _ H1) as [(e & H2 & H3 & H4)|(w & H2 & H3 & H4 & H5)].
    + left. exists e. simpl. assert (pid' ≠ pid).
      { intros ->. rewrite Hs in H3. injection H3 as ->. by apply Hp in H1. }
      by rewrite lookup_delete_ne.
    + right. exists w. simpl. split_and!; [done..|].
      by intros [_ H6]%lookup_delete_Some.
Qed.

Lemma delete_child_inv s pid p e :
  inv s → children s !! pid = Some (mkChild p e) → not_waiting s p →
  inv (set_children s (delete pid (children s))).
Proof.
  intros Hi Hc Hp. split; simpl; try apply Hi.
  - intros pid' q e' [_ H]%lookup_delete_Some. by eapply (inv_fresh_child s Hi).
  - intros p1 p2 q e1 e2 [_ H1]%lookup_delete_Some [_ H2]%lookup_delete_Some.
    by eapply (inv_child_inj s Hi).
  - intros pid' q e' c pid'' [_ H]%lookup_delete_Some. by eapply (inv_child_pid s Hi).
  - intros pid' q e' [_ H]%lookup_delete_Some. by eapply (inv_child_ended s Hi).
  - intros q pid' H1. destruct (inv_waiting s Hi _ _ H1) as [(e' & H2 & H3 & H4)|(w & H2 & H3 & H4 & H5)].
    + left. exists e'. simpl. assert (pid' ≠ pid).
      { intros ->. rewrite Hc in H2. injection H2 as -> ->. by apply Hp in H1. }
      by rewrite lookup_delete_ne.
    + right. exists w. simpl. split_and!; [done..| |done].
      intros pid'' e' [_ H6]%lookup_delete_Some. by apply H4 in H6.
  - intros (pid' & c & H1 & Hz). simpl in H1. apply lookup_delete_Some in H1 as [_ H1].
    apply (inv_zombies s Hi). by exists pid', c.
Qed.

Lemma set_reaper_inv s r sig :
  inv s → (zombies s → r = Idle → sig = true) → inv (set_reaper s r sig).
Proof. intros Hi Hz. split; simpl; try apply Hi. exact Hz. Qed.

(** A caller that waits is not both unserved and unsubscribed. *)
Lemma waiting_child s p pid pid' e :
  inv s → callers s !! p = Some (Waiting pid) → children s !! pid' = Some (mkChild p e) →
  pid' = pid ∧ subscribers s !! pid = Some p.
Proof.
  intros Hi Hp Hc. destruct (inv_waiting s Hi _ _ Hp) as [(e' & H1 & H2 & _)|(w & _ & _ & H & _)].
  - split; [|done]. by eapply (inv_child_inj s Hi).
  - by apply H in Hc.
Qed.

Lemma waiting_subscriber s p pid :
  inv s → subscribers s !! pid = Some p → ¬ not_waiting s p →
  ∃ e, callers s !! p = Some (Waiting pid) ∧ children s !! pid = Some (mkChild p e).
Proof.
  intros Hi Hs Hw. destruct (inv_subscriber s Hi _ _ Hs) as (Hch & c & Hc & Hpid).
  destruct c as [pid'|pid' r|pid' r|pid' r|r]; simplify_eq/=;
    try by (exfalso; apply Hw; intros ? ?; congruence).
  destruct (inv_waiting s Hi _ _ Hc) as [(e & H1 & _)|(w & _ & _ & _ & H)]; [eauto|done].
Qed.

Instance waiting_dec s p : Decision (not_waiting s p).
Proof.
  destruct (callers s !! p) as [[pid|pid r|pid r|pid r|r]|] eqn:Hc;
    first [left; intros ? ?; congruence|right; intros Hn; by apply (Hn pid)].
Defined.

(** The delivery to the caller that waits for this very process. *)
Lemma deliver_inv s pid p w :
  inv s → children s !! pid = Some (mkChild p (Some w)) →
  callers s !! p = Some (Waiting pid) → subscribers s !! pid = Some p →
  inv (set_channel (set_subscribers (set_children s (delete pid (children s)))
         (delete pid (subscribers s))) p (Some w)).
Proof.
  intros Hi Hc Hp Hs. pose proof (inv_child_ended s Hi _ _ _ Hc) as Hend.
  assert (∀ pid' e, children s !! pid' = Some (mkChild p e) → pid' = pid) as Honly.
  { intros pid' e H. by eapply (inv_child_inj s Hi). }
  split; simpl; try apply Hi.
  - intros pid' q e' [_ H]%lookup_delete_Some. by eapply (inv_fresh_child s Hi).
  - intros p1 p2 q e1 e2 [_ H1]%lookup_delete_Some [_ H2]%lookup_delete_Some.
    by eapply (inv_child_inj s Hi).
  - intros pid' q e' c pid'' [_ H]%lookup_delete_Some. by eapply (inv_child_pid s Hi).
  - intros pid' q e' [_ H]%lookup_delete_Some. by eapply (inv_child_ended s Hi).
  - intros pid' q [Hne H1]%lookup_delete_Some.
    destruct (inv_subscriber s Hi _ _ H1) as (Hch & c & Hq & Hpid).
    assert (q ≠ p) by (intros ->; naive_solver). rewrite lookup_insert_ne by done. eauto.
  - intros q pid' H1. unfold served; simpl. destruct (decide (q = p)) as [->|Hq].
    + assert (pid' = pid) as -> by congruence. right. exists w. rewrite lookup_insert_eq.
      split_and!; [done|done| |].
      * intros pid' e [Hne H2]%lookup_delete_Some. apply Honly in H2. congruence.
      * by intros [? _]%lookup_delete_Some.
    + rewrite lookup_insert_ne by done.
      destruct (inv_waiting s Hi _ _ H1) as [(e' & H2 & H3 & H4)|(w' & H2 & H3 & H4 & H5)].
      * assert (pid' ≠ pid) by congruence. left. exists e'.
        by rewrite !lookup_delete_ne.
      * right. exists w'. split_and!; [done|done| |].
        -- intros pid'' e [_ H6]%lookup_delete_Some. by apply H4 in H6.
        -- by intros [_ H6]%lookup_delete_Some.
  - intros (pid' & c & H1 & Hz). simpl in H1. apply lookup_delete_Some in H1 as [_ H1].
    apply (inv_zombies s Hi). by exists pid', c.
Qed.

(** *** Every operation keeps it *)

(** The reaper's send goes to the caller that waits for the process, or to a channel nobody
    reads any more, and has room in either case. *)
Lemma reapProcess_total s pid p w :
  inv s → children s !! pid = Some (mkChild p (Some w)) →
  ∃ s', reapProcess pid s = Some s' ∧ inv s'.
Proof.
  intros Hi Hc. unfold reapProcess, notifyProcessExitLocked. rewrite Hc. simpl.
  destruct (subscribers s !! pid) as [ch|] eqn:Hs.
  - destruct (inv_subscriber s Hi _ _ Hs) as [Hch _]. rewrite Hch. eexists. split; [done|].
    destruct (decide (not_waiting s ch)) as [Hw|Hw].
    + assert (not_waiting s p) as Hp.
      { intros pid' H. destruct (waiting_child s p pid' pid _ Hi H Hc) as [<- H'].
        assert (ch = p) as -> by congruence. by apply Hw in H. }
      set (s1 := set_children s (delete pid (children s))).
      assert (inv s1) as Hi1 by (by eapply delete_child_inv).
      assert (inv (set_subscribers s1 (delete pid (subscribers s1)))) as Hi2
        by (by apply (delete_subscriber_inv s1 pid ch)).
      apply set_channel_inv; [done|done|]. right. simpl. intros pid' [Hne H]%lookup_delete_Some.
      destruct (inv_subscriber s Hi _ _ H) as (_ & c & Hq & Hpid).
      destruct (inv_subscriber s Hi _ _ Hs) as (_ & c' & Hq' & Hpid'). congruence.
    + destruct (waiting_subscriber s ch pid Hi Hs Hw) as (e & Hwait & Hc').
      assert (ch = p) as -> by congruence. by eapply deliver_inv.
  - eexists. split; [done|]. eapply delete_child_inv; [done|done|].
    intros pid' H. destruct (waiting_child s p pid' pid _ Hi H Hc) as [<- H']. congruence.
Qed.

Lemma cmdWait_inv s p pid received s' :
  inv s → callers s !! p = Some (Draining pid received) →
  cmdWait p pid received s = Some s' → inv s'.
Proof.
  intros Hi Hp Hw. unfold cmdWait in Hw.
  assert (∀ s1, inv s1 → callers s1 = callers s →
    inv (set_caller s1 p (Copying pid received))) as Hleave.
  { intros s1 Hi1 Hc1. rewrite <-Hc1 in Hp. eapply set_caller_inv; [done|done|done| |done].
    intros pid' H. destruct (inv_subscriber s1 Hi1 _ _ H) as (_ & c & Hc & Hpid).
    rewrite Hp in Hc. by injection Hc as <-. }
  destruct (children s !! pid) as [[q e]|] eqn:Hc; [|injection Hw as <-; by apply Hleave].
  case_decide as Hq; [|injection Hw as <-; by apply Hleave]. subst q.
  destruct e as [w|]; [|done]. injection Hw as <-. apply Hleave; [|done].
  eapply delete_child_inv; [done|done|]. intros pid' H. congruence.
Qed.

Lemma cmdWaitOutput_Some s p pid received s' :
  cmdWaitOutput p pid received s = Some s' →
  descendants s p = 0 ∧ s' = set_caller s p (Unsubscribing pid received).
Proof. unfold cmdWaitOutput. destruct (descendants s p); [by intros [= <-]|done]. Qed.

(** A caller moves on and stays with its process id. *)
Lemma move_inv s p c c' pid :
  inv s → callers s !! p = Some c → caller_pid c = Some pid → caller_pid c' = Some pid →
  (∀ pid', c' ≠ Waiting pid') → inv (set_caller s p c').
Proof.
  intros Hi Hp Hc Hc' Hw. eapply set_caller_inv; [done|done|by rewrite Hc, Hc'| |done].
  intros pid' H. destruct (inv_subscriber s Hi _ _ H) as (_ & c1 & Hc1 & Hpid).
  rewrite Hp in Hc1. injection Hc1 as <-. congruence.
Qed.

Lemma set_pipes_inv s p n : inv s → inv (set_pipes s p n).
Proof. intros Hi. split; simpl; apply Hi. Qed.

Lemma unsubscribe_inv s p pid received :
  inv s → callers s !! p = Some (Unsubscribing pid received) →
  inv (set_caller (unsubscribeFromProcessExits pid p s) p (Finished received)).
Proof.
  intros Hi Hp. assert (not_waiting s p) as Hw by (intros pid' H; congruence).
  assert (∀ pid', subscribers s !! pid' = Some p → pid' = pid) as Hsub.
  { intros pid' H. destruct (inv_subscriber s Hi _ _ H) as (_ & c & Hc & Hpid).
    rewrite Hp in Hc. injection Hc as <-. by injection Hpid. }
  unfold unsubscribeFromProcessExits. case_decide as Hs.
  - eapply set_caller_inv; [by eapply delete_subscriber_inv|done|done| |done].
    simpl. intros pid' [Hne H]%lookup_delete_Some. by destruct Hne; rewrite (Hsub _ H).
  - eapply set_caller_inv; [done|done|done| |done].
    intros pid' H. rewrite (Hsub _ H) in H. done.
Qed.

Lemma external_inv s s' : inv s → external s s' → inv s'.
Proof.
  intros Hi Hs. destruct Hs as [s pid H|s pid H|s pid p w H|s p H|s p n H|s p pid H|s H|s H].
  - by apply start_inv.
  - by apply adopt_inv.
  - by apply exit_inv.
  - by apply set_pipes_inv.
  - by apply set_pipes_inv.
  - by eapply move_inv.
  - by apply set_reaper_inv.
  - by apply set_reaper_inv.
Qed.

Lemma internal_inv s s' : inv s → internal s s' → inv s'.
Proof.
  intros Hi Hs.
  destruct Hs as [s pid s' Hr H|s Hr Hz|s Hr Hsig|s p pid w Hp Hch|s p pid r s' Hp H|s p pid r s' Hp H|s p pid r Hp].
  - unfold reapProcess in H. destruct (children s !! pid) as [[p [w|]]|] eqn:Hc; try done.
    destruct (reapProcess_total s pid p w Hi Hc) as (s1 & Hs1 & Hi1).
    unfold reapProcess in Hs1. rewrite Hc in Hs1. congruence.
  - apply set_reaper_inv; [done|]. intros Hz'. by destruct Hz.
  - by apply set_reaper_inv.
  - destruct (inv_waiting s Hi _ _ Hp) as [(e & _ & _ & H)|(w' & H1 & H2 & H3 & H4)]; [congruence|].
    apply set_channel_inv; [|intros pid' H; simpl in H; by rewrite lookup_insert_eq in H|by left].
    by eapply move_inv.
  - by eapply cmdWait_inv.
  - apply cmdWaitOutput_Some in H as [_ ->]. by eapply move_inv.
  - by apply unsubscribe_inv.
Qed.

Lemma runner_reachable_inv s : reachable s → inv s.
Proof.
  apply (rtc_ind_r inv); [exact runner_init_inv|].
  intros s1 s2 _ [H|H] Hi; [by eapply external_inv|by eapply internal_inv].
Qed.

(** The reaper is never blocked.  Whenever [Wait4] hands a zombie to the reaper, the
    delivery under the mutex completes: the channel it sends to has room.  So callers that are
    slow, gone, or whose process id has been reused cannot hold up the others. *)
Theorem reaper_never_blocks s pid p w :
  reachable s → children s !! pid = Some (mkChild p (Some w)) →
  ∃ s', reapProcess pid s = Some s'.
Proof.
  intros Hi%runner_reachable_inv Hc. destruct (reapProcess_total s pid p w Hi Hc) as (s' & Hs & _).
  eauto.
Qed.

(** ** Refinement: a caller gets the status of its own process, or gives up *)

Inductive phase := Running | Ended (w : WaitStatus) | GotStatus (w : WaitStatus) | GaveUp.

(** The specification: processes run and end, and a call of [Run] returns the status its
    process ended with, or gives up at any time. *)
Inductive spec_step : gmap nat phase → gmap nat phase → Prop :=
| spec_start m p : m !! p = None → spec_step m (<[p := Running]> m)
| spec_exit m p w : m !! p = Some Running → spec_step m (<[p := Ended w]> m)
| spec_return m p w : m !! p = Some (Ended w) → spec_step m (<[p := GotStatus w]> m)
| spec_give_up m p f : m !! p = Some f → (f = Running ∨ ∃ w, f = Ended w) →
    spec_step m (<[p := GaveUp]> m).

Definition result_phase (received : option WaitStatus) : phase :=
  match received with Some w => GotStatus w | None => GaveUp end.
Definition phase_of (end_status : option WaitStatus) (c : caller) : phase :=
  match c with
  | Waiting _ => match end_status with Some w => Ended w | None => Running end
  | Draining _ r | Copying _ r | Unsubscribing _ r | Finished r => result_phase r
  end.

(** The state of the calls, seen from outside. *)
Definition abs (s : state) : gmap nat phase :=
  map_imap (λ p c, Some (phase_of (ended s !! p) c)) (callers s).

Lemma lookup_abs s p : abs s !! p = phase_of (ended s !! p) <$> callers s !! p.
Proof. unfold abs. rewrite map_lookup_imap. by destruct (callers s !! p). Qed.

Lemma abs_same s s' : callers s' = callers s → ended s' = ended s → abs s' = abs s.
Proof. intros Hc He. unfold abs. by rewrite Hc, He. Qed.

Lemma abs_caller s s' p c c' :
  callers s !! p = Some c → callers s' = <[p := c']> (callers s) → ended s' = ended s →
  abs s' = <[p := phase_of (ended s !! p) c']> (abs s).
Proof.
  intros Hp Hc He. apply map_eq. intros q. rewrite lookup_abs, Hc, He.
  destruct (decide (q = p)) as [->|Hq].
  - by rewrite !lookup_insert_eq.
  - by rewrite !lookup_insert_ne, lookup_abs.
Qed.

(** Moving a caller that already has its result on changes nothing outside. *)
Lemma abs_result s s' p c c' :
  callers s !! p = Some c → callers s' = <[p := c']> (callers s) → ended s' = ended s →
  phase_of (ended s !! p) c = phase_of (ended s !! p) c' → abs s' = abs s.
Proof.
  intros Hp Hc He Hph. rewrite (abs_caller s s' p c c' Hp Hc He), <-Hph.
  apply insert_id. by rewrite lookup_abs, Hp.
Qed.

Lemma reapProcess_frame s pid s' :
  reapProcess pid s = Some s' → callers s' = callers s ∧ ended s' = ended s ∧
    reaper s' = reaper s ∧ sigCh s' = sigCh s ∧
    ∃ p w, children s !! pid = Some (mkChild p (Some w)) ∧
      children s' = delete pid (children s).
Proof.
  unfold reapProcess, notifyProcessExitLocked.
  destruct (children s !! pid) as [[p [w|]]|]; try done. simpl.
  destruct (subscribers s !! pid) as [ch|]; [|intros [= <-]; simpl; eauto 10].
  destruct (channels s !! ch) as [[|]|]; try done. intros [= <-]. simpl. eauto 10.
Qed.

Lemma cmdWait_frame s p pid r s' :
  cmdWait p pid r s = Some s' → callers s' = <[p := Copying pid r]> (callers s) ∧
    ended s' = ended s ∧ reaper s' = reaper s ∧ sigCh s' = sigCh s ∧
    (children s' = children s ∨ ∃ w, children s !! pid = Some (mkChild p (Some w)) ∧
      children s' = delete pid (children s)).
Proof.
  unfold cmdWait. destruct (children s !! pid) as [[q e]|]; [|intros [= <-]; simpl; eauto 10].
  case_decide as Hq; [|intros [= <-]; simpl; eauto 10].
  destruct e as [w|]; [|done]. intros [= <-]. subst q. simpl. eauto 10.
Qed.

Lemma unsubscribe_frame pid p s :
  let s' := unsubscribeFromProcessExits pid p s in
  callers s' = callers s ∧ ended s' = ended s ∧ children s' = children s ∧
  reaper s' = reaper s ∧ sigCh s' = sigCh s.
Proof. unfold unsubscribeFromProcessExits. by case_decide. Qed.

Lemma external_refines s s' :
  inv s → external s s' → abs s' = abs s ∨ spec_step (abs s) (abs s').
Proof.
  intros Hi Hs. destruct Hs as [s pid H|s pid H|s pid p w H|s p H|s p n H|s p pid H|s H|s H];
    try by left; apply abs_same.
  - right. destruct (fresh_next s Hi) as (Hc & He & _).
    assert (abs (startAndSubscribe pid s) = <[next s := Running]> (abs s)) as ->.
    { apply map_eq. intros q. rewrite lookup_abs. simpl. destruct (decide (q = next s)) as [->|Hq].
      - rewrite !lookup_insert_eq. simpl. by rewrite He.
      - by rewrite !lookup_insert_ne, lookup_abs. }
    constructor. by rewrite lookup_abs, Hc.
  - pose proof (inv_child_ended s Hi _ _ _ H) as He.
    assert (∀ q, q ≠ p → abs (process_exit pid p w s) !! q = abs s !! q) as Hother.
    { intros q Hq. rewrite !lookup_abs. simpl. by rewrite lookup_insert_ne. }
    destruct (decide (not_waiting s p)) as [Hw|Hw].
    + left. apply map_eq. intros q. destruct (decide (q = p)) as [->|Hq]; [|by apply Hother].
      rewrite !lookup_abs. simpl. destruct (callers s !! p) as [c|] eqn:Hp; [|done].
      destruct c; [by destruct (Hw pid0)|done..].
    + right. destruct (callers s !! p) as [[pid'|? ?|? ?|? ?|?]|] eqn:Hp;
        try by (destruct Hw; intros ? ?; congruence).
      assert (abs (process_exit pid p w s) = <[p := Ended w]> (abs s)) as ->.
      { apply map_eq. intros q. destruct (decide (q = p)) as [->|Hq].
        - rewrite lookup_abs. simpl. by rewrite Hp, !lookup_insert_eq.
        - by rewrite lookup_insert_ne, Hother. }
      constructor. by rewrite lookup_abs, Hp, He.
  - right. rewrite (abs_caller s (set_caller s p (Draining pid None)) p (Waiting pid)
               (Draining pid None)) by done.
    eapply spec_give_up; [by rewrite lookup_abs, H|].
    simpl. destruct (ended s !! p); eauto.
Qed.

Lemma internal_refines s s' :
  inv s → internal s s' → abs s' = abs s ∨ spec_step (abs s) (abs s').
Proof.
  intros Hi Hs.
  destruct Hs as [s pid s' Hr H|s Hr Hz|s Hr Hsig|s p pid w Hp Hch|s p pid r s' Hp H|s p pid r s' Hp H|s p pid r Hp];
    try by left; apply abs_same.
  - apply reapProcess_frame in H as (? & ? & _). left. by apply abs_same.
  - right. destruct (inv_waiting s Hi _ _ Hp) as [(e & _ & _ & H)|(w' & H1 & H2 & _)]; [congruence|].
    rewrite (abs_caller s (set_channel (set_caller s p (Draining pid (Some w))) p None) p
               (Waiting pid) (Draining pid (Some w))) by done.
    constructor. rewrite lookup_abs, Hp, H2. simpl. congruence.
  - apply cmdWait_frame in H as (? & ? & _). left. by eapply abs_result.
  - apply cmdWaitOutput_Some in H as [_ ->]. left. by eapply abs_result.
  - destruct (unsubscribe_frame pid p s) as (Hc & He & _). left.
    eapply abs_result; [done|by rewrite <-Hc|by rewrite <-He|done].
Qed.

(** A received status is the one the process ended with. *)
Definition own_results (s : state) : Prop :=
  ∀ p c w, callers s !! p = Some c → phase_of (ended s !! p) c = GotStatus w →
    ended s !! p = Some w.

Lemma own_results_step s s' : inv s → own_results s → step s s' → own_results s'.
Proof.
  intros Hi Ho [Hs|Hs].
  - destruct Hs as [s pid H|s pid H|s pid p w H|s p H|s p n H|s p pid H|s H|s H]; try exact Ho.
    + intros q c w. simpl. intros [[<- <-]|[Hq Hc]]%lookup_insert_Some; [|by apply Ho].
      simpl. by destruct (ended s !! next s).
    + intros q c w'. simpl. intros Hc Hph. pose proof (inv_child_ended s Hi _ _ _ H) as He.
      destruct (decide (q = p)) as [->|Hq].
      * rewrite lookup_insert_eq in Hph |- *. exfalso.
        assert (ended s !! p = Some w') as Hx; [|congruence].
        apply (Ho p c w' Hc). by destruct c.
      * rewrite lookup_insert_ne in Hph |- * by done. by eapply Ho.
    + intros q c w. simpl. intros [[<- <-]|[Hq Hc]]%lookup_insert_Some; [done|by apply Ho].
  - destruct Hs as [s pid s' Hr H|s Hr Hz|s Hr Hsig|s p pid w Hp Hch|s p pid r s' Hp H|s p pid r s' Hp H|s p pid r Hp];
      try exact Ho.
    + apply reapProcess_frame in H as (Hc & He & _). unfold own_results. by rewrite Hc, He.
    + destruct (inv_waiting s Hi _ _ Hp) as [(e & _ & _ & H)|(w' & H1 & H2 & _)]; [congruence|].
      intros q c w1. simpl. intros [[<- <-]|[Hq Hc]]%lookup_insert_Some; [|by apply Ho].
      simpl. congruence.
    + apply cmdWait_frame in H as (Hc & He & _). unfold own_results. rewrite Hc, He.
      intros q c w. intros [[<- <-]|[Hq H]]%lookup_insert_Some; [|by apply Ho].
      apply (Ho _ _ w Hp).
    + apply cmdWaitOutput_Some in H as [_ ->].
      intros q c w. simpl. intros [[<- <-]|[Hq H]]%lookup_insert_Some; [|by apply Ho].
      apply (Ho _ _ w Hp).
    + destruct (unsubscribe_frame pid p s) as (Hc & He & _). unfold own_results. simpl.
      rewrite Hc, He. intros q c w [[<- <-]|[Hq H]]%lookup_insert_Some; [|by apply Ho].
      apply (Ho _ _ w Hp).
Qed.

(** C21: the runner implements its specification.  However callers, reaper, exits, orphans and
    reused process ids interleave, the calls of [Run], seen from outside, behave like the
    specification: a call returns only after its process has ended, with the status of that
    process and no other, or gives up because its context ended. *)
Theorem runner_refines s :
  reachable s →
  rtc spec_step ∅ (abs s) ∧
  ∀ p w, abs s !! p = Some (GotStatus w) → ended s !! p = Some w.
Proof.
  intros Hr. assert (inv s ∧ own_results s ∧ rtc spec_step ∅ (abs s)) as (Hi & Ho & Hs).
  { revert s Hr. apply (rtc_ind_r (λ s, inv s ∧ own_results s ∧ rtc spec_step ∅ (abs s))).
    - split_and!; [exact runner_init_inv|by intros ? ? ?|]. exact (rtc_refl _ _).
    - intros s1 s2 _ Hst (Hi & Ho & Hs). split_and!.
      + destruct Hst; [by eapply external_inv|by eapply internal_inv].
      + by eapply own_results_step.
      + assert (abs s2 = abs s1 ∨ spec_step (abs s1) (abs s2)) as [->|?]; [|done|by eapply rtc_r].
        destruct Hst; [by apply external_refines|by apply internal_refines]. }
  split; [done|]. intros p w. rewrite lookup_abs, fmap_Some. intros (c & Hc & Hph). by eapply Ho.
Qed.

(** ** Termination and delivery *)

Definition child_weight (c : child) : nat :=
  match ch_exit c with Some _ => 1 | None => 0 end.
Definition caller_weight (c : caller) : nat :=
  match c with
  | Waiting _ => 4
  | Draining _ _ => 3
  | Copying _ _ => 2
  | Unsubscribing _ _ => 1
  | Finished _ => 0
  end.

(** What is left to do. *)
Definition work (s : state) : nat :=
  map_weight child_weight (children s) + map_weight caller_weight (callers s) +
  (if sigCh s then 2 else 0) + match reaper s with Reaping => 1 | _ => 0 end.

Lemma reap_weight s pid p w :
  children s !! pid = Some (mkChild p (Some w)) →
  map_weight child_weight (children s) =
    S (map_weight child_weight (delete pid (children s))).
Proof. intros H. by rewrite (map_weight_delete child_weight _ _ _ H). Qed.

Lemma caller_weight_step (m : gmap nat caller) p c c' :
  m !! p = Some c → caller_weight c' < caller_weight c →
  map_weight caller_weight (<[p := c']> m) < map_weight caller_weight m.
Proof. intros H Hlt. pose proof (map_weight_replace caller_weight m p c c' H). lia. Qed.

Lemma internal_work s s' : internal s s' → work s' < work s.
Proof.
  destruct 1 as [s pid s' Hr H|s Hr Hz|s Hr Hsig|s p pid w Hp Hch|s p pid r s' Hp H|s p pid r s' Hp H|s p pid r Hp];
    unfold work; simpl.
  - apply reapProcess_frame in H as (-> & _ & -> & -> & q & w & Hc & ->).
    rewrite (reap_weight s pid q w Hc). lia.
  - rewrite Hr. lia.
  - rewrite Hr, Hsig. lia.
  - pose proof (caller_weight_step (callers s) p _ (Draining pid (Some w)) Hp). simpl in *. lia.
  - apply cmdWait_frame in H as (-> & _ & -> & -> & H).
    pose proof (caller_weight_step (callers s) p _ (Copying pid r) Hp). simpl in *.
    destruct H as [->|(w & Hc & ->)]; [lia|]. rewrite (reap_weight s pid p w Hc). lia.
  - apply cmdWaitOutput_Some in H as [_ ->]. simpl.
    pose proof (caller_weight_step (callers s) p _ (Unsubscribing pid r) Hp). simpl in *. lia.
  - destruct (unsubscribe_frame pid p s) as (-> & _ & -> & -> & ->).
    pose proof (caller_weight_step (callers s) p _ (Finished r) Hp). simpl in *. lia.
Qed.

(** The runner's own work terminates.  With no new start, exit, orphan or cancellation,
    the reaper and all callers together take at most [work s] further steps, whatever the
    interleaving; so every wake-up of the reaper ends and it never loops on what it reaped. *)
Theorem runner_terminates s s' n : nsteps internal n s s' → n + work s' ≤ work s.
Proof.
  apply (bounded_steps internal (λ _, True)); [|done].
  intros s1 s2 _ H. split; [done|by apply internal_work].
Qed.

Definition reaper_runs (s : state) : Prop := reaper s = Reaping ∨ reaper s = Idle.
(** The code can do nothing more by itself. *)
Definition quiet (s : state) : Prop := ∀ s', ¬ internal s s'.

Instance zombies_dec s : Decision (zombies s).
Proof.
  destruct (decide (map_Exists (λ _ c, is_zombie c) (children s))) as [H|H].
  - left. destruct H as (pid & c & Hc & Hz). by exists pid, c.
  - right. intros (pid & c & Hc & Hz). apply H. by exists pid, c.
Defined.

Lemma quiet_no_zombies s : inv s → reaper_runs s → quiet s → ¬ zombies s.
Proof.
  intros Hi Hr Hq Hz. destruct Hr as [Hr|Hr].
  - destruct Hz as (pid & [p e] & Hc & [w Hw]). simpl in Hw. subst e.
    destruct (reapProcess_total s pid p w Hi Hc) as (s' & Hs & _).
    eapply Hq, int_reap; done.
  - eapply Hq, int_wake; [done|]. by apply (inv_zombies s Hi).
Qed.

(** In a quiet state a caller whose process has ended has returned, unless a descendant of that
    process still has its output open. *)
Lemma quiet_finished s p c w :
  inv s → reaper_runs s → quiet s → callers s !! p = Some c → ended s !! p = Some w →
  (∃ r, c = Finished r) ∨ ∃ pid r, c = Copying pid r ∧ descendants s p ≠ 0.
Proof.
  intros Hi Hr Hq Hp He.
  destruct c as [pid|pid r|pid r|pid r|r]; [| | |exfalso|by left; exists r].
  - exfalso. destruct (inv_waiting s Hi _ _ Hp) as [(e & H1 & _)|(w' & H1 & _)].
    + apply (quiet_no_zombies s Hi Hr Hq). exists pid, (mkChild p e). split; [done|].
      rewrite (inv_child_ended s Hi _ _ _ H1) in He. by exists w.
    + by eapply Hq, int_receive.
  - exfalso. assert (is_Some (cmdWait p pid r s)) as [s' H]; [|by eapply Hq, int_wait].
    unfold cmdWait. destruct (children s !! pid) as [[q e]|] eqn:Hc; [|done].
    case_decide as Hqp; [|done]. subst q.
    rewrite (inv_child_ended s Hi _ _ _ Hc) in He. by subst e.
  - right. exists pid, r. split; [done|]. intros Hd. eapply Hq, (int_output _ p pid r); [done|].
    unfold cmdWaitOutput. by rewrite Hd.
  - by eapply Hq, int_unsubscribe.
Qed.

(** The caller of process id [pid], past its pipes only with nobody having them. *)
Definition place (c : caller) (pid : Z) (n : nat) : Prop :=
  match c with
  | Waiting pid' | Draining pid' _ | Copying pid' _ => pid' = pid
  | Unsubscribing pid' _ => pid' = pid ∧ n = 0
  | Finished _ => n = 0
  end.

(** On its way to the caller: not received yet, or received and kept; [n] descendants have the
    output of the command. *)
Definition on_its_way (p : nat) (pid : Z) (w : WaitStatus) (n : nat) (s : state) : Prop :=
  ended s !! p = Some w ∧ descendants s p = n ∧
  ∃ c, callers s !! p = Some c ∧
    (phase_of (Some w) c = Ended w ∨ phase_of (Some w) c = GotStatus w) ∧ place c pid n.

Lemma internal_pipes s s' : internal s s' → pipes s' = pipes s.
Proof.
  destruct 1 as [s pid s' Hr H|s Hr Hz|s Hr Hsig|s q pid w' Hp Hch|s q pid r s' Hp H|s q pid r s' Hp H|s q pid r Hp];
    try done.
  - unfold reapProcess, notifyProcessExitLocked in H. repeat case_match; by simplify_eq.
  - unfold cmdWait in H. repeat case_match; by simplify_eq.
  - by apply cmdWaitOutput_Some in H as [_ ->].
  - simpl. unfold unsubscribeFromProcessExits. by case_decide.
Qed.

(** A step of another caller, or of the reaper. *)
Lemma on_its_way_other p pid w n s s' :
  callers s' !! p = callers s !! p → ended s' = ended s → pipes s' = pipes s →
  on_its_way p pid w n s → on_its_way p pid w n s'.
Proof. unfold on_its_way, descendants. by intros -> -> ->. Qed.

(** A step of the caller itself. *)
Lemma on_its_way_own p pid w n s s' c c' :
  callers s !! p = Some c → callers s' !! p = Some c' → ended s' = ended s → pipes s' = pipes s →
  (phase_of (Some w) c = Ended w ∨ phase_of (Some w) c = GotStatus w →
   phase_of (Some w) c' = Ended w ∨ phase_of (Some w) c' = GotStatus w) →
  (place c pid n → descendants s p = n → place c' pid n) →
  on_its_way p pid w n s → on_its_way p pid w n s'.
Proof.
  intros Hc Hc' He Hp Hph Hpl (Hew & Hd & c0 & Hc0 & Hph0 & Hpl0).
  assert (c0 = c) as -> by congruence.
  split_and!; [by rewrite He|unfold descendants; by rewrite Hp|]. exists c'. auto.
Qed.

Lemma on_its_way_step p pid w n s s' :
  inv s → on_its_way p pid w n s → internal s s' → on_its_way p pid w n s'.
Proof.
  intros Hi Hw Hs. pose proof (internal_pipes s s' Hs) as Hpipes.
  destruct Hs as [s pid' s' Hr H|s Hr Hz|s Hr Hsig|s q pid' w' Hp Hch|s q pid' r s' Hp H|s q pid' r s' Hp H|s q pid' r Hp];
    try done; [| | | |destruct (unsubscribe_frame pid' q s) as (Hc' & He' & _)].
  - apply reapProcess_frame in H as (Hc' & He' & _).
    apply (on_its_way_other _ _ _ _ s); [by rewrite Hc'|done..].
  - destruct (decide (q = p)) as [->|Hq]; [|apply (on_its_way_other _ _ _ _ s); simpl;
      [by rewrite lookup_insert_ne|done..]].
    eapply (on_its_way_own _ _ _ _ s); [done|apply lookup_insert_eq|done..| |done|done].
    destruct (inv_waiting s Hi _ _ Hp) as [(e & _ & _ & H)|(w1 & H1 & H2 & _)]; [congruence|].
    intros _. right. destruct Hw as (He & _). simpl. congruence.
  - apply cmdWait_frame in H as (Hc' & He' & _). destruct (decide (q = p)) as [->|Hq];
      [|apply (on_its_way_other _ _ _ _ s); [by rewrite Hc', lookup_insert_ne|done..]].
    eapply (on_its_way_own _ _ _ _ s); [done|rewrite Hc'; apply lookup_insert_eq|done..].
  - apply cmdWaitOutput_Some in H as [Hz ->]. destruct (decide (q = p)) as [->|Hq];
      [|apply (on_its_way_other _ _ _ _ s); [by simpl; rewrite lookup_insert_ne|done..]].
    eapply (on_its_way_own _ _ _ _ s); [done|apply lookup_insert_eq|done..| |done].
    simpl. intros -> <-. done.
  - destruct (decide (q = p)) as [->|Hq];
      [|apply (on_its_way_other _ _ _ _ s); [by simpl; rewrite lookup_insert_ne, Hc'|done..]].
    eapply (on_its_way_own _ _ _ _ s); [done|apply lookup_insert_eq|done..| |done].
    by intros [_ ?].
Qed.

Lemma reaper_runs_step s s' : reaper_runs s → internal s s' → reaper_runs s'.
Proof.
  intros Hr Hs. unfold reaper_runs.
  destruct Hs as [s pid s' Hr' H|s Hr' Hz|s Hr' Hsig|s p pid w Hp Hch|s p pid r s' Hp H|s p pid r s' Hp H|s p pid r Hp];
    simpl; eauto.
  - apply reapProcess_frame in H as (_ & _ & -> & _). done.
  - apply cmdWait_frame in H as (_ & _ & -> & _). done.
  - apply cmdWaitOutput_Some in H as [_ ->]. done.
  - by destruct (unsubscribe_frame pid p s) as (_ & _ & _ & -> & _).
Qed.

(** What a caller can do next. *)
Definition caller_step (s : state) (p : nat) (c : caller) : option state :=
  match c with
  | Waiting pid =>
      match channels s !! p with
      | Some (Some status) =>
          Some (set_channel (set_caller s p (Draining pid (Some status))) p None)
      | _ => None
      end
  | Draining pid received => cmdWait p pid received s
  | Copying pid received => cmdWaitOutput p pid received s
  | Unsubscribing pid received =>
      Some (set_caller (unsubscribeFromProcessExits pid p s) p (Finished received))
  | Finished _ => None
  end.

Lemma caller_step_internal s p c s' :
  callers s !! p = Some c → caller_step s p c = Some s' → internal s s'.
Proof.
  intros Hp. destruct c as [pid|pid r|pid r|pid r|r]; simpl; [|by eapply int_wait|by eapply int_output| |done].
  - destruct (channels s !! p) as [[w|]|] eqn:H; try done. intros [= <-]. by apply int_receive.
  - intros [= <-]. by eapply int_unsubscribe.
Qed.

Lemma quiet_or_step s : inv s → (∃ s', internal s s') ∨ quiet s.
Proof.
  intros Hi.
  destruct (decide (map_Exists (λ p c, is_Some (caller_step s p c)) (callers s)))
    as [(p & c & Hp & s' & H)|Hn]; [left; exists s'; by eapply caller_step_internal|].
  assert (∀ s', internal s s' → reaper s = Reaping ∨ (reaper s = Idle ∧ sigCh s = true)) as Hr.
  { intros s' H. destruct H as [| | |s p pid w Hp Hch|s p pid r s' Hp H|s p pid r s' Hp H|s p pid r Hp]; eauto;
      destruct Hn; eexists p, _; (split; [exact Hp|]); simpl; [rewrite Hch|rewrite H|rewrite H|]; eauto. }
  destruct (reaper s) eqn:Hrs; try by right; intros s' [?|[??]]%Hr.
  - left. destruct (decide (zombies s)) as [(pid & [p e] & Hc & w & Hw)|Hz].
    + simpl in Hw. subst e. destruct (reapProcess_total s pid p w Hi Hc) as (s' & Hs & _).
      exists s'. by eapply int_reap.
    + eexists. by apply int_no_more.
  - destruct (sigCh s) eqn:Hsig; [left; eexists; by apply int_wake|].
    right. intros s' [?|[??]]%Hr; congruence.
Qed.

(** C22: every status is delivered.  While the reaper runs, a caller that still waits when its
    process has ended gets that status: once reaper and callers have done what they can (which
    they do in bounded time), in whatever order statuses were reaped, signals merged and mutex
    acquired, the caller has the status of its own process, and its [Run] has returned with it
    exactly when no descendant of the process has its stdout or stderr open; as long as one has,
    the caller stays in [cmd.Wait], copying. *)
Theorem status_delivered s p pid w :
  reachable s → reaper_runs s →
  callers s !! p = Some (Waiting pid) → ended s !! p = Some w →
  (∃ s', rtc internal s s' ∧ quiet s') ∧
  ∀ s', rtc internal s s' → quiet s' →
    callers s' !! p = Some (match descendants s p with
                            | 0 => Finished (Some w)
                            | S _ => Copying pid (Some w)
                            end).
Proof.
  intros Hi%runner_reachable_inv Hr Hp He. split.
  { apply (comes_to_rest internal inv work); [|apply quiet_or_step|done].
    intros s1 s2 Hi1 H. split; [by eapply internal_inv|by apply internal_work]. }
  intros s' Hs Hq. set (n := descendants s p).
  assert (on_its_way p pid w n s) as Hw by (split_and!; [done|done|]; eexists; split_and!; [done|by left|done]).
  assert (inv s' ∧ reaper_runs s' ∧ on_its_way p pid w n s') as (Hi' & Hr' & He' & Hd & c & Hc & Hph & Hpl).
  { clearbody n. clear Hp He Hq. induction Hs as [|s1 s2 s3 Hst _ IH]; [done|]. apply IH.
    - by eapply internal_inv.
    - by eapply reaper_runs_step.
    - by eapply on_its_way_step. }
  destruct (quiet_finished s' p c w Hi' Hr' Hq Hc He') as [[r ->]|(pid' & r & -> & Hne)].
  - rewrite Hc. simpl in Hpl. rewrite Hpl. destruct Hph as [H|H]; destruct r; simplify_eq/=; done.
  - rewrite Hc. simpl in Hpl. subst pid'. rewrite Hd in Hne. destruct n; [done|].
    destruct Hph as [H|H]; destruct r; simplify_eq/=; done.
Qed.

(** ** A run: the reaper starts, a command gets process id 5, exits with 74 and is delivered *)

Definition run1 : state := set_reaper init Reaping false.
Definition run2 : state := startAndSubscribe 5 run1.
Definition run3 : state := process_exit 5 0 (exited_with 74) run2.
Definition run4 : state := default run3 (reapProcess 5 run3).
Definition run5 : state := default run4 (caller_step run4 0 (Waiting 5)).
Definition run6 : state := default run5 (cmdWait 0 5 (Some (exited_with 74)) run5).
Definition run7 : state := default run6 (cmdWaitOutput 0 5 (Some (exited_with 74)) run6).
Definition run8 : state :=
  set_caller (unsubscribeFromProcessExits 5 0 run7) 0 (Finished (Some (exited_with 74))).

Lemma run3_reachable : reachable run3.
Proof.
  eapply rtc_l; [left; apply ext_reaper_start; done|].
  eapply rtc_l; [left; apply (ext_start _ 5); done|].
  eapply rtc_l; [left; apply (ext_exit _ 5 0 (exited_with 74)); done|]. apply rtc_refl.
Qed.

Lemma run3_run8 : nsteps internal 5 run3 run8.
Proof.
  eapply nsteps_l; [apply (int_reap _ 5 run4); done|].
  eapply nsteps_l; [apply (caller_step_internal _ 0 (Waiting 5) run5); done|].
  eapply nsteps_l; [apply (int_wait _ 0 5 (Some (exited_with 74)) run6); done|].
  eapply nsteps_l; [apply (int_output _ 0 5 (Some (exited_with 74)) run7); done|].
  eapply nsteps_l; [apply (int_unsubscribe _ 0 5 (Some (exited_with 74))); done|].
  apply nsteps_O.
Qed.

Lemma run8_reachable : reachable run8.
Proof.
  eapply rtc_trans; [exact run3_reachable|].
  apply (rtc_subrel internal); [intros ? ? H; by right|].
  exact (rtc_nsteps_2 5 _ _ run3_run8).
Qed.

Lemma reaper_never_blocks_witness :
  children run3 !! 5%Z = Some (mkChild 0 (Some (exited_with 74))) ∧
  ∃ s', reapProcess 5 run3 = Some s'.
Proof.
  split; [reflexivity|].
  exact (reaper_never_blocks run3 5 0 (exited_with 74) run3_reachable eq_refl).
Defined.

Lemma runner_refines_witness :
  abs run8 !! 0 = Some (GotStatus (exited_with 74)) ∧
  rtc spec_step ∅ (abs run8) ∧ ended run8 !! 0 = Some (exited_with 74).
Proof.
  destruct (runner_refines run8 run8_reachable) as [Hs He].
  split; [reflexivity|]. split; [exact Hs|]. apply He. reflexivity.
Defined.

Lemma runner_terminates_witness : work run3 = 8 ∧ 5 + work run8 ≤ 8.
Proof.
  split; [reflexivity|]. exact (runner_terminates run3 run8 5 run3_run8).
Defined.

(** The same when the command has left a descendant behind that still has its stdout: reaped,
    delivered, and yet [Run] has not returned. *)
Definition orphaned : state := process_exit 5 0 (exited_with 74) (set_pipes run2 0 1).

Lemma orphaned_reachable : reachable orphaned.
Proof.
  eapply rtc_l; [left; apply ext_reaper_start; done|].
  eapply rtc_l; [left; apply (ext_start _ 5); done|].
  eapply rtc_l; [left; apply (ext_inherit _ 0); right; by exists 5%Z|].
  eapply rtc_l; [left; apply (ext_exit _ 5 0 (exited_with 74)); done|]. apply rtc_refl.
Qed.

Lemma status_delivered_witness :
  ((∃ s', rtc internal run3 s' ∧ quiet s') ∧
   ∀ s', rtc internal run3 s' → quiet s' →
     callers s' !! 0 = Some (Finished (Some (exited_with 74)))) ∧
  ((∃ s', rtc internal orphaned s' ∧ quiet s') ∧
   ∀ s', rtc internal orphaned s' → quiet s' →
     callers s' !! 0 = Some (Copying 5 (Some (exited_with 74)))).
Proof.
  split.
  - apply (status_delivered run3 0 5 (exited_with 74) run3_reachable);
      [left; reflexivity|reflexivity|reflexivity].
  - apply (status_delivered orphaned 0 5 (exited_with 74) orphaned_reachable);
      [left; reflexivity|reflexivity|reflexivity].
Defined.
