(* ===== verification/Instance.v ===== *)
(** [internal/instance]: the gRPC services of the sidecar beside a PostgreSQL instance
    ([plugin_wal.go], [plugin_backup.go], [plugin_restore.go], [plugin_metrics.go]) and the
    identities of both plugins.

    Requests and answers are records of the fields the services use.  Parameters: the JSON
    decoders of CNPG objects and of wal-g's listing, and the functions of
    [cloudnative-pg/machinery] on LSNs and times.  The encoder of user data
    ([encoding/json]), [path/filepath.Join] and [float64] are modelled.  Logging and the
    timeout contexts are left out: a context that ends is an error of the call. *)
From Stdlib Require Import ZArith Ascii.
From stdpp Require Import base list strings gmap sorting.
From S2P Require Import Prelude GoStrings GoTime Api Effects Backups Recovery Secrets Config Client.
From S2P Require Import Status Roles Json.
Local Open Scope string_scope.
Local Open Scope list_scope.
Local Open Scope go_scope.
Local Open Scope Z_scope.

(** [PrefetchSecretsData] through the pointer just fetched, with the errors of both calls. *)
Definition with_secrets (backupConfig : res (option BackupConfig))
    : prog (res BackupConfigWithSecrets) :=
  match backupConfig with
  | Err e => Ret (Err (wrapf "failed to fetch BackupConfig object: " e))
  | Ok None => Panic nil_deref
  | Ok (Some backupConfig) =>
      wrap_err "failed to fetch BackupConfig secrets: " (PrefetchSecretsData backupConfig)
  end.

(** [fmt.Errorf] with [%w] on the nil error. *)
Definition nil_wrapped : string := "%!w(<nil>)".

(** ** [plugin_wal.go] *)

Module WALService.
Record WALArchiveRequest := mkArchive { ClusterDefinition : string; SourceFileName : string }.
Record WALRestoreRequest := mkFetch {
  r_ClusterDefinition : string;
  SourceWalName : string;
  DestinationFileName : string;
}.
Inductive WALCapability := RPC_TYPE_ARCHIVE_WAL | RPC_TYPE_RESTORE_WAL.

Section service.
(** [json.Unmarshal] into a Cluster. *)
Variable unmarshal_cluster : string → Cluster * option err.

Definition GetCapabilities : list WALCapability :=
  [RPC_TYPE_ARCHIVE_WAL; RPC_TYPE_RESTORE_WAL].

Definition getBackupConfig (cluster : Cluster) : prog (res BackupConfigWithSecrets) :=
  mode ← call (OViperString "mode");
  backupConfig ← (if String.eqb mode PluginModeRecovery
                  then GetBackupConfigForClusterRecovery cluster
                  else GetBackupConfigForCluster cluster);
  with_secrets backupConfig.

Definition GetLastArchivedWALTime : prog (option time) := call OArchivedGet.
Definition SetLastArchivedWALTime (t : time) : prog () := call (OArchivedSet t).

Definition Archive (request : WALArchiveRequest) : prog (res ()) :=
  mode ← call (OViperString "mode");
  if negb (String.eqb mode PluginModeNormal)
  then Ret (Err (errorf "WAL archivation restricted while running not in 'normal' mode"))
  else
    pgMajorVersion ← call (OViperInt "pg_major");
    if pgMajorVersion =? 0
    then Ret (Err (errorf "backup request failed: no PG_MAJOR env variable specified"))
    else match CnpgClusterFromJSON unmarshal_cluster (ClusterDefinition request) with
    | (_, Some e) => Ret (Err (wrapf "failed to parse cluser: " e))
    | (cluster, None) =>
        backupConfig ←? wrap_err "failed to get backup config: " (getBackupConfig cluster);
        walgClient ← NewClientFromBackupConfig backupConfig pgMajorVersion;
        '(result, e) ← WALPush walgClient (SourceFileName request);
        match e with
        | Some e =>
            Ret (Err (mkErr (ekind e)
              ("'wal-g wal-push' for wal " +:+ SourceFileName request +:+ ": " +:+ emsg e +:+
               newline +:+ "stdout: " +:+ rr_stdout result +:+
               newline +:+ " stderr: " +:+ rr_stderr result)))
        | None =>
            now ← call ONow;
            _ ← SetLastArchivedWALTime now;
            Ret (Ok tt)
        end
    end.

(** The answer comes beside the error; [None] is nil.  The branch on exit code 74 differs in what
    it logs only. *)
Definition Restore (request : WALRestoreRequest) : prog (option () * option err) :=
  pgMajorVersion ← call (OViperInt "pg_major");
  if pgMajorVersion =? 0
  then Ret (None, Some (errorf "backup request failed: no PG_MAJOR env variable specified"))
  else match CnpgClusterFromJSON unmarshal_cluster (r_ClusterDefinition request) with
  | (_, Some e) => Ret (None, Some (wrapf "failed to parse cluser: " e))
  | (cluster, None) =>
      backupConfig ← getBackupConfig cluster;
      match backupConfig with
      | Err e => Ret (None, Some (wrapf "failed to get backup config: " e))
      | Ok backupConfig =>
          walgClient ← NewClientFromBackupConfig backupConfig pgMajorVersion;
          '(result, e) ← WALFetch walgClient (SourceWalName request)
                           (DestinationFileName request);
          Ret (Some tt, e)
      end
  end.

(** Not implemented. *)
Definition Status : prog () := Panic "implement me".
Definition SetFirstRequired : prog () := Panic "implement me".
End service.
End WALService.

(** ** [plugin_backup.go] *)

Module BackupService.
Record BackupRequest := mkBackupRequest { BackupDefinition : string; b_ClusterDefinition : string }.

Record BackupResult := mkResult {
  BackupId : string;
  res_BackupName : string;
  StartedAt : Z;
  StoppedAt : Z;
  BeginWal : string;
  BeginLsn : string;
  EndLsn : string;
  InstanceId : string;
  Online : bool;
}.

Inductive BackupCapability := RPC_TYPE_BACKUP.

(** The flags the loop over the existing backups sets. *)
Record findings := mkFindings {
  hasBackupWithCurrentLSN : bool;
  hasBackupWithLaterLSN : bool;
  hasBackupWithAnotherSystemID : bool;
}.

Definition inspect (currentLSN currentSystemID : Z) (f : findings) (b : BackupMetadata)
    : findings :=
  mkFindings
    (if FinishLSN b =? currentLSN then true else hasBackupWithCurrentLSN f)
    (if currentLSN <? FinishLSN b then true else hasBackupWithLaterLSN f)
    (if negb (SystemIdentifier b =? currentSystemID) then true
     else hasBackupWithAnotherSystemID f).

Definition inspect_all (currentLSN currentSystemID : Z) (backupsList : list BackupMetadata)
    : findings :=
  foldl (inspect currentLSN currentSystemID) (mkFindings false false false) backupsList.

(** Why a backup must not be taken. *)
Definition refusal (f : findings) : option string :=
  if hasBackupWithAnotherSystemID f
  then Some "backups with another system ID detected, this usually means that BackupConfig is being used by another database, which is forbidden"
  else if hasBackupWithCurrentLSN f
  then Some "no changes in database detected since previous backup, cannot create new backup"
  else if hasBackupWithLaterLSN f
  then Some "there are backups with later LSN, this usually means that we are creating backup with a very outdated replica"
  else None.

Definition GetCapabilities : list BackupCapability := [RPC_TYPE_BACKUP].

Definition connStr : string := "host=/controller/run user=postgres dbname=postgres sslmode=disable".

Definition query : string :=
"SELECT
		CASE
			WHEN pg_is_in_recovery() THEN pg_last_wal_replay_lsn()::text
			ELSE pg_current_wal_lsn()::text
		END AS current_lsn,
		system_identifier
	FROM pg_control_system()".

Section service.
(** [json.Unmarshal] into a Cluster, a Backup and a slice of backups. *)
Variable unmarshal_cluster : string → Cluster * option err.
Variable unmarshal_backup : string → Backup * option err.
Variable unmarshal_backups : string → res (list BackupMetadata).
(** [types.LSN.Parse], [types.Int64ToLSN] and [time.ToCompactISO8601]. *)
Variable lsn_parse : string → res Z.
Variable Int64ToLSN : Z → string.
Variable ToCompactISO8601 : time → string.

(** [common.CnpgBackupFromJSON]. *)
Definition CnpgBackupFromJSON (backupJSON : string) : Backup * option err :=
  let '(result, e) := unmarshal_backup backupJSON in
  (result, wrap_opt "error unmarshalling object JSON: " e).

Definition getBackupConfig (cluster : Cluster) : prog (res BackupConfigWithSecrets) :=
  backupConfig ← GetBackupConfigForCluster cluster;
  with_secrets backupConfig.

Definition getCurrentLSNAndSystemID : prog (res (Z * Z)) :=
  e ← call (OSqlOpen connStr);
  match e with
  | Some e => Ret (Err (wrapf "failed to open database connection: " e))
  | None =>
      e ← call OSqlPing;
      match e with
      | Some e => Ret (Err (wrapf "failed to ping database: " e))
      | None =>
          row ← call (OSqlQuery query);
          Ret (match row with
               | Err e => Err (wrapf "failed to query LSN and system ID: " e)
               | Ok (lsnStr, systemID) =>
                   match lsn_parse lsnStr with
                   | Err e => Err (wrapf ("failed to parse LSN " +:+ dquote +:+ lsnStr +:+ dquote +:+ ": ") e)
                   | Ok lsn => Ok (lsn, systemID)
                   end
               end)
      end
  end.

Definition backup_params (backup : Backup) (backupHumanName : string) : gmap string string :=
  {["cnpg-backup-name" := Name (bk_meta backup);
    "cnpg-backup-namespace" := Namespace (bk_meta backup);
    "cnpg-backup-human-name" := backupHumanName]}.

(** The answer for the backup just taken. *)
Definition describe (backupHumanName : string) (m : BackupMetadata) : res BackupResult :=
  match StartTime m with
  | None => Err (errorf "cannot parse wal-g backup start_time")
  | Some backupStartTime =>
      match FinishTime m with
      | None => Err (errorf "cannot parse wal-g backup finish_time")
      | Some backupFinishTime =>
          Ok (mkResult (BackupName m) backupHumanName (unix backupStartTime)
                (unix backupFinishTime) (WalFileName m) (Int64ToLSN (StartLSN m))
                (Int64ToLSN (FinishLSN m)) (Hostname m) true)
      end
  end.

Definition buildBackupResult (backupHumanName : string) (config : BackupConfigWithSecrets)
    (pgMajorVersion : Z) (backupParams : gmap string string) : prog (res BackupResult) :=
  walgClient ← NewClientFromBackupConfig config pgMajorVersion;
  walgBackupList ←? wrap_err "failed to list wal-g backups: "
                      (GetBackupsList unmarshal_backups walgClient);
  Ret (match GetBackupByUserData walgBackupList backupParams with
       | None => Err (errorf ("cannot make backup metadata, medatata: <nil> err: " +:+ nil_wrapped))
       | Some currentBackupMetadata => describe backupHumanName currentBackupMetadata
       end).

Definition Backup (request : BackupRequest) : prog (res BackupResult) :=
  pgdata ← call (OViperString "pgdata");
  if String.eqb pgdata ""
  then Ret (Err (errorf "backup request failed: no PGDATA env variable specified"))
  else
    pgMajorVersion ← call (OViperInt "pg_major");
    if pgMajorVersion =? 0
    then Ret (Err (errorf "backup request failed: no PG_MAJOR env variable specified"))
    else match CnpgBackupFromJSON (BackupDefinition request) with
    | (_, Some e) => Ret (Err (wrapf "backup request failed: cannot parse cnpg backup: " e))
    | (backup, None) =>
        match CnpgClusterFromJSON unmarshal_cluster (b_ClusterDefinition request) with
        | (_, Some e) => Ret (Err (wrapf "backup request failed: cannot parse cnpg cluster: " e))
        | (cluster, None) =>
            backupConfigWithSecrets ←?
              wrap_err "backup request failed: " (getBackupConfig cluster);
            now ← call ONow;
            let backupHumanName := "backup-" +:+ ToCompactISO8601 now in
            let backupParams := backup_params backup backupHumanName in
            walgClient ← NewClientFromBackupConfig backupConfigWithSecrets pgMajorVersion;
            backupsList ←?
              wrap_err "failed to create backup: failed to list existing backups: "
                (GetBackupsList unmarshal_backups walgClient);
            position ←?
              wrap_err "failed to get current LSN and system ID: " getCurrentLSNAndSystemID;
            let '(currentLSN, currentSystemID) := position in
            match refusal (inspect_all currentLSN currentSystemID backupsList) with
            | Some why => Ret (Err (errorf why))
            | None =>
                '(result, e) ← BackupPush walgClient pgdata (json_object backupParams);
                match e with
                | Some e =>
                    Ret (Err (mkErr (ekind e)
                      ("failed to do wal-g backup-push: " +:+ emsg e +:+
                       " (stderr: " +:+ rr_stderr result +:+ ")")))
                | None =>
                    buildBackupResult backupHumanName backupConfigWithSecrets pgMajorVersion
                      backupParams
                end
            end
        end
    end.
End service.
End BackupService.

(** ** [path/filepath] *)

Module Filepath.
(** One element of a path, the elements before it in reverse. *)
Definition push (rooted : bool) (before : list string) (element : string) : list string :=
  if String.eqb element "" || String.eqb element "." then before
  else if String.eqb element ".." then
    match before with
    | [] => if rooted then [] else [".."]
    | ".." :: _ => ".." :: before
    | _ :: before => before
    end
  else element :: before.

Definition Clean (path : string) : string :=
  let rooted := has_prefix path "/" in
  let elements := reverse (foldl (push rooted) [] (split path "/")) in
  if rooted then "/" +:+ join "/" elements
  else match elements with [] => "." | _ => join "/" elements end.

(** [filepath.Join] of two elements. *)
Definition Join (a b : string) : string :=
  match filter_by (λ s, negb (String.eqb s "")) [a; b] with
  | [] => ""
  | l => Clean (join "/" l)
  end.
End Filepath.

(** ** [plugin_restore.go] *)

Module RestoreJobHooks.
Record RestoreRequest := mkRestoreRequest { rr_ClusterDefinition : string }.

(** [Envs] is always nil. *)
Record RestoreResponse := mkResponse { RestoreConfig : string }.

Inductive Capability := KIND_RESTORE.
Definition GetCapabilities : list Capability := [KIND_RESTORE].

Definition walDirectory : string := "/var/lib/postgresql/wal".
Definition separatePgWal : string := "/var/lib/postgresql/wal/pg_wal".

(** The end of [Restore]: [pg_wal] is not part of a backup, and lives on its own volume if
    there is one. *)
Definition place_pg_wal (pgdata : string) : prog (option err) :=
  let pgWal := Filepath.Join pgdata "pg_wal" in
  separateWal ← call (OStat walDirectory);
  match (separateWal : stat_result) with
  | StatDir =>
      stat ← call (OStat pgWal);
      match (stat : stat_result) with
      | StatNotExist =>
          e ← call (OMkdirAll separatePgWal);
          match e with
          | Some e => Ret (Some e)
          | None => call (OSymlink separatePgWal pgWal)
          end
      | _ => Ret None
      end
  | _ =>
      stat ← call (OStat pgWal);
      match (stat : stat_result) with
      | StatNotExist => call (OMkdirAll pgWal)
      | _ => Ret None
      end
  end.

Section service.
Variable unmarshal_cluster : string → Cluster * option err.
Variable unmarshal_backups : string → res (list BackupMetadata).
(** [types.LSN.Parse], [types.LSN.Less] and [types.ParseTargetTime] (see [Recovery]). *)
Variable lsn_parse : string → option Z.
Variable lsn_less : Z → string → bool.
Variable parse_target_time : string → option time.
(** [postgres.LogPath] and [postgres.LogFileName]. *)
Variables LogPath LogFileName : string.

Definition getPostgresRestoreWalConfig : string :=
  let restoreCmd :=
    "/controller/manager wal-restore --log-destination " +:+ LogPath +:+ "/" +:+ LogFileName +:+
    ".json %f %p" in
  "recovery_target_action = promote" +:+ newline +:+
  "restore_command = '" +:+ restoreCmd +:+ "'" +:+ newline.

Definition downloadBackupIntoDir (config : BackupConfigWithSecrets)
    (walgBackupName targetDir : string) : prog (option err) :=
  pgMajorVersion ← call (OViperInt "pg_major");
  if pgMajorVersion =? 0
  then Ret (Some (errorf "backup request failed: no PG_MAJOR env variable specified"))
  else
    walgClient ← NewClientFromBackupConfig config pgMajorVersion;
    '(_, e) ← BackupFetch walgClient targetDir walgBackupName;
    Ret (wrap_opt "failed to do wal-g backup-fetch: " e).

(** The backup to restore; [None] is the panic of [FindMostSuitableBackupForRecovery]. *)
Definition choose_backup (recovery : BootstrapRecovery) (walgBackupList : list BackupMetadata)
    : option (res (option BackupMetadata)) :=
  match rec_Target recovery with
  | None => Some (match GetLatestBackup walgBackupList with
                  | Ok b => Ok (Some b)
                  | Err e => Err e
                  end)
  | Some target =>
      FindMostSuitableBackupForRecovery lsn_parse lsn_less parse_target_time walgBackupList target
  end.

Definition Restore (req : RestoreRequest) : prog (res RestoreResponse) :=
  match CnpgClusterFromJSON unmarshal_cluster (rr_ClusterDefinition req) with
  | (_, Some e) => Ret (Err (wrapf "failed to parse cnpg cluster from json: " e))
  | (cluster, None) =>
      restoreConfig ← GetBackupConfigForClusterRecovery cluster;
      restoreConfigWithSecrets ←? with_secrets restoreConfig;
      pgdata ← call (OViperString "pgdata");
      if String.eqb pgdata "" then Ret (Err (errorf "no PGDATA env variable specified"))
      else
        pgMajorVersion ← call (OViperInt "pg_major");
        if pgMajorVersion =? 0
        then Ret (Err (errorf "backup request failed: no PG_MAJOR env variable specified"))
        else match GetRecoveryPluginConfigFromCluster cluster with
        | None => Ret (Err (errorf ("failed to get recovery plugin config: " +:+ nil_wrapped)))
        | Some recoveryPluginConfig =>
            if negb (String.eqb (plugin_Name recoveryPluginConfig) PluginNameDeprecated)
            then Ret (Err (errorf ("incorrect externalCluster plugin name " +:+
                   plugin_Name recoveryPluginConfig +:+ ", expected " +:+ PluginNameDeprecated)))
            else
              walgClient ← NewClientFromBackupConfig restoreConfigWithSecrets pgMajorVersion;
              walgBackupList ←? wrap_err "failed to list wal-g backups: "
                                  (GetBackupsList unmarshal_backups walgClient);
              match cl_Recovery cluster with
              | None => Panic nil_deref
              | Some recovery =>
                  match choose_backup recovery walgBackupList with
                  | None => Panic "slice bounds out of range"
                  | Some (Err e) =>
                      Ret (Err (wrapf "cannot find appropriate basebackup to restore from: " e))
                  | Some (Ok None) =>
                      Ret (Err (errorf ("cannot find appropriate basebackup to restore from: " +:+
                                        nil_wrapped)))
                  | Some (Ok (Some walgBackup)) =>
                      e ← downloadBackupIntoDir restoreConfigWithSecrets (BackupName walgBackup)
                            pgdata;
                      match e with
                      | Some e => Ret (Err e)
                      | None =>
                          e ← place_pg_wal pgdata;
                          Ret (match e with
                               | Some e => Err e
                               | None => Ok (mkResponse getPostgresRestoreWalConfig)
                               end)
                      end
                  end
              end
        end
  end.
End service.
End RestoreJobHooks.

(** ** [plugin_metrics.go] *)

Module MetricsServer.
(** [strings.NewReplacer(".", "_", "-", "_").Replace]. *)
Fixpoint sanitize (s : string) : string :=
  match s with
  | "" => ""
  | String c s => String (if Ascii.eqb c "." || Ascii.eqb c "-" then "_"%char else c) (sanitize s)
  end.

Definition metricsDomain : string := sanitize PluginName.
Definition buildFqName (name : string) : string := metricsDomain +:+ "_" +:+ sanitize name.

Definition firstRecoverabilityPointMetricName : string := buildFqName "first_recoverability_point".
Definition lastAvailableBackupTimestampMetricName : string :=
  buildFqName "last_available_backup_timestamp".
Definition lastFailedBackupTimestampMetricName : string :=
  buildFqName "last_failed_backup_timestamp".
Definition lastArchivedWALTimestampMetricName : string :=
  buildFqName "last_archived_wal_timestamp".
Definition totalWALS3UsageBytesMetricName : string := buildFqName "total_wal_s3_usage_bytes".
Definition totalBackupsS3UsageBytesMetricName : string :=
  buildFqName "total_backups_s3_usage_bytes".
Definition s3ReadAvailabilityMetricName : string := buildFqName "s3_read_availability".
Definition s3WriteAvailabilityMetricName : string := buildFqName "s3_write_availability".

Inductive MetricsCapability := RPC_TYPE_METRICS.
Definition GetCapabilities : list MetricsCapability := [RPC_TYPE_METRICS].

Inductive MetricType := TYPE_GAUGE.
Record Metric := mkMetric { FqName : string; Help : string; ValueType : MetricType }.

Definition Define : list Metric :=
  [mkMetric firstRecoverabilityPointMetricName
     "The first point of recoverability for the cluster as a unix timestamp" TYPE_GAUGE;
   mkMetric lastAvailableBackupTimestampMetricName
     "The last available backup as a unix timestamp" TYPE_GAUGE;
   mkMetric lastFailedBackupTimestampMetricName
     "The last failed backup as a unix timestamp" TYPE_GAUGE;
   mkMetric lastArchivedWALTimestampMetricName
     "The last successfully archived WAL as a unix timestamp" TYPE_GAUGE;
   mkMetric totalWALS3UsageBytesMetricName
     "Total space consumed in S3 by WAL archives in bytes" TYPE_GAUGE;
   mkMetric totalBackupsS3UsageBytesMetricName
     "Total space consumed in S3 by basebackups in bytes" TYPE_GAUGE;
   mkMetric s3ReadAvailabilityMetricName
     "Remote object storage read availability (0 meaning false, 1 - true)" TYPE_GAUGE;
   mkMetric s3WriteAvailabilityMetricName
     "Remote object storage write availability (0 meaning false, 1 - true)" TYPE_GAUGE].

(** A [float64]; all values are integers. *)
Record CollectMetric := mkCollect { c_FqName : string; Value : Z }.

Definition float64 (n : Z) : Z := if n <? 0 then - float64_of_int (- n) else float64_of_int n.

(** [float64(t.Unix())] of a pointer to a time, 0 for nil; and of a pointer to an integer. *)
Definition timestamp (t : option time) : Z :=
  match t with Some t => float64 (unix t) | None => 0 end.
Definition bytes (n : option Z) : Z := match n with Some n => float64 n | None => 0 end.

(** [meta.FindStatusCondition] and the test of its status. *)
Definition availability (l : list Condition) (conditionType : string) : Z :=
  match find_first (λ c, String.eqb (c_Type c) conditionType) l with
  | Some cond => if String.eqb (c_Status cond) ConditionTrue then 1 else 0
  | None => 0
  end.

Definition metrics_of (status : BackupConfigStatus) (walTime : option time) : list CollectMetric :=
  let consumed f := match ConsumedStorage status with Some c => bytes (f c) | None => 0 end in
  [mkCollect firstRecoverabilityPointMetricName (timestamp (FirstRecoverabilityPoint status));
   mkCollect lastAvailableBackupTimestampMetricName (timestamp (LastSuccessfulBackup status));
   mkCollect lastFailedBackupTimestampMetricName (timestamp (LastFailedBackup status));
   mkCollect lastArchivedWALTimestampMetricName (timestamp walTime);
   mkCollect totalWALS3UsageBytesMetricName (consumed WALBytes);
   mkCollect totalBackupsS3UsageBytesMetricName (consumed BackupsBytes);
   mkCollect s3ReadAvailabilityMetricName
     (availability (Conditions status) ConditionTypeStorageReadable);
   mkCollect s3WriteAvailabilityMetricName
     (availability (Conditions status) ConditionTypeStorageWritable)].

Definition Collect (unmarshal_cluster : string → Cluster * option err) (clusterDefinition : string)
    : prog (res (list CollectMetric)) :=
  match CnpgClusterFromJSON unmarshal_cluster clusterDefinition with
  | (_, Some e) => Ret (Err (wrapf "while creating configuration from cluster definition: " e))
  | (cluster, None) =>
      backupConfig ← GetBackupConfigForCluster cluster;
      match backupConfig with
      | Err e => Ret (Err (wrapf "failed to fetch BackupConfig object: " e))
      | Ok None => Panic nil_deref
      | Ok (Some backupConfig) =>
          walTime ← WALService.GetLastArchivedWALTime;
          Ret (Ok (metrics_of (bc_Status backupConfig) walTime))
      end
  end.
End MetricsServer.

(** ** [plugin_identity.go] and [plugin.go] of both plugins *)

Module Identity.
Inductive Service :=
| TYPE_WAL_SERVICE | TYPE_BACKUP_SERVICE | TYPE_RESTORE_JOB | TYPE_METRICS
| TYPE_LIFECYCLE_SERVICE | TYPE_RECONCILER_HOOKS.

(** [common.PluginMetadata]; the version is set at link time. *)
Record PluginMetadata := mkMetadata {
  md_Name : string;
  md_Version : string;
  md_DisplayName : string;
  md_ProjectUrl : string;
  md_RepositoryUrl : string;
  md_License : string;
  md_LicenseUrl : string;
  md_Maturity : string;
}.

Definition GetPluginMetadata (version : string) : PluginMetadata :=
  mkMetadata PluginNameDeprecated version "CNPG Plugin WAL-G"
    "https://github.com/wal-g/cnpg-plugin-wal-g" "https://github.com/wal-g/cnpg-plugin-wal-g"
    "APACHE 2.0" "https://github.com/wal-g/cnpg-plugin-wal-g/LICENSE" "beta".

Definition instance_GetPluginCapabilities : list Service :=
  [TYPE_WAL_SERVICE; TYPE_BACKUP_SERVICE; TYPE_RESTORE_JOB; TYPE_METRICS].
Definition operator_GetPluginCapabilities : list Service :=
  [TYPE_LIFECYCLE_SERVICE; TYPE_RECONCILER_HOOKS].
Definition Probe_Ready : bool := true.

(** The servers [CNPGI.Start] registers with gRPC. *)
Definition instance_servers : list Service :=
  [TYPE_WAL_SERVICE; TYPE_BACKUP_SERVICE; TYPE_RESTORE_JOB; TYPE_METRICS].
Definition operator_servers : list Service := [TYPE_LIFECYCLE_SERVICE; TYPE_RECONCILER_HOOKS].

(** The operator's [CNPGI] and the server it starts: certificates only where a directory is
    configured. *)
Record CNPGI := mkCNPGI {
  ServerAddress : string;
  PluginPath : string;
  ServerCertPath : string;
  ServerCertName : string;
  ServerCertKey : string;
  ClientCertPath : string;
  ClientCertName : string;
}.
Record Server := mkServer {
  srv_PluginPath : string;
  srv_ServerAddress : string;
  srv_ServerCertPath : string;
  srv_ServerKeyPath : string;
  srv_ClientCertPath : string;
}.
Definition operator_server (c : CNPGI) : Server :=
  let tls := negb (String.eqb (ServerCertPath c) "") in
  mkServer (PluginPath c) (ServerAddress c)
    (if tls then Filepath.Join (ServerCertPath c) (ServerCertName c) else "")
    (if tls then Filepath.Join (ServerCertPath c) (ServerCertKey c) else "")
    (if negb (String.eqb (ClientCertPath c) "")
     then Filepath.Join (ClientCertPath c) (ClientCertName c) else "").
End Identity.

(** ** Properties *)

(** The calls that get ready: they read, or write what wal-g's configuration refers to. *)
Definition prepares (e : event) : Prop :=
  match ev_op e with
  | OGet _ _ | OList _ _ | OViperString _ | OViperInt _ | ONow | OStatIsDir _ | OMkdirAll _ | OWriteFile _ _
  | OCacheGet _ _ | OCachePut _ _ _ => True
  | _ => False
  end.

Lemma reads_prepares e : reads e → prepares e.
Proof. by destruct e as [[] ?]. Qed.

Lemma emits_reads_prepares {A} (p : prog A) : safe reads p → emits prepares p.
Proof. intros Hp. eapply emits_mono; [apply reads_prepares|by apply safe_emits]. Qed.

Lemma prepares_client bc v : emits prepares (NewClientFromBackupConfig bc v).
Proof. by apply emits_NewClient. Qed.

Lemma prepares_with_secrets b : emits prepares (with_secrets b).
Proof.
  destruct b as [[b|]|e]; [|apply emits_panic|apply emits_ret]. simpl.
  apply emits_wrap, emits_reads_prepares, safe_reads_prefetch.
Qed.

Lemma prepares_cluster c : emits prepares (GetBackupConfigForCluster c).
Proof. apply emits_reads_prepares, safe_reads_for_cluster. Qed.

Lemma prepares_recovery c : emits prepares (GetBackupConfigForClusterRecovery c).
Proof.
  unfold GetBackupConfigForClusterRecovery, getBackupConfigFromPluginConfig. by emits_auto.
Qed.
#[export] Hint Resolve prepares_client prepares_with_secrets prepares_cluster prepares_recovery
  : golib.

Lemma wal_config_prepares c : emits prepares (WALService.getBackupConfig c).
Proof. unfold WALService.getBackupConfig. emits_auto; by auto with golib. Qed.

Lemma backup_config_prepares c : emits prepares (BackupService.getBackupConfig c).
Proof. unfold BackupService.getBackupConfig. emits_auto; by auto with golib. Qed.
#[export] Hint Resolve wal_config_prepares backup_config_prepares : golib.

(** [after prepares] of a fallible call: its error ends the run. *)
Lemma after_try {A B} P (p : prog (res A)) (f : A → prog (res B)) Q :
  emits P p → (∀ a, wp (f a) (after P Q)) → (∀ e, Q [] (Returned (Err e))) →
  (∀ w, Q [] (Panicked w)) → wp (try_bind p f) (after P Q).
Proof.
  intros Hp Hf He Hw. apply after_bind; [done| |done].
  intros [a|e]; [done|]. apply after_now. apply He.
Qed.

(** *** Archiving *)

(** How a call of [Archive] ends: without running anything; with a failed push; or with a push
    that succeeded and whose time is recorded. *)
Inductive archived (file : string) : list event → outcome (res ()) → Prop :=
| archive_refused r : r ≠ Returned (Ok tt) → archived file [] r
| archive_failed env result e e' :
    archived file [Ev (OExec "wal-g" ["wal-push"; file] env) (result, Some e)]
      (Returned (Err e'))
| archive_done env result now :
    archived file
      [Ev (OExec "wal-g" ["wal-push"; file] env) (result, None); Ev ONow now;
       Ev (OArchivedSet now) tt] (Returned (Ok tt)).

(** C12: archiving a WAL segment.  Whatever the API server, the file system and wal-g answer, a
    call of [Archive] first gets ready, without running a command or recording anything; then
    at most one command runs, the push of the requested file.  The call succeeds exactly when
    that push did, and exactly then the time is recorded for the metrics, after the push.
    Outside the mode "normal" nothing runs at all. *)
Theorem archive_spec unmarshal_cluster request :
  wp (WALService.Archive unmarshal_cluster request) (λ t r,
    after prepares (archived (WALService.SourceFileName request)) t r ∧
    ∃ mode t', t = Ev (OViperString "mode") mode :: t' ∧
      (mode ≠ PluginModeNormal → t' = [] ∧ ∃ e, r = Returned (Err e))).
Proof.
  unfold WALService.Archive. apply wp_call. intros mode. cbv beta.
  destruct (String.eqb_spec mode PluginModeNormal) as [->|Hm]; cbn [negb].
  2: { split; [|eauto 10]. exists [Ev (OViperString "mode") mode], []. split_and!; [done|by repeat constructor|].
       apply archive_refused. congruence. }
  apply (wp_mono _ (after prepares (archived (WALService.SourceFileName request)))).
  { intros t r (t1 & t2 & -> & H1 & H2). split; [|by eexists _, _].
    exists (Ev (OViperString "mode") PluginModeNormal :: t1), t2. split_and!; [done| |exact H2].
    by constructor. }
  apply after_vis; [done|]. intros v.
  assert (∀ e, archived (WALService.SourceFileName request) [] (Returned (Err e))) as Herr
    by (intros e; by apply archive_refused).
  assert (∀ w, archived (WALService.SourceFileName request) [] (Panicked w)) as Hpanic
    by (intros w; by apply archive_refused).
  destruct (v =? 0); [by apply after_now, Herr|].
  destruct (CnpgClusterFromJSON _ _) as [cluster [e|]]; [by apply after_now, Herr|].
  apply after_try; [auto with golib| |done|done]. intros bc.
  apply after_bind; [auto with golib| |done]. intros c. apply after_now.
  intros [result [e|]]; [by eapply archive_failed|]. intros now []. by eapply archive_done.
Qed.

(** Fetching a WAL segment: after the preparations at most one command runs, the fetch of the
    requested segment to the requested file, and the call fails exactly as that command did. *)
Lemma fetch_spec unmarshal_cluster request :
  wp (WALService.Restore unmarshal_cluster request) (after prepares (λ t r,
    (t = [] ∧ ∀ x, r ≠ Returned (x, None)) ∨
    ∃ env result e,
      t = [Ev (OExec "wal-g" ["wal-fetch"; WALService.SourceWalName request;
                              WALService.DestinationFileName request] env) (result, e)] ∧
      r = Returned (Some tt, e))).
Proof.
  unfold WALService.Restore. apply after_vis; [done|]. intros v. cbv beta.
  destruct (v =? 0); [apply after_now; by left|].
  destruct (CnpgClusterFromJSON _ _) as [cluster [e|]]; [apply after_now; by left|].
  apply after_bind; [auto with golib| |by left]. intros [bc|e]; [|apply after_now; by left].
  apply after_bind; [auto with golib| |by left]. intros c. apply after_now.
  intros [result e]. right. by eexists _, _, _.
Qed.

(** *** Taking a backup *)

(** Nothing stands against a backup exactly when every backup there is comes from this very
    database and ended before its current position. *)
Lemma refusal_None lsn system l :
  BackupService.refusal (BackupService.inspect_all lsn system l) = None ↔
  Forall (λ b, SystemIdentifier b = system ∧ FinishLSN b < lsn) l.
Proof.
  unfold BackupService.inspect_all.
  assert (∀ f, BackupService.refusal (foldl (BackupService.inspect lsn system) f l) = None ↔
    BackupService.refusal f = None ∧
    Forall (λ b, SystemIdentifier b = system ∧ FinishLSN b < lsn) l) as H.
  { induction l as [|b l IH]; intros f; simpl; [by rewrite Forall_nil; naive_solver|].
    rewrite IH, Forall_cons. unfold BackupService.refusal. simpl.
    destruct f as [[] [] []]; simpl;
      destruct (Z.eqb_spec (SystemIdentifier b) system), (Z.eqb_spec (FinishLSN b) lsn),
        (Z.ltb_spec lsn (FinishLSN b)); simpl; intuition (done || lia). }
  rewrite H. simpl. tauto.
Qed.

Section backup.
Context (unmarshal_cluster : string → Cluster * option err)
  (unmarshal_backup : string → Api.Backup * option err)
  (unmarshal_backups : string → res (list BackupMetadata)) (lsn_parse : string → res Z)
  (Int64ToLSN : Z → string) (ToCompactISO8601 : time → string).

Definition list_args : list string := ["backup-list"; "--detail"; "--json"].
Definition fails {A} (r : outcome (res A)) : Prop := ∀ a, r ≠ Returned (Ok a).

(** What follows a successful push: the new listing, and the answer made from it. *)
Inductive reported (human : string) (params : gmap string string)
    : list event → outcome (res BackupService.BackupResult) → Prop :=
| report_fails t r : commands t = [] ∨ commands t = [list_args] → fails r →
    reported human params t r
| report env listing l b :
    unmarshal_backups (rr_stdout listing) = Ok l → GetBackupByUserData l params = Some b →
    reported human params [Ev (OExec "wal-g" list_args env) (listing, None)]
      (Returned (BackupService.describe Int64ToLSN human b)).

(** The end of a call of [Backup]: no push and no success, or a push that was allowed. *)
Inductive backed_up (backup : Api.Backup) (pgdata : string)
    : list event → outcome (res BackupService.BackupResult) → Prop :=
| not_pushed t r : commands t = [] ∨ commands t = [list_args] → fails r →
    backed_up backup pgdata t r
| pushed now env listing l lsnStr lsn system result e t r :
    let human := "backup-" +:+ ToCompactISO8601 now in
    let params := BackupService.backup_params backup human in
    unmarshal_backups (rr_stdout listing) = Ok l → lsn_parse lsnStr = Ok lsn →
    Forall (λ b, SystemIdentifier b = system ∧ FinishLSN b < lsn) l →
    match e with
    | Some _ => t = [] ∧ fails r
    | None => after prepares (reported human params) t r
    end →
    backed_up backup pgdata
      ([Ev (OExec "wal-g" list_args env) (listing, None);
        Ev (OSqlOpen BackupService.connStr) None; Ev OSqlPing None;
        Ev (OSqlQuery BackupService.query) (Ok (lsnStr, system));
        Ev (OExec "wal-g" ["backup-push"; pgdata; "--add-user-data"; json_object params] env)
          (result, e)] ++ t) r.

Lemma report_wp human config v params :
  wp (BackupService.buildBackupResult unmarshal_backups Int64ToLSN human config v params)
    (after prepares (reported human params)).
Proof.
  unfold BackupService.buildBackupResult.
  apply after_bind; [auto with golib| |].
  2: { intros w. apply report_fails; [by left|by intros a]. }
  intros c. apply after_now. intros [listing [e|]].
  { apply report_fails; [by right|by intros a]. }
  simpl. destruct (unmarshal_backups (rr_stdout listing)) as [l|e] eqn:Hl.
  2: { apply report_fails; [by right|by intros a]. }
  simpl. destruct (GetBackupByUserData l params) as [b|] eqn:Hb.
  - by eapply report.
  - apply report_fails; [by right|by intros a].
Qed.

(** From the first listing on. *)
Lemma push_wp backup pgdata now config v c :
  let human := "backup-" +:+ ToCompactISO8601 now in
  let params := BackupService.backup_params backup human in
  wp (backupsList ←? wrap_err "failed to create backup: failed to list existing backups: "
                       (GetBackupsList unmarshal_backups c);
      position ←? wrap_err "failed to get current LSN and system ID: "
                    (BackupService.getCurrentLSNAndSystemID lsn_parse);
      let '(lsn, system) := position in
      match BackupService.refusal (BackupService.inspect_all lsn system backupsList) with
      | Some why => Ret (Err (errorf why))
      | None =>
          '(result, e) ← BackupPush c pgdata (json_object params);
          match e with
          | Some e => Ret (Err (mkErr (ekind e)
              ("failed to do wal-g backup-push: " +:+ emsg e +:+
               " (stderr: " +:+ rr_stderr result +:+ ")")))
          | None => BackupService.buildBackupResult unmarshal_backups Int64ToLSN human config v params
          end
      end) (backed_up backup pgdata).
Proof.
  intros human params [listing [e|]]; [apply not_pushed; [by right|by intros a]|].
  simpl. destruct (unmarshal_backups (rr_stdout listing)) as [l|e] eqn:Hl.
  2: { apply not_pushed; [by right|by intros a]. }
  simpl. intros [e|]; [apply not_pushed; [by right|by intros a]|].
  intros [e|]; [apply not_pushed; [by right|by intros a]|].
  intros [[lsnStr system]|e]; [|apply not_pushed; [by right|by intros a]].
  simpl. destruct (lsn_parse lsnStr) as [lsn|e] eqn:Hlsn.
  2: { apply not_pushed; [by right|by intros a]. }
  simpl. destruct (BackupService.refusal _) as [why|] eqn:Hr.
  { apply not_pushed; [by right|by intros a]. }
  apply refusal_None in Hr. intros [result [e|]].
  - by eapply (pushed backup pgdata now _ listing l lsnStr lsn system result (Some e) []).
  - eapply wp_mono; [|apply report_wp]. intros t r Ht.
    by eapply (pushed backup pgdata now _ listing l lsnStr lsn system result None t).
Qed.

(** C10: taking a backup.  Whatever the API server, PostgreSQL and wal-g answer, after the
    preparations [Backup] lists the backups, asks the database for its position and then runs
    at most one push of its data directory.  It pushes only when all backups of the listing
    belong to this database and ended before its current LSN.  It succeeds only after a push
    that succeeded, with the answer that describes the newest backup of a second listing whose
    user data are exactly those given to this push. *)
Theorem backup_spec request :
  wp (BackupService.Backup unmarshal_cluster unmarshal_backup unmarshal_backups lsn_parse
        Int64ToLSN ToCompactISO8601 request) (λ t r,
    ∃ pgdata t', t = Ev (OViperString "pgdata") pgdata :: t' ∧
      after prepares
        (backed_up (unmarshal_backup (BackupService.BackupDefinition request)).1 pgdata) t' r).
Proof.
  unfold BackupService.Backup. apply wp_call. intros pgdata. cbv beta.
  set (bk := (unmarshal_backup _).1).
  apply (wp_mono _ (after prepares (backed_up bk pgdata))); [by intros t r H; eexists _, _|].
  assert (∀ e, backed_up bk pgdata [] (Returned (Err e))) as Herr
    by (intros e; apply not_pushed; [by left|by intros a]).
  assert (∀ w, backed_up bk pgdata [] (Panicked w)) as Hpanic
    by (intros e; apply not_pushed; [by left|by intros a]).
  destruct (String.eqb pgdata ""); [by apply after_now, Herr|].
  apply after_vis; [done|]. intros v. cbv beta. destruct (v =? 0); [by apply after_now, Herr|].
  destruct (BackupService.CnpgBackupFromJSON _ _) as [backup [e|]] eqn:Hbk;
    [by apply after_now, Herr|].
  assert (backup = bk) as ->.
  { unfold BackupService.CnpgBackupFromJSON in Hbk. subst bk.
    destruct (unmarshal_backup _). by simplify_eq/=. }
  destruct (CnpgClusterFromJSON _ _) as [cluster [e|]]; [by apply after_now, Herr|].
  apply after_try; [auto with golib| |done|done]. intros bc.
  apply after_vis; [done|]. intros now. cbv beta zeta.
  apply after_bind; [auto with golib| |done]. intros c. apply after_now, push_wp.
Qed.
End backup.

(** *** Restoring *)

(** How placing [pg_wal] ends: it is there; its link to the separate volume or its directory
    was made, or could not be made. *)
Inductive placed (pgWal : string) : list event → option err → Prop :=
| placed_before s s' : s' ≠ StatNotExist →
    placed pgWal [Ev (OStat RestoreJobHooks.walDirectory) s; Ev (OStat pgWal) s'] None
| placed_no_volume e :
    placed pgWal [Ev (OStat RestoreJobHooks.walDirectory) StatDir; Ev (OStat pgWal) StatNotExist;
                  Ev (OMkdirAll RestoreJobHooks.separatePgWal) (Some e)] (Some e)
| placed_link e :
    placed pgWal [Ev (OStat RestoreJobHooks.walDirectory) StatDir; Ev (OStat pgWal) StatNotExist;
                  Ev (OMkdirAll RestoreJobHooks.separatePgWal) None;
                  Ev (OSymlink RestoreJobHooks.separatePgWal pgWal) e] e
| placed_directory s e : s ≠ StatDir →
    placed pgWal [Ev (OStat RestoreJobHooks.walDirectory) s; Ev (OStat pgWal) StatNotExist;
                  Ev (OMkdirAll pgWal) e] e.

Lemma place_wp pgdata :
  wp (RestoreJobHooks.place_pg_wal pgdata)
    (λ t r, ∃ e, r = Returned e ∧ placed (Filepath.Join pgdata "pg_wal") t e).
Proof.
  intros s. cbv beta iota. set (pgWal := Filepath.Join pgdata "pg_wal").
  destruct s; intros s'; destruct s'; simpl;
    try (eexists; split; [done|by constructor]);
    try (intros e; eexists; split; [done|by constructor]).
  intros [e|]; simpl; [eexists; split; [done|by constructor]|].
  intros e. eexists. split; [done|by constructor].
Qed.

Section restore.
Context (unmarshal_cluster : string → Cluster * option err)
  (unmarshal_backups : string → res (list BackupMetadata)) (lsn_parse : string → option Z)
  (lsn_less : Z → string → bool) (parse_target_time : string → option time)
  (LogPath LogFileName : string).

Let choose := RestoreJobHooks.choose_backup lsn_parse lsn_less parse_target_time.

(** The rest of a call of [Restore] once the data directory is known: no fetch and no success,
    or the fetch of the chosen backup, after which [pg_wal] is placed. *)
Inductive restored (recovery : option BootstrapRecovery) (pgdata : string)
    : list event → outcome (res RestoreJobHooks.RestoreResponse) → Prop :=
| not_fetched t r : commands t = [] ∨ commands t = [list_args] → fails r →
    restored recovery pgdata t r
| fetched target env listing l b u env' result e t r :
    recovery = Some target →
    unmarshal_backups (rr_stdout listing) = Ok l → choose target l = Some (Ok (Some b)) →
    Forall prepares u →
    match e with
    | Some _ => t = [] ∧ fails r
    | None => ∃ e', placed (Filepath.Join pgdata "pg_wal") t e' ∧
        r = Returned (match e' with
                      | Some e' => Err e'
                      | None => Ok (RestoreJobHooks.mkResponse
                                  (RestoreJobHooks.getPostgresRestoreWalConfig LogPath LogFileName))
                      end)
    end →
    restored recovery pgdata
      (Ev (OExec "wal-g" list_args env) (listing, None) :: u ++
       Ev (OExec "wal-g" ["backup-fetch"; "--turbo"; pgdata; BackupName b] env') (result, e) :: t)
      r.

Lemma download_wp config name pgdata :
  wp (RestoreJobHooks.downloadBackupIntoDir config name pgdata) (after prepares (λ t r,
    (t = [] ∧ r ≠ Returned None) ∨
    ∃ env result e,
      t = [Ev (OExec "wal-g" ["backup-fetch"; "--turbo"; pgdata; name] env) (result, e)] ∧
      r = Returned (wrap_opt "failed to do wal-g backup-fetch: " e))).
Proof.
  unfold RestoreJobHooks.downloadBackupIntoDir. apply after_vis; [done|]. intros v. cbv beta.
  destruct (v =? 0); [apply after_now; by left|].
  apply after_bind; [auto with golib| |by left]. intros c. apply after_now.
  intros [result e]. right. by eexists _, _, _.
Qed.

Lemma only_listed recovery pgdata env x u r :
  Forall prepares u → fails r →
  restored recovery pgdata (Ev (OExec "wal-g" list_args env) x :: u) r.
Proof.
  intros Hu Hr. apply not_fetched; [|done]. right. unfold commands. simpl. f_equal.
  apply quiet_commands. eapply Forall_impl; [exact Hu|]. by intros [[] ?].
Qed.

(** The fetch and the placement after it, behind the listing. *)
Lemma fetch_wp recovery target config b pgdata env listing l :
  recovery = Some target → unmarshal_backups (rr_stdout listing) = Ok l →
  choose target l = Some (Ok (Some b)) →
  wp (e ← RestoreJobHooks.downloadBackupIntoDir config (BackupName b) pgdata;
      match e with
      | Some e => Ret (Err e)
      | None =>
          e ← RestoreJobHooks.place_pg_wal pgdata;
          Ret (match e with
               | Some e => Err e
               | None => Ok (RestoreJobHooks.mkResponse
                           (RestoreJobHooks.getPostgresRestoreWalConfig LogPath LogFileName))
               end)
      end)
    (λ t r, restored recovery pgdata
              (Ev (OExec "wal-g" list_args env) (listing, None) :: t) r).
Proof.
  intros Ht Hl Hb. apply wp_bind. eapply wp_mono; [|apply download_wp].
  intros t r (u & t2 & -> & Hu & [[-> Hr]|(env' & result & e & -> & ->)]).
  - destruct r as [[e|]|w]; [|done|]; simpl; rewrite !app_nil_r;
      (apply only_listed; [done|by intros a]).
  - destruct e as [e|]; cbn [wrap_opt].
    + simpl. rewrite app_nil_r.
      by eapply (fetched recovery pgdata target env listing l b u env' result (Some e) []).
    + apply wp_bind. eapply wp_mono; [|apply place_wp]. intros t r (e' & -> & Hp). simpl.
      rewrite app_nil_r, <-app_assoc.
      by eapply (fetched recovery pgdata target env listing l b u env' result None t); eauto.
Qed.

(** C11: restoring.  Whatever the API server, the file system and wal-g answer, [Restore] lists
    the backups of the recovery source and runs at most one more command, the fetch into the
    data directory of the backup that the recovery target selects from that listing.  It
    succeeds only after that fetch succeeded and [pg_wal] was found or put in place, and gives
    PostgreSQL the command that fetches WAL segments. *)
Theorem restore_spec req :
  wp (RestoreJobHooks.Restore unmarshal_cluster unmarshal_backups lsn_parse lsn_less
        parse_target_time LogPath LogFileName req)
    (after prepares (λ t r,
      (t = [] ∧ fails r) ∨
      ∃ pgdata t', t = Ev (OViperString "pgdata") pgdata :: t' ∧
        after prepares
          (restored (cl_Recovery (unmarshal_cluster (RestoreJobHooks.rr_ClusterDefinition req)).1)
             pgdata) t' r)).
Proof.
  unfold RestoreJobHooks.Restore, CnpgClusterFromJSON.
  destruct (unmarshal_cluster _) as [cluster e]. simpl fst.
  destruct e as [e|]; simpl wrap_opt; cbv iota; [apply after_now; left; by split; [|intros a]|].
  apply after_bind; [auto with golib| |left; by split; [|intros a]]. intros bc.
  apply after_try; [auto with golib| |left; by split; [|intros a]..]. intros config.
  apply after_now, wp_call. intros pgdata. cbv beta.
  apply (wp_mono _ (after prepares (restored (cl_Recovery cluster) pgdata)));
    [intros t r H; right; by eexists _, _|].
  assert (∀ e, restored (cl_Recovery cluster) pgdata [] (Returned (Err e))) as Herr
    by (intros e; apply not_fetched; [by left|by intros a]).
  assert (∀ w, restored (cl_Recovery cluster) pgdata [] (Panicked w)) as Hpanic
    by (intros e; apply not_fetched; [by left|by intros a]).
  destruct (String.eqb pgdata ""); [by apply after_now, Herr|].
  apply after_vis; [done|]. intros v. cbv beta. destruct (v =? 0); [by apply after_now, Herr|].
  destruct (GetRecoveryPluginConfigFromCluster cluster) as [p|]; [|by apply after_now, Herr].
  destruct (negb _); [by apply after_now, Herr|].
  apply after_bind; [auto with golib| |done]. intros c. apply after_now.
  intros [listing [e|]]; [apply not_fetched; [by right|by intros a]|].
  cbn [wrap_err mbind prog_bind bind].
  destruct (unmarshal_backups (rr_stdout listing)) as [l|e] eqn:Hl; cbn;
    [|apply not_fetched; [by right|by intros a]].
  destruct (cl_Recovery cluster) as [target|] eqn:Ht;
    [|apply not_fetched; [by right|by intros a]].
  destruct (RestoreJobHooks.choose_backup _ _ _ target l) as [[[b|]|e]|] eqn:Hb;
    try (apply not_fetched; [by right|by intros a]).
  by eapply fetch_wp.
Qed.
End restore.

(** *** Metrics *)

Lemma float64_small n : - 2 ^ 53 < n < 2 ^ 53 → MetricsServer.float64 n = n.
Proof.
  assert (∀ m, 0 ≤ m < 2 ^ 53 → float64_of_int m = m) as H.
  { intros m Hm. unfold float64_of_int.
    assert (Z.log2 m - 52 ≤ 0).
    { destruct (decide (m = 0)) as [->|Hm0]; [done|].
      assert (Z.log2 m < 53); [apply Z.log2_lt_pow2; lia|lia]. }
    rewrite Z.max_l by lia. change (2 ^ 0) with 1. unfold round_half_even.
    rewrite Z.mod_1_r, Z.div_1_r. simpl. lia. }
  intros Hn. unfold MetricsServer.float64. destruct (Z.ltb_spec n 0); rewrite H; lia.
Qed.

(** A name Prometheus accepts: letters, digits and underscores, no digit first. *)
Definition name_char (c : ascii) : bool :=
  let n := nat_of_ascii c in
  ((97 <=? n) && (n <=? 122) || (65 <=? n) && (n <=? 90) || (48 <=? n) && (n <=? 57) ||
   (n =? 95))%nat.
Definition prometheus_name (s : string) : bool :=
  match String.list_ascii_of_string s with
  | [] => false
  | c :: _ => negb (48 <=? nat_of_ascii c)%nat || (57 <? nat_of_ascii c)%nat
  end && forallb name_char (String.list_ascii_of_string s).

(** The number a field of the status stands for. *)
Definition exact_time (t : option time) : Prop := ∀ x, t = Some x → - 2 ^ 53 < unix x < 2 ^ 53.
Definition exact_bytes (n : option Z) : Prop := ∀ x, n = Some x → - 2 ^ 53 < x < 2 ^ 53.

Lemma timestamp_exact t :
  exact_time t → MetricsServer.timestamp t = from_option unix 0 t.
Proof. intros Ht. destruct t as [t|]; [|done]. simpl. apply float64_small. by apply Ht. Qed.

Lemma bytes_exact n : exact_bytes n → MetricsServer.bytes n = default 0 n.
Proof. intros Hn. destruct n as [n|]; [|done]. simpl. apply float64_small. by apply Hn. Qed.

Definition consumed (f : ConsumedStorageInfo → option Z) (status : BackupConfigStatus)
    : option Z :=
  match ConsumedStorage status with Some c => f c | None => None end.

(** The numbers of a status fit a [float64]. *)
Definition exact_status (status : BackupConfigStatus) : Prop :=
  exact_time (FirstRecoverabilityPoint status) ∧ exact_time (LastSuccessfulBackup status) ∧
  exact_time (LastFailedBackup status) ∧
  exact_bytes (consumed WALBytes status) ∧ exact_bytes (consumed BackupsBytes status).

Lemma metric_values status walTime :
  exact_status status → exact_time walTime →
  MetricsServer.Value <$> MetricsServer.metrics_of status walTime =
    (from_option unix 0 <$> [FirstRecoverabilityPoint status; LastSuccessfulBackup status;
                             LastFailedBackup status; walTime]) ++
    (default 0 <$> [consumed WALBytes status; consumed BackupsBytes status]) ++
    ((λ c, if String.eqb (status_in (Conditions status) c) ConditionTrue then 1 else 0) <$>
       [ConditionTypeStorageReadable; ConditionTypeStorageWritable]).
Proof.
  intros (H1 & H2 & H3 & H5 & H6) H4.
  unfold MetricsServer.metrics_of. cbn [fmap list_fmap MetricsServer.Value app].
  rewrite !timestamp_exact by done.
  assert (∀ f, match ConsumedStorage status with
               | Some c => MetricsServer.bytes (f c)
               | None => 0
               end = MetricsServer.bytes (consumed f status)) as Hc
    by (intros f; unfold consumed; by destruct (ConsumedStorage status)).
  rewrite !Hc, !bytes_exact by done.
  assert (∀ c, MetricsServer.availability (Conditions status) c =
    if String.eqb (status_in (Conditions status) c) ConditionTrue then 1 else 0) as Ha.
  { intros c. unfold MetricsServer.availability, status_in. by destruct (find_first _ _). }
  by rewrite !Ha.
Qed.

(** C38: metrics are well formed.  Every answer of [Collect] has exactly the metrics that
    [Define] announces, in that order, under distinct names Prometheus accepts.  It is made
    from one read of the BackupConfig and of the time of the last push; as long as the numbers
    fit a [float64], the values are the times and sizes of that status (0 for those missing)
    and that time, and the two availabilities are 1 when the condition is there and "True",
    else 0. *)
Theorem metrics_well_formed unmarshal_cluster definition t l :
  exec (MetricsServer.Collect unmarshal_cluster definition) t (Returned (Ok l)) →
  MetricsServer.c_FqName <$> l = MetricsServer.FqName <$> MetricsServer.Define ∧
  NoDup (MetricsServer.c_FqName <$> l) ∧
  Forall (λ n, prometheus_name n = true) (MetricsServer.c_FqName <$> l) ∧
  ∃ key bc walTime,
    t = [Ev (OGet KBackupConfig key) (Ok bc); Ev OArchivedGet walTime] ∧
    let status := bc_Status bc in
    (exact_status status → exact_time walTime →
     MetricsServer.Value <$> l =
       (from_option unix 0 <$> [FirstRecoverabilityPoint status; LastSuccessfulBackup status;
                                LastFailedBackup status; walTime]) ++
       (default 0 <$> [consumed WALBytes status; consumed BackupsBytes status]) ++
       ((λ c, if String.eqb (status_in (Conditions status) c) ConditionTrue then 1 else 0) <$>
          [ConditionTypeStorageReadable; ConditionTypeStorageWritable])).
Proof.
  intros He. assert (∃ key bc walTime,
    t = [Ev (OGet KBackupConfig key) (Ok bc); Ev OArchivedGet walTime] ∧
    l = MetricsServer.metrics_of (bc_Status bc) walTime) as (key & bc & walTime & -> & ->).
  { unfold MetricsServer.Collect in He.
    destruct (CnpgClusterFromJSON _ _) as [cluster [e|]]; [by destruct He as [_ [=]]|].
    unfold GetBackupConfigForCluster, getBackupConfigFromPluginConfig in He.
    destruct (GetPluginConfigFromCluster cluster) as [p|]; [|by destruct He as [_ [=]]].
    destruct (plugin_Parameters p) as [m|]; [|by destruct He as [_ [=]]].
    destruct (negb _); [by destruct He as [_ [=]]|].
    destruct (m !! _) as [name|]; [|by destruct He as [_ [=]]].
    destruct He as ([bc|e] & t1 & -> & He); [|by destruct He as [_ [=]]].
    destruct He as (walTime & t2 & -> & -> & [= ->]). by eexists _, _, _. }
  split_and!; [reflexivity|apply (bool_decide_unpack _); vm_compute; exact I|repeat constructor|].
  eexists _, _, _. split; [done|]. apply metric_values.
Qed.

Definition sample_status : BackupConfigStatus :=
  mkBCStatus BackupConfigPhaseHealthy (Some (100 * second)) (Some (200 * second)) None
    (Some (mkConsumed (Some 30) "" (Some 10) "" (Some 20) ""))
    [mkCondition ConditionTypeStorageReadable ConditionTrue 1 0 "" ""].

Definition sample_plugin : PluginConfiguration :=
  mkPlugin PluginNameDeprecated (Some {["backupConfig" := "bc"]}).
Definition sample_cluster : Cluster := mkCluster empty_meta [sample_plugin] None [] "" "".

Definition sample_config : BackupConfig := with_bc_status s3_backup_config sample_status.

Lemma metrics_well_formed_witness :
  MetricsServer.Value <$> MetricsServer.metrics_of sample_status (Some (300 * second)) =
    [100; 200; 0; 300; 20; 10; 1; 0].
Proof.
  destruct (metrics_well_formed (λ _, (sample_cluster, None)) "{}"
    [Ev (OGet KBackupConfig (mkKey "" "bc")) (Ok sample_config);
     Ev OArchivedGet (Some (300 * second))]
    (MetricsServer.metrics_of sample_status (Some (300 * second))))
    as (_ & _ & _ & key & bc & walTime & Ht & H).
  { eexists _, _. split; [reflexivity|]. eexists _, _. split; [reflexivity|].
    split; reflexivity. }
  reflexivity.
Defined.

(** *** A cluster without a BackupConfig *)

(** The services need a BackupConfig.  For a cluster whose plugin section names none,
    collecting metrics, restoring and resolving the configuration for WAL and backup all
    panic: the lookup answers nil without an error and its answer is dereferenced.  So the
    checks of [Restore] on the plugin section of the recovery source are never reached. *)
Theorem unconfigured_panics unmarshal_cluster definition cluster :
  unmarshal_cluster definition = (cluster, None) →
  (GetPluginConfigFromCluster cluster = None →
     exec (MetricsServer.Collect unmarshal_cluster definition) [] (Panicked nil_deref) ∧
     exec (BackupService.getBackupConfig cluster) [] (Panicked nil_deref) ∧
     exec (WALService.getBackupConfig cluster) [Ev (OViperString "mode") PluginModeNormal]
       (Panicked nil_deref)) ∧
  (GetRecoveryPluginConfigFromCluster cluster = None ∨
   (∃ p, GetRecoveryPluginConfigFromCluster cluster = Some p ∧
         plugin_Name p ≠ PluginNameDeprecated) →
     ∀ unmarshal_backups lsn_parse lsn_less parse_target_time LogPath LogFileName,
     exec (RestoreJobHooks.Restore unmarshal_cluster unmarshal_backups lsn_parse lsn_less
             parse_target_time LogPath LogFileName (RestoreJobHooks.mkRestoreRequest definition))
       [] (Panicked nil_deref)).
Proof.
  intros Hc. split.
  - intros Hp. unfold MetricsServer.Collect, BackupService.getBackupConfig,
      WALService.getBackupConfig, CnpgClusterFromJSON, GetBackupConfigForCluster,
      getBackupConfigFromPluginConfig. rewrite Hc, Hp. simpl. split_and!; [done..|].
    by exists PluginModeNormal, [].
  - intros Hp *. unfold RestoreJobHooks.Restore, CnpgClusterFromJSON,
      GetBackupConfigForClusterRecovery, getBackupConfigFromPluginConfig. simpl. rewrite Hc.
    destruct Hp as [->|(p & -> & Hp)]; [done|].
    destruct (plugin_Parameters p); [|done].
    destruct (String.eqb_spec (plugin_Name p) PluginNameDeprecated) as [?|?]; done.
Qed.

Lemma unconfigured_panics_witness :
  exec (MetricsServer.Collect (λ _, (empty_cluster, None)) "{}") [] (Panicked nil_deref).
Proof.
  destruct (unconfigured_panics (λ _, (empty_cluster, None)) "{}" empty_cluster eq_refl) as [H _].
  apply H. reflexivity.
Defined.

(** A storage that has the new backup in the second listing, after the push: the run of
    [Backup] succeeds and reports it. *)
Definition bare_config : BackupConfig :=
  mkBackupConfig (bc_meta sample_config)
    (mkBCSpec None None None None None 5 0 false None (mkRetention true false false 1 "7d")
       (mkStorage "" None None) "" (mkEncryption "" "")) sample_status.
Definition sample_backup : Api.Backup :=
  mkBackup (mkMeta "b1" "ns" "uid" "1" 1 None None [] [] zero_time None) "c" "plugin" None
    BackupPhaseCompleted None "".
Definition pushed_backup : BackupMetadata :=
  mkBackupMetadata "base_1" "" "000000010000000000000002" "" "2025-01-01T00:00:00Z"
    "2025-01-01T00:00:10Z" "" "pod-1" "" 170000 50 60 false 7 0 0
    (AString <$> BackupService.backup_params sample_backup "backup-T").
Definition pushed_world : handler nat := λ o n,
  match o return ans o * nat with
  | OViperString "pgdata" => ("/pgdata", n)
  | OViperInt _ => (17, n)
  | OGet KBackupConfig _ => (Ok bare_config, n)
  | OExec _ ("backup-push" :: _) _ => ((mkRun "" "" (Some 0), None), S n)
  | OExec _ _ _ => ((mkRun (if (n =? 0)%nat then "none" else "one") "" (Some 0), None), n)
  | OSqlQuery _ => (Ok ("0/64", 7), n)
  | o => (default_ans o, n)
  end.

Example backup_run :
  let '(r, t, _) := run pushed_world
    (BackupService.Backup (λ _, (sample_cluster, None)) (λ _, (sample_backup, None))
       (λ s, Ok (if String.eqb s "one" then [pushed_backup] else [])) (λ _, Ok 55)
       (λ _, "0/3C") (λ _, "T") (BackupService.mkBackupRequest "" "")) 0%nat in
  r = Returned (Ok (BackupService.mkResult "base_1" "backup-T" 1735689600 1735689610
        "000000010000000000000002" "0/3C" "0/3C" "pod-1" true)) ∧
  commands t =
    [list_args;
     ["backup-push"; "/pgdata"; "--add-user-data";
      "{" +:+ join "," [dquote +:+ "cnpg-backup-human-name" +:+ dquote +:+ ":" +:+ dquote +:+ "backup-T" +:+ dquote;
                        dquote +:+ "cnpg-backup-name" +:+ dquote +:+ ":" +:+ dquote +:+ "b1" +:+ dquote;
                        dquote +:+ "cnpg-backup-namespace" +:+ dquote +:+ ":" +:+ dquote +:+ "ns" +:+ dquote]
       +:+ "}"];
     list_args].
Proof. vm_compute. split; reflexivity. Qed.

Example clean_paths :
  Filepath.Clean <$> ["/a/b/../c//d/."; ""; "a/.."; "/.."; "../x"; "/var/lib//pg/"] =
    ["/a/c/d"; "."; "."; "/"; "../x"; "/var/lib/pg"].
Proof. reflexivity. Qed.


(** Both plugins announce exactly the services they register. *)
Lemma capabilities_served :
  Identity.instance_GetPluginCapabilities = Identity.instance_servers ∧
  Identity.operator_GetPluginCapabilities = Identity.operator_servers ∧
  Identity.md_Name (Identity.GetPluginMetadata "") = PluginNameDeprecated.
Proof. done. Qed.
