(* ===== verification/Cache.v ===== *)
(** [pkg/resourcecachingclient]: the client of the sidecar, which watches every object it has
    read once and answers later reads from memory.

    The functions on the map of watched objects are translated one by one; each runs under the
    mutex.  Reads, watches and their goroutines are a step relation with a step between any
    two of these functions, so all interleavings of concurrent reads, several watches of one
    object, failing writes and registrations of handlers are covered.  Each call of an event
    handler is a goroutine of its own, which nobody waits for.

    The API server is part of the environment.  A watch without a resource version starts with
    a synthetic event for the object as it is, and then delivers every change in order, until
    it is closed; this is what Kubernetes documents for it.  Added, Modified and Deleted events
    carry an object of the watched type.  Keys are those of the map of watched objects (kind,
    namespace and name); reads of other kinds go to the underlying client. *)
From Stdlib Require Import ZArith.
From stdpp Require Import base list gmap relations strings.
From S2P Require Import Prelude GoStrings Api.
Local Open Scope list_scope.

Section cache.
(** Objects of the API server. *)
Context {O : Type}.

(** ** The map of watched objects *)

(** [cached] is nil after a deletion. *)
Record watchedObject := mkWatched {
  cached : option O;
  handlers : list nat;
}.

Inductive event := Added (o : O) | Modified (o : O) | Deleted (o : O) | Bookmark | ErrorEvent.

(** A goroutine that calls an event handler. *)
Inductive handler_call :=
| Create (h : nat) (o : O)
| Update (h : nat) (old new : O)
| Delete (h : nat) (o : O).

Implicit Types (m : gmap string watchedObject).

Definition snapshotCached m (key : string) : option O :=
  e ← m !! key; cached e.

Definition setToCache m (key : string) (o : O) : gmap string watchedObject :=
  match m !! key with
  | Some e => <[key := mkWatched (Some o) (handlers e)]> m
  | None => <[key := mkWatched (Some o) []]> m
  end.

Definition removeFromCache m (key : string) : gmap string watchedObject :=
  match m !! key with
  | Some e => <[key := mkWatched None (handlers e)]> m
  | None => m
  end.

Definition addHandler m (key : string) (h : nat) : gmap string watchedObject :=
  match m !! key with
  | Some e => <[key := mkWatched (cached e) (handlers e ++ [h])]> m
  | None => <[key := mkWatched None [h]]> m
  end.

Definition clearEntryByKey m (key : string) : gmap string watchedObject := delete key m.

(** The goroutines it starts, [go fn(h)], in the order of these statements.  Nobody waits for
    them: they run at any time and in any order, beside those of earlier and later events. *)
Definition callHandlers m (key : string) (ev : event) (prior : option O) : list handler_call :=
  let fn : option (nat → handler_call) :=
    match ev with
    | Added o => Some (λ h, Create h o)
    | Modified o => Some (λ h, match prior with
                               | None => Create h o
                               | Some old => Update h old o
                               end)
    | Deleted o => Some (λ h, Delete h o)
    | Bookmark | ErrorEvent => None
    end in
  match fn, m !! key with
  | Some fn, Some e => fn <$> handlers e
  | _, _ => []
  end.

(** The three parts of a round of [updateCache]: the snapshot, the change, the handlers. *)
Definition take_prior m (key : string) (ev : event) : option O :=
  match ev with Modified _ | Deleted _ => snapshotCached m key | _ => None end.
Definition apply_event m (key : string) (ev : event) : gmap string watchedObject :=
  match ev with
  | Modified o | Added o => setToCache m key o
  | Deleted _ => removeFromCache m key
  | Bookmark | ErrorEvent => m
  end.


(** What [Get] answers from memory: nothing on a miss, [Some None] for NotFound. *)
Definition answer m (key : string) : option (option O) := cached <$> m !! key.

(** ** The methods of [Client] *)

(** [strGVK + "|" + key.String()]. *)
Definition object_key (strGVK : string) (key : ObjectKey) : string :=
  strGVK +:+ "|" +:+ key_string key.

Inductive lookup :=
| FromUnderlying | CacheMiss | CachedNotFound (e : err) | CachedObject (o : O).

(** [Get] up to the point where a server is asked: kinds that are not managed go to the
    underlying client, a miss to the live query. *)
Definition Get (watchedGVKs : gset string) m (strGVK : string) (key : ObjectKey) : lookup :=
  if decide (strGVK ∈ watchedGVKs) then
    match m !! object_key strGVK key with
    | None => CacheMiss
    | Some ca =>
        match cached ca with
        | None => CachedNotFound (mkErr ENotFound ("not found: " +:+ key_name key))
        | Some o => CachedObject o
        end
    end
  else FromUnderlying.

(** [Create], [Delete] and [Update], given the error of the underlying client. *)
Definition clearEntry (watchedGVKs : gset string) m (strGVK : string) (key : ObjectKey)
    : gmap string watchedObject :=
  if decide (strGVK ∈ watchedGVKs) then clearEntryByKey m (object_key strGVK key) else m.
Definition write (watchedGVKs : gset string) m (strGVK : string) (key : ObjectKey)
    (result : option err) : gmap string watchedObject * option err :=
  match result with
  | Some e => (clearEntry watchedGVKs m strGVK key, Some e)
  | None => (m, None)
  end.

(** [GetSource] refuses kinds that are not managed; [NarrowSource.Start] refuses a nil handler
    and registers the others. *)
Definition GetSource_refused (watchedGVKs : gset string) (strGVK : string) : option err :=
  if decide (strGVK ∈ watchedGVKs) then None
  else Some (errorf ("called 'GetSource' on unmanaged GVK: " +:+ strGVK)).
Definition Start m (key : string) (handler : option nat)
    : gmap string watchedObject * option err :=
  match handler with
  | None => (m, Some (errorf "must specify NarrowSource.handler"))
  | Some h => (addHandler m key h, None)
  end.

(** ** The whole client *)

(** Where the goroutine of a watch is: at the channel; about to change the map; about to call
    the handlers. *)
Inductive doing := Ranging | Applying (ev : event) (prior : option O)
                 | Calling (ev : event) (prior : option O).

(** [w_pending] has been delivered and not been received; a goroutine starts once its object
    has been stored. *)
Record watcher := mkWatcher {
  w_key : string;
  w_pending : list event;
  w_open : bool;
  w_started : bool;
  w_doing : doing;
}.

(** A read that missed: before the live query; before the watch; before storing. *)
Inductive getting := Missed (key : string) | Fetched (key : string) (o : O)
                   | Opened (key : string) (o : O) (w : nat).

(** [tainted] are the keys for which one of these things happened, none of which the code
    guards against: the object was deleted between query and watch; a reader or a handler
    changed the object it got (the first read stores the caller's own object, [copyInto] copies
    the struct but shares its maps and slices, and handlers get the object of the event); a
    handler was registered when the map had no entry.  [running] are the goroutines of
    [callHandlers] that have not called their handler yet, [calls] the calls that were made. *)
Record state := mkState {
  watchedObjects : gmap string watchedObject;
  watchers : gmap nat watcher;
  gets : gmap nat getting;
  next : nat;
  server : gmap string O;
  tainted : gset string;
  running : list handler_call;
  calls : list handler_call;
}.

Definition init (objects : gmap string O) : state := mkState ∅ ∅ ∅ 0 objects ∅ [] [].

Definition set_objects (s : state) m : state :=
  mkState m (watchers s) (gets s) (next s) (server s) (tainted s) (running s) (calls s).
Definition set_watchers (s : state) (ws : gmap nat watcher) : state :=
  mkState (watchedObjects s) ws (gets s) (next s) (server s) (tainted s) (running s) (calls s).
Definition set_gets (s : state) (g : gmap nat getting) : state :=
  mkState (watchedObjects s) (watchers s) g (next s) (server s) (tainted s) (running s) (calls s).
Definition taint (s : state) (key : string) : state :=
  mkState (watchedObjects s) (watchers s) (gets s) (next s) (server s) ({[key]} ∪ tainted s)
    (running s) (calls s).
(** Goroutines start; the [i]-th of those that run calls its handler. *)
Definition spawn (s : state) (l : list handler_call) : state :=
  mkState (watchedObjects s) (watchers s) (gets s) (next s) (server s) (tainted s)
    (running s ++ l) (calls s).
Definition make_call (s : state) (i : nat) (c : handler_call) : state :=
  mkState (watchedObjects s) (watchers s) (gets s) (next s) (server s) (tainted s)
    (delete i (running s)) (calls s ++ [c]).

Definition do_next (w : watcher) (pending : list event) (d : doing) : watcher :=
  mkWatcher (w_key w) pending (w_open w) (w_started w) d.
Definition start_watcher (w : watcher) : watcher :=
  mkWatcher (w_key w) (w_pending w) (w_open w) true (w_doing w).
Definition close_watcher (w : watcher) : watcher :=
  mkWatcher (w_key w) (w_pending w) false (w_started w) (w_doing w).
Definition deliver (ev : event) (w : watcher) : watcher :=
  mkWatcher (w_key w) (w_pending w ++ [ev]) (w_open w) (w_started w) (w_doing w).
(** A change reaches every open watch of the object. *)
Definition notify (key : string) (ev : event) (w : watcher) : watcher :=
  if w_open w && String.eqb (w_key w) key then deliver ev w else w.

(** The event for a change of an object. *)
Definition change_event (old new : option O) : option event :=
  match old, new with
  | None, Some o => Some (Added o)
  | Some _, Some o => Some (Modified o)
  | Some o, None => Some (Deleted o)
  | None, None => None
  end.

Definition change (key : string) (new : option O) (ev : event) (s : state) : state :=
  mkState (watchedObjects s) (notify key ev <$> watchers s) (gets s) (next s)
    (partial_alter (λ _, new) key (server s)) (tainted s) (running s) (calls s).

(** [typedWatch]: its channel starts with the object as it is. *)
Definition open_watch (s : state) (i : nat) (key : string) (o : O) : state :=
  let w := next s in
  let now := match server s !! key with Some o => [Added o] | None => [] end in
  let s' := mkState (watchedObjects s) (<[w := mkWatcher key now true false Ranging]> (watchers s))
              (<[i := Opened key o w]> (gets s)) (S w) (server s) (tainted s) (running s) (calls s) in
  match server s !! key with Some _ => s' | None => taint s' key end.

(** The end of [getAndCreateWatchIfNeeded]. *)
Definition store (s : state) (i : nat) (key : string) (o : O) (w : nat) : state :=
  set_gets (set_watchers (set_objects s (setToCache (watchedObjects s) key o))
              (alter start_watcher w (watchers s))) (delete i (gets s)).

Inductive external : state → state → Prop :=
| ext_change s key new ev : change_event (server s !! key) new = Some ev →
    external s (change key new ev s)
| ext_other s i w ev : watchers s !! i = Some w → w_open w = true →
    ev = Bookmark ∨ ev = ErrorEvent →
    external s (set_watchers s (<[i := deliver ev w]> (watchers s)))
| ext_close s i w : watchers s !! i = Some w → w_open w = true →
    external s (set_watchers s (<[i := close_watcher w]> (watchers s)))
| ext_get s key : watchedObjects s !! key = None →
    external s (mkState (watchedObjects s) (watchers s) (<[next s := Missed key]> (gets s))
                  (S (next s)) (server s) (tainted s) (running s) (calls s))
| ext_mutate s key e o o' : watchedObjects s !! key = Some e → cached e = Some o →
    external s (taint (set_objects s (<[key := mkWatched (Some o') (handlers e)]>
                                        (watchedObjects s))) key)
| ext_handler s key h e : watchedObjects s !! key = Some e →
    external s (set_objects s (addHandler (watchedObjects s) key h))
| ext_handler_blank s key h : watchedObjects s !! key = None →
    external s (taint (set_objects s (addHandler (watchedObjects s) key h)) key)
| ext_write_failed s key :
    external s (set_objects s (clearEntryByKey (watchedObjects s) key)).

Inductive internal : state → state → Prop :=
| int_live s i key o : gets s !! i = Some (Missed key) → server s !! key = Some o →
    internal s (set_gets s (<[i := Fetched key o]> (gets s)))
| int_fail s i g : gets s !! i = Some g → (∀ key o w, g ≠ Opened key o w) →
    internal s (set_gets s (delete i (gets s)))
| int_watch s i key o : gets s !! i = Some (Fetched key o) →
    internal s (open_watch s i key o)
| int_store s i key o w : gets s !! i = Some (Opened key o w) →
    internal s (store s i key o w)
| int_snapshot s i w ev pending : watchers s !! i = Some w → w_started w = true →
    w_doing w = Ranging → w_pending w = ev :: pending →
    internal s (set_watchers s (<[i := do_next w pending
      (Applying ev (take_prior (watchedObjects s) (w_key w) ev))]> (watchers s)))
| int_apply s i w ev prior : watchers s !! i = Some w → w_doing w = Applying ev prior →
    internal s (set_watchers (set_objects s (apply_event (watchedObjects s) (w_key w) ev))
                  (<[i := do_next w (w_pending w) (Calling ev prior)]> (watchers s)))
| int_call s i w ev prior : watchers s !! i = Some w → w_doing w = Calling ev prior →
    internal s (spawn (set_watchers s (<[i := do_next w (w_pending w) Ranging]> (watchers s)))
                  (callHandlers (watchedObjects s) (w_key w) ev prior))
| int_handler s i c : running s !! i = Some c → internal s (make_call s i c)
| int_end s i w : watchers s !! i = Some w → w_started w = true → w_open w = false →
    w_doing w = Ranging → w_pending w = [] →
    internal s (set_watchers (set_objects s (clearEntryByKey (watchedObjects s) (w_key w)))
                  (delete i (watchers s))).

Definition step (s s' : state) : Prop := external s s' ∨ internal s s'.
Definition reachable (s : state) : Prop := ∃ objects, rtc step (init objects) s.

(** ** The invariant *)

(** What an event makes of the object, and what the events still to be applied make of it. *)
Definition effect (ev : event) : option (option O) :=
  match ev with
  | Added o | Modified o => Some (Some o)
  | Deleted _ => Some None
  | Bookmark | ErrorEvent => None
  end.
Definition todo (w : watcher) : list event :=
  match w_doing w with Applying ev _ => [ev] | _ => [] end ++ w_pending w.
Definition target (w : watcher) : option (option O) := last (omap effect (todo w)).

(** The watch will still change or clear the entry. *)
Definition lags (w : watcher) : Prop := w_open w = false ∨ is_Some (target w).
Definition lagging (s : state) (key : string) : Prop :=
  ∃ i w, watchers s !! i = Some w ∧ w_key w = key ∧ lags w.

(** An open watch leads to the object as it is; a read that has its watch goes on; every entry
    has a watch, and is right or about to be changed. *)
Record inv (s : state) : Prop := {
  inv_fresh_watcher : ∀ i w, watchers s !! i = Some w → i < next s;
  inv_fresh_get : ∀ i g, gets s !! i = Some g → i < next s;
  inv_target : ∀ i w v, watchers s !! i = Some w → w_open w = true → target w = Some v →
    v = server s !! w_key w;
  inv_opened : ∀ i key o j, gets s !! i = Some (Opened key o j) →
    ∃ w, watchers s !! j = Some w ∧ w_key w = key ∧ w_started w = false ∧
      (key ∈ tainted s ∨ is_Some (target w));
  inv_distinct : ∀ i i' key key' o o' j, gets s !! i = Some (Opened key o j) →
    gets s !! i' = Some (Opened key' o' j) → i = i';
  inv_unstarted : ∀ j w, watchers s !! j = Some w → w_started w = false →
    w_doing w = Ranging ∧ ∃ i key o, gets s !! i = Some (Opened key o j);
  inv_watched : ∀ key e, watchedObjects s !! key = Some e → key ∉ tainted s →
    ∃ i w, watchers s !! i = Some w ∧ w_key w = key;
  inv_entry : ∀ key e, watchedObjects s !! key = Some e → key ∉ tainted s →
    lagging s key ∨ cached e = server s !! key;
}.

Lemma client_init_inv objects : inv (init objects).
Proof. by split; simpl. Qed.

Lemma target_deliver w ev :
  target (deliver ev w) = match effect ev with Some v => Some v | None => target w end.
Proof.
  unfold target, todo; simpl. rewrite app_assoc, omap_app. simpl.
  destruct (effect ev); [by rewrite last_snoc|by rewrite app_nil_r].
Qed.

Lemma target_applying w ev prior :
  w_doing w = Applying ev prior →
  target w = match last (omap effect (w_pending w)) with Some v => Some v | None => effect ev end.
Proof.
  intros Hw. unfold target, todo. rewrite Hw. cbn [app omap list_omap].
  destruct (effect ev) as [v|]; [by rewrite last_cons|by destruct (last _)].
Qed.

Lemma effect_change old new ev : change_event old new = Some ev → effect ev = Some new.
Proof. destruct old, new; simpl; by intros [= <-]. Qed.

(** *** The map of watched objects *)

(** The methods of the client change the state only as the step relation says. *)
Lemma write_step g s strGVK key result :
  let s' := set_objects s (write g (watchedObjects s) strGVK key result).1 in
  s' = s ∨ (is_Some result ∧ strGVK ∈ g ∧ external s s').
Proof.
  destruct result as [e|]; simpl; [|left; by destruct s].
  unfold clearEntry. case_decide; [|left; by destruct s].
  right. split_and!; [by eexists|done|]. apply (ext_write_failed s).
Qed.

Lemma Start_step s key handler :
  let s' := set_objects s (Start (watchedObjects s) key handler).1 in
  s' = s ∨ external s s' ∨ external s (taint s' key).
Proof.
  destruct handler as [h|]; simpl; [right|left; by destruct s].
  destruct (watchedObjects s !! key) as [e|] eqn:H.
  - left. by eapply ext_handler.
  - right. by apply ext_handler_blank.
Qed.

(** What [Get] answers without a server is the entry of that object. *)
Lemma Get_answer g m strGVK key :
  strGVK ∈ g →
  match Get g m strGVK key with
  | FromUnderlying => False
  | CacheMiss => answer m (object_key strGVK key) = None
  | CachedNotFound e => answer m (object_key strGVK key) = Some None ∧ is_not_found e = true
  | CachedObject o => answer m (object_key strGVK key) = Some (Some o)
  end.
Proof.
  intros Hg. unfold Get, answer. rewrite decide_True by done.
  destruct (m !! _) as [[[o|] hs]|]; done.
Qed.

Lemma lookup_apply m key ev :
  match effect ev with
  | Some v => ∀ e, apply_event m key ev !! key = Some e → cached e = v
  | None => apply_event m key ev = m
  end ∧ ∀ key', key' ≠ key → apply_event m key ev !! key' = m !! key'.
Proof.
  destruct ev as [o|o|o| |]; simpl; unfold setToCache, removeFromCache;
    try done; destruct (m !! key) eqn:Hm; split;
    try (intros e; rewrite ?lookup_insert_eq; by intros [= <-]);
    try (intros key' Hk; by rewrite ?lookup_insert_ne by done); try congruence.
Qed.

Lemma lookup_addHandler m key h e key' e' :
  m !! key = Some e → addHandler m key h !! key' = Some e' →
  ∃ e0, m !! key' = Some e0 ∧ cached e' = cached e0.
Proof.
  intros Hm. unfold addHandler. rewrite Hm. intros [[<- <-]|[? H]]%lookup_insert_Some; eauto.
Qed.

(** *** Changes of one watch *)

(** A watch that goes on with the same object and the same events ahead of it. *)
Definition same_course (w w' : watcher) : Prop :=
  w_key w' = w_key w ∧ w_started w' = w_started w ∧ (w_open w' = true → w_open w = true) ∧
  target w' = target w ∧ (w_started w' = false → w_doing w' = w_doing w).

Lemma same_course_lags w w' : same_course w w' → lags w → lags w'.
Proof.
  intros (_ & _ & Ho & Ht & _) [H|H]; [left|right; by rewrite Ht].
  destruct (w_open w'); [by rewrite Ho in H|done].
Qed.

Lemma update_watcher_inv s i w w' :
  inv s → watchers s !! i = Some w → same_course w w' →
  inv (set_watchers s (<[i := w']> (watchers s))).
Proof.
  intros Hi Hw Hsame. pose proof Hsame as (Hk & Hst & Ho & Ht & Hd). split; simpl; try apply Hi.
  - intros j w1 [[<- _]|[_ H]]%lookup_insert_Some; by eapply (inv_fresh_watcher s Hi).
  - intros j w1 v [[<- <-]|[_ H]]%lookup_insert_Some; [|by eapply (inv_target s Hi)].
    rewrite Hk, Ht. intros Hop. eapply (inv_target s Hi); eauto.
  - intros j key o k H. destruct (inv_opened s Hi _ _ _ _ H) as (w1 & H1 & H2 & H3 & H4).
    destruct (decide (k = i)) as [->|Hne].
    + simplify_eq. exists w'. rewrite lookup_insert_eq, Hst, Ht. done.
    + exists w1. by rewrite lookup_insert_ne.
  - intros j w1 [[<- <-]|[_ H]]%lookup_insert_Some; [|by eapply (inv_unstarted s Hi)].
    intros H. rewrite Hd by done. rewrite Hst in H. by eapply (inv_unstarted s Hi).
  - intros key e H1 H2. destruct (inv_watched s Hi _ _ H1 H2) as (j & w1 & H3 & H4).
    destruct (decide (j = i)) as [->|Hne].
    + simplify_eq. exists i, w'. by rewrite lookup_insert_eq.
    + exists j, w1. by rewrite lookup_insert_ne.
  - intros key e H1 H2. destruct (inv_entry s Hi _ _ H1 H2) as [(j & w1 & H3 & H4 & H5)|?];
      [|by right]. left. destruct (decide (j = i)) as [->|Hne].
    + simplify_eq. exists i, w'. simpl. rewrite lookup_insert_eq.
      split_and!; [done|done|by eapply same_course_lags].
    + exists j, w1. simpl. by rewrite lookup_insert_ne.
Qed.

(** *** What the environment does *)

Lemma notify_key key ev w : w_key (notify key ev w) = w_key w ∧
  w_started (notify key ev w) = w_started w ∧ w_open (notify key ev w) = w_open w ∧
  w_doing (notify key ev w) = w_doing w.
Proof. unfold notify. by destruct (_ && _). Qed.

(** A change of the object makes every open watch of it lead to the new state. *)
Lemma notify_target key new ev old w :
  change_event old new = Some ev →
  (w_open w = true ∧ w_key w = key ∧ target (notify key ev w) = Some new) ∨
  ((w_open w = false ∨ w_key w ≠ key) ∧ notify key ev w = w).
Proof.
  intros Hev%effect_change. unfold notify.
  destruct (w_open w); [|by right; eauto]. simpl.
  destruct (String.eqb_spec (w_key w) key); [|by right; eauto].
  left. by rewrite target_deliver, Hev.
Qed.

Lemma change_inv s key new ev :
  inv s → change_event (server s !! key) new = Some ev → inv (change key new ev s).
Proof.
  intros Hi Hev. split; simpl; try apply Hi.
  - intros i w. rewrite lookup_fmap, fmap_Some. intros (w0 & H & ->).
    by eapply (inv_fresh_watcher s Hi).
  - intros i w v. rewrite lookup_fmap, fmap_Some. intros (w0 & H & ->).
    destruct (notify_target key new ev _ w0 Hev) as [(Ho & <- & ->)|(Hk & Hn)].
    + destruct (notify_key (w_key w0) ev w0) as (-> & _). intros _ [= <-].
      by rewrite lookup_partial_alter_eq.
    + rewrite Hn. intros Ho Ht. destruct Hk as [Hk|Hk]; [congruence|].
      rewrite lookup_partial_alter_ne by done. by eapply (inv_target s Hi).
  - intros i k o j H. destruct (inv_opened s Hi _ _ _ _ H) as (w & H1 & H2 & H3 & H4).
    exists (notify key ev w). rewrite lookup_fmap, H1.
    destruct (notify_key key ev w) as (-> & -> & _ & _). split_and!; [done..|].
    destruct H4 as [?|H4]; [by left|right].
    destruct (notify_target key new ev _ w Hev) as [(_ & _ & ->)|(_ & ->)]; [by eexists|done].
  - intros j w. rewrite lookup_fmap, fmap_Some. intros (w0 & H & ->).
    destruct (notify_key key ev w0) as (_ & -> & _ & ->). by eapply (inv_unstarted s Hi).
  - intros k e H1 H2. destruct (inv_watched s Hi _ _ H1 H2) as (i & w & H3 & H4).
    exists i, (notify key ev w). rewrite lookup_fmap, H3.
    by destruct (notify_key key ev w) as (-> & _).
  - intros k e H1 H2. unfold lagging; simpl. destruct (decide (k = key)) as [->|Hk].
    + left. destruct (inv_watched s Hi _ _ H1 H2) as (i & w & H3 & H4).
      exists i, (notify key ev w). rewrite lookup_fmap, H3.
      destruct (notify_key key ev w) as (-> & _ & Ho & _). split_and!; [done..|].
      destruct (notify_target key new ev _ w Hev) as [(_ & _ & Ht)|([Hc|Hc] & Hn)]; [|..].
      * right. rewrite Ht. by eexists.
      * left. congruence.
      * done.
    + rewrite lookup_partial_alter_ne by done.
      destruct (inv_entry s Hi _ _ H1 H2) as [(i & w & H3 & H4 & H5)|?]; [left|by right].
      exists i, (notify key ev w). rewrite lookup_fmap, H3.
      destruct (notify_key key ev w) as (-> & _). split_and!; [done..|].
      destruct (notify_target key new ev _ w Hev) as [(_ & ? & _)|(_ & ->)]; [congruence|done].
Qed.

(** A change of the map that leaves what is known about untainted keys. *)
Lemma set_objects_inv s m (l : gset string) :
  inv s →
  (∀ key e, m !! key = Some e → key ∉ l ∪ tainted s →
     ∃ e0, watchedObjects s !! key = Some e0 ∧ cached e = cached e0) →
  inv (mkState m (watchers s) (gets s) (next s) (server s) (l ∪ tainted s) (running s) (calls s)).
Proof.
  intros Hi Hm. split; simpl; try apply Hi.
  - intros i key o j H. destruct (inv_opened s Hi _ _ _ _ H) as (w & H1 & H2 & H3 & H4).
    exists w. split_and!; [done..|]. set_solver.
  - intros key e H1 H2. destruct (Hm _ _ H1 H2) as (e0 & H3 & _).
    apply (inv_watched s Hi _ _ H3). set_solver.
  - intros key e H1 H2. destruct (Hm _ _ H1 H2) as (e0 & H3 & ->).
    apply (inv_entry s Hi _ _ H3). set_solver.
Qed.

Lemma set_objects_inv_same s m :
  inv s →
  (∀ key e, m !! key = Some e → key ∉ tainted s →
     ∃ e0, watchedObjects s !! key = Some e0 ∧ cached e = cached e0) →
  inv (set_objects s m).
Proof.
  intros Hi Hm. pose proof (set_objects_inv s m ∅ Hi) as H.
  rewrite (left_id_L ∅ (∪)) in H. by apply H.
Qed.

Lemma client_external_inv s s' : inv s → external s s' → inv s'.
Proof.
  intros Hi Hs.
  destruct Hs as [s key new ev H|s i w ev H Ho Hev|s i w H Ho|s key H|s key e o o' H Hc
                 |s key h e H|s key h H|s key].
  - by apply change_inv.
  - eapply update_watcher_inv; [done|done|]. split_and!; [done..| |done].
    rewrite target_deliver. by destruct Hev as [-> | ->].
  - by eapply update_watcher_inv.
  - split; simpl; try apply Hi.
    + intros i w Hw. apply (inv_fresh_watcher s Hi) in Hw. lia.
    + intros i g [[<- _]|[_ Hg]]%lookup_insert_Some; [lia|]. apply (inv_fresh_get s Hi) in Hg. lia.
    + intros i k o j [[_ [=]]|[_ Hg]]%lookup_insert_Some. by eapply (inv_opened s Hi).
    + intros i i' k k' o o' j [[_ [=]]|[_ Hg]]%lookup_insert_Some
        [[_ [=]]|[_ Hg']]%lookup_insert_Some. by eapply (inv_distinct s Hi).
    + intros j w Hw Hst. destruct (inv_unstarted s Hi _ _ Hw Hst) as (Hd & i & k & o & Hg).
      split; [done|]. exists i, k, o. rewrite lookup_insert_ne; [done|].
      intros <-. apply (inv_fresh_get s Hi) in Hg. lia.
  - apply (set_objects_inv s _ {[key]}); [done|]. simpl.
    intros k e' [[<- <-]|[_ He]]%lookup_insert_Some Ht; [set_solver|eauto].
  - apply (set_objects_inv_same s); [done|]. intros k e' He _. by eapply lookup_addHandler.
  - apply (set_objects_inv s _ {[key]}); [done|]. unfold addHandler. simpl. rewrite H.
    intros k e' [[<- <-]|[_ He]]%lookup_insert_Some Ht; [set_solver|eauto].
  - apply (set_objects_inv_same s); [done|]. unfold clearEntryByKey.
    intros k e' [_ He]%lookup_delete_Some _. eauto.
Qed.

(** *** What the code does *)

Lemma set_get_inv s i g g' :
  inv s → gets s !! i = Some g → (∀ key o j, g ≠ Opened key o j) →
  (∀ key o j, g' ≠ Some (Opened key o j)) →
  inv (set_gets s (partial_alter (λ _, g') i (gets s))).
Proof.
  intros Hi Hg Hno Hno'. split; simpl; try apply Hi.
  - intros j g1. destruct (decide (j = i)) as [->|Hj].
    + intros _. by eapply (inv_fresh_get s Hi).
    + rewrite lookup_partial_alter_ne by done. apply (inv_fresh_get s Hi).
  - intros j key o w. destruct (decide (j = i)) as [->|Hj].
    + rewrite lookup_partial_alter_eq. intros H. by apply Hno' in H.
    + rewrite lookup_partial_alter_ne by done. apply (inv_opened s Hi).
  - intros j j' k k' o o' w H1 H2.
    destruct (decide (j = i)) as [->|Hj];
      [rewrite lookup_partial_alter_eq in H1; by apply Hno' in H1|].
    destruct (decide (j' = i)) as [->|Hj'];
      [rewrite lookup_partial_alter_eq in H2; by apply Hno' in H2|].
    rewrite lookup_partial_alter_ne in H1, H2 by done. by eapply (inv_distinct s Hi).
  - intros j w Hw Hst. destruct (inv_unstarted s Hi _ _ Hw Hst) as (Hd & k & key & o & H).
    split; [done|]. exists k, key, o. rewrite lookup_partial_alter_ne; [done|].
    intros ->. rewrite Hg in H. injection H as ->. by eapply Hno.
Qed.

Lemma open_watch_inv s i key o :
  inv s → gets s !! i = Some (Fetched key o) → inv (open_watch s i key o).
Proof.
  intros Hi Hg. unfold open_watch.
  set (now := match server s !! key with Some o => [Added o] | None => [] end).
  set (s' := mkState (watchedObjects s) _ _ (S (next s)) (server s) (tainted s) (running s) (calls s)).
  assert (∀ l : gset string, (key ∈ l ∨ is_Some (server s !! key)) →
    inv (mkState (watchedObjects s') (watchers s') (gets s') (next s') (server s')
           (l ∪ tainted s') (running s') (calls s'))) as H.
  2: { destruct (server s !! key) eqn:Hkey.
       - specialize (H ∅ ltac:(right; eauto)). by rewrite (left_id_L ∅ (∪)) in H.
       - apply (H {[key]}). left. set_solver. }
  intros l Hl. assert (watchers s !! next s = None) as Hnew.
  { apply eq_None_not_Some. intros [w Hw%inv_fresh_watcher]; [lia|done]. }
  assert (∀ j w, watchers s !! j = Some w → watchers s' !! j = Some w) as Hold.
  { intros j w Hw. simpl. rewrite lookup_insert_ne; [done|]. congruence. }
  split; simpl.
  - intros j w [[<- _]|[_ Hw]]%lookup_insert_Some; [lia|].
    apply (inv_fresh_watcher s Hi) in Hw. lia.
  - intros j g [[<- _]|[_ Hj]]%lookup_insert_Some; [apply (inv_fresh_get s Hi) in Hg; lia|].
    apply (inv_fresh_get s Hi) in Hj. lia.
  - intros j w v [[<- <-]|[_ Hw]]%lookup_insert_Some; [|by eapply (inv_target s Hi)].
    intros _. unfold target, todo, now. simpl. destruct (server s !! key); [|done].
    by intros [= <-].
  - intros j k o' w [[<- [= <- <- <-]]|[_ Hj]]%lookup_insert_Some.
    + eexists. rewrite lookup_insert_eq. split_and!; [done..|].
      destruct Hl as [?|[x Hx]]; [left; set_solver|right].
      unfold target, todo, now. simpl. rewrite Hx. by eexists.
    + destruct (inv_opened s Hi _ _ _ _ Hj) as (w1 & H1 & H2 & H3 & H4).
      exists w1. split_and!; [by apply Hold|done|done|]. set_solver.
  - intros j j' k k' o1 o2 w [[<- [= <- <- <-]]|[? H1]]%lookup_insert_Some
      [[<- H2]|[? H2]]%lookup_insert_Some; [done|..].
    + apply (inv_opened s Hi) in H2 as (w1 & H3 & _). congruence.
    + injection H2 as <- <- <-. apply (inv_opened s Hi) in H1 as (w1 & H3 & _). congruence.
    + by eapply (inv_distinct s Hi).
  - intros j w [[<- <-]|[? Hw]]%lookup_insert_Some Hst; simpl.
    + split; [done|]. exists i, key, o. by rewrite lookup_insert_eq.
    + destruct (inv_unstarted s Hi _ _ Hw Hst) as (Hd & i' & k' & o' & Hg').
      split; [done|]. exists i', k', o'. rewrite lookup_insert_ne; [done|]. congruence.
  - intros k e He Ht. destruct (inv_watched s Hi k e He) as (j & w & Hw & Hk); [set_solver|].
    exists j, w. split; [by apply Hold|done].
  - intros k e He Ht. destruct (inv_entry s Hi k e He) as [(j & w & Hw & Hk & Hlag)|?];
      [set_solver| |by right]. left. exists j, w. split; [by apply Hold|done].
Qed.

Lemma setToCache_lookup m key o key' e :
  setToCache m key o !! key' = Some e →
  (key' = key ∧ cached e = Some o) ∨ (key' ≠ key ∧ m !! key' = Some e).
Proof.
  unfold setToCache. destruct (m !! key); intros [[<- <-]|[? H]]%lookup_insert_Some; eauto.
Qed.

Lemma store_inv s i key o w :
  inv s → gets s !! i = Some (Opened key o w) → inv (store s i key o w).
Proof.
  intros Hi Hg. destruct (inv_opened s Hi _ _ _ _ Hg) as (wt & Hw & Hk & Hst & Htgt).
  assert (∀ j w1, alter start_watcher w (watchers s) !! j = Some w1 →
    (j = w ∧ w1 = start_watcher wt) ∨ (j ≠ w ∧ watchers s !! j = Some w1)) as Hlook.
  { intros j w1. destruct (decide (j = w)) as [->|Hj].
    - rewrite lookup_alter_eq, Hw. intros [= <-]. by left.
    - rewrite lookup_alter_ne by done. by right. }
  assert (∀ j w1, watchers s !! j = Some w1 → ∃ w2,
    alter start_watcher w (watchers s) !! j = Some w2 ∧ w_key w2 = w_key w1 ∧
    w_open w2 = w_open w1 ∧ target w2 = target w1) as Hold.
  { intros j w1 Hj. destruct (decide (j = w)) as [->|Hne].
    - rewrite lookup_alter_eq, Hj. simplify_eq. by eexists.
    - rewrite lookup_alter_ne by done. by eexists. }
  split; simpl.
  - intros j w1 [[-> ->]|[_ H]]%Hlook; by eapply (inv_fresh_watcher s Hi).
  - intros j g [_ H]%lookup_delete_Some. by eapply (inv_fresh_get s Hi).
  - intros j w1 v [[-> ->]|[_ H]]%Hlook; [|by eapply (inv_target s Hi)].
    intros Ho Ht. by apply (inv_target s Hi w wt).
  - intros j k o' w' [Hj H]%lookup_delete_Some.
    destruct (inv_opened s Hi _ _ _ _ H) as (w1 & H1 & H2 & H3 & H4).
    exists w1. rewrite lookup_alter_ne; [done|]. intros <-. apply Hj.
    by eapply (inv_distinct s Hi).
  - intros j j' k k' o1 o2 w' [? H1]%lookup_delete_Some [? H2]%lookup_delete_Some.
    by eapply (inv_distinct s Hi).
  - intros j w1 [[-> ->]|[Hj H]]%Hlook Hs1; [done|].
    destruct (inv_unstarted s Hi _ _ H Hs1) as (Hd & i' & k' & o' & H').
    split; [done|]. exists i', k', o'. rewrite lookup_delete_ne; [done|].
    intros <-. congruence.
  - intros k e [[-> He]|[Hne He]]%setToCache_lookup Ht.
    + destruct (Hold _ _ Hw) as (w2 & ? & ? & _). exists w, w2. split; [done|congruence].
    + destruct (inv_watched s Hi _ _ He Ht) as (j & w1 & H1 & H2).
      destruct (Hold _ _ H1) as (w2 & ? & ? & _). exists j, w2. split; [done|congruence].
  - intros k e [[-> He]|[Hne He]]%setToCache_lookup Ht.
    + left. destruct (Hold _ _ Hw) as (w2 & ? & ? & ? & Heq). exists w, w2.
      split_and!; [done|congruence|]. right. rewrite Heq. by destruct Htgt.
    + destruct (inv_entry s Hi _ _ He Ht) as [(j & w1 & H1 & H2 & H3)|?]; [left|by right].
      destruct (Hold _ _ H1) as (w2 & ? & ? & Ho & Heq). exists j, w2.
      split_and!; [done|congruence|]. unfold lags. by rewrite Ho, Heq.
Qed.

(** The entry after an event is applied: right if the event was the last, and otherwise the
    watch still lags. *)
Lemma apply_inv s i w ev prior :
  inv s → watchers s !! i = Some w → w_doing w = Applying ev prior →
  inv (set_watchers (set_objects s (apply_event (watchedObjects s) (w_key w) ev))
         (<[i := do_next w (w_pending w) (Calling ev prior)]> (watchers s))).
Proof.
  intros Hi Hw Hd. set (w' := do_next w (w_pending w) (Calling ev prior)).
  pose proof (target_applying w ev prior Hd) as Htw.
  assert (target w' = last (omap effect (w_pending w))) as Htw' by done.
  destruct (lookup_apply (watchedObjects s) (w_key w) ev) as [Hself Hother].
  assert (∀ j w1, watchers s !! j = Some w1 → ∃ w2, <[i := w']> (watchers s) !! j = Some w2 ∧
    w_key w2 = w_key w1 ∧ w_started w2 = w_started w1 ∧ w_open w2 = w_open w1 ∧
    (j = i ∨ w2 = w1)) as Hold.
  { intros j w1 Hj. destruct (decide (j = i)) as [->|Hne].
    - rewrite lookup_insert_eq. simplify_eq. eexists. split_and!; eauto.
    - rewrite lookup_insert_ne by done. eexists. split_and!; eauto. }
  split; simpl; try apply Hi.
  - intros j w1 [[<- _]|[_ H]]%lookup_insert_Some; by eapply (inv_fresh_watcher s Hi).
  - intros j w1 v [[<- <-]|[_ H]]%lookup_insert_Some; [|by eapply (inv_target s Hi)].
    intros Ho Ht. apply (inv_target s Hi i w v Hw Ho). by rewrite Htw, <-Htw', Ht.
  - intros j key o k H. destruct (inv_opened s Hi _ _ _ _ H) as (w1 & H1 & H2 & H3 & H4).
    exists w1. rewrite lookup_insert_ne; [done|]. intros <-. simplify_eq.
    destruct (inv_unstarted s Hi _ _ Hw H3) as [? _]. congruence.
  - intros j w1 [[<- <-]|[_ H]]%lookup_insert_Some; [|by eapply (inv_unstarted s Hi)].
    intros Hst. destruct (inv_unstarted s Hi _ _ Hw Hst) as [? _]. congruence.
  - intros key e He Ht. destruct (decide (key = w_key w)) as [->|Hk].
    + exists i, w'. by rewrite lookup_insert_eq.
    + rewrite Hother in He by done. destruct (inv_watched s Hi _ _ He Ht) as (j & w1 & H1 & H2).
      destruct (Hold _ _ H1) as (w2 & ? & ? & _). exists j, w2. split; [done|congruence].
  - intros key e He Ht. destruct (decide (key = w_key w)) as [->|Hk].
    + destruct (target w') as [v|] eqn:Hv.
      { left. exists i, w'. simpl. rewrite lookup_insert_eq. split_and!; [done..|].
        right. rewrite Hv. by eexists. }
      destruct (w_open w) eqn:Ho.
      2: { left. exists i, w'. simpl. rewrite lookup_insert_eq. split_and!; [done..|by left]. }
      rewrite <-Htw' in Htw. destruct (effect ev) as [v|] eqn:Hev.
      * right. rewrite (Hself _ He). by apply (inv_target s Hi i w v Hw Ho).
      * rewrite Hself in He. destruct (inv_entry s Hi _ _ He Ht) as [(j & w1 & H1 & H2 & H3)|?];
          [|by right]. left. destruct (Hold _ _ H1) as (w2 & ? & ? & ? & ? & [->| ->]).
        -- simplify_eq. destruct H3 as [H3|[x H3]]; congruence.
        -- exists j, w1. done.
    + rewrite Hother in He by done.
      destruct (inv_entry s Hi _ _ He Ht) as [(j & w1 & H1 & H2 & H3)|?]; [left|by right].
      exists j, w1. simpl. rewrite lookup_insert_ne; [done|]. congruence.
Qed.

Lemma end_inv s i w :
  inv s → watchers s !! i = Some w → w_started w = true →
  inv (set_watchers (set_objects s (clearEntryByKey (watchedObjects s) (w_key w)))
         (delete i (watchers s))).
Proof.
  intros Hi Hw Hst. unfold clearEntryByKey. split; simpl; try apply Hi.
  - intros j w1 [_ H]%lookup_delete_Some. by eapply (inv_fresh_watcher s Hi).
  - intros j w1 v [_ H]%lookup_delete_Some. by eapply (inv_target s Hi).
  - intros j key o k H. destruct (inv_opened s Hi _ _ _ _ H) as (w1 & H1 & H2 & H3 & H4).
    exists w1. rewrite lookup_delete_ne; [done|]. intros <-. congruence.
  - intros j w1 [_ H]%lookup_delete_Some. by eapply (inv_unstarted s Hi).
  - intros key e [Hk He]%lookup_delete_Some Ht.
    destruct (inv_watched s Hi _ _ He Ht) as (j & w1 & H1 & H2).
    exists j, w1. rewrite lookup_delete_ne; [done|]. intros <-. congruence.
  - intros key e [Hk He]%lookup_delete_Some Ht.
    destruct (inv_entry s Hi _ _ He Ht) as [(j & w1 & H1 & H2 & H3)|?]; [left|by right].
    exists j, w1. simpl. rewrite lookup_delete_ne; [done|]. intros <-. congruence.
Qed.

Lemma spawn_inv s l : inv s → inv (spawn s l).
Proof. intros Hi. split; apply Hi. Qed.

Lemma make_call_inv s i c : inv s → inv (make_call s i c).
Proof. intros Hi. split; apply Hi. Qed.

Lemma client_internal_inv s s' : inv s → internal s s' → inv s'.
Proof.
  intros Hi Hs.
  destruct Hs as [s i key o Hg Hsv|s i g Hg Hno|s i key o Hg|s i key o w Hg
                 |s i w ev pending Hw Hst Hd Hp|s i w ev prior Hw Hd|s i w ev prior Hw Hd
                 |s i c Hc|s i w Hw Hst Ho Hd Hp].
  - by apply (set_get_inv s i (Missed key) (Some (Fetched key o))).
  - by apply (set_get_inv s i g None).
  - by apply open_watch_inv.
  - by apply store_inv.
  - eapply update_watcher_inv; [done|done|]. split_and!; [done..| |simpl; congruence].
    unfold target, todo. simpl. by rewrite Hd, Hp.
  - by apply apply_inv.
  - apply spawn_inv. eapply update_watcher_inv; [done|done|]. split_and!; [done..| |].
    + unfold target, todo. simpl. by rewrite Hd.
    + simpl. intros Hst. destruct (inv_unstarted s Hi _ _ Hw Hst) as [? _]. congruence.
  - by apply make_call_inv.
  - by apply end_inv.
Qed.

Lemma client_reachable_inv s : reachable s → inv s.
Proof.
  intros [objects Hr]. revert s Hr. apply (rtc_ind_r inv); [apply client_init_inv|].
  intros s1 s2 _ [H|H] Hi; [by eapply client_external_inv|by eapply client_internal_inv].
Qed.

(** ** Left alone, the client comes to rest *)

Definition get_weight (g : getting) : nat :=
  match g with Missed _ => 6 | Fetched _ _ => 5 | Opened _ _ _ => 1 end.
Definition watcher_weight (w : watcher) : nat :=
  3 * length (w_pending w) +
  match w_doing w with Ranging => 0 | Applying _ _ => 2 | Calling _ _ => 1 end +
  if w_open w then 0 else 1.
(** Reads and watches, each with the goroutines it may start; then those that run. *)
Definition threads_work (s : state) : nat :=
  map_weight get_weight (gets s) + map_weight watcher_weight (watchers s).
Definition handler_count m : nat := map_weight (λ e, length (handlers e)) m.
Definition work (s : state) : nat :=
  threads_work s * S (handler_count (watchedObjects s)) + length (running s).

Lemma replace_watcher_work s i w w' :
  watchers s !! i = Some w → watcher_weight w' < watcher_weight w →
  map_weight watcher_weight (<[i := w']> (watchers s)) < map_weight watcher_weight (watchers s).
Proof. intros Hw Hlt. pose proof (map_weight_replace watcher_weight _ i w w' Hw). lia. Qed.

Lemma start_work (ws : gmap nat watcher) i :
  map_weight watcher_weight (alter start_watcher i ws) = map_weight watcher_weight ws.
Proof.
  destruct (ws !! i) as [w|] eqn:Hw.
  - assert (alter start_watcher i ws = <[i := start_watcher w]> ws) as ->.
    { apply map_eq. intros j. destruct (decide (j = i)) as [->|Hj].
      - by rewrite lookup_alter_eq, lookup_insert_eq, Hw.
      - by rewrite lookup_alter_ne, lookup_insert_ne. }
    pose proof (map_weight_replace watcher_weight _ i w (start_watcher w) Hw).
    unfold watcher_weight in *. simpl in *. lia.
  - assert (alter start_watcher i ws = ws) as ->; [|done].
    apply map_eq. intros j. destruct (decide (j = i)) as [->|Hj].
    + by rewrite lookup_alter_eq, Hw.
    + by rewrite lookup_alter_ne.
Qed.

(** *** The code registers no handler by itself *)

Lemma count_setToCache m key o : handler_count (setToCache m key o) = handler_count m.
Proof.
  unfold setToCache, handler_count. destruct (m !! key) as [e|] eqn:He.
  - pose proof (map_weight_replace (λ e, length (handlers e)) m key e
                  (mkWatched (Some o) (handlers e)) He). simpl in *. lia.
  - by rewrite map_weight_insert.
Qed.

Lemma count_apply m key ev : handler_count (apply_event m key ev) = handler_count m.
Proof.
  destruct ev as [o|o|o| |]; simpl; [apply count_setToCache..| |done|done].
  unfold removeFromCache, handler_count. destruct (m !! key) as [e|] eqn:He; [|done].
  pose proof (map_weight_replace (λ e, length (handlers e)) m key e
                (mkWatched None (handlers e)) He). simpl in *. lia.
Qed.

Lemma count_clear m key : handler_count (clearEntryByKey m key) ≤ handler_count m.
Proof.
  unfold clearEntryByKey, handler_count. destruct (m !! key) as [e|] eqn:He.
  - rewrite (map_weight_delete _ m key e He). lia.
  - by rewrite delete_id.
Qed.

Lemma callHandlers_length m key ev prior : length (callHandlers m key ev prior) ≤ handler_count m.
Proof.
  unfold callHandlers. destruct (m !! key) as [e|] eqn:He.
  - assert (length (handlers e) ≤ handler_count m) as Hle.
    { unfold handler_count. rewrite (map_weight_delete _ m key e He). lia. }
    destruct ev; simpl; rewrite ?length_fmap; lia.
  - destruct ev; simpl; lia.
Qed.

Lemma internal_count s s' :
  internal s s' → handler_count (watchedObjects s') ≤ handler_count (watchedObjects s).
Proof.
  destruct 1; try done.
  - unfold open_watch. by destruct (server s !! key).
  - simpl. by rewrite count_setToCache.
  - simpl. by rewrite count_apply.
  - apply count_clear.
Qed.

(** Either a goroutine calls its handler, or a read or a watch has less left to do. *)
Lemma client_threads_work s s' :
  inv s → internal s s' →
  (∃ i c, running s !! i = Some c ∧ s' = make_call s i c) ∨ threads_work s' < threads_work s.
Proof.
  intros Hi Hs. unfold threads_work.
  destruct Hs as [s i key o Hg Hsv|s i g Hg Hno|s i key o Hg|s i key o w Hg
                 |s i w ev pending Hw Hst Hd Hp|s i w ev prior Hw Hd|s i w ev prior Hw Hd
                 |s i c Hc|s i w Hw Hst Ho Hd Hp]; [..|by left; eauto|]; right.
  - simpl. pose proof (map_weight_replace get_weight _ i _ (Fetched key o) Hg).
    simpl in *. lia.
  - simpl. pose proof (map_weight_delete get_weight _ i g Hg). destruct g; simpl in *; lia.
  - assert (watchers s !! next s = None) as Hnew.
    { apply eq_None_not_Some. intros [w Hw%inv_fresh_watcher]; [lia|done]. }
    pose proof (map_weight_replace get_weight _ i _ (Opened key o (next s)) Hg).
    unfold open_watch. destruct (server s !! key); simpl;
      rewrite (map_weight_insert watcher_weight _ _ _ Hnew); unfold watcher_weight at 1;
      simpl in *; lia.
  - simpl. pose proof (map_weight_delete get_weight _ i _ Hg). rewrite start_work.
    simpl in *. lia.
  - apply Nat.add_lt_mono_l. simpl. eapply replace_watcher_work; [done|].
    unfold watcher_weight. simpl. rewrite Hd, Hp. simpl. lia.
  - apply Nat.add_lt_mono_l. simpl. eapply replace_watcher_work; [done|].
    unfold watcher_weight. simpl. rewrite Hd. simpl. lia.
  - apply Nat.add_lt_mono_l. simpl. eapply replace_watcher_work; [done|].
    unfold watcher_weight. simpl. rewrite Hd. simpl. lia.
  - apply Nat.add_lt_mono_l. simpl. pose proof (map_weight_delete watcher_weight _ i w Hw) as H.
    rewrite H. unfold watcher_weight at 2. rewrite Ho. lia.
Qed.

(** What a step starts is at most a goroutine for each handler. *)
Lemma internal_running s s' :
  internal s s' → length (running s') ≤ length (running s) + handler_count (watchedObjects s).
Proof.
  destruct 1 as [s i key o Hg Hsv|s i g Hg Hno|s i key o Hg|s i key o w Hg
                |s i w ev pending Hw Hst Hd Hp|s i w ev prior Hw Hd|s i w ev prior Hw Hd
                |s i c Hc|s i w Hw Hst Ho Hd Hp]; simpl; try lia.
  - unfold open_watch. destruct (server s !! key); simpl; lia.
  - rewrite length_app. pose proof (callHandlers_length (watchedObjects s) (w_key w) ev prior). lia.
  - rewrite length_delete by eauto. lia.
Qed.

Lemma client_internal_work s s' : inv s → internal s s' → work s' < work s.
Proof.
  intros Hi Hs. pose proof (internal_count s s' Hs) as Hc. pose proof (internal_running s s' Hs) as Hr.
  unfold work. destruct (client_threads_work s s' Hi Hs) as [(i & c & Hl & ->)|Hlt].
  - simpl. rewrite length_delete by eauto. apply lookup_lt_Some in Hl. unfold threads_work. simpl. lia.
  - nia.
Qed.

Definition quiet (s : state) : Prop := ∀ s', ¬ internal s s'.

(** A read in progress can always go on. *)
Lemma get_goes_on s i g : gets s !! i = Some g → ∃ s', internal s s'.
Proof.
  intros Hg. destruct g as [key|key o|key o w].
  - eexists. by eapply int_fail.
  - eexists. by eapply int_watch.
  - eexists. by eapply int_store.
Qed.

(** The goroutine of a watch has nothing to do. *)
Definition idle (w : watcher) : bool :=
  negb (w_started w) ||
  match w_doing w, w_pending w with Ranging, [] => w_open w | _, _ => false end.

Lemma busy_goes_on s i w :
  inv s → watchers s !! i = Some w → idle w = false → ∃ s', internal s s'.
Proof.
  intros Hi Hw Hidle. unfold idle in Hidle.
  destruct (w_started w) eqn:Hst; [|done]. simpl in Hidle.
  destruct (w_doing w) as [|ev prior|ev prior] eqn:Hd.
  - destruct (w_pending w) as [|ev pending] eqn:Hp; eexists.
    + by eapply int_end.
    + by eapply int_snapshot.
  - eexists. by eapply int_apply.
  - eexists. by eapply int_call.
Qed.

Definition resting (s : state) : Prop :=
  gets s = ∅ ∧ running s = [] ∧ map_Forall (λ _ w, w_started w = true ∧ idle w = true) (watchers s).

Lemma resting_quiet s : resting s → quiet s.
Proof.
  intros (Hg & Hrun & Hn) s' Hs. assert (∀ i w, watchers s !! i = Some w →
    w_doing w = Ranging ∧ w_pending w = [] ∧ w_open w = true) as Hidle.
  { intros i w Hw. destruct (Hn i w Hw) as [Hst Hb].
    unfold idle in Hb. rewrite Hst in Hb. by destruct (w_doing w), (w_pending w). }
  destruct Hs as [s i key o H|s i g H|s i key o H|s i key o w H|s i w ev pending Hw _ Hd Hp
                 |s i w ev prior Hw Hd|s i w ev prior Hw Hd|s i c Hc
                 |s i w Hw _ Ho Hd Hp];
    try by rewrite Hg in H.
  4: by rewrite Hrun in Hc.
  all: destruct (Hidle i w Hw) as (? & ? & ?); congruence.
Qed.

Lemma client_quiet_or_step s : inv s → (∃ s', internal s s') ∨ quiet s.
Proof.
  intros Hi. destruct (decide (gets s = ∅)) as [Hg|Hg].
  2: { apply map_choose in Hg as (i & g & Hg). left. by eapply get_goes_on. }
  destruct (decide (map_Exists (λ _ w, idle w = false) (watchers s))) as [(i & w & Hw & Hb)|Hn].
  { left. by eapply busy_goes_on. }
  destruct (running s) as [|c running'] eqn:Hrun.
  2: { left. eexists. apply (int_handler s 0 c). by rewrite Hrun. }
  right. apply resting_quiet. split_and!; [done..|]. intros i w Hw. split.
  - destruct (w_started w) eqn:H; [done|].
    destruct (inv_unstarted s Hi _ _ Hw H) as (_ & j & k & o & Hj). by rewrite Hg in Hj.
  - destruct (idle w) eqn:H; [done|]. destruct Hn. by exists i, w.
Qed.

Lemma uses_work s s' : inv s → internal s s' → inv s' ∧ work s' < work s.
Proof. intros Hi Hs. split; [by eapply client_internal_inv|by apply client_internal_work]. Qed.

Lemma quiet_right s key e :
  inv s → quiet s → watchedObjects s !! key = Some e → key ∉ tainted s →
  cached e = server s !! key ∧
  ∃ i w, watchers s !! i = Some w ∧ w_key w = key ∧ w_started w = true ∧ w_open w = true.
Proof.
  intros Hi Hq He Ht.
  assert (∀ i w, watchers s !! i = Some w → w_started w = true ∧ idle w = true) as Hidle.
  { intros i w Hw. split.
    - destruct (w_started w) eqn:H; [done|].
      destruct (inv_unstarted s Hi _ _ Hw H) as (_ & j & k & o & Hj).
      destruct (get_goes_on s j _ Hj) as [s' Hs]. by apply Hq in Hs.
    - destruct (idle w) eqn:H; [done|].
      destruct (busy_goes_on s i w Hi Hw H) as [s' Hs]. by apply Hq in Hs. }
  assert (∀ i w, watchers s !! i = Some w → ¬ lags w ∧ w_open w = true) as Hlag.
  { intros i w Hw. destruct (Hidle i w Hw) as [Hst Hid]. unfold idle in Hid.
    rewrite Hst in Hid. simpl in Hid. unfold lags, target, todo.
    destruct (w_doing w), (w_pending w); try done. rewrite Hid. simpl.
    split; [|done]. intros [?|[x ?]]; done. }
  split.
  - destruct (inv_entry s Hi _ _ He Ht) as [(i & w & Hw & _ & Hl)|?]; [|done].
    by destruct (Hlag i w Hw).
  - destruct (inv_watched s Hi _ _ He Ht) as (i & w & Hw & Hk). exists i, w.
    destruct (Hidle i w Hw). by destruct (Hlag i w Hw).
Qed.

Lemma internal_server s s' : internal s s' → server s' = server s.
Proof. destruct 1; try done. unfold open_watch. by destruct (server s !! key). Qed.

(** C23: the cache catches up.  However reads, several watches of one object, changes, failing
    writes and registrations interleave: left alone, the goroutines come to rest within a
    bounded number of steps, and then every entry of an untainted key is the object as it is
    on the API server (or NotFound if there is none), and has an open watch that will tell of
    the next change. *)
Theorem cache_catches_up s :
  reachable s →
  (∀ n s', nsteps internal n s s' → n ≤ work s) ∧
  (∃ s', rtc internal s s' ∧ quiet s') ∧
  ∀ s', rtc internal s s' → quiet s' →
    ∀ key o, key ∉ tainted s' → answer (watchedObjects s') key = Some o →
      o = server s !! key ∧
      ∃ i w, watchers s' !! i = Some w ∧ w_key w = key ∧ w_started w = true ∧ w_open w = true.
Proof.
  intros Hi%client_reachable_inv. split_and!.
  - intros n s' Hs. pose proof (bounded_steps internal inv work uses_work n s s' Hi Hs). lia.
  - apply (comes_to_rest internal inv work uses_work); [apply client_quiet_or_step|done].
  - intros s' Hs Hq key o Ht.
    assert (inv s' ∧ server s' = server s) as [Hi' <-].
    { clear Hq Ht. induction Hs as [|s1 s2 s3 H _ IH]; [done|].
      rewrite <-(internal_server _ _ H). apply IH. by eapply client_internal_inv. }
    unfold answer. rewrite fmap_Some. intros (e & He & ->). by apply quiet_right.
Qed.

(** ** What the handlers are told *)










(** *** The loop of a watch and the goroutines it starts *)
















End cache.


(** ** What the code does not guard against *)

Definition one_object : gmap string nat := {["k" := 1]}.

(** One step of a concrete run, whose state is then evaluated. *)
Ltac evaluate_state :=
  match goal with |- rtc step ?a _ => let b := eval vm_compute in a in change a with b end.
Tactic Notation "by_internal" uconstr(c) :=
  evaluate_state; eapply rtc_l; [right; eapply c; reflexivity|].
Tactic Notation "by_external" uconstr(c) :=
  evaluate_state; eapply rtc_l; [left; eapply c; reflexivity|].

(** The object is deleted between the query and the watch of the first read. *)
Lemma deleted_before_watch :
  ∃ s : state, reachable s ∧ resting s ∧ server s !! "k" = None ∧
    answer (watchedObjects s) "k" = Some (Some 1).
Proof.
  eexists. split.
  - exists one_object. by_external (ext_get _ "k"). by_internal (int_live _ 0 "k" 1).
    by_external (ext_change _ "k" None (Deleted 1)). by_internal (int_watch _ 0 "k" 1).
    by_internal (int_store _ 0 "k" 1 1). evaluate_state. apply rtc_refl.
  - split_and!; [split_and!; [reflexivity|reflexivity|apply (bool_decide_unpack _); vm_compute; exact I]|..];
      reflexivity.
Qed.

(** A handler is registered after the entry its source had made was cleared. *)
Lemma registered_after_clear :
  ∃ s : state, reachable s ∧ resting s ∧ watchers s = ∅ ∧ server s !! "k" = Some 1 ∧
    answer (watchedObjects s) "k" = Some None.
Proof.
  eexists. split.
  - exists one_object. by_external (ext_handler_blank _ "k" 7). evaluate_state. apply rtc_refl.
  - split_and!; [split_and!; [reflexivity|reflexivity|apply (bool_decide_unpack _); vm_compute; exact I]|..];
      reflexivity.
Qed.

(** A failing write clears an entry with a handler; its watch goes on without it. *)
Lemma handler_forgotten :
  ∃ s1 s2 : state, reachable s1 ∧ rtc step s1 s2 ∧ resting s2 ∧
    handlers <$> watchedObjects s1 !! "k" = Some [7] ∧ server s1 !! "k" = Some 1 ∧
    server s2 !! "k" = Some 2 ∧ answer (watchedObjects s2) "k" = Some (Some 2) ∧
    handlers <$> watchedObjects s2 !! "k" = Some [] ∧ calls s2 = calls s1.
Proof.
  eexists _, _. split; [|split].
  - exists one_object. by_external (ext_get _ "k"). by_internal (int_live _ 0 "k" 1).
    by_internal (int_watch _ 0 "k" 1). by_internal (int_store _ 0 "k" 1 1).
    by_external (ext_handler _ "k" 7). evaluate_state. apply rtc_refl.
  - eapply rtc_l; [left; apply (ext_write_failed _ "k")|].
    by_external (ext_change _ "k" (Some 2) (Modified 2)).
    by_internal (int_snapshot _ 1). by_internal (int_apply _ 1). by_internal (int_call _ 1).
    by_internal (int_snapshot _ 1). by_internal (int_apply _ 1). by_internal (int_call _ 1).
    evaluate_state. apply rtc_refl.
  - split_and!; [split_and!; [reflexivity|reflexivity|apply (bool_decide_unpack _); vm_compute; exact I]|..];
      reflexivity.
Qed.

(** C39: three ways to stay wrong.  Each of these states is reachable, and stays until the
    object changes again or a write fails, since no goroutine has anything left to do: the
    cache answers with an object that is gone, when it was deleted between the query and the
    watch of the first read; it answers NotFound for an object that is there and that nobody
    watches, when a handler was registered after the entry was cleared; and after a failing
    write a registered handler is not told of a change the cache has taken in. *)
Theorem cache_stays_wrong :
  (∃ s : state, reachable s ∧ quiet s ∧ server s !! "k" = None ∧
     answer (watchedObjects s) "k" = Some (Some 1)) ∧
  (∃ s : state, reachable s ∧ quiet s ∧ watchers s = ∅ ∧ server s !! "k" = Some 1 ∧
     answer (watchedObjects s) "k" = Some None) ∧
  (∃ s1 s2 : state, reachable s1 ∧ rtc step s1 s2 ∧ quiet s2 ∧
     handlers <$> watchedObjects s1 !! "k" = Some [7] ∧
     server s1 !! "k" = Some 1 ∧ server s2 !! "k" = Some 2 ∧
     answer (watchedObjects s2) "k" = Some (Some 2) ∧ calls s2 = calls s1).
Proof.
  split_and!.
  - destruct deleted_before_watch as (s & ? & ?%resting_quiet & ?). eauto.
  - destruct registered_after_clear as (s & ? & ?%resting_quiet & ?). eauto.
  - destruct handler_forgotten as (s1 & s2 & ? & ? & ?%resting_quiet & ? & ? & ? & ? & _ & ?).
    eauto 12.
Qed.

Lemma cache_catches_up_witness :
  (∃ s', rtc internal (init one_object) s' ∧ quiet s') ∧
  ∀ s', rtc internal (init one_object) s' → quiet s' →
    ∀ key o, key ∉ tainted s' → answer (watchedObjects s') key = Some o →
      o = one_object !! key.
Proof.
  destruct (cache_catches_up (init one_object)) as (_ & H1 & H2).
  { exists one_object. apply rtc_refl. }
  split; [exact H1|]. intros s' Hs Hq key o Ht Ha. by destruct (H2 s' Hs Hq key o Ht Ha).
Defined.
