(* ===== verification/Start.v ===== *)
(** Starting the two plugins: [cmd/main.go], [internal/cmd/operator.go], [internal/cmd/instance.go],
    [internal/operator/manager.go] and [internal/instance/manager.go].

    The flags and what viper binds them to, the start of the operator and of the sidecar as
    sequences of calls to controller-runtime, each of which can fail, and the exit status.  The
    loggers are left out; viper, controller-runtime and the PKI of CNPG are the environment. *)
From stdpp Require Import base list strings gmap.
From S2P Require Import Prelude GoStrings GoTime Api Effects Secrets Instance.
Local Open Scope string_scope.
Local Open Scope list_scope.
Local Open Scope go_scope.
Local Open Scope Z_scope.

(** How a command ends: it returns an error, or none, or it leaves the process. *)
Inductive ended := Return (e : option err) | Exit (status : Z).

(** [if err := c(); err != nil { return err }], and with [os.Exit(1)]. *)
Definition or_return (c : manager_call) (k : prog ended) : prog ended :=
  e ← call (OManager c);
  match (e : option err) with Some e => Ret (Return (Some e)) | None => k end.
Definition or_exit (c : manager_call) (k : prog ended) : prog ended :=
  e ← call (OManager c);
  match (e : option err) with Some _ => Ret (Exit 1) | None => k end.

(** ** The operator *)
Module Operator.

Definition WebhookSecretName := "cnpg-plugin-wal-g-webhook-cert".
Definition WebhookServiceName := "cnpg-plugin-wal-g-webhook-service".
Definition MutatingWebhookConfigurationName :=
  "cnpg-plugin-wal-g-mutating-webhook-configuration".
Definition ValidatingWebhookConfigurationName :=
  "cnpg-plugin-wal-g-validating-webhook-configuration".
Definition defaultWebhookCertDir := "/run/secrets/cnpg-plugin-wal-g/webhook".
Definition CaSecretName := "cnpg-plugin-wal-g-ca-secret".
Definition OperatorDeploymentLabelSelector := "app.kubernetes.io/name=cnpg-plugin-wal-g".

(** The names of [certs.PublicKeyInfrastructure]. *)
Definition pki_names : list string :=
  [CaSecretName; defaultWebhookCertDir; WebhookSecretName; WebhookServiceName;
   MutatingWebhookConfigurationName; ValidatingWebhookConfigurationName;
   OperatorDeploymentLabelSelector].

Definition ensurePKI : prog (option err) :=
  operatorNamespace ← call OKubeNamespace;
  match (operatorNamespace : res string) with
  | Err e => Ret (Some e)
  | Ok operatorNamespace => call (OManager (SetupPKI operatorNamespace pki_names))
  end.

Definition retention_interval : Z := 10 * minute.

(** The end of [Start], from the health checks on. *)
Definition serve : prog ended :=
  or_return (AddHealthzCheck "healthz") (or_return (AddReadyzCheck "readyz") (
  ServerAddress ← call (OViperString "cnpg-i-bind-address");
  PluginPath ← call (OViperString "cnpg-i-socket-path");
  ServerCertPath ← call (OViperString "cnpg-i-cert-path");
  ServerCertName ← call (OViperString "cnpg-i-cert-name");
  ServerCertKey ← call (OViperString "cnpg-i-cert-key");
  ClientCertPath ← call (OViperString "cnpg-i-client-cert-path");
  ClientCertName ← call (OViperString "cnpg-i-client-cert-name");
  or_return (Add (OperatorPlugin ServerAddress PluginPath ServerCertPath ServerCertName
                    ServerCertKey ClientCertPath ClientCertName)) (
  or_return StartManager (Ret (Return None))))).

(** The webhook and its certificates. *)
Definition set_up_webhook (webhookCertWatcher : option (string * string)) : prog ended :=
  or_exit NewKubeClient (
  e ← ensurePKI;
  match (e : option err) with
  | Some _ => Ret (Exit 1)
  | None =>
      or_exit SetupWebhook (
      match webhookCertWatcher with
      | Some (cert, key) => or_return (Add (CertWatcher cert key)) serve
      | None => serve
      end)
  end).

(** The runnables and controllers of the manager. *)
Definition set_up_controllers (statusInterval archiveInterval : Z) (k : prog ended) : prog ended :=
  or_return (Add ZombieProcessReaper) (
  or_return (Add BackupDeletionController) (
  or_return (SetupController BackupConfigReconciler) (
  or_return (Add (RetentionController retention_interval)) (
  or_return (Add (BackupConfigStatusController statusInterval archiveInterval)) (
  or_return (SetupController BackupReconciler) (
  or_return (SetupController SecretReconciler) (
  or_return (SetupController ConfigMapReconciler) k))))))).

Definition run_manager (statusInterval archiveInterval : Z) (enableHTTP2 : bool)
    (webhookCertWatcher : option (string * string)) : prog ended :=
  or_exit GetConfig (
  probeAddress ← call (OViperString "health-probe-bind-address");
  leaderElection ← call (OViperBool "leader-elect");
  or_return (NewManager enableHTTP2 defaultWebhookCertDir probeAddress leaderElection None []) (
  set_up_controllers statusInterval archiveInterval (set_up_webhook webhookCertWatcher))).

Definition Start : prog ended :=
  statusInterval ← call (OViperDuration "backup-config-status-interval");
  if (statusInterval : Z) <=? 0
  then Ret (Return (Some (errorf "backup-config-status-interval must be a positive duration")))
  else
    archiveInterval ← call (OViperDuration "backup-config-status-archive-interval");
    if (archiveInterval : Z) <=? 0
    then Ret (Return (Some
           (errorf "backup-config-status-archive-interval must be a positive duration")))
    else
      enableHTTP2 ← call (OViperBool "enable-http2");
      webhookCertPath ← call (OViperString "webhook-cert-path");
      webhookCertName ← call (OViperString "webhook-cert-name");
      webhookCertKey ← call (OViperString "webhook-cert-key");
      if negb (String.eqb webhookCertPath "") then
        let cert := Filepath.Join webhookCertPath webhookCertName in
        let key := Filepath.Join webhookCertPath webhookCertKey in
        or_exit (NewCertWatcher cert key)
          (run_manager statusInterval archiveInterval enableHTTP2 (Some (cert, key)))
      else run_manager statusInterval archiveInterval enableHTTP2 None.

End Operator.

(** ** The sidecar *)
Module Sidecar.

Definition AllowedPluginModes : list string := [PluginModeNormal; PluginModeRecovery].

(** [path.Join(pgdata, "pg_wal")] is [Filepath.Join] of the same. *)
Definition Start : prog ended :=
  podName ← call (OViperString "pod-name");
  namespace ← call (OViperString "namespace");
  pgMajor ← call (OGetenv "PG_MAJOR");
  if String.eqb pgMajor "" then Panic "Cannot start: PG_MAJOR environment variable is unset"
  else
    or_exit GetConfig (
    or_return (NewManager false "" "" false (Some [namespace])
                 [KSecret; KConfigMap; KBackupConfig; KCluster; KBackup]) (
    or_return (CreateCachingClient [KSecret; KBackupConfig; KCluster; KBackup]) (
    or_return (Add ZombieProcessReaper) (
    PGDataPath ← call (OViperString "pgdata");
    pgdata ← call (OViperString "pgdata");
    PluginPath ← call (OViperString "plugin-path");
    or_return (Add (InstancePlugin podName PGDataPath (Filepath.Join pgdata "pg_wal") PluginPath)) (
    or_return StartManager (Ret (Return None))))))).

(** The command [instance], with the check of its [PreRunE]. *)
Definition command : prog ended :=
  mode ← call (OViperString "mode");
  if existsb (String.eqb mode) AllowedPluginModes then Start
  else Ret (Return (Some (errorf
         ("incorrect mode parameter: " +:+ mode +:+ ", should be one of 'normal', 'recovery'")))).

End Sidecar.

(** [main], around the command that was chosen; [canceled] is [errors.Is(err, context.Canceled)].
    The result is the exit status. *)
Definition main (canceled : err → bool) (command : prog ended) : prog Z :=
  r ← command;
  Ret match r with
      | Exit status => status
      | Return (Some e) => if canceled e then 0 else 1
      | Return None => 0
      end.

(** ** The flags *)
Module Flags.

Inductive value := FlagString (s : string) | FlagBool (b : bool) | FlagDuration (d : Z).

(** The flags of [NewOperatorCmd] with their defaults. *)
Definition operator_flags : list (string * value) := [
  ("metrics-bind-address", FlagString "0");
  ("health-probe-bind-address", FlagString ":8081");
  ("leader-elect", FlagBool false);
  ("backup-config-status-interval", FlagDuration (2 * minute));
  ("backup-config-status-archive-interval", FlagDuration (5 * minute));
  ("metrics-secure", FlagBool true);
  ("webhook-cert-path", FlagString "");
  ("webhook-cert-name", FlagString "tls.crt");
  ("webhook-cert-key", FlagString "tls.key");
  ("metrics-cert-path", FlagString "");
  ("metrics-cert-name", FlagString "tls.crt");
  ("metrics-cert-key", FlagString "tls.key");
  ("enable-http2", FlagBool false);
  ("cnpg-i-bind-address", FlagString ":9090");
  ("cnpg-i-pg-sidecar-image", FlagString "cnpg-plugin-wal-g-instance-plugin:latest");
  ("cnpg-i-cert-path", FlagString "");
  ("cnpg-i-cert-name", FlagString "tls.crt");
  ("cnpg-i-cert-key", FlagString "tls.key");
  ("cnpg-i-client-cert-path", FlagString "");
  ("cnpg-i-client-cert-name", FlagString "tls.crt")
].

(** The keys of [viper.BindPFlag], with the name that is looked up. *)
Definition operator_bindings : list (string * string) := [
  ("metrics-bind-address", "metrics-bind-address");
  ("health-probe-bind-address", "health-probe-bind-address");
  ("leader-elect", "leader-elect");
  ("backup-config-status-interval", "backup-config-status-interval");
  ("backup-config-status-archive-interval", "backup-config-status-archive-interval");
  ("metrics-secure", "metrics-secure");
  ("webhook-cert-path", "webhook-cert-path");
  ("webhook-cert-name", "webhook-cert-path");
  ("webhook-cert-key", "webhook-cert-path");
  ("metrics-cert-path", "webhook-cert-path");
  ("metrics-cert-name", "webhook-cert-path");
  ("metrics-cert-key", "webhook-cert-path");
  ("enable-http2", "enable-http2");
  ("cnpg-i-bind-address", "cnpg-i-bind-address");
  ("cnpg-i-pg-sidecar-image", "cnpg-i-pg-sidecar-image");
  ("cnpg-i-cert-path", "cnpg-i-cert-path");
  ("cnpg-i-cert-name", "cnpg-i-cert-name");
  ("cnpg-i-cert-key", "cnpg-i-cert-key");
  ("cnpg-i-client-cert-path", "cnpg-i-client-cert-path");
  ("cnpg-i-client-cert-name", "cnpg-i-client-cert-name")
].

(** The same for [NewInstanceSubcommand] and [NewDumpConfigCmd]; the keys that [main] binds to
    variables of the environment. *)
Definition instance_flags : list (string * value) :=
  [("mode", FlagString "normal");
   ("cnpg-i-socket-path", FlagString "/plugins/cnpg-extensions.yandex.cloud")].
Definition instance_bindings : list (string * string) :=
  [("mode", "mode"); ("cnpg-i-socket-path", "cnpg-i-socket-path")].
Definition dump_config_flags : list (string * value) := [("output", FlagString "walg.json")].
Definition dump_config_bindings : list (string * string) := [("output", "output")].
Definition env_bindings : list (string * string) :=
  [("namespace", "NAMESPACE"); ("cluster-name", "CLUSTER_NAME"); ("pod-name", "POD_NAME");
   ("pgdata", "PGDATA"); ("pg_major", "PG_MAJOR"); ("zap-devel", "DEBUG");
   ("zap-log-level", "LOG_LEVEL"); ("zap-stacktrace-level", "LOG_STACKTRACE_LEVEL")].

(** The value of a flag: the one on the command line, or its default. *)
Definition flag_value (flags : list (string * value)) (given : string → option value)
    (name : string) : option value :=
  match find_first (λ f, String.eqb f.1 name) flags with
  | Some f => Some (default f.2 (given name))
  | None => None
  end.
End Flags.

(** ** What a start does, as a plan

    The settings of a process: what viper, the environment and the kube configuration answer. *)
Record settings := mkSettings {
  GetString : string → string;
  GetBool : string → bool;
  GetDuration : string → Z;
  Getenv : string → string;
  KubeNamespace : string;
}.

(** The answers of a run are those of the settings; the namespace may not be found. *)
Definition answered (v : settings) (e : event) : Prop :=
  match e with
  | Ev (OViperString key) a => a = GetString v key
  | Ev (OViperBool key) a => a = GetBool v key
  | Ev (OViperDuration key) a => a = GetDuration v key
  | Ev (OGetenv key) a => a = Getenv v key
  | Ev OKubeNamespace (Ok ns) => ns = KubeNamespace v
  | _ => True
  end.

Definition reads_setting (e : event) : Prop :=
  match ev_op e with
  | OViperString _ | OViperBool _ | OViperDuration _ | OGetenv _ => True
  | _ => False
  end.

(** The error a step failed with. *)
Definition failure (e : event) : option err :=
  match e with
  | Ev (OManager _) a => a
  | Ev OKubeNamespace (Err e) => Some e
  | _ => None
  end.

(** Whether a failing step makes [Start] return its error or leave the process. *)
Inductive severity := Returns | Exits.
Definition on_failure (sv : severity) (e : err) : ended :=
  match sv with Returns => Return (Some e) | Exits => Exit 1 end.

(** The run does the steps of the plan in their order, and stops at the first that fails. *)
Inductive follows : list (op * severity) → list event → outcome ended → Prop :=
| follows_done : follows [] [] (Returned (Return None))
| follows_setting plan e t r : reads_setting e → follows plan t r → follows plan (e :: t) r
| follows_step plan e sv t r :
    failure e = None → follows plan t r → follows ((ev_op e, sv) :: plan) (e :: t) r
| follows_fails plan e sv why :
    failure e = Some why →
    follows ((ev_op e, sv) :: plan) [e] (Returned (on_failure sv why)).

Definition cert_paths (v : settings) : string * string :=
  (Filepath.Join (GetString v "webhook-cert-path") (GetString v "webhook-cert-name"),
   Filepath.Join (GetString v "webhook-cert-path") (GetString v "webhook-cert-key")).
Definition has_webhook_certs (v : settings) : bool :=
  negb (String.eqb (GetString v "webhook-cert-path") "").

Definition manager_steps (v : settings) : list (op * severity) := [
  (OManager GetConfig, Exits);
  (OManager (NewManager (GetBool v "enable-http2") Operator.defaultWebhookCertDir
     (GetString v "health-probe-bind-address") (GetBool v "leader-elect") None []), Returns);
  (OManager (Add ZombieProcessReaper), Returns);
  (OManager (Add BackupDeletionController), Returns);
  (OManager (SetupController BackupConfigReconciler), Returns);
  (OManager (Add (RetentionController Operator.retention_interval)), Returns);
  (OManager (Add (BackupConfigStatusController (GetDuration v "backup-config-status-interval")
     (GetDuration v "backup-config-status-archive-interval"))), Returns);
  (OManager (SetupController BackupReconciler), Returns);
  (OManager (SetupController SecretReconciler), Returns);
  (OManager (SetupController ConfigMapReconciler), Returns);
  (OManager NewKubeClient, Exits);
  (OKubeNamespace, Exits);
  (OManager (SetupPKI (KubeNamespace v) Operator.pki_names), Exits);
  (OManager SetupWebhook, Exits)
].
Definition serve_steps (v : settings) : list (op * severity) := [
  (OManager (AddHealthzCheck "healthz"), Returns);
  (OManager (AddReadyzCheck "readyz"), Returns);
  (OManager (Add (OperatorPlugin (GetString v "cnpg-i-bind-address")
     (GetString v "cnpg-i-socket-path") (GetString v "cnpg-i-cert-path")
     (GetString v "cnpg-i-cert-name") (GetString v "cnpg-i-cert-key")
     (GetString v "cnpg-i-client-cert-path") (GetString v "cnpg-i-client-cert-name"))), Returns);
  (OManager StartManager, Returns)
].
Definition operator_plan (v : settings) : list (op * severity) :=
  let '(cert, key) := cert_paths v in
  (if has_webhook_certs v then [(OManager (NewCertWatcher cert key), Exits)] else []) ++
  manager_steps v ++
  (if has_webhook_certs v then [(OManager (Add (CertWatcher cert key)), Returns)] else []) ++
  serve_steps v.

Definition sidecar_plan (v : settings) : list (op * severity) := [
  (OManager GetConfig, Exits);
  (OManager (NewManager false "" "" false (Some [GetString v "namespace"])
     [KSecret; KConfigMap; KBackupConfig; KCluster; KBackup]), Returns);
  (OManager (CreateCachingClient [KSecret; KBackupConfig; KCluster; KBackup]), Returns);
  (OManager (Add ZombieProcessReaper), Returns);
  (OManager (Add (InstancePlugin (GetString v "pod-name") (GetString v "pgdata")
     (Filepath.Join (GetString v "pgdata") "pg_wal") (GetString v "plugin-path"))), Returns);
  (OManager StartManager, Returns)
].

(** ** The starts follow their plans *)

Section plans.
Context (v : settings).

(** Every run of the program whose answers are those of the settings follows the plan. *)
Definition keeps (p : prog ended) (plan : list (op * severity)) : Prop :=
  wp p (λ t r, Forall (answered v) t → follows plan t r).

Lemma keeps_done : keeps (Ret (Return None)) [].
Proof. intros _. apply follows_done. Qed.

Lemma keeps_read o (f : ans o → prog ended) plan :
  (∀ a, reads_setting (Ev o a)) → (∀ a, answered v (Ev o a) → keeps (f a) plan) →
  keeps (call o ≫= f) plan.
Proof.
  intros Hr Hf. apply wp_call. intros a. apply wp_exec. intros t r He Ha. apply Forall_cons in Ha as [Ha Ht].
  apply follows_setting; [apply Hr|].
  specialize (Hf a Ha). unfold keeps in Hf. rewrite wp_exec in Hf. by apply Hf.
Qed.

Lemma keeps_step o sv (f : ans o → prog ended) plan :
  (∀ a, answered v (Ev o a) →
    match failure (Ev o a) with
    | None => keeps (f a) plan
    | Some e => f a = Ret (on_failure sv e)
    end) → keeps (call o ≫= f) ((o, sv) :: plan).
Proof.
  intros Hf. apply wp_call. intros a. apply wp_exec. intros t r He Ha.
  apply Forall_cons in Ha as [Ha Ht]. specialize (Hf a Ha).
  destruct (failure (Ev o a)) as [e|] eqn:Hfail.
  - rewrite Hf in He. destruct He as [-> ->]. by apply (follows_fails plan (Ev o a)).
  - apply (follows_step plan (Ev o a)); [done|]. unfold keeps in Hf. rewrite wp_exec in Hf.
    by apply Hf.
Qed.

Lemma keeps_or_return c k plan :
  keeps k plan → keeps (or_return c k) ((OManager c, Returns) :: plan).
Proof. intros Hk. apply keeps_step. intros [e|] _; simpl; [done|exact Hk]. Qed.

Lemma keeps_or_exit c k plan :
  keeps k plan → keeps (or_exit c k) ((OManager c, Exits) :: plan).
Proof. intros Hk. apply keeps_step. intros [e|] _; simpl; [done|exact Hk]. Qed.
End plans.

(** One step or setting after the other. *)
Ltac keep_read :=
  apply keeps_read; [done|]; let a := fresh "a" in let Hset := fresh "Hset" in
  intros a Hset; cbn [answered] in Hset; subst a; cbv beta zeta.
Ltac keep :=
  cbn [app];
  repeat match goal with
    | |- keeps _ (Ret (Return None)) _ => apply keeps_done
    | |- keeps _ (or_return _ _) _ => apply keeps_or_return
    | |- keeps _ (or_exit _ _) _ => apply keeps_or_exit
    | |- keeps _ (call _ ≫= _) _ => keep_read
    end.

Lemma keeps_serve v : keeps v Operator.serve (serve_steps v).
Proof. unfold Operator.serve, serve_steps. keep. Qed.

Lemma keeps_pki v k plan :
  keeps v k plan →
  keeps v (Operator.ensurePKI ≫= λ e, match e with Some _ => Ret (Exit 1) | None => k end)
    ((OKubeNamespace, Exits) :: (OManager (SetupPKI (KubeNamespace v) Operator.pki_names), Exits) :: plan).
Proof.
  intros Hk.
  change (keeps v (call OKubeNamespace ≫= λ ns,
    (match (ns : res string) with
     | Err e => Ret (Some e)
     | Ok ns => call (OManager (SetupPKI ns Operator.pki_names))
     end ≫= λ e, match e with Some _ => Ret (Exit 1) | None => k end))
    ((OKubeNamespace, Exits) :: (OManager (SetupPKI (KubeNamespace v) Operator.pki_names), Exits) :: plan)).
  apply keeps_step. intros [ns|e] Ha; simpl; [|done]. simpl in Ha. subst ns.
  by apply (keeps_or_exit v (SetupPKI (KubeNamespace v) Operator.pki_names)).
Qed.

Lemma keeps_webhook v watcher :
  keeps v (Operator.set_up_webhook watcher)
    ((OManager NewKubeClient, Exits) :: (OKubeNamespace, Exits) ::
     (OManager (SetupPKI (KubeNamespace v) Operator.pki_names), Exits) ::
     (OManager SetupWebhook, Exits) ::
     match watcher with
     | Some (cert, key) => [(OManager (Add (CertWatcher cert key)), Returns)]
     | None => []
     end ++ serve_steps v).
Proof.
  apply keeps_or_exit, keeps_pki, keeps_or_exit.
  destruct watcher as [[cert key]|]; [apply keeps_or_return|]; apply keeps_serve.
Qed.

(** Both intervals are positive. *)
Definition intervals_ok (v : settings) : Prop :=
  0 < GetDuration v "backup-config-status-interval" ∧
  0 < GetDuration v "backup-config-status-archive-interval".

Lemma keeps_manager v watcher :
  keeps v (Operator.run_manager (GetDuration v "backup-config-status-interval")
             (GetDuration v "backup-config-status-archive-interval") (GetBool v "enable-http2") watcher)
    (manager_steps v ++
     match watcher with
     | Some (cert, key) => [(OManager (Add (CertWatcher cert key)), Returns)]
     | None => []
     end ++ serve_steps v).
Proof.
  unfold Operator.run_manager, Operator.set_up_controllers, manager_steps. keep.
  apply keeps_webhook.
Qed.

Lemma keeps_operator v : intervals_ok v → keeps v Operator.Start (operator_plan v).
Proof.
  intros [Hs Ha]. unfold Operator.Start. keep_read.
  rewrite (proj2 (Z.leb_gt _ _)) by done. keep_read.
  rewrite (proj2 (Z.leb_gt _ _)) by done. keep.
  pose proof (λ watcher, keeps_manager v watcher) as Hm. cbv beta in Hm.
  unfold operator_plan, has_webhook_certs, cert_paths. destruct (negb _).
  - specialize (Hm (Some (cert_paths v))). unfold cert_paths in Hm. revert Hm.
    generalize (Filepath.Join (GetString v "webhook-cert-path") (GetString v "webhook-cert-name")),
      (Filepath.Join (GetString v "webhook-cert-path") (GetString v "webhook-cert-key")).
    intros cert key Hm. apply keeps_or_exit. exact Hm.
  - exact (Hm None).
Qed.

(** The operator starts all of its parts or none of its work.  A run of [Start] refuses an
    interval that is not positive before any call, so no ticker is made of one; otherwise it
    makes the calls of the plan, each once and in that order, with the settings of its process,
    and stops at the first that fails, returning its error or leaving with status 1.  So the
    manager is started only when the deletion controller exists before the reconcilers that feed
    it, every controller is registered and the certificates of the webhook are installed, and
    [Start] succeeds only when the manager ran and stopped without an error. *)
Theorem operator_start v t r :
  exec Operator.Start t r → Forall (answered v) t →
  (intervals_ok v → follows (operator_plan v) t r) ∧
  (¬ intervals_ok v → Forall reads_setting t ∧ ∃ e, r = Returned (Return (Some e))).
Proof.
  intros He Ht. split.
  - intros Hok. pose proof (keeps_operator v Hok) as Hk. unfold keeps in Hk.
    rewrite wp_exec in Hk. by apply Hk.
  - intros Hbad. unfold Operator.Start in He. apply exec_call in He as (s & t1 & -> & He).
    apply Forall_cons in Ht as [Hs Ht]. simpl in Hs. subst s.
    destruct (Z.leb_spec (GetDuration v "backup-config-status-interval") 0).
    { destruct He as [-> ->]. split; [by repeat constructor|eauto]. }
    apply exec_call in He as (a & t2 & -> & He). apply Forall_cons in Ht as [Ha Ht].
    simpl in Ha. subst a.
    destruct (Z.leb_spec (GetDuration v "backup-config-status-archive-interval") 0).
    { destruct He as [-> ->]. split; [by repeat constructor|eauto]. }
    by destruct Hbad.
Qed.

Lemma keeps_sidecar v : Getenv v "PG_MAJOR" ≠ "" → keeps v Sidecar.Start (sidecar_plan v).
Proof.
  intros Hpg. unfold Sidecar.Start, sidecar_plan. do 3 keep_read.
  apply String.eqb_neq in Hpg as ->. keep.
Qed.

(** The sidecar needs a mode and a PostgreSQL version, and starts all of its parts or none of
    its work.  With a mode that is not known the command returns an error before any call; without
    [PG_MAJOR] it panics before any call; otherwise it follows its plan: the reaper of processes
    and the server are added, on the caching client, before the manager runs. *)
Theorem sidecar_start v t r :
  exec Sidecar.command t r → Forall (answered v) t →
  (GetString v "mode" ∉ Sidecar.AllowedPluginModes →
     Forall reads_setting t ∧ ∃ e, r = Returned (Return (Some e))) ∧
  (GetString v "mode" ∈ Sidecar.AllowedPluginModes → Getenv v "PG_MAJOR" = "" →
     Forall reads_setting t ∧ ∃ why, r = Panicked why) ∧
  (GetString v "mode" ∈ Sidecar.AllowedPluginModes → Getenv v "PG_MAJOR" ≠ "" →
     follows (sidecar_plan v) t r).
Proof.
  unfold Sidecar.command. intros He Ht. apply exec_call in He as (m & t1 & -> & He).
  apply Forall_cons in Ht as [Hm Ht]. cbn [answered] in Hm. subst m.
  destruct (existsb _ _) eqn:Hmode.
  - assert (GetString v "mode" ∈ Sidecar.AllowedPluginModes) as Hin.
    { apply existsb_exists in Hmode as (m & Hin & ->%String.eqb_eq). by apply list_elem_of_In. }
    split; [done|]. split; intros _ Hpg.
    + unfold Sidecar.Start in He. do 3 (apply exec_call in He as (? & ? & -> & He)).
      do 2 apply Forall_cons in Ht as [_ Ht]. apply Forall_cons in Ht as [Hp Ht].
      cbn [answered] in Hp. subst. rewrite Hpg in He. destruct He as [-> ->].
      split; [by repeat constructor|eauto].
    + apply follows_setting; [done|]. pose proof (keeps_sidecar v Hpg) as Hk.
      unfold keeps in Hk. rewrite wp_exec in Hk. by apply Hk.
  - assert (GetString v "mode" ∉ Sidecar.AllowedPluginModes) as Hout.
    { intros Hin%list_elem_of_In. apply not_true_iff_false in Hmode. apply Hmode.
      apply existsb_exists. eexists. split; [exact Hin|]. by apply String.eqb_eq. }
    destruct He as [-> ->]. split; [intros _; split; [by repeat constructor|eauto]|done].
Qed.

(** What a plan that was followed to its end says: every step was done, and none failed. *)
Lemma follows_success plan t :
  follows plan t (Returned (Return None)) →
  Forall (λ e, failure e = None) t ∧
  filter_by (λ o, match o with OManager _ | OKubeNamespace => true | _ => false end) (ev_op <$> t) =
    filter_by (λ o, match o with OManager _ | OKubeNamespace => true | _ => false end) plan.*1.
Proof.
  remember (Returned (Return None)) as r eqn:Hr.
  induction 1 as [|plan e t r Hs _ IH|plan e sv t r Hf _ IH|plan e sv why Hf].
  - by split.
  - destruct (IH Hr) as [Hok Heq]. rewrite fmap_cons, filter_by_cons. destruct e as [[] a]; try done;
      (split; [by constructor|exact Heq]).
  - destruct (IH Hr) as [Hok Heq]. rewrite !fmap_cons, !filter_by_cons. cbn [fst].
    split; [by constructor|]. rewrite Heq. done.
  - by destruct sv.
Qed.

(** ** Which flags reach the operator *)

Import Flags.

Definition all_flags : list (string * value) := instance_flags ++ operator_flags ++ dump_config_flags.
Definition all_bindings : list (string * string) :=
  instance_bindings ++ operator_bindings ++ dump_config_bindings.

Definition has_value (v : settings) (key : string) (x : option value) : Prop :=
  match x with
  | Some (FlagString s) => GetString v key = s
  | Some (FlagBool b) => GetBool v key = b
  | Some (FlagDuration d) => GetDuration v key = d
  | None => True
  end.

(** viper's promise about [BindPFlag]: the key has the value of the flag, given or default. *)
Definition bound (v : settings) (given : string → option value) : Prop :=
  Forall (λ kn, has_value v kn.1 (flag_value all_flags given kn.2)) all_bindings.

(** The keys that the operator reads. *)
Definition operator_keys : list string := [
  "backup-config-status-interval"; "backup-config-status-archive-interval"; "enable-http2";
  "webhook-cert-path"; "webhook-cert-name"; "webhook-cert-key"; "health-probe-bind-address";
  "leader-elect"; "cnpg-i-bind-address"; "cnpg-i-socket-path"; "cnpg-i-cert-path";
  "cnpg-i-cert-name"; "cnpg-i-cert-key"; "cnpg-i-client-cert-path"; "cnpg-i-client-cert-name"].

Lemma own_bindings :
  forallb (λ key, String.eqb key "webhook-cert-name" || String.eqb key "webhook-cert-key" ||
                  existsb (λ kn, String.eqb kn.1 key && String.eqb kn.2 key) all_bindings)
    operator_keys = true.
Proof. reflexivity. Qed.

Lemma own_binding key :
  key ∈ operator_keys → key ≠ "webhook-cert-name" → key ≠ "webhook-cert-key" →
  (key, key) ∈ all_bindings.
Proof.
  intros Hk%list_elem_of_In Hn Hc. pose proof own_bindings as H. rewrite forallb_forall in H.
  specialize (H key Hk). apply String.eqb_neq in Hn, Hc. rewrite Hn, Hc in H. cbn [orb] in H.
  apply existsb_exists in H as ([k n] & Hin & Hkn). cbn [fst snd] in Hkn.
  apply andb_true_iff in Hkn as [->%String.eqb_eq ->%String.eqb_eq].
  by apply list_elem_of_In.
Qed.

(** The flags of the operator reach [Start], with two exceptions.  Every key it reads has the
    value of the flag of its name, but [webhook-cert-name] and [webhook-cert-key] are bound to the
    flag [webhook-cert-path]: whatever names are given for the certificate and its key, the
    operator watches the path joined to itself, twice. *)
Theorem operator_flags_reach v given :
  bound v given →
  (∀ key, key ∈ operator_keys → key ≠ "webhook-cert-name" → key ≠ "webhook-cert-key" →
    has_value v key (flag_value all_flags given key)) ∧
  (∀ dir, given "webhook-cert-path" = Some (FlagString dir) → dir ≠ "" →
    ∃ plan, operator_plan v =
      (OManager (NewCertWatcher (Filepath.Join dir dir) (Filepath.Join dir dir)), Exits) :: plan).
Proof.
  intros Hb. unfold bound in Hb. rewrite Forall_forall in Hb. split.
  - intros key Hk Hn Hc. exact (Hb (key, key) (own_binding key Hk Hn Hc)).
  - intros dir Hdir Hne.
    assert (∀ key, (key, "webhook-cert-path") ∈ all_bindings → GetString v key = dir) as Hkey.
    { intros key Hin. specialize (Hb _ Hin). unfold flag_value in Hb.
      cbn -[String.eqb] in Hb. by rewrite Hdir in Hb. }
    unfold operator_plan, cert_paths, has_webhook_certs.
    rewrite !Hkey by (apply list_elem_of_In; simpl; tauto).
    apply String.eqb_neq in Hne as ->. eexists. reflexivity.
Qed.

(** ** A process whose settings are its flags, where every call succeeds *)

Definition flag_of (given : string → option value) (key : string) : option value :=
  match find_first (λ kn, String.eqb kn.1 key) all_bindings with
  | Some kn => flag_value all_flags given kn.2
  | None => None
  end.
Definition process (given : string → option value) (env : string → string) : settings :=
  mkSettings
    (λ key, match find_first (λ kn, String.eqb kn.1 key) env_bindings with
            | Some kn => env kn.2
            | None => match flag_of given key with Some (FlagString s) => s | _ => "" end
            end)
    (λ key, match flag_of given key with Some (FlagBool b) => b | _ => false end)
    (λ key, match flag_of given key with Some (FlagDuration d) => d | _ => 0 end)
    env "operators".

Definition answers_with (v : settings) : handler () := λ o w,
  match o return ans o * () with
  | OViperString key => (GetString v key, w)
  | OViperBool key => (GetBool v key, w)
  | OViperDuration key => (GetDuration v key, w)
  | OGetenv key => (Getenv v key, w)
  | OKubeNamespace => (Ok (KubeNamespace v), w)
  | o' => (default_ans o', w)
  end.

Lemma run_answered {A} v (p : prog A) w :
  Forall (answered v) (snd (fst (run (answers_with v) p w))).
Proof.
  revert w. induction p as [a|why|o k IH]; intros w; [constructor..|]. cbn [run].
  specialize (IH (fst (answers_with v o w)) (snd (answers_with v o w))).
  destruct (answers_with v o w) as [a w'] eqn:Ha. cbn [fst snd] in IH.
  destruct (run (answers_with v) (k a) w') as [[r t] w'']. cbn [fst snd] in *.
  constructor; [|exact IH]. destruct o; cbn in Ha; injection Ha as <- <-; done.
Qed.

Definition with_certs : settings :=
  process (λ name, if String.eqb name "webhook-cert-path" then Some (FlagString "/certs") else None)
    (λ name, if String.eqb name "PG_MAJOR" then "17" else "/env").

Lemma with_certs_bound :
  bound with_certs
    (λ name, if String.eqb name "webhook-cert-path" then Some (FlagString "/certs") else None).
Proof. unfold bound. repeat (apply Forall_cons_2; [reflexivity|]). apply Forall_nil_2. Qed.

Lemma operator_flags_reach_witness :
  GetString with_certs "webhook-cert-path" = "/certs" ∧
  ∃ plan, operator_plan with_certs =
    (OManager (NewCertWatcher "/certs/certs" "/certs/certs"), Exits) :: plan.
Proof.
  split; [reflexivity|].
  destruct (operator_flags_reach with_certs _ with_certs_bound) as [_ H].
  exact (H "/certs" eq_refl ltac:(discriminate)).
Defined.

(** The process starts its operator, or its sidecar. *)
Definition operator_run := run (answers_with with_certs) Operator.Start ().
Definition sidecar_run := run (answers_with with_certs) Sidecar.command ().

Lemma operator_start_witness :
  fst (fst operator_run) = Returned (Return None) ∧
  follows (operator_plan with_certs) (snd (fst operator_run)) (Returned (Return None)).
Proof.
  split; [vm_compute; reflexivity|].
  apply (operator_start with_certs (snd (fst operator_run)) (Returned (Return None))).
  - pose proof (run_exec (answers_with with_certs) Operator.Start ()) as H. exact H.
  - apply run_answered.
  - split; reflexivity.
Defined.

Lemma sidecar_start_witness :
  fst (fst sidecar_run) = Returned (Return None) ∧
  follows (sidecar_plan with_certs) (snd (fst sidecar_run)) (Returned (Return None)).
Proof.
  split; [vm_compute; reflexivity|].
  apply (sidecar_start with_certs (snd (fst sidecar_run)) (Returned (Return None))).
  - pose proof (run_exec (answers_with with_certs) Sidecar.command ()) as H. exact H.
  - apply run_answered.
  - apply list_elem_of_In. vm_compute. tauto.
  - vm_compute. discriminate.
Defined.

(** The defaults start the operator with both plugins' socket path, which only the command
    [instance] has a flag for; the key the sidecar reads is bound to nothing. *)
Example default_settings :
  let v := process (λ _, None) (λ _, "") in
  intervals_ok v ∧ has_webhook_certs v = false ∧
  GetString v "cnpg-i-socket-path" = "/plugins/cnpg-extensions.yandex.cloud" ∧
  "plugin-path" ∉ (env_bindings ++ all_bindings).*1.
Proof.
  split_and!; [by split|reflexivity|reflexivity|].
  apply (bool_decide_eq_false_1 ("plugin-path" ∈ (env_bindings ++ all_bindings).*1)).
  vm_compute. reflexivity.
Qed.
