(* ===== verification/Cli.v ===== *)
(** The command line: [cmd/main.go], the commands of [internal/cmd] and [pkg/version].

    What a process does from its arguments to its exit status.  Finding the command and reading
    its flags is cobra's and a parameter; flags and settings are in [Start], which has the bodies
    of the commands [operator] and [instance]; [ConfigFile] has the body of [dump-config].  Its
    two lines of output, and what cobra prints itself, are left out. *)
From stdpp Require Import base list strings gmap.
From S2P Require Import Prelude GoStrings GoTime Json Api Effects Secrets Instance ConfigFile Start.
Local Open Scope string_scope.
Local Open Scope list_scope.
Local Open Scope go_scope.
Local Open Scope Z_scope.

(** ** [pkg/version] *)

(** The variables that the linker sets. *)
Class Build := { version : string; commitHash : string; buildDate : string }.

Section cli.
Context `{Build}.

Definition IsDevelopment : bool := String.eqb version "0.0.0-dev" || String.eqb version "".
Definition GetVersion : string := version.
Definition GetCommitHash : string := commitHash.
Definition GetBuildDate : string := buildDate.

(** What [NewVersionCmd] prints. *)
Definition NewVersionCmd_text : string :=
  "CNPG Plugin WAL-G" +:+ newline +:+
  "Version: " +:+ GetVersion +:+ newline +:+
  "GitCommit: " +:+ GetCommitHash +:+ newline +:+
  "BuildDate: " +:+ GetBuildDate +:+ newline.

(** ** The commands *)

Inductive subcommand := CmdInstance | CmdOperator | CmdDumpConfig | CmdVersion.

(** [RunE] of [NewDumpConfigCmd]. *)
Definition dump_config_command (get_int : string → Z) (args : list string) : prog ended :=
  match dump_config_args get_int args with
  | Some e => Ret (Return (Some e))
  | None =>
      e ← call (OManager GetConfig);
      match (e : option err) with
      | Some e => Ret (Return (Some (wrapf "failed to get Kubernetes config: " e)))
      | None =>
          e ← call (OManager NewKubeClient);
          match (e : option err) with
          | Some e => Ret (Return (Some (wrapf "failed to create Kubernetes client: " e)))
          | None => e ← runDumpConfig; Ret (Return e)
          end
      end
  end.

(** What cobra makes of the arguments: an error, its own output (help, completions), or a command
    with what is left of them. *)
Inductive parsed :=
| ParseError (e : err)
| OwnOutput
| Found (c : subcommand) (args : list string).

Context (find : list string → parsed) (get_int : string → Z) (canceled : err → bool).

Definition run_command (c : subcommand) (args : list string) : prog ended :=
  match c with
  | CmdInstance => Sidecar.command
  | CmdOperator => Operator.Start
  | CmdDumpConfig => dump_config_command get_int args
  | CmdVersion => Ret (Return None)
  end.

Definition execute (argv : list string) : prog ended :=
  match find argv with
  | ParseError e => Ret (Return (Some e))
  | OwnOutput => Ret (Return None)
  | Found c args => run_command c args
  end.

(** What is printed on the way: the text of [version], and [main] prints the error. *)
Definition printed (argv : list string) (r : ended) : string :=
  (match find argv with Found CmdVersion _ => NewVersionCmd_text | _ => "" end) +:+
  (match r with
   | Return (Some e) => if canceled e then "" else emsg e +:+ newline
   | _ => ""
   end).

(** The process: what it prints, and its exit status. *)
Definition process_of (argv : list string) : prog (string * Z) :=
  r ← execute argv;
  status ← main canceled (Ret r);
  Ret (printed argv r, status).

(** ** What a process does *)

Lemma exec_main r t x :
  exec (main canceled (Ret r)) t x →
  t = [] ∧ x = Returned (match r with
    | Exit status => status
    | Return (Some e) => if canceled e then 0 else 1
    | Return None => 0
    end).
Proof. intros [-> ->]. done. Qed.

(** A process is its command: the same calls, then what it prints and its exit status. *)
Lemma exec_process argv t x :
  exec (process_of argv) t x ↔
    (∃ r, exec (execute argv) t (Returned r) ∧
       x = Returned (printed argv r, match r with
         | Exit status => status
         | Return (Some e) => if canceled e then 0 else 1
         | Return None => 0
         end)) ∨
    (∃ why, exec (execute argv) t (Panicked why) ∧ x = Panicked why).
Proof.
  unfold process_of. rewrite exec_bind. split.
  - intros [(t1 & t2 & r & -> & H1 & H2)|(why & H1 & ->)]; [left|right; eauto].
    exists r. apply exec_bind in H2 as [(t3 & t4 & s & -> & H3 & H4)|(why & [_ [=]] & _)].
    apply exec_main in H3 as [-> [= ->]]. destruct H4 as [-> ->]. by rewrite !app_nil_r.
  - intros [(r & H1 & ->)|(why & H1 & ->)]; [left|right; eauto].
    exists t, [], r. rewrite app_nil_r. split_and!; [done..|].
    unfold main. simpl. done.
Qed.

(** The operations a dump may begin with that change nothing. *)
Definition changes_nothing (o : op) : bool :=
  match o with
  | OManager GetConfig | OManager NewKubeClient | OGet _ _ | OViperString _ | OViperInt _ => true
  | _ => false
  end.

(** The end of a process.  The exit status is 1 exactly when the command returned an error that is
    not a cancelled context, whose text is then printed, or left the process; [version] prints
    its text and does nothing else; an unknown command does nothing and fails; [dump-config]
    without exactly two arguments and a version of at least 10 does nothing. *)
Theorem process_end argv t out status :
  exec (process_of argv) t (Returned (out, status)) →
  (∃ r, exec (execute argv) t (Returned r) ∧
    match r with
    | Return None => status = 0
    | Return (Some e) =>
        if canceled e then status = 0 else status = 1 ∧ ∃ text, out = text +:+ emsg e +:+ newline
    | Exit s => status = s
    end) ∧
  match find argv with
  | ParseError e => t = [] ∧ (canceled e = false → status = 1 ∧ out = emsg e +:+ newline)
  | OwnOutput => t = [] ∧ status = 0 ∧ out = ""
  | Found CmdVersion _ => t = [] ∧ status = 0 ∧ out = NewVersionCmd_text
  | Found CmdDumpConfig args => (∃ e, dump_config_args get_int args = Some e) → t = []
  | Found _ _ => True
  end.
Proof.
  intros [(r & He & [= -> ->])|(? & _ & [=])]%exec_process. split.
  - exists r. split; [done|]. unfold printed. destruct r as [[e|]|s]; [|done..].
    destruct (canceled e); [done|]. split; [done|]. by eexists.
  - unfold execute in He. unfold printed. destruct (find argv) as [e| |[] args]; simpl in *; try done.
    + destruct He as [-> [= ->]]. split; [done|]. by intros ->.
    + by destruct He as [-> [= ->]].
    + intros [e Ha]. unfold dump_config_command in He. rewrite Ha in He. by destruct He.
    + destruct He as [-> [= ->]]. split_and!; [done..|]. by rewrite append_nil_r.
Qed.

(** [dump-config] changes nothing before it has read the BackupConfig it was asked for: a run
    either only reads and fails, or found the arguments in order, a cluster to talk to, and the
    BackupConfig. *)
Theorem dump_config_run args t r :
  exec (dump_config_command get_int args) t r →
  (forallb (λ e, changes_nothing (ev_op e)) t = true ∧ ∃ e, r = Returned (Return (Some e))) ∨
  ∃ param path b t',
    let '(namespace, name) := dump_target param in
    dump_config_args get_int args = None ∧ param ≠ "" ∧
    t = Ev (OManager GetConfig) None :: Ev (OManager NewKubeClient) None ::
        Ev (OViperString "backup-config") param :: Ev (OViperString "output") path ::
        Ev (OGet KBackupConfig (mkKey namespace name)) (Ok b) :: t'.
Proof.
  unfold dump_config_command. destruct (dump_config_args get_int args) as [e|] eqn:Ha.
  { intros [-> ->]. left. eauto. }
  intros (e1 & t1 & -> & He)%exec_call. destruct e1 as [e1|]; [destruct He as [-> ->]; left; eauto|].
  apply exec_call in He as (e2 & t2 & -> & He).
  destruct e2 as [e2|]; [destruct He as [-> ->]; left; eauto|].
  apply exec_bind in He as [(u1 & u2 & r' & -> & Hr & [-> ->])|(why & Hr & ->)];
    rewrite ?app_nil_r; unfold runDumpConfig in Hr;
    apply exec_call in Hr as (param & t3 & -> & Hr);
    (destruct (String.eqb_spec param "") as [|Hp]; [destruct Hr as [-> [= ->]]; left; split; first [reflexivity|eauto]|]);
    destruct (dump_target param) as [ns name] eqn:Ht;
    apply exec_call in Hr as (path & t4 & -> & Hr);
    apply exec_call in Hr as (b & t5 & -> & Hr);
    (destruct b as [b|e]; [|destruct Hr as [-> [= ->]]; left; split; first [reflexivity|eauto]]);
    right; exists param, path, b, t5; by rewrite Ht.
Qed.
End cli.

(** ** A build, and what it does *)

Definition some_build : Build := {| version := "1.4.0"; commitHash := "0123abc"; buildDate := "2025-06-01" |}.
(** The command is the first argument. *)
Definition first_argument (argv : list string) : parsed :=
  match argv with
  | "version" :: args => Found CmdVersion args
  | "dump-config" :: args => Found CmdDumpConfig args
  | "operator" :: args => Found CmdOperator args
  | "instance" :: args => Found CmdInstance args
  | name :: _ => ParseError (errorf ("unknown command " +:+ name))
  | [] => OwnOutput
  end.
Definition run_process (argv : list string) :=
  run (λ o (w : unit), (default_ans o, w))
    (@process_of some_build first_argument (λ _, 17) (λ _, false) argv) ().

Lemma process_end_witness :
  fst (fst (run_process ["backup"])) = Returned ("unknown command backup" +:+ newline, 1) ∧
  snd (fst (run_process ["backup"])) = [].
Proof.
  split; [vm_compute; reflexivity|].
  apply (@process_end some_build first_argument (λ _, 17) (λ _, false) ["backup"]
    (snd (fst (run_process ["backup"]))) ("unknown command backup" +:+ newline) 1).
  pose proof (run_exec (λ o (w : unit), (default_ans o, w))
    (@process_of some_build first_argument (λ _, 17) (λ _, false) ["backup"]) ()) as H. exact H.
Defined.

Example version_output :
  fst (fst (run_process ["version"])) =
    Returned ("CNPG Plugin WAL-G" +:+ newline +:+ "Version: 1.4.0" +:+ newline +:+
              "GitCommit: 0123abc" +:+ newline +:+ "BuildDate: 2025-06-01" +:+ newline, 0).
Proof. vm_compute. reflexivity. Qed.
