(* ===== verification/Threads.v ===== *)
(** Threads: the handlers of [Effects] interleaved over one shared world.

    A thread is what is left of a handler together with the calls it knows of: those that
    others made before it was started, and its own.  A step lets one thread make its next
    call, whose answer and effect are given by the world; starts a thread; removes one, because
    it has returned or panicked or was killed with its process; or lets something else change
    the world.

    [Guarantee] is the interface by which such a system is proved correct: what the threads
    promise about each call they make ([J], given their past), what they may rely on having
    been told ([K], which others must not destroy), and the invariant of the world ([I]) that
    the promises keep. *)
From stdpp Require Import base list gmap relations.
From S2P Require Import Prelude Api Effects.

(** ** Promises about the calls of a program *)

(** Every call that [p] makes satisfies [J], given the calls of [t] and its own before. *)
Fixpoint justified {A} (J : list event → op → Prop) (t : list event) (p : prog A) : Prop :=
  match p with
  | Ret _ | Panic _ => True
  | Vis o k => J t o ∧ ∀ a, justified J (t ++ [Ev o a]) (k a)
  end.

Section justified.
Variable J : list event → op → Prop.

Lemma justified_bind {A B} (p : prog A) (f : A → prog B) t :
  justified J t p → (∀ t' a, exec p t' (Returned a) → justified J (t ++ t') (f a)) →
  justified J t (p ≫= f).
Proof.
  revert t. induction p as [a|w|o k IH]; intros t; simpl.
  - intros _ Hf. rewrite <-(app_nil_r t). by apply Hf.
  - done.
  - intros [Ho Hk] Hf. split; [done|]. intros a. apply IH; [apply Hk|].
    intros t' b Hb. rewrite <-app_assoc. apply Hf. eauto.
Qed.

Lemma justified_call {B} o (f : ans o → prog B) t :
  J t o → (∀ a, justified J (t ++ [Ev o a]) (f a)) → justified J t (call o ≫= f).
Proof. intros Ho Hf. split; [done|exact Hf]. Qed.

Lemma justified_call_only o t : J t o → justified J t (call o).
Proof. done. Qed.

Lemma justified_try {A B} (p : prog (res A)) (f : A → prog (res B)) t :
  justified J t p → (∀ t' a, exec p t' (Returned (Ok a)) → justified J (t ++ t') (f a)) →
  justified J t (try_bind p f).
Proof.
  intros Hp Hf. apply justified_bind; [done|]. intros t' [a|e] Hx; [by apply Hf|done].
Qed.

Lemma justified_for_each {A} (f : A → prog ()) l t :
  (∀ x t', x ∈ l → justified J t' (f x)) → justified J t (for_each f l).
Proof.
  revert t. induction l as [|x l IH]; intros t Hf; [done|].
  apply justified_bind; [apply Hf; by left|]. intros t' [] _. apply IH.
  intros y u Hy. apply Hf. by right.
Qed.

(** Promises that hold whatever came before, call by call. *)
Lemma justified_emits {A} (P : event → Prop) (p : prog A) t :
  (∀ t o a, P (Ev o a) → J t o) → emits P p → justified J t p.
Proof.
  intros HP. revert t. induction p as [a|w|o k IH]; intros t He; [done|done|].
  assert (∀ a, P (Ev o a) ∧ emits P (k a)) as Hk.
  { intros a. split.
    - destruct (run (λ o' w, (default_ans o', w)) (k a) tt) as [[r t'] w] eqn:Hr.
      pose proof (run_exec (λ o' w, (default_ans o', w)) (k a) tt) as Hx. rewrite Hr in Hx.
      pose proof (exec_emits P (Vis o k) (Ev o a :: t') r He) as Hf.
      eapply Forall_cons_1, Hf. by exists a, t'.
    - apply wp_exec. intros t' r Hx.
      pose proof (exec_emits P (Vis o k) (Ev o a :: t') r He) as Hf.
      eapply Forall_cons_1, Hf. by exists a, t'. }
  split; [apply (HP t o (default_ans o)), Hk|]. intros a. apply IH, Hk.
Qed.

(** A first part that needs no promise. *)
Lemma justified_quiet {A B} (P : event → Prop) (p : prog A) (f : A → prog B) t :
  (∀ t o a, P (Ev o a) → J t o) → emits P p →
  (∀ t' a, exec p t' (Returned a) → justified J (t ++ t') (f a)) → justified J t (p ≫= f).
Proof. intros HP Hp. apply justified_bind. by eapply justified_emits. Qed.
End justified.

(** ** Pools of threads *)

Record thread := mkThread { th_past : list event; th_rest : prog () }.

Record config (W : Type) := mkConfig { shared : W; pool : gmap nat thread }.
Arguments mkConfig {W} shared pool.
Arguments shared {W} c.
Arguments pool {W} c.

Section pool.
Context {W : Type}.
(** The programs that may be started, with the calls of others that they are started on. *)
Variable handlers : W → list event → prog () → Prop.
Variable calls : W → ∀ o, ans o → W → Prop.
Variable others : W → W → Prop.

Inductive step (s : config W) : config W → Prop :=
| step_start i t p :
    handlers (shared s) t p → pool s !! i = None →
    step s (mkConfig (shared s) (<[i := mkThread t p]> (pool s)))
| step_call i t o k a w :
    pool s !! i = Some (mkThread t (Vis o k)) → calls (shared s) o a w →
    step s (mkConfig w (<[i := mkThread (t ++ [Ev o a]) (k a)]> (pool s)))
| step_leave i : step s (mkConfig (shared s) (delete i (pool s)))
| step_others w : others (shared s) w → step s (mkConfig w (pool s)).

(** A whole run of one handler, undisturbed, is a run of the system. *)
Fixpoint called (w : W) (t : list event) (w' : W) : Prop :=
  match t with
  | [] => w' = w
  | Ev o a :: t => ∃ w1, calls w o a w1 ∧ called w1 t w'
  end.

Lemma handler_runs t0 p t r w w' ths i :
  handlers w t0 p → exec p t r → called w t w' → ths !! i = None →
  rtc step (mkConfig w ths) (mkConfig w' ths).
Proof.
  intros Hp Hx Hc Hi. eapply rtc_l; [by apply (step_start (mkConfig w ths) i t0 p)|]. simpl.
  assert (∀ u, rtc step (mkConfig w (<[i := mkThread u p]> ths)) (mkConfig w' ths)) as H; [|done].
  clear Hp. revert t w Hx Hc. induction p as [a|m|o k IH]; intros t w Hx Hc u.
  1-2: destruct Hx as [-> _]; simpl in Hc; subst w';
    (eapply rtc_l; [apply (step_leave (mkConfig w _) i)|]); simpl;
    rewrite delete_insert_eq, delete_id by done; apply rtc_refl.
  destruct Hx as (a & t' & -> & Hx). destruct Hc as (w1 & Hcall & Hrest).
  eapply rtc_l; [by eapply (step_call (mkConfig w _) i u o k a w1); [apply lookup_insert_eq|]|].
  simpl. rewrite insert_insert_eq. by eapply IH.
Qed.

(** In particular when the world is run by a function. *)
Lemma run_called (h : handler W) (p : prog ()) w :
  (∀ w o, calls w o (fst (h o w)) (snd (h o w))) →
  called w (snd (fst (run h p w))) (snd (run h p w)).
Proof.
  intros Hh. revert w. induction p as [a|m|o k IH]; intros w; [done|done|]. simpl.
  specialize (Hh w o). destruct (h o w) as [a w1]. specialize (IH a w1).
  destruct (run h (k a) w1) as [[r t] w2]. by exists w1.
Qed.

Lemma handler_served (h : handler W) t0 p w ths i :
  (∀ w o, calls w o (fst (h o w)) (snd (h o w))) → handlers w t0 p → ths !! i = None →
  rtc step (mkConfig w ths) (mkConfig (snd (run h p w)) ths).
Proof.
  intros Hh Hp Hi. pose proof (run_exec h p w) as Hx. pose proof (run_called h p w Hh) as Hc.
  destruct (run h p w) as [[r t] w']. by eapply handler_runs.
Qed.

Class Guarantee (I : W → Prop) (K : W → event → Prop) (J : list event → op → Prop) := {
  g_handlers w t p : I w → handlers w t p → Forall (K w) t ∧ justified J t p;
  g_calls w t o a w' : I w → Forall (K w) t → J t o → calls w o a w' →
    I w' ∧ K w' (Ev o a) ∧ ∀ e, K w e → K w' e;
  g_others w w' : I w → others w w' → I w' ∧ ∀ e, K w e → K w' e;
}.

Section sound.
Context (I : W → Prop) (K : W → event → Prop) (J : list event → op → Prop).
Context `{!Guarantee I K J}.

(** The world's invariant, and what every thread knows and still promises. *)
Definition pool_inv (s : config W) : Prop :=
  I (shared s) ∧ ∀ i th, pool s !! i = Some th →
    Forall (K (shared s)) (th_past th) ∧ justified J (th_past th) (th_rest th).

Lemma known_mono w w' t : (∀ e, K w e → K w' e) → Forall (K w) t → Forall (K w') t.
Proof. intros Hk Ht. eapply Forall_impl; [exact Ht|exact Hk]. Qed.

Lemma threads_step s s' : step s s' → pool_inv s → pool_inv s'.
Proof.
  intros Hs [HI HP]. destruct Hs as [i p Hp Hi|i t o k a w Hi Hc|i|w Ho]; simpl.
  - split; [done|]. simpl. intros j th. rewrite lookup_insert_Some.
    intros [[_ <-]|[_ Hj]]; [|by eapply HP]. by apply g_handlers.
  - destruct (HP _ _ Hi) as [Ht [HJ Hk]]. simpl in Ht, HJ, Hk.
    destruct (g_calls _ _ _ _ _ HI Ht HJ Hc) as (HI' & He & Hmono). split; [done|]. simpl.
    intros j th. rewrite lookup_insert_Some. intros [[_ <-]|[_ Hj]]; simpl.
    + split; [|apply Hk]. apply Forall_app. split; [by eapply known_mono|by constructor].
    + destruct (HP _ _ Hj). split; [by eapply known_mono|done].
  - split; [done|]. simpl. intros j th. rewrite lookup_delete_Some. intros [_ Hj]. by apply (HP j).
  - destruct (g_others _ _ HI Ho) as [HI' Hmono]. split; [done|]. simpl.
    intros j th Hj. destruct (HP _ _ Hj). split; [by eapply known_mono|done].
Qed.

(** The invariant holds in every configuration reached with no thread at the start. *)
Lemma threads_reach w s : rtc step (mkConfig w ∅) s → I w → I (shared s).
Proof.
  intros Hr HI. assert (pool_inv (mkConfig w ∅)) as H0 by (split; [done|intros i th; simpl; by rewrite lookup_empty]).
  enough (pool_inv s) as [? _]; [done|]. induction Hr; eauto using threads_step.
Qed.
End sound.
End pool.
