(* ===== verification/Requests.v ===== *)
(** [pkg/resourcecachingclient/client.go]: the requests a read makes, and whether they are
    allowed.

    [Cache] has the map of watched objects and all interleavings; here is one call of [Get] or
    [GetSource] from beginning to end: the scheme, the mapping, the REST client, the query and
    the watch, each of which can fail.  [call_is_steps] says that such a call is a run of
    [Cache]; [requests_authorized] puts it together with the role of [Roles] and the reads of
    [Secrets].  The scheme, the REST mapper, client-go and the API server are the record [api];
    field selectors are the class [Machinery]. *)
From stdpp Require Import base list gmap relations strings.
From S2P Require Import Prelude GoStrings Cache Api Effects Secrets Webhook BackupCtl Protection Roles.
Local Open Scope string_scope.
Local Open Scope list_scope.

Record GVK := mkGVK { gvk_Group : string; gvk_Version : string; gvk_Kind : string }.
Record RESTMapping := mkMapping { mp_GroupVersionKind : GVK; mp_Resource : string }.

(** A request as it is built before [Do] or [Watch]. *)
Record Request := mkRequest {
  rq_GVK : GVK;
  rq_Namespace : string;
  rq_Resource : string;
  rq_Name : option string;
  rq_FieldSelector : string;
  rq_Watch : bool;
}.

(** The text of a [GroupVersionKind], and of the selector that compares one field; the latter is
    read back by the server that decides which object a watch is for, if it is a name that can
    stand in a path. *)
Class Machinery := {
  gvk_String : GVK → string;
  OneTermEqualSelector : string → string → string;
  exact_match : string → string → option string;
  path_segment : string → bool;
  exact_match_one_term k v :
    path_segment v = true → exact_match (OneTermEqualSelector k v) k = Some v;
}.

Definition ObjectNameField : string := "metadata.name".

Section client.
Context `{Machinery} {O W : Type}.

(** What the rest of the world answers during one call.  [go_type] is the Go type of an object,
    [kind_type] the one of the variable a caller reads into. *)
Record api := mkApi {
  GroupVersionKindFor : kind → res GVK;
  RESTMappingFor : GVK → res RESTMapping;
  HTTPClientFor : option err;
  RESTClientForGVK : GVK → option err;
  Do : Request → res O;
  Watch : Request → res W;
  UnderlyingGet : kind → ObjectKey → res O;
  go_type : O → string;
  kind_type : kind → string;
}.

(** What a call sends: its own requests, or the one of the underlying client. *)
Inductive sent := Rest (r : Request) | Underlying (k : kind) (key : ObjectKey).

(** ** The requests *)

Definition restClientForMapping (a : api) (mapping : RESTMapping) : option err :=
  match HTTPClientFor a with
  | Some e => Some (wrapf "while creating HTTPClientFor typed watch: " e)
  | None =>
      wrap_opt ("while creating RESTClientForGVK " +:+ gvk_String (mp_GroupVersionKind mapping) +:+ ": ")
        (RESTClientForGVK a (mp_GroupVersionKind mapping))
  end.

Definition get_request (mapping : RESTMapping) (key : ObjectKey) : Request :=
  mkRequest (mp_GroupVersionKind mapping) (key_ns key) (mp_Resource mapping) (Some (key_name key))
    "" false.
Definition watch_request (mapping : RESTMapping) (key : ObjectKey) : Request :=
  mkRequest (mp_GroupVersionKind mapping) (key_ns key) (mp_Resource mapping) None
    (OneTermEqualSelector ObjectNameField (key_name key)) true.

Definition typedGet (a : api) (mapping : RESTMapping) (key : ObjectKey) : list sent * res O :=
  match restClientForMapping a mapping with
  | Some e => ([], Err e)
  | None => let r := get_request mapping key in ([Rest r], Do a r)
  end.
Definition typedWatch (a : api) (mapping : RESTMapping) (key : ObjectKey) : list sent * res W :=
  match restClientForMapping a mapping with
  | Some e => ([], Err e)
  | None => let r := watch_request mapping key in ([Rest r], Watch a r)
  end.

(** ** A call *)

(** What is sent, the map afterwards, the watch a goroutine was started for, and what the
    caller gets. *)
Record called := mkCalled {
  c_sent : list sent;
  c_objects : gmap string (@watchedObject O);
  c_started : option W;
  c_out : res O;
}.
Implicit Types (m : gmap string (@watchedObject O)).

(** The object a caller gets from memory, into a variable of the type of its kind. *)
Definition copy_out (a : api) (k : kind) (o : O) : res O :=
  if String.eqb (go_type a o) (kind_type a k) then Ok o
  else Err (errorf ("cache had type " +:+ go_type a o +:+ ", but " +:+ kind_type a k +:+
                    " was asked for")).

Definition getAndCreateWatchIfNeeded (a : api) m (k : kind) (gvk : GVK) (key : ObjectKey)
    : called :=
  let objKey := object_key (gvk_String gvk) key in
  match m !! objKey with
  | Some ca =>
      match Cache.cached ca with
      | None => mkCalled [] m None (Err (mkErr ENotFound ("not found: " +:+ key_name key)))
      | Some o => mkCalled [] m None (copy_out a k o)
      end
  | None =>
      match RESTMappingFor a gvk with
      | Err e => mkCalled [] m None (Err e)
      | Ok mapping =>
          match typedGet a mapping key with
          | (s1, Err e) => mkCalled s1 m None (Err e)
          | (s1, Ok o) =>
              match typedWatch a mapping key with
              | (s2, Err e) => mkCalled (s1 ++ s2) m None (Err e)
              | (s2, Ok w) => mkCalled (s1 ++ s2) (setToCache m objKey o) (Some w) (Ok o)
              end
          end
      end
  end.

Definition Get (a : api) (watchedGVKs : gset string) m (k : kind) (key : ObjectKey) : called :=
  match GroupVersionKindFor a k with
  | Err e => mkCalled [] m None (Err e)
  | Ok gvk =>
      if decide (gvk_String gvk ∈ watchedGVKs) then getAndCreateWatchIfNeeded a m k gvk key
      else mkCalled [Underlying k key] m None (UnderlyingGet a k key)
  end.

(** [GetSource]: the call, and the key of the source, if there is one. *)
Definition GetSource (a : api) (watchedGVKs : gset string) m (k : kind) (key : ObjectKey)
    : called * res string :=
  match GroupVersionKindFor a k with
  | Err e => (mkCalled [] m None (Err e), Err e)
  | Ok gvk =>
      match GetSource_refused watchedGVKs (gvk_String gvk) with
      | Some e => (mkCalled [] m None (Err e), Err e)
      | None =>
          let c := getAndCreateWatchIfNeeded a m k gvk key in
          (c, match c_out c with
              | Err e => Err e
              | Ok _ => Ok (object_key (gvk_String gvk) key)
              end)
      end
  end.

(** ** What a call does *)

(** The map changes exactly when a goroutine is started for a watch, and then by the object the
    caller got; what is sent are a query and a watch of the very object that was asked for. *)
Lemma live_call a m k gvk key :
  m !! object_key (gvk_String gvk) key = None →
  let c := getAndCreateWatchIfNeeded a m k gvk key in
  (∀ mapping, RESTMappingFor a gvk = Ok mapping →
     c_sent c `prefix_of` [Rest (get_request mapping key); Rest (watch_request mapping key)]) ∧
  (∀ e, RESTMappingFor a gvk = Err e → c_sent c = []) ∧
  ((∃ o w, c_out c = Ok o ∧ c_started c = Some w ∧
      c_objects c = setToCache m (object_key (gvk_String gvk) key) o ∧
      ∃ mapping, RESTMappingFor a gvk = Ok mapping ∧
        Do a (get_request mapping key) = Ok o ∧ Watch a (watch_request mapping key) = Ok w) ∨
   (∃ e, c_out c = Err e) ∧ c_started c = None ∧ c_objects c = m).
Proof.
  intros Hm. cbv zeta. unfold getAndCreateWatchIfNeeded, typedGet, typedWatch. rewrite Hm.
  destruct (RESTMappingFor a gvk) as [mapping|e]; [|by split_and!; eauto].
  destruct (restClientForMapping a mapping).
  { split_and!; [intros; apply prefix_nil|done|right; eauto]. }
  destruct (Do a (get_request mapping key)) as [o|e] eqn:Hd.
  - destruct (Watch a (watch_request mapping key)) as [w|e] eqn:Hw; simpl.
    + split_and!; [by intros ? [= <-]|done|left; eauto 10].
    + split_and!; [by intros ? [= <-]|done|right; eauto].
  - simpl. split_and!; [intros ? [= <-]; by eexists [_]|done|right; eauto].
Qed.

(** ** A call as steps of [Cache] *)

Abbreviation key_of_call gvk key := (object_key (gvk_String gvk) key).

(** The server of the state answers the query with the object that is there. *)
Definition answers_as (a : api) (s : @Cache.state O) (gvk : GVK) (key : ObjectKey) : Prop :=
  ∀ mapping o, RESTMappingFor a gvk = Ok mapping → Do a (get_request mapping key) = Ok o →
    Cache.server s !! key_of_call gvk key = Some o.

Lemma miss_steps (s : @Cache.state O) key o :
  Cache.reachable s → Cache.watchedObjects s !! key = None → Cache.server s !! key = Some o →
  rtc Cache.step s
    (Cache.mkState (setToCache (Cache.watchedObjects s) key o)
       (<[S (Cache.next s) := mkWatcher key [Added o] true true Ranging]> (Cache.watchers s))
       (Cache.gets s) (S (S (Cache.next s))) (Cache.server s) (Cache.tainted s)
       (Cache.running s) (Cache.calls s)).
Proof.
  intros Hs%client_reachable_inv Hm Ho. destruct s as [m ws gs n sv ta rs cs]; simpl in *.
  assert (gs !! n = None) as Hn.
  { destruct (gs !! n) eqn:Hg; [|done]. apply (inv_fresh_get _ Hs) in Hg. simpl in Hg. lia. }
  eapply rtc_l; [left; apply ext_get; exact Hm|]. simpl.
  eapply rtc_l; [right; eapply int_live; [apply lookup_insert_eq|exact Ho]|].
  unfold set_gets; simpl. rewrite insert_insert_eq.
  eapply rtc_l; [right; eapply int_watch, lookup_insert_eq|].
  unfold open_watch; simpl. rewrite Ho, insert_insert_eq.
  eapply rtc_l; [right; eapply int_store, lookup_insert_eq|].
  unfold store, set_gets, set_watchers, set_objects; simpl.
  rewrite delete_insert_id by done.
  rewrite alter_insert_eq. simpl. apply rtc_refl.
Qed.

(** C24: a call is a run of the cache.  In every reachable state of [Cache], whatever fails,
    what one call of [getAndCreateWatchIfNeeded] does to the map of watched objects is what some
    steps of that state do to it: none for an answer from memory or a failure, and for a success
    the query, the watch and the store, after which the goroutine runs with the object still to
    be delivered.  So everything [Cache] shows of all interleavings holds with such calls in
    them. *)
Theorem call_is_steps (a : api) (s : @Cache.state O) k gvk key :
  Cache.reachable s → answers_as a s gvk key →
  let c := getAndCreateWatchIfNeeded a (Cache.watchedObjects s) k gvk key in
  ∃ s', rtc Cache.step s s' ∧ Cache.watchedObjects s' = c_objects c ∧
    Cache.server s' = Cache.server s ∧ Cache.gets s' = Cache.gets s ∧
    match c_started c with
    | None => s' = s
    | Some _ => ∃ o i, c_out c = Ok o ∧ Cache.server s !! key_of_call gvk key = Some o ∧
        Cache.watchers s' = <[i := mkWatcher (key_of_call gvk key) [Added o] true true Ranging]>
                              (Cache.watchers s)
    end.
Proof.
  intros Hs Ha. cbv zeta.
  destruct (Cache.watchedObjects s !! key_of_call gvk key) as [ca|] eqn:Hm.
  { exists s. unfold getAndCreateWatchIfNeeded. rewrite Hm.
    destruct (cached ca); by split_and!. }
  destruct (live_call a _ k gvk key Hm) as (_ & _ & [(o & w & Ho & Hw & Hobj & mapping & Hmap & Hd & _)
    |(_ & Hw & Hobj)]); rewrite Hw, Hobj; [|by exists s].
  pose proof (Ha _ _ Hmap Hd) as Hsv.
  eexists. split; [exact (miss_steps s _ o Hs Hm Hsv)|]. simpl. split_and!; [done..|].
  exists o, (S (Cache.next s)). by split_and!.
Qed.

(** ** Who may make the requests *)

(** What RBAC compares of a request.  The name of a watch is the one its field selector fixes. *)
Record attributes := mkAttributes {
  at_verb : string;
  at_group : string;
  at_resource : string;
  at_namespace : string;
  at_name : option string;
}.

Definition request_attributes (r : Request) : attributes :=
  mkAttributes
    (if rq_Watch r then "watch" else match rq_Name r with Some _ => "get" | None => "list" end)
    (gvk_Group (rq_GVK r)) (rq_Resource r) (rq_Namespace r)
    match rq_Name r with
    | Some n => Some n
    | None => exact_match (rq_FieldSelector r) ObjectNameField
    end.

(** The resources of the kinds that the role is about. *)
Definition resource_of (k : kind) : option (string * string) :=
  match k with
  | KSecret => Some ("", "secrets")
  | KConfigMap => Some ("", "configmaps")
  | KBackupConfig => Some (Group, "backupconfigs")
  | _ => None
  end.

Definition sent_attributes (x : sent) : option attributes :=
  match x with
  | Rest r => Some (request_attributes r)
  | Underlying k key =>
      match resource_of k with
      | Some (group, resource) =>
          Some (mkAttributes "get" group resource (key_ns key) (Some (key_name key)))
      | None => None
      end
  end.

(** The role, bound in its namespace, allows it. *)
Definition allowed (role : Role) (x : sent) : Prop :=
  ∃ at' name, sent_attributes x = Some at' ∧ at_namespace at' = Namespace (role_meta role) ∧
    at_name at' = Some name ∧
    grants role (at_group at') (at_resource at') (at_verb at') name.

(** The REST mapper knows the resources of these kinds. *)
Definition kinds_mapped (a : api) : Prop :=
  ∀ k group resource gvk mapping,
    resource_of k = Some (group, resource) → GroupVersionKindFor a k = Ok gvk →
    RESTMappingFor a gvk = Ok mapping →
    gvk_Group (mp_GroupVersionKind mapping) = group ∧ mp_Resource mapping = resource.

Lemma query_allowed role mapping key :
  key_ns key = Namespace (role_meta role) →
  grants role (gvk_Group (mp_GroupVersionKind mapping)) (mp_Resource mapping) "get" (key_name key) →
  allowed role (Rest (get_request mapping key)).
Proof. intros Hns Hg. eexists _, _. by split_and!. Qed.

Lemma watch_allowed role mapping key :
  key_ns key = Namespace (role_meta role) → path_segment (key_name key) = true →
  grants role (gvk_Group (mp_GroupVersionKind mapping)) (mp_Resource mapping) "watch" (key_name key) →
  allowed role (Rest (watch_request mapping key)).
Proof.
  intros Hns Hp Hg. eexists _, _. split_and!; [done|done| |exact Hg].
  simpl. by apply exact_match_one_term.
Qed.

(** Whoever may read and watch an object may make every request that a read of it makes. *)
Lemma call_allowed (a : api) role watched m k key group resource :
  kinds_mapped a → resource_of k = Some (group, resource) →
  key_ns key = Namespace (role_meta role) → path_segment (key_name key) = true →
  grants_reading role group resource (key_name key) →
  Forall (allowed role) (c_sent (Get a watched m k key)).
Proof.
  intros Hmap Hk Hns Hp Hg. unfold Get.
  destruct (GroupVersionKindFor a k) as [gvk|e] eqn:Hgvk; [|constructor].
  case_decide as Hd.
  - destruct (m !! object_key (gvk_String gvk) key) as [ca|] eqn:Hm.
    { unfold getAndCreateWatchIfNeeded. rewrite Hm. destruct (cached ca); constructor. }
    destruct (live_call a m k gvk key Hm) as (Hs & Hno & _).
    destruct (RESTMappingFor a gvk) as [mapping|e] eqn:Hr; [|rewrite (Hno e) by done; constructor].
    destruct (Hmap _ _ _ _ _ Hk Hgvk Hr) as [<- <-].
    assert (Forall (allowed role) [Rest (get_request mapping key); Rest (watch_request mapping key)])
      as Hall.
    { repeat constructor; [apply query_allowed|apply watch_allowed]; try done; apply Hg;
        [apply get_reading|by left]. }
    destruct (Hs mapping eq_refl) as [l Hl]. rewrite Hl in Hall. by apply Forall_app in Hall as [? _].
  - constructor; [|constructor]. unfold allowed. simpl. rewrite Hk. eexists _, _.
    split_and!; [done|done|done|]. apply Hg, get_reading.
Qed.

Context `{StringSets} (SchemeGroupVersion ClusterKind : string).

(** C31: the role carries the requests behind the reads of a configuration.  Take the role that
    the operator builds for admitted BackupConfigs, and one of them in the namespace of the role.
    Whatever the cache holds, each request that reading this BackupConfig makes, the query as well
    as the watch that the caching client opens behind it, is for a verb, a resource and a name
    that the role allows.  The same holds of every read of [PrefetchSecretsData] on it if it has
    no storage section besides the one of its storage type; with another section left in it a
    read may be refused ([Roles.leftover_section_denied]), and so it is for BackupConfigs of other
    namespaces, which the role does not reach.  For the watch this rests on the field selector:
    the server takes the name from it, for names that are a path segment. *)
Theorem requests_authorized role cluster configs :
  Forall admitted configs →
  ∃ role', BuildRoleForBackupConfigs SchemeGroupVersion ClusterKind role cluster configs = Ret role' ∧
    ∀ (a : api) watched m b, kinds_mapped a → b ∈ configs →
      Namespace (bc_meta b) = Namespace (role_meta role') →
      (path_segment (Name (bc_meta b)) = true →
         Forall (allowed role') (c_sent (Get a watched m KBackupConfig (key_of (bc_meta b))))) ∧
      (own_section b → ∀ t r, exec (PrefetchSecretsData b) t r →
         ∀ k key x, Ev (OGet k key) x ∈ t → path_segment (key_name key) = true →
           Forall (allowed role') (c_sent (Get a watched m k key))).
Proof.
  intros Ha. destruct (build_role SchemeGroupVersion ClusterKind role cluster configs Ha)
    as (role' & Hb & _ & _ & _ & Hpre & Hown).
  exists role'. split; [exact Hb|]. intros a watched m b Hmap Hin Hns. split.
  - intros Hp. eapply call_allowed; [done|reflexivity|done|done|]. by apply Hown.
  - intros Hsec t r He k key x Hx Hp.
    destruct (safe_exec _ _ _ _ (Hpre b Hin Hsec Hns) He) as [Hall _].
    rewrite list.Forall_forall in Hall. specialize (Hall _ Hx). unfold allowed_read in Hall.
    cbn [ev_op] in Hall.
    destruct k; try done; destruct Hall as [Hkns Hg];
      (eapply call_allowed; [done|reflexivity|done|done|exact Hg]).
Qed.
End client.

(** ** A cluster with one Secret *)

#[refine] Definition plain_selectors : Machinery := {|
  gvk_String gvk := gvk_Group gvk +:+ "/" +:+ gvk_Version gvk +:+ ", Kind=" +:+ gvk_Kind gvk;
  OneTermEqualSelector k v := (k +:+ "=") +:+ v;
  exact_match s k := drop_prefix (k +:+ "=") s;
  path_segment s := negb (contains s "/" || contains s "%");
|}.
Proof. abstract (intros k v _; by apply drop_prefix_Some). Defined.

Definition secret_GVK : GVK := mkGVK "" "v1" "Secret".
Definition secret_mapping : RESTMapping := mkMapping secret_GVK "secrets".

(** It knows Secrets only, and has the one that is asked for. *)
Definition one_secret : @api string unit :=
  mkApi
    (λ k, match k with KSecret => Ok secret_GVK | _ => Err (errorf "no kind is registered") end)
    (λ gvk, if String.eqb (gvk_Kind gvk) "Secret" then Ok secret_mapping
            else Err (errorf "no matches for kind"))
    None (λ _, None)
    (λ rq, match rq_Name rq with Some "keys" => Ok "AK and SK" | _ => Err (mkErr ENotFound "not found") end)
    (λ _, Ok tt) (λ _ _, Err (errorf "unused")) (λ _, "*v1.Secret") (λ _, "*v1.Secret").

Lemma one_secret_mapped : kinds_mapped one_secret.
Proof. intros [] group resource gvk mapping; try done. by intros [= <- <-] [= <-] [= <-]. Qed.

(** Prefetching reads the keys of the bucket; the caching client queries and watches them. *)
Lemma requests_authorized_witness :
  let c := @Get plain_selectors _ _ one_secret {["/v1, Kind=Secret"]} ∅ KSecret (mkKey "ns" "keys") in
  c_sent c = [Rest (mkRequest secret_GVK "ns" "secrets" (Some "keys") "" false);
              Rest (mkRequest secret_GVK "ns" "secrets" None "metadata.name=keys" true)] ∧
  ∃ role', BuildRoleForBackupConfigs "postgresql.cnpg.io/v1" "Cluster" (new_role plugin_cluster)
             plugin_cluster [s3_backup_config] = Ret role' ∧
    Forall (@allowed plain_selectors role') (c_sent c).
Proof.
  intros c. split; [vm_compute; reflexivity|].
  destruct (@requests_authorized plain_selectors string unit _ "postgresql.cnpg.io/v1" "Cluster"
    (new_role plugin_cluster) plugin_cluster [s3_backup_config]) as (role' & Hr & Hall).
  { apply Forall_cons. split; [exact s3_admitted|constructor]. }
  exists role'. split; [exact Hr|].
  destruct (Hall one_secret {["/v1, Kind=Secret"]} ∅ s3_backup_config one_secret_mapped) as [_ Hp].
  - left.
  - vm_compute in Hr. injection Hr as <-. reflexivity.
  - eapply (Hp ltac:(split; [reflexivity|by intros [? [=]]]) [keys_read; keys_read]).
    + eexists _, _. split; [reflexivity|]. eexists _, _. split; [reflexivity|]. split; reflexivity.
    + left.
    + reflexivity.
Defined.

(** A first read, and the state of [Cache] it leads to. *)
Lemma call_is_steps_witness :
  let s := Cache.init {["/v1, Kind=Secret|ns/keys" := "AK and SK"]} in
  ∃ s', rtc Cache.step s s' ∧
    Cache.watchedObjects s' = {["/v1, Kind=Secret|ns/keys" := mkWatched (Some "AK and SK") []]}.
Proof.
  intros s.
  destruct (@call_is_steps plain_selectors string unit one_secret s KSecret secret_GVK
    (mkKey "ns" "keys")) as (s' & Hr & Ho & _).
  - eexists. apply rtc_refl.
  - intros mapping o [= <-] [= <-]. reflexivity.
  - exists s'. split; [exact Hr|]. rewrite Ho. reflexivity.
Defined.
