(* ===== verification/Promises.v ===== *)
(** Promises: what each handler of the operator and of the sidecar promises about its calls.

    [may t o] is the promise: after the calls [t], the call [o] may only write a Backup or
    BackupConfig that the handler was answered before, under the resource version of that
    answer, and takes the cleanup finalizer off only for a reason ([released]); it may enqueue
    the deletion only of what it was answered as being deleted; and it may make wal-g delete a
    backup, or everything, only for an accepted request and in the storage of the right
    BackupConfig.  Here each handler is shown to keep it at every call of every run
    ([justified]); [System] puts them together. *)
From stdpp Require Import base list strings gmap.
From S2P Require Import Prelude GoStrings GoTime Api Effects Backups Secrets Config Client BackupCtl Deletion Retention Status Protection Roles Lifecycle Instance Threads.
Local Open Scope string_scope.
Local Open Scope list_scope.

(** ** The promise *)

(** The objects with a cleanup finalizer of the plugin, and that finalizer. *)
Definition guarded_kind (k : kind) : bool :=
  match k with KBackup | KBackupConfig => true | _ => false end.

Definition protected {k : kind} : obj k → Prop :=
  match k with
  | KBackup => λ b, BackupFinalizerName ∈ Finalizers (bk_meta b)
  | KBackupConfig => λ bc, BackupConfigFinalizerName ∈ Finalizers (bc_meta bc)
  | _ => λ _, False
  end.

Lemma protected_same {k} (o o' : obj k) :
  Finalizers (obj_meta o') = Finalizers (obj_meta o) → protected o → protected o'.
Proof. destruct k; simpl; try done; by intros ->. Qed.

Lemma protected_guarded {k} (o : obj k) : protected o → guarded_kind k = true.
Proof. by destruct k. Qed.

Lemma protected_some {k} (o : obj k) : protected o → Finalizers (obj_meta o) ≠ [].
Proof. destruct k; simpl; try done; intros Hf Hn; rewrite Hn in Hf; by apply elem_of_nil in Hf. Qed.

(** The object was the answer to a read or a write. *)
Definition answered (known : event → Prop) {k : kind} (o : obj k) : Prop :=
  (∃ key, known (Ev (OGet k key) (Ok o))) ∨ (∃ x, known (Ev (OUpdate k x) (Ok o))) ∨
  ∃ old new, known (Ev (OPatch k old new) (Ok o)).

(** Reading [PrefetchSecretsData] and the configuration made from it, [c] is the client for
    a BackupConfig and a PostgreSQL version; what it read is known. *)
Definition client_for (known : event → Prop) (bc : BackupConfig) (v : Z) (c : Client) : Prop :=
  ∃ t1 ws t2, exec (PrefetchSecretsData bc) t1 (Returned (Ok ws)) ∧ Forall known t1 ∧
    exec (NewClientFromBackupConfig ws v) t2 (Returned c).

Definition pg_version (b : Backup) (v : Z) : Prop :=
  atoi (str_map_get (Labels (bk_meta b)) BackupPgVersionLabelName) = (v, None).

(** Wal-g deleted the data of the Backup, or reported that it is not there. *)
Definition data_deleted (known : event → Prop) (c : Client) (id : string) : Prop :=
  ∃ result e,
    known (Ev (OExec "wal-g" ["delete"; "target"; id; "--confirm"] (ToEnvMap (client_config c)))
             (result, e)) ∧
    (e = None ∨ backup_missing id result = true).

(** Why the cleanup finalizer of [b] may go, given the calls that are known to have been
    answered: it has no physical backup, its BackupConfig was not found, is not to be
    managed or has a storage known to be unwritable, or the data is gone from that storage. *)
Definition released_backup (known : event → Prop) (b : Backup) : Prop :=
  bk_BackupID b = "" ∨
  (∃ e, known (Ev (OGet KBackupConfig (backup_config_owner b)) (Err e)) ∧ is_not_found e = true) ∨
  ∃ bc, known (Ev (OGet KBackupConfig (backup_config_owner b)) (Ok bc)) ∧
    (IgnoreForBackupDeletion (Retention (bc_Spec bc)) = true ∨ known_unwritable bc ∨
     ∃ v c, pg_version b v ∧ client_for known bc v c ∧ data_deleted known c (bk_BackupID b)).

Definition delete_target (id : string) : list string := ["delete"; "target"; id; "--confirm"].
Definition delete_everything : list string := ["delete"; "everything"; "FORCE"; "--confirm"].

(** And that of a BackupConfig: its data is to be kept, its storage is known to be unwritable, or
    wal-g has deleted everything from it, for every version of PostgreSQL. *)
Definition released_config (known : event → Prop) (bc : BackupConfig) : Prop :=
  IgnoreForBackupConfigDeletion (Retention (bc_Spec bc)) = true ∨ known_unwritable bc ∨
  ∀ v, (11 ≤ v ≤ 19)%Z → ∃ c result, client_for known bc v c ∧
    known (Ev (OExec "wal-g" delete_everything (ToEnvMap (client_config c))) (result, None)).

Definition released (known : event → Prop) {k : kind} : obj k → Prop :=
  match k with
  | KBackup => released_backup known
  | KBackupConfig => released_config known
  | _ => λ _, False
  end.

Section mono.
Variables known known' : event → Prop.
Hypothesis Hk : ∀ e, known e → known' e.

Lemma client_for_mono bc v c : client_for known bc v c → client_for known' bc v c.
Proof.
  intros (t1 & ws & t2 & ? & Ht & ?). exists t1, ws, t2.
  split_and!; [done|by eapply Forall_impl|done].
Qed.

Lemma answered_mono {k} (o : obj k) : answered known o → answered known' o.
Proof. unfold answered. naive_solver. Qed.

Lemma released_mono {k} (o : obj k) : released known o → released known' o.
Proof.
  destruct k; simpl; try done.
  - intros [?|[(e & ? & ?)|(bc & ? & [?|[?|(v & c & Hv & Hc & (result & e & ? & ?))]])]];
      unfold released_backup; [by left|eauto 10|eauto 10|eauto 10|].
    right. right. exists bc. split; [auto|]. right. right. exists v, c.
    split_and!; [done|by apply client_for_mono|exists result, e; auto].
  - intros [?|[?|Hw]]; [by left|by right; left|]. right. right. intros v Hv.
    destruct (Hw v Hv) as (c & result & Hc & ?). exists c, result.
    split; [by apply client_for_mono|auto].
Qed.
End mono.

(** [o] is sent under the identity and resource version of the answered [b]. *)
Definition sent_as {k : kind} (o b : obj k) : Prop :=
  key_of (obj_meta o) = key_of (obj_meta b) ∧
  ResourceVersion (obj_meta o) = ResourceVersion (obj_meta b).

Definition keeps_or_released (k : kind) (t : list event) (o : obj k) : Prop :=
  ∃ b : obj k, answered (.∈ t) b ∧ sent_as o b ∧
    (protected b → protected o ∨ released (.∈ t) b).

Definition deleting (m : ObjectMeta) : Prop := DeletionTimestamp m ≠ None.

(** The object that a request names was answered as one that is being deleted; that of a
    Backup may have been answered once more, to a patch. *)
Definition names_doomed (known : event → Prop) (r : DeletionRequest) : Prop :=
  match dr_Type r with
  | ResourceTypeBackup =>
      ∃ key b, known (Ev (OGet KBackup key) (Ok b)) ∧ deleting (bk_meta b) ∧
        (dr_Key r = key_of (bk_meta b) ∨
         ∃ old new u, known (Ev (OPatch KBackup old new) (Ok u)) ∧
           key_of (bk_meta new) = key_of (bk_meta b) ∧ dr_Key r = key_of (bk_meta u))
  | ResourceTypeBackupConfig =>
      ∃ key bc, known (Ev (OGet KBackupConfig key) (Ok bc)) ∧ deleting (bc_meta bc) ∧
        dr_Key r = key_of (bc_meta bc)
  end.

(** A request for the deletion of this object was accepted. *)
Definition requested (known : event → Prop) (ty : ResourceType) (key : ObjectKey) : Prop :=
  ∃ queueKey, known (Ev (OEnqueue queueKey (mkRequest ty key)) None).

(** Deleting the backup [id] in the environment [env] is what was asked for: a Backup of this
    id was requested to be deleted, which carries the cleanup finalizer and has no dependents,
    and the environment is made from the BackupConfig that owns it. *)
Definition target_due (known : event → Prop) (id : string) (env : gmap string string) : Prop :=
  ∃ key b bc v c,
    requested known ResourceTypeBackup key ∧ known (Ev (OGet KBackup key) (Ok b)) ∧
    bk_BackupID b = id ∧ id ≠ "" ∧ protected (k := KBackup) b ∧ no_dependents b ∧
    known (Ev (OGet KBackupConfig (backup_config_owner b)) (Ok bc)) ∧
    IgnoreForBackupDeletion (Retention (bc_Spec bc)) = false ∧
    pg_version b v ∧ client_for known bc v c ∧ env = ToEnvMap (client_config c).

(** Deleting everything is: a BackupConfig was requested to be deleted that does not keep the
    data, and the environment is made from it. *)
Definition wipe_due (known : event → Prop) (env : gmap string string) : Prop :=
  ∃ key bc v c,
    requested known ResourceTypeBackupConfig key ∧ known (Ev (OGet KBackupConfig key) (Ok bc)) ∧
    IgnoreForBackupConfigDeletion (Retention (bc_Spec bc)) = false ∧
    client_for known bc v c ∧ env = ToEnvMap (client_config c).

Section due_mono.
Variables known known' : event → Prop.
Hypothesis Hk : ∀ e, known e → known' e.

Lemma requested_mono ty key : requested known ty key → requested known' ty key.
Proof. intros [q ?]. exists q. auto. Qed.

Lemma target_due_mono id env : target_due known id env → target_due known' id env.
Proof.
  intros (key & b & bc & v & c & Hr & ? & ? & ? & ? & ? & ? & ? & ? & Hc & ?).
  exists key, b, bc, v, c. split_and!; auto; [by apply requested_mono|].
  by apply (client_for_mono known).
Qed.

Lemma wipe_due_mono env : wipe_due known env → wipe_due known' env.
Proof.
  intros (key & bc & v & c & Hr & ? & ? & Hc & ?). exists key, bc, v, c.
  split_and!; auto; [by apply requested_mono|]. by apply (client_for_mono known).
Qed.

Lemma names_doomed_mono r : names_doomed known r → names_doomed known' r.
Proof.
  unfold names_doomed. destruct (dr_Type r).
  - intros (key & b & ? & ? & [?|(old & new & u & ? & ? & ?)]); exists key, b;
      (split_and!; [auto|done|]); [by left|right]. exists old, new, u. auto.
  - intros (key & bc & ? & ? & ?). exists key, bc. auto.
Qed.
End due_mono.

Definition run_due (known : event → Prop) (args : list string) (env : gmap string string) : Prop :=
  (∀ id, args = delete_target id → target_due known id env) ∧
  (args = delete_everything → wipe_due known env).

Definition may (t : list event) (o : op) : Prop :=
  match o with
  | OUpdate k o => guarded_kind k = true → keeps_or_released k t o
  | OPatch k old new =>
      guarded_kind k = true → Finalizers (obj_meta new) = Finalizers (obj_meta old)
  | OEnqueue _ r => names_doomed (.∈ t) r
  | OExec _ args env => run_due (.∈ t) args env
  | _ => True
  end.

(** ** Handlers that need no reason

    They change no Backup and no BackupConfig but its status, make wal-g delete nothing and
    enqueue nothing. *)
Definition harmless (e : event) : Prop :=
  match ev_op e with
  | OUpdate k _ | OPatch k _ _ => guarded_kind k = false
  | OExec _ args _ => head args ≠ Some "delete"
  | OEnqueue _ _ => False
  | _ => True
  end.

Lemma harmless_may t o a : harmless (Ev o a) → may t o.
Proof.
  destruct o; try done; simpl; [congruence..|]. intros Ha. split; by intros; subst.
Qed.

Lemma reads_harmless e : reads e → harmless e.
Proof. by destruct e as [[] ?]. Qed.

Lemma emits_reads_harmless {A} (p : prog A) : safe reads p → emits harmless p.
Proof. intros Hp. eapply emits_mono; [apply reads_harmless|by apply safe_emits]. Qed.

Lemma client_harmless ws v : emits harmless (NewClientFromBackupConfig ws v).
Proof. by apply (emits_new_config _ (Some ws)). Qed.

#[export] Hint Resolve emits_reads_harmless client_harmless : golib.

Lemma justified_harmless {A} (p : prog A) t :
  emits harmless p → justified may t p.
Proof. apply justified_emits, harmless_may. Qed.

Lemma justified_harmless_bind {A B} (p : prog A) (f : A → prog B) t :
  emits harmless p →
  (∀ t' a, exec p t' (Returned a) → justified may (t ++ t') (f a)) →
  justified may t (p ≫= f).
Proof. apply justified_quiet, harmless_may. Qed.

(** The status controller writes statuses only. *)
Lemma status_harmless P {A} (p : prog A) : emits (writes_only P) p → emits harmless p.
Proof. apply emits_mono. by intros [[] ?]. Qed.

Section quiet_handlers.
Context `{GoMapRange, GoSort, FinalizerUtil, StringSets}.

Lemma retention_harmless : emits harmless runBackupsRetentionCheck.
Proof.
  unfold runBackupsRetentionCheck, runRetentionForBackupConfig, getBackupsToDelete,
    calculateRetentionThreshold.
  emits_auto; done.
Qed.

Lemma secret_harmless req : emits harmless (SecretReconciler.Reconcile req).
Proof.
  unfold SecretReconciler.Reconcile, isSecretReferencedByAnyBackupConfig, update_result.
  emits_auto; done.
Qed.

Lemma config_map_harmless req : emits harmless (ConfigMapReconciler.Reconcile req).
Proof.
  unfold ConfigMapReconciler.Reconcile, isConfigMapReferencedByAnyBackupConfig, update_result.
  emits_auto; done.
Qed.

(** The BackupConfig reconciler enqueues what it was answered as being deleted, and sets the
    cleanup finalizer as the policy asks. *)
Lemma backup_config_justified req : justified may [] (BackupConfigReconciler.Reconcile req).
Proof.
  apply justified_call; [done|]. intros [bc|e]; [|done]. cbv beta iota.
  destruct (is_zero_ptr _) eqn:Hd; cbn [negb].
  - destruct (BackupConfigReconciler.policy_finalizers bc) as [f ch] eqn:Hp.
    apply justified_bind; [destruct ch; [|done]; apply justified_bind; [|done];
      apply justified_call_only; intros _|].
    + exists bc. split_and!; [left; exists req; by left|done|]. simpl.
      unfold BackupConfigReconciler.policy_finalizers in Hp.
      destruct (negb _ && negb _); [injection Hp as <-; left; set_solver|].
      destruct (_ && _) eqn:Hi; [|injection Hp as <-; by left].
      injection Hp as <-. right. left. by bool_to_prop.
    + intros t [bc'|e] _; [|done]. apply justified_harmless.
      unfold BackupConfigReconciler.reconcileReferencedSecrets,
        BackupConfigReconciler.reconcileReferencedConfigMaps,
        BackupConfigReconciler.protect_secret, BackupConfigReconciler.protect_config_map.
      emits_auto; done.
  - unfold BackupConfigReconciler.reconcile_deleting. destruct (negb _); [done|].
    apply justified_call; [done|]. intros [items|e]; [|done]. destruct (contains_by _ _); [done|].
    apply justified_call; [|by intros [|]]. exists req, bc. split_and!; [by left| |done].
    unfold deleting. by destruct (DeletionTimestamp _).
Qed.

Lemma build_role_harmless group kind role cluster configs :
  emits harmless (BuildRoleForBackupConfigs group kind role cluster configs).
Proof.
  apply emits_bind; [|intros; apply emits_ret].
  generalize (∅ : gset string, ∅ : gset string, ∅ : gset string) as sets.
  induction configs as [|b configs IH]; intros sets; [apply emits_ret|].
  apply emits_bind; [|intros; apply IH]. destruct sets as [[bs ss] cs].
  unfold collect_names, collectSecretsAndConfigMapsNamesFromBackupConfig, s3_names, gcs_names,
    selector_name. emits_auto.
Qed.

Lemma recovery_harmless c : emits harmless (GetBackupConfigForClusterRecovery c).
Proof.
  unfold GetBackupConfigForClusterRecovery, getBackupConfigFromPluginConfig. by emits_auto.
Qed.

Lemma cluster_harmless c : emits harmless (GetBackupConfigForCluster c).
Proof. apply emits_reads_harmless, safe_reads_for_cluster. Qed.
#[local] Hint Resolve build_role_harmless recovery_harmless cluster_harmless : golib.

Lemma encryption_harmless configs : emits harmless (ensure_encryption_secrets configs).
Proof.
  induction configs as [|c configs IH]; [apply emits_ret|]. cbn [ensure_encryption_secrets].
  apply emits_bind; [|intros [e|]; [apply emits_ret|done]].
  unfold ensureEncryptionSecret, generateRandomHexString. emits_auto; done.
Qed.
#[local] Hint Resolve encryption_harmless : golib.

Lemma pre_harmless group kind req_eq get_kind unmarshal request :
  emits harmless (Roles.Pre group kind req_eq get_kind unmarshal request).
Proof.
  unfold Roles.Pre, ensureRole, ensureRoleBinding, createRoleBinding.
  emits_auto; try apply build_role_harmless; done.
Qed.

Lemma lifecycle_harmless gv gk dc dp dj cp cj request :
  emits harmless (LifecycleHook gv gk dc dp dj cp cj request).
Proof.
  unfold LifecycleHook, reconcilePod, reconcileJob, reconcilePodSpecWithPluginSidecar.
  emits_auto; try done.
Qed.

(** The sidecar writes no object at all. *)
Lemma with_secrets_harmless b : emits harmless (with_secrets b).
Proof.
  destruct b as [[b|]|e]; [|apply emits_panic|apply emits_ret].
  apply emits_wrap, emits_reads_harmless, safe_reads_prefetch.
Qed.

Lemma wal_config_harmless c : emits harmless (WALService.getBackupConfig c).
Proof. unfold WALService.getBackupConfig. emits_auto; auto using with_secrets_harmless with golib. done. Qed.

Lemma backup_list_harmless u c : emits harmless (GetBackupsList u c).
Proof. unfold GetBackupsList, walg. by emits_auto. Qed.
#[local] Hint Resolve with_secrets_harmless wal_config_harmless backup_list_harmless : golib.

Lemma archive_harmless u request : emits harmless (WALService.Archive u request).
Proof.
  unfold WALService.Archive, WALPush, walg, WALService.SetLastArchivedWALTime. emits_auto; done.
Qed.

Lemma wal_restore_harmless u request : emits harmless (WALService.Restore u request).
Proof. unfold WALService.Restore, WALFetch, walg. emits_auto; done. Qed.

Lemma backup_harmless uc ub ul lp il ci request :
  emits harmless (BackupService.Backup uc ub ul lp il ci request).
Proof.
  unfold BackupService.Backup, BackupService.getBackupConfig,
    BackupService.getCurrentLSNAndSystemID, BackupService.buildBackupResult, BackupPush, walg.
  emits_auto; done.
Qed.

Lemma restore_harmless uc ul lp ll pt path file request :
  emits harmless (RestoreJobHooks.Restore uc ul lp ll pt path file request).
Proof.
  unfold RestoreJobHooks.Restore, RestoreJobHooks.downloadBackupIntoDir,
    RestoreJobHooks.place_pg_wal, BackupFetch, walg.
  emits_auto; done.
Qed.

Lemma metrics_harmless uc cluster : emits harmless (MetricsServer.Collect uc cluster).
Proof. unfold MetricsServer.Collect, WALService.GetLastArchivedWALTime. emits_auto; done. Qed.
End quiet_handlers.

(** ** The deletion controller *)

Section deletion.
Variable unmarshal_backups : string → res (list BackupMetadata).

(** Wiping the storage of a BackupConfig. *)
Lemma delete_all_justified t c :
  wipe_due (.∈ t) (ToEnvMap (client_config c)) →
  justified may t (DeleteAllBackupsAndWALsInStorage unmarshal_backups c).
Proof.
  intros Hw. apply justified_harmless_bind; [apply backup_list_harmless|]. intros t1 l _.
  apply justified_harmless_bind.
  { destruct l as [l|e]; [|apply emits_ret]. apply emits_for_each. intros x _.
    unfold UnmarkBackupPermanent, unmarkBackupPermanent, walg. emits_auto; done. }
  intros t2 [] _. apply justified_call_only. split; [done|]. intros _.
  eapply wipe_due_mono; [|exact Hw]. set_solver.
Qed.

Lemma clean_versions_justified t ws vs :
  (∀ t' v c t2, exec (NewClientFromBackupConfig ws v) t2 (Returned c) →
     wipe_due (.∈ t ++ t') (ToEnvMap (client_config c))) →
  justified may t (clean_versions unmarshal_backups ws vs).
Proof.
  revert t. induction vs as [|v vs IH]; intros t Hw; [done|]. cbn [clean_versions].
  apply justified_harmless_bind; [apply client_harmless|]. intros t1 c Hc.
  apply justified_bind; [by eapply delete_all_justified, Hw|].
  intros t2 [result [e|]] _; [done|]. apply IH. intros t' v' c' t3 Hc'.
  rewrite <-!app_assoc. by eapply Hw.
Qed.

(** What a run that ends well has wiped. *)
Lemma clean_storage_released bc t :
  exec (clean_storage unmarshal_backups bc) t (Returned None) → released_config (.∈ t) bc.
Proof.
  unfold clean_storage. destruct (IgnoreForBackupConfigDeletion _) eqn:Hig; [by left|].
  destruct (storage_unwritable bc) eqn:Hw; [right; left; by apply storage_unwritable_known|].
  intros [(t1 & t2 & [ws|e] & -> & Hws & He)|(w & _ & [=])]%exec_bind;
    [|by destruct He as [_ [=]]].
  right. right. intros v Hv.
  destruct (clean_versions_runs _ _ _ _ He v) as (c & t' & result & Hc & Hin).
  { apply elem_of_seqZ. lia. }
  exists c, result. split; [|apply elem_of_app; by right]. exists t1, ws, t'.
  split_and!; [done| |done]. apply Forall_forall. intros x Hx. apply elem_of_app. by left.
Qed.

Lemma config_deletion_justified key t :
  requested (.∈ t) ResourceTypeBackupConfig key →
  justified may t (deleteBackupConfig unmarshal_backups key).
Proof.
  intros Hreq. apply justified_call; [done|]. intros [bc|e]; [|done]. cbv beta iota.
  set (t0 := t ++ _). apply justified_bind.
  - unfold clean_storage. destruct (IgnoreForBackupConfigDeletion _) eqn:Hig; [done|].
    destruct (storage_unwritable bc); [done|].
    apply justified_harmless_bind; [apply emits_reads_harmless, safe_reads_prefetch|].
    intros t1 [ws|e] Hws; [|done]. apply clean_versions_justified. intros t' v c t2 Hc.
    exists key, bc, v, c. split_and!; [|set_solver|done| |done].
    + eapply requested_mono; [|exact Hreq]. set_solver.
    + exists t1, ws, t2. split_and!; [done| |done]. apply Forall_forall. set_solver.
  - intros t1 [e|] Hc; [done|]. cbv zeta. destruct (containsString _ _); [|done].
    apply justified_call; [|by intros [|]]. intros _. exists bc.
    split_and!; [left; exists key; set_solver|done|]. intros _. right.
    eapply (released_mono (.∈ t1) (.∈ t0 ++ t1) ltac:(set_solver) (k := KBackupConfig)).
    by apply clean_storage_released.
Qed.

Lemma answered_app {k} (t t' : list event) (b : obj k) : answered (.∈ t) b → answered (.∈ t ++ t') b.
Proof. apply answered_mono. set_solver. Qed.

Lemma answered_get (t : list event) key b : Ev (OGet KBackup key) (Ok b) ∈ t → answered (k := KBackup) (.∈ t) b.
Proof. intros Hin. left. by exists key. Qed.

Lemma released_app (t t' : list event) b : released_backup (.∈ t) b → released_backup (.∈ t ++ t') b.
Proof. apply (released_mono (.∈ t) (.∈ t ++ t') ltac:(set_solver) (k := KBackup)). Qed.

(** Taking the finalizer off a Backup that was answered and may be released. *)
Lemma justified_remove t b :
  answered (k := KBackup) (.∈ t) b → released_backup (.∈ t) b →
  justified may t (removeBackupFinalizer b).
Proof.
  intros Hb Hr. unfold removeBackupFinalizer. destruct (negb _); [done|].
  apply justified_call; [|by intros [|]]. intros _. exists b. split_and!; [done|by split|by right].
Qed.

Lemma DeleteBackup_gone c id t result :
  exec (DeleteBackup c id) t (Returned (result, None)) → data_deleted (.∈ t) c id.
Proof.
  intros He. pose proof (proj1 (wp_exec _ _) (DeleteBackup_wp c id) _ _ He) as
    (a1 & res & e0 & a3 & -> & e' & [= <- <-] & Hiff).
  exists result, e0. split; [right; left|by apply Hiff].
Qed.

Lemma delete_justified t c id :
  target_due (.∈ t) id (ToEnvMap (client_config c)) → justified may t (DeleteBackup c id).
Proof.
  intros Ht. split; [by split|]. intros a1. split.
  - split; [|done]. intros id' [= <-]. eapply target_due_mono; [|exact Ht]. set_solver.
  - intros [result e]. split; [by split|]. done.
Qed.

Lemma justified_from_storage key t b bc v :
  requested (.∈ t) ResourceTypeBackup key → Ev (OGet KBackup key) (Ok b) ∈ t →
  bk_BackupID b ≠ "" → protected (k := KBackup) b → no_dependents b → pg_version b v →
  Ev (OGet KBackupConfig (backup_config_owner b)) (Ok bc) ∈ t →
  justified may t (delete_from_storage b bc v).
Proof.
  intros Hreq Hget Hid Hfin Hnd Hv Hbc. unfold delete_from_storage.
  assert (answered (k := KBackup) (.∈ t) b) as Hb by by eapply answered_get.
  assert (IgnoreForBackupDeletion (Retention (bc_Spec bc)) = true ∨ known_unwritable bc →
    released_backup (.∈ t) b) as Hpolicy.
  { intros Hp. right. right. exists bc. naive_solver. }
  destruct (storage_unwritable bc) eqn:Hw.
  { apply justified_remove; [done|]. apply Hpolicy. right. by apply storage_unwritable_known. }
  apply justified_harmless_bind; [apply emits_reads_harmless, safe_reads_prefetch|].
  intros t1 [ws|e] Hws; [|done].
  rewrite (prefetch_config _ _ _ Hws). destruct (IgnoreForBackupDeletion _) eqn:Hig.
  { apply justified_remove; [by apply answered_app|apply released_app, Hpolicy; by left]. }
  apply justified_harmless_bind; [apply client_harmless|]. intros t2 c Hc.
  assert (∀ t3, client_for (.∈ ((t ++ t1) ++ t2) ++ t3) bc v c) as Hcl.
  { intros t3. exists t1, ws, t2. split_and!; [done| |done]. apply Forall_forall. set_solver. }
  apply justified_bind.
  { apply delete_justified. exists key, b, bc, v, c.
    split_and!; try done; [|set_solver..|by rewrite <-(app_nil_r (_ ++ t2))].
    eapply requested_mono; [|exact Hreq]. set_solver. }
  intros t3 [result [e|]] Hd; [done|].
  apply justified_remove; [by do 3 apply answered_app|]. right. right. exists bc.
  split; [set_solver|]. right. right. exists v, c. split_and!; [done|done|].
  destruct (DeleteBackup_gone _ _ _ _ Hd) as (res & e & ? & ?). exists res, e.
  split; [set_solver|done].
Qed.

(** Deleting a Backup keeps the promise. *)
Lemma deletion_justified key t :
  requested (.∈ t) ResourceTypeBackup key → justified may t (deleteWALGBackup key).
Proof.
  intros Hreq. apply justified_call; [done|]. intros [e|]; [done|].
  apply justified_bind; [|done].
  apply justified_call; [done|]. intros [b|e]; [|done]. cbv beta iota.
  set (t1 := _ ++ _). assert (answered (k := KBackup) (.∈ t1) b) as Hb
    by (apply (answered_get _ key); set_solver).
  destruct (Labels (bk_meta b)) as [labels|] eqn:Hl; [|done].
  destruct (Annotations (bk_meta b)) as [ann|] eqn:Ha; [|done].
  destruct (String.eqb (default "" _) "") eqn:Hd; [|done]. cbn [negb].
  destruct (containsString _ _) eqn:Hf; [|done]. cbn [negb].
  destruct (String.eqb_spec (bk_BackupID b) ""); [apply justified_remove; [done|by left]|].
  destruct (atoi _) as [v [e|]] eqn:Hv; [done|].
  apply justified_harmless_bind; [apply emits_reads_harmless, safe_reads_for_backup|].
  intros t' [bc|e] Hbc; [|by destruct (is_not_found e)].
  apply GetBackupConfigForBackup_ok in Hbc as ->.
  apply (justified_from_storage key); [|set_solver|done| | | |set_solver].
  - eapply requested_mono; [|exact Hreq]. set_solver.
  - by apply containsString_elem.
  - unfold no_dependents, str_map_get. rewrite Ha. by apply String.eqb_eq in Hd.
  - unfold pg_version. rewrite Hl. exact Hv.
Qed.

Lemma request_justified queueKey request :
  justified may [Ev (OEnqueue queueKey request) None] (process_request unmarshal_backups request).
Proof.
  unfold process_request. destruct request as [ty key]; simpl. destruct ty.
  - apply deletion_justified. exists queueKey. by left.
  - apply config_deletion_justified. exists queueKey. by left.
Qed.
End deletion.

(** ** The Backup reconciler *)

Section reconciler.
Context `{GoMapRange, GoSort}.
Variable GetPostgresqlMajorVersion : Cluster → Z * option err.
Variable semantic_equal : Backup → Backup → bool.
Abbreviation metadata := (reconcileBackupMetadata GetPostgresqlMajorVersion semantic_equal).
Abbreviation related := (reconcileRelatedBackupsMetadata GetPostgresqlMajorVersion semantic_equal).

Lemma owned_harmless bc : emits harmless (listBackupsOwnedByBackupConfig bc).
Proof. unfold listBackupsOwnedByBackupConfig. by emits_auto. Qed.

(** Refreshing the labels and annotations patches those only. *)
Lemma metadata_justified b bc cl t : justified may t (metadata b bc cl).
Proof.
  unfold reconcileBackupMetadata. apply justified_try.
  - apply justified_harmless, owned_harmless.
  - intros t' l _. cbv zeta. destruct (semantic_equal _ _); [done|]. split; [done|]. by intros [|].
Qed.

Lemma related_justified b t : justified may t (related b).
Proof.
  apply justified_call; [done|]. intros cl. apply justified_bind.
  { destruct cl as [c|e]; [done|]. by destruct (is_not_found e). }
  intros t1 [c|e] _; [|done].
  apply justified_try; [apply justified_harmless; unfold GetBackupConfigForBackup; by emits_auto|].
  intros t2 bc _. apply justified_try.
  { apply justified_bind; [apply metadata_justified|done]. }
  intros t3 u _. cbv zeta. destruct (String.eqb _ _); [|done].
  apply justified_try; [apply justified_harmless, owned_harmless|].
  intros t4 l _. apply justified_bind; [|done].
  apply justified_for_each. intros x t5 _. destruct (String.eqb _ _); [done|].
  apply justified_bind; [apply metadata_justified|done].
Qed.

(** A Backup as it was answered, but for its labels and annotations. *)
Definition like (u b : Backup) : Prop :=
  ∃ l a, u = with_bk_meta b (with_marks (bk_meta b) l a).

Definition stands (t : list event) (u : Backup) : Prop :=
  ∃ b, answered (k := KBackup) (.∈ t) b ∧ like u b.

Lemma like_refl b : like b b.
Proof. exists (Labels (bk_meta b)), (Annotations (bk_meta b)). by destruct b as [[] ? ? ? ? ? ?]. Qed.

Lemma like_trans u v b : like u v → like v b → like u b.
Proof. intros (l & a & ->) (l' & a' & ->). by exists l, a. Qed.

Lemma stands_answered t b : answered (k := KBackup) (.∈ t) b → stands t b.
Proof. exists b. split; [done|apply like_refl]. Qed.

Lemma stands_app t t' u : stands t u → stands (t ++ t') u.
Proof. intros (b & ? & ?). exists b. split; [by apply answered_app|done]. Qed.

(** What refreshing leaves behind: the answer to a patch of this Backup, or the Backup. *)
Definition refreshed (b : Backup) (t : list event) (u : Backup) : Prop :=
  (∃ old new, Ev (OPatch KBackup old new) (Ok u) ∈ t ∧ key_of (bk_meta new) = key_of (bk_meta b)) ∨
  like u b.

Lemma metadata_refreshed b bc cl t u :
  exec (metadata b bc cl) t (Returned (Ok u)) → refreshed b t (fst u).
Proof.
  intros (t1 & t2 & l & -> & _ & He)%exec_try_ok. cbv zeta in He.
  destruct (semantic_equal _ _).
  - destruct He as [_ [= ->]]. right. by eexists _, _.
  - destruct He as ([b'|e] & t3 & -> & He); destruct He as [-> He]; [injection He as ->|done].
    left. eexists _, _. split; [apply elem_of_app; right; by left|done].
Qed.

Lemma related_refreshed b t u : exec (related b) t (Returned (Ok u)) → refreshed b t u.
Proof.
  intros (cl & t1 & -> & He)%exec_call.
  apply exec_bind in He as [(t2 & t3 & [c|e] & -> & _ & He)|(w & _ & [=])];
    [|by destruct He as [_ [=]]].
  apply exec_try_ok in He as (t4 & t5 & bc & -> & _ & He).
  apply exec_try_ok in He as (t6 & t7 & x & -> & Hx%exec_wrap_ok%metadata_refreshed & He).
  assert (u = fst x) as ->.
  { cbv zeta in He. destruct (String.eqb _ _); [|by destruct He as [_ [= ->]]].
    apply exec_try_ok in He as (t8 & t9 & l & -> & _ & He).
    by apply exec_bind in He as [(? & ? & [] & _ & _ & [_ [= ->]])|(w & _ & [=])]. }
  destruct Hx as [(old & new & ? & ?)|?]; [|by right].
  left. exists old, new. split; [|done]. set_solver.
Qed.

Lemma refreshed_stands b t0 t u : stands t0 b → refreshed b t u → stands (t0 ++ t) u.
Proof.
  intros (b0 & Hb0 & Hl) [(old & new & Hin & _)|Hu].
  - apply stands_answered. right. right. exists old, new. set_solver.
  - apply stands_app. exists b0. split; [done|by eapply like_trans].
Qed.

Lemma related_stands b t0 t u :
  stands t0 b → exec (related b) t (Returned (Ok u)) → stands (t0 ++ t) u.
Proof. intros Hb Hu. by eapply refreshed_stands, related_refreshed. Qed.

Lemma keeps_stands t u o :
  stands t u → sent_as (k := KBackup) o u →
  (protected (k := KBackup) u →
     protected (k := KBackup) o ∨ ∀ b, like u b → released_backup (.∈ t) b) →
  keeps_or_released KBackup t o.
Proof.
  intros (b & Hb & Hl) Hs Hf. exists b. destruct Hl as (l & a & ->).
  split_and!; [done|exact Hs|]. intros Hh. destruct (Hf Hh) as [?|Hr]; [by left|right].
  apply Hr. by exists l, a.
Qed.

Lemma owner_justified u t : stands t u → justified may t (reconcileOwnerReference u).
Proof.
  intros Hu. unfold reconcileOwnerReference. destruct (contains_by _ _); [done|].
  apply justified_call; [done|]. intros [cl|e]; [|by destruct (is_not_found e)].
  apply justified_try; [apply justified_harmless, cluster_harmless|].
  intros t' [bc|] _; [|done]. apply justified_call_only. intros _.
  eapply keeps_stands; [by do 2 apply stands_app|done|]. by left.
Qed.

Lemma owner_stands u t0 t u' :
  stands t0 u → exec (reconcileOwnerReference u) t (Returned (Ok u')) → stands (t0 ++ t) u'.
Proof.
  intros Hu. unfold reconcileOwnerReference.
  destruct (contains_by _ _); [intros [-> [= ->]]; by rewrite app_nil_r|].
  intros ([cl|e] & t1 & -> & He)%exec_call.
  2: { destruct He as [-> He]. destruct (is_not_found e); [injection He as ->|done].
       by apply stands_app. }
  apply exec_try_ok in He as (t2 & t3 & [bc|] & -> & _ & He).
  - destruct He as (a & t4 & -> & -> & [= <-]). rewrite app_comm_cons, app_assoc.
    apply stands_answered. right. left. eexists. apply elem_of_app. right. by left.
  - destruct He as [-> [= ->]]. by apply stands_app.
Qed.

Lemma finalizers_justified u bc t :
  stands t u → Ev (OGet KBackupConfig (backup_config_owner u)) (Ok bc) ∈ t →
  justified may t (reconcileFinalizers u bc).
Proof.
  intros Hu Hbc. unfold reconcileFinalizers. cbv zeta.
  destruct (negb _ && negb _) eqn:Ha;
    [|match goal with |- context [if ?c then _ else _] => destruct c eqn:Hr; [|exact Logic.I] end];
    apply justified_call_only; intros _; (eapply keeps_stands; [done|done|]).
  - intros _. left. simpl. set_solver.
  - intros _. right. intros b (l & a & ->). right. right. exists bc. bool_to_prop. auto.
Qed.

Lemma for_backup_not_found b t e :
  exec (GetBackupConfigForBackup b) t (Returned (Err e)) → is_not_found e = true →
  ∃ e', Ev (OGet KBackupConfig (backup_config_owner b)) (Err e') ∈ t ∧ is_not_found e' = true.
Proof.
  unfold GetBackupConfigForBackup. cbv zeta. destruct (String.eqb _ ""); [by intros [_ [= ->]]|].
  intros [(t1 & t2 & r & -> & (a & t3 & -> & -> & [= ->]) & [-> He])|(w & _ & [=])]%exec_bind Hn.
  destruct a as [bc|e']; [done|]. injection He as ->. rewrite wrapf_not_found in Hn.
  exists e'. split; [by left|done].
Qed.

Lemma enqueue_justified u t :
  stands t u → names_doomed (.∈ t) (mkRequest ResourceTypeBackup (key_of (bk_meta u))) →
  justified may t (EnqueueBackupDeletion u).
Proof.
  intros Hu Hd. apply justified_harmless_bind; [unfold GetBackupConfigForBackup; by emits_auto|].
  intros t' [bc|e] Hbc.
  { apply justified_call_only. eapply names_doomed_mono; [|exact Hd]. set_solver. }
  destruct (is_not_found e) eqn:Hn; [|done].
  destruct (for_backup_not_found _ _ _ Hbc Hn) as (e' & Hin & Hn').
  unfold removeBackupFinalizer. destruct (negb _); [done|].
  apply justified_call; [|by intros [|]]. intros _.
  eapply keeps_stands; [by apply stands_app|done|]. intros _. right. intros b (l & a & ->).
  right. left. exists e'. split; [|done]. set_solver.
Qed.

Lemma permanence_harmless u : emits harmless (reconcileBackupPermanence u).
Proof.
  unfold reconcileBackupPermanence. destruct (negb _); [apply emits_ret|].
  apply emits_bind; [by apply emits_call|]. intros [cl|e]; [|apply emits_ret].
  apply emits_bind; [apply cluster_harmless|]. intros [[bc|]|e]; [|apply emits_ret..].
  destruct (atoi _) as [v [e|]]; [apply emits_ret|].
  apply emits_bind; [apply emits_reads_harmless, safe_reads_with_secrets|]. intros ws.
  destruct (match ws with Ok w => _ | Err e => _ end) as [o e].
  destruct (e ≫= ignore_not_found); [apply emits_ret|].
  destruct (_ =? 1)%nat; [|apply emits_ret].
  apply emits_bind; [by apply emits_new_config|]. intros c.
  unfold MarkBackupPermanent, walg. by emits_auto.
Qed.

(** Reconciling a Backup keeps the promise. *)
Lemma reconcile_justified req :
  justified may [] (Reconcile GetPostgresqlMajorVersion semantic_equal req).
Proof.
  apply justified_call; [done|]. intros [b|e]; [|done].
  destruct (negb (managed b)); [done|].
  assert (stands [Ev (OGet KBackup req) (Ok b)] b) as Hb
    by (apply stands_answered, (answered_get _ req); by left).
  destruct (is_zero_ptr _) eqn:Hd; cbn [negb]; revert Hd; [intros _|intros Hd].
  2: { apply justified_bind; [apply related_justified|]. intros t1 [u|e] Hu; [|done].
    apply justified_bind; [|by intros ? [] _].
    apply related_refreshed in Hu. apply enqueue_justified; [by eapply refreshed_stands|].
    exists req, b. split_and!; [by left|by unfold deleting; destruct (DeletionTimestamp _)|].
    simpl. destruct Hu as [(old & new & ? & ?)|(l & a & ->)]; [right|by left].
    exists old, new, u. split_and!; [by right|done|done]. }
  apply justified_bind; [|intros t1 [u|e] _; [|done];
    apply justified_bind; [apply justified_harmless, permanence_harmless|done]].
  apply justified_try; [by apply owner_justified|]. intros t1 u1 Hu1.
  assert (stands ([Ev (OGet KBackup req) (Ok b)] ++ t1) u1) as H1 by by eapply owner_stands.
  apply justified_try; [apply related_justified|]. intros t2 u2 Hu2.
  apply justified_try; [apply justified_harmless; unfold GetBackupConfigForBackup; by emits_auto|].
  intros t3 bc ->%GetBackupConfigForBackup_ok. apply finalizers_justified; [|set_solver].
  apply stands_app. by eapply related_stands.
Qed.
End reconciler.
