(* ===== verification/Permissions.v ===== *)
(** The operator's own permissions: the [+kubebuilder:rbac] markers of [internal/controller], from
    which its ClusterRole is generated, against what its handlers do.

    Every call of every handler of the operator needs verbs that the markers grant; and the roles
    it makes for sidecars grant nothing that it lacks itself, without which Kubernetes refuses to
    let it create them.  RBAC is [grants] of [Roles]. *)
From stdpp Require Import base list strings gmap.
From S2P Require Import Prelude GoStrings GoTime Api Effects Backups Secrets Config Client BackupCtl Deletion Retention Status Protection Roles Lifecycle Promises.
Local Open Scope string_scope.
Local Open Scope list_scope.

(** ** The markers *)

Definition marker (group resource : string) (verbs : list string) : PolicyRule :=
  mkRule [group] verbs [resource] [].

Definition config_map_markers : list PolicyRule :=
  [marker "" "configmaps" ["get"; "list"; "watch"; "update"; "patch"]].
Definition secret_markers : list PolicyRule :=
  [marker "" "secrets" ["get"; "list"; "watch"; "update"; "patch"]].
Definition backup_config_markers : list PolicyRule := [
  marker "admissionregistration.k8s.io" "mutatingwebhookconfigurations" ["get"; "patch"];
  marker "admissionregistration.k8s.io" "validatingwebhookconfigurations" ["get"; "patch"];
  marker Group "backupconfigs" ["get"; "list"; "watch"; "create"; "update"; "patch"; "delete"];
  marker Group "backupconfigs/status" ["get"; "update"; "patch"];
  marker Group "backupconfigs/finalizers" ["update"];
  marker "rbac.authorization.k8s.io" "rolebindings"
    ["create"; "patch"; "update"; "get"; "list"; "watch"];
  marker "rbac.authorization.k8s.io" "roles" ["create"; "patch"; "update"; "get"; "list"; "watch"];
  marker "" "secrets" ["create"; "patch"; "list"; "get"; "watch"; "delete"];
  marker "" "configmaps" ["patch"; "update"; "list"; "get"; "watch"];
  marker "apps" "deployments" ["get"; "create"; "delete"; "update"; "patch"; "list"; "watch"]
].
Definition backup_markers : list PolicyRule := [
  marker "postgresql.cnpg.io" "clusters" ["get"; "list"; "watch"];
  marker "postgresql.cnpg.io" "backups"
    ["get"; "list"; "watch"; "create"; "update"; "patch"; "delete"];
  marker "postgresql.cnpg.io" "backups/status" ["get"; "update"; "patch"];
  marker "postgresql.cnpg.io" "backups/finalizers" ["update"]
].
Definition manager_role : Role :=
  mkRole empty_meta (config_map_markers ++ secret_markers ++ backup_config_markers ++ backup_markers).

(** ** What a call needs *)

Definition kind_resource (k : kind) : string * string :=
  match k with
  | KBackup => ("postgresql.cnpg.io", "backups")
  | KBackupConfig => (Group, "backupconfigs")
  | KCluster => ("postgresql.cnpg.io", "clusters")
  | KSecret => ("", "secrets")
  | KConfigMap => ("", "configmaps")
  | KRole => ("rbac.authorization.k8s.io", "roles")
  | KRoleBinding => ("rbac.authorization.k8s.io", "rolebindings")
  end.

(** The operator reads through the cache of its manager, which lists and watches what it reads. *)
Definition needed (o : op) : (string * string) * list string :=
  match o with
  | OGet k _ => (kind_resource k, ["get"; "list"; "watch"])
  | OList k _ => (kind_resource k, ["list"; "watch"])
  | OCreate k _ => (kind_resource k, ["create"])
  | OUpdate k _ => (kind_resource k, ["update"])
  | OPatch k _ _ => (kind_resource k, ["patch"])
  | ODelete k _ => (kind_resource k, ["delete"])
  | OStatusUpdate _ => ((Group, "backupconfigs/status"), ["update"])
  | _ => (("", ""), [])
  end.

Definition permitted (role : Role) (e : event) : Prop :=
  ∀ verb, verb ∈ (needed (ev_op e)).2 →
  ∀ name, grants role (needed (ev_op e)).1.1 (needed (ev_op e)).1.2 verb name.

(** The same, as a test. *)
Definition allows (role : Role) (group resource verb : string) : bool :=
  existsb (λ rule, match ResourceNames rule with [] => true | _ => false end &&
                   existsb (String.eqb group) (APIGroups rule) &&
                   existsb (String.eqb verb) (Verbs rule) &&
                   existsb (String.eqb resource) (RuleResources rule)) (Rules role).
Definition allows_op (role : Role) (o : op) : bool :=
  forallb (allows role (needed o).1.1 (needed o).1.2) (needed o).2.

Lemma existsb_eqb s l : existsb (String.eqb s) l = true ↔ s ∈ l.
Proof.
  rewrite existsb_exists, list_elem_of_In. split; [|by exists s; rewrite String.eqb_refl].
  by intros (x & Hx & ->%String.eqb_eq).
Qed.

Lemma allows_grants role group resource verb name :
  allows role group resource verb = true → grants role group resource verb name.
Proof.
  unfold allows. rewrite existsb_exists. intros (rule & Hr & Ha).
  rewrite !andb_true_iff, !existsb_eqb in Ha. destruct Ha as [[[Hn Hg] Hv] Hres].
  exists rule. split_and!; [by apply list_elem_of_In|done..|]. left. by destruct (ResourceNames rule).
Qed.

Lemma allows_permitted role e : allows_op role (ev_op e) = true → permitted role e.
Proof.
  unfold allows_op. rewrite forallb_forall. intros Ha verb Hv name.
  by apply allows_grants, Ha, list_elem_of_In.
Qed.

(** Within the markers, and no object is deleted. *)
Definition deletes (o : op) : bool := match o with ODelete _ _ => true | _ => false end.
Definition within (e : event) : Prop :=
  allows_op manager_role (ev_op e) && negb (deletes (ev_op e)) = true.

Lemma within_permitted e : within e → permitted manager_role e.
Proof. intros [Ha _]%andb_true_iff. by apply allows_permitted. Qed.
Lemma within_keeps e : within e → deletes (ev_op e) = false.
Proof. by intros [_ ?%negb_true_iff]%andb_true_iff. Qed.

(** Reads, and calls that write no object, are within the markers. *)
Lemma reads_within e : reads e → within e.
Proof. destruct e as [o a]. destruct o; try done; by destruct k. Qed.
Lemma writes_status_within P e : writes_only P e → within e.
Proof. destruct e as [o a]. destruct o; try done; by destruct k. Qed.

Lemma emits_reads_within {A} (p : prog A) : safe reads p → emits within p.
Proof. intros Hp. eapply emits_mono; [apply reads_within|by apply safe_emits]. Qed.
Lemma client_within ws v : emits within (NewClientFromBackupConfig ws v).
Proof. by apply emits_NewClient. Qed.
Lemma client_of_within ws v : emits within (client_of ws v).
Proof. by apply emits_new_config. Qed.
#[export] Hint Resolve emits_reads_within client_within client_of_within : golib.

(** ** The handlers *)
Section handlers.
Context `{GoMapRange, GoSort, FinalizerUtil, StringSets, StatusConditions, ConflictRetry}.

Lemma retention_permitted : emits (permitted manager_role) runBackupsRetentionCheck.
Proof.
  apply (emits_mono (λ e, allows_op manager_role (ev_op e) = true)); [apply allows_permitted|].
  unfold runBackupsRetentionCheck, runRetentionForBackupConfig, getBackupsToDelete,
    calculateRetentionThreshold.
  emits_auto; done.
Qed.

Lemma secret_within req : emits within (SecretReconciler.Reconcile req).
Proof.
  unfold SecretReconciler.Reconcile, isSecretReferencedByAnyBackupConfig, update_result.
  emits_auto; done.
Qed.

Lemma config_map_within req : emits within (ConfigMapReconciler.Reconcile req).
Proof.
  unfold ConfigMapReconciler.Reconcile, isConfigMapReferencedByAnyBackupConfig, update_result.
  emits_auto; done.
Qed.

Lemma backup_config_within req : emits within (BackupConfigReconciler.Reconcile req).
Proof.
  unfold BackupConfigReconciler.Reconcile, BackupConfigReconciler.reconcile_deleting,
    BackupConfigReconciler.reconcileReferencedSecrets,
    BackupConfigReconciler.reconcileReferencedConfigMaps,
    BackupConfigReconciler.protect_secret, BackupConfigReconciler.protect_config_map,
    EnqueueBackupConfigDeletion.
  emits_auto; done.
Qed.

Lemma status_within ub ut sh i key : emits within (reconcileStatusByKey ub ut sh i key).
Proof. eapply emits_mono; [apply writes_status_within|apply emits_reconcileStatus]. Qed.

Lemma mark_within c id : emits within (MarkBackupPermanent c id).
Proof. unfold MarkBackupPermanent, walg. by emits_auto. Qed.
Lemma delete_within c id : emits within (DeleteBackup c id).
Proof.
  unfold DeleteBackup, UnmarkBackupPermanent, unmarkBackupPermanent, walg.
  emits_auto; done.
Qed.
Lemma clean_within u ws vs : emits within (clean_versions u ws vs).
Proof.
  induction vs as [|v vs IH]; [apply emits_ret|]. cbn [clean_versions].
  unfold DeleteAllBackupsAndWALsInStorage, GetBackupsList, UnmarkBackupPermanent,
    unmarkBackupPermanent, walg.
  emits_auto; done.
Qed.
#[local] Hint Resolve mark_within delete_within clean_within : golib.

Lemma reconcile_within gv eq req : emits within (BackupCtl.Reconcile gv eq req).
Proof.
  unfold BackupCtl.Reconcile, EnqueueBackupDeletion, removeBackupFinalizer,
    reconcileBackupPermanence, reconcileRelatedBackupsMetadata, reconcileBackupMetadata,
    reconcileOwnerReference, reconcileFinalizers, listBackupsOwnedByBackupConfig.
  emits_auto; done.
Qed.

Lemma request_within ub request : emits within (process_request ub request).
Proof.
  unfold process_request, deleteWALGBackup, deleteBackupConfig, delete_backup_body,
    delete_from_storage, clean_storage, removeBackupFinalizer.
  emits_auto; done.
Qed.

Lemma lifecycle_within gv gk dc dp dj cp cj request :
  emits within (LifecycleHook gv gk dc dp dj cp cj request).
Proof.
  unfold LifecycleHook, reconcilePod, reconcileJob, reconcilePodSpecWithPluginSidecar,
    GetBackupConfigForClusterRecovery, getBackupConfigFromPluginConfig.
  emits_auto; done.

Qed.

Lemma build_role_within group kind role cluster configs :
  emits within (BuildRoleForBackupConfigs group kind role cluster configs).
Proof.
  apply emits_bind; [|intros; apply emits_ret]. apply emits_for_fold. intros [[bs ss] cs] b.
  unfold collect_names, collectSecretsAndConfigMapsNamesFromBackupConfig, s3_names, gcs_names,
    selector_name. emits_auto.
Qed.

Lemma encryption_within configs : emits within (ensure_encryption_secrets configs).
Proof.
  induction configs as [|c configs IH]; [apply emits_ret|]. cbn [ensure_encryption_secrets].
  apply emits_bind; [|intros [e|]; [apply emits_ret|done]].
  unfold ensureEncryptionSecret, generateRandomHexString. emits_auto; done.
Qed.

Lemma pre_within group kind req_eq get_kind unmarshal request :
  emits within (Roles.Pre group kind req_eq get_kind unmarshal request).
Proof.
  unfold Roles.Pre, ensureRole, ensureRoleBinding, createRoleBinding,
    GetBackupConfigForClusterRecovery, getBackupConfigFromPluginConfig.
  emits_auto; try apply build_role_within; try apply encryption_within; done.
Qed.

(** ** The roles it makes *)

Lemma rules_held m (sets : name_sets) group resource verb name :
  grants (mkRole m (role_rules sets)) group resource verb name →
  grants manager_role group resource verb name.
Proof.
  destruct sets as [[bs ss] cs]. intros (rule & Hr & Hg & Hv & Hres & _). apply allows_grants.
  simpl in Hr. rewrite !elem_of_cons, elem_of_nil in Hr.
  destruct Hr as [->|[->|[->|[->|[]]]]]; apply list_elem_of_In in Hg, Hv, Hres;
    simpl in Hg, Hv, Hres; destruct_or!; subst; try done; by vm_compute.
Qed.

Lemma exec_build group kind role cluster configs t role' :
  exec (BuildRoleForBackupConfigs group kind role cluster configs) t (Returned role') →
  ∃ m sets, role' = mkRole m (role_rules sets).
Proof.
  unfold BuildRoleForBackupConfigs.
  intros [(t1 & t2 & sets & _ & _ & [_ [= ->]])|(why & _ & [=])]%exec_bind. eauto.
Qed.

(** C32: the operator may do what it does.  Every call that any handler of the operator makes to
    the API server, on every path, needs only verbs that the markers of its ClusterRole grant for
    all names, reads included, for which the manager's cache lists and watches; and every role
    that it builds for a sidecar grants only what it holds itself, so that Kubernetes lets it
    create and change such roles and bind them. *)
Theorem operator_permitted :
  (∀ gv eq req, emits (permitted manager_role) (BackupCtl.Reconcile gv eq req)) ∧
  (∀ ub request, emits (permitted manager_role) (process_request ub request)) ∧
  emits (permitted manager_role) runBackupsRetentionCheck ∧
  (∀ ub ut sh i key, emits (permitted manager_role) (reconcileStatusByKey ub ut sh i key)) ∧
  (∀ req, emits (permitted manager_role) (BackupConfigReconciler.Reconcile req)) ∧
  (∀ req, emits (permitted manager_role) (SecretReconciler.Reconcile req)) ∧
  (∀ req, emits (permitted manager_role) (ConfigMapReconciler.Reconcile req)) ∧
  (∀ group kind eq gk uc request,
     emits (permitted manager_role) (Roles.Pre group kind eq gk uc request)) ∧
  (∀ gv gk dc dp dj cp cj request,
     emits (permitted manager_role) (LifecycleHook gv gk dc dp dj cp cj request)) ∧
  (∀ group kind role cluster configs t role',
     exec (BuildRoleForBackupConfigs group kind role cluster configs) t (Returned role') →
     ∀ g resource verb name, grants role' g resource verb name →
       grants manager_role g resource verb name).
Proof.
  assert (∀ A (p : prog A), emits within p → emits (permitted manager_role) p) as Hp.
  { intros A p. apply emits_mono, within_permitted. }
  split_and!; intros.
  - apply Hp, reconcile_within.
  - apply Hp, request_within.
  - apply retention_permitted.
  - apply Hp, status_within.
  - apply Hp, backup_config_within.
  - apply Hp, secret_within.
  - apply Hp, config_map_within.
  - apply Hp, pre_within.
  - apply Hp, lifecycle_within.
  - match goal with He : exec _ _ _ |- _ => apply exec_build in He as (m & sets & ->) end.
    by eapply rules_held.
Qed.

(** ** Who deletes objects *)

Lemma elem_of_concat {A} (x : A) ls : x ∈ concat ls ↔ ∃ l, x ∈ l ∧ l ∈ ls.
Proof.
  rewrite list_elem_of_In, in_concat. setoid_rewrite list_elem_of_In. naive_solver.
Qed.

(** A delete is one of a Backup. *)
Lemma pass_deletes_backups bc :
  emits (λ e, deletes (ev_op e) = true → is_Some (deleted_backup e)) (runRetentionForBackupConfig bc).
Proof.
  unfold runRetentionForBackupConfig, getBackupsToDelete, calculateRetentionThreshold.
  emits_auto; try done; intros _; by eexists.
Qed.

(** What a pass for one BackupConfig deletes. *)
Definition expired (t : list event) (bc : BackupConfig) (b : Backup) : Prop :=
  ∃ items now th,
    Ev (OList KBackup (Some (Namespace (bc_meta bc)))) (Ok items) ∈ t ∧
    b ∈ candidates bc items ∧ Ev ONow now ∈ t ∧
    threshold_of (DeleteBackupsAfter (Retention (bc_Spec bc))) now = Some th ∧
    may_delete (IgnoreForManualBackups (Retention (bc_Spec bc))) th b.

Lemma expired_mono t t' bc b : (∀ e, e ∈ t → e ∈ t') → expired t bc b → expired t' bc b.
Proof. intros Ht (items & now & th & ? & ? & ? & ?). exists items, now, th. auto. Qed.

Lemma pass_deletes bc t r :
  exec (runRetentionForBackupConfig bc) t r →
  (∃ e, r = Returned e) ∧
  ∀ e, e ∈ t → deletes (ev_op e) = true → ∃ b, deleted_backup e = Some b ∧ expired t bc b.
Proof.
  intros He. pose proof (exec_emits _ _ _ _ (pass_deletes_backups bc) He) as Hk.
  rewrite list.Forall_forall in Hk.
  pose proof He as (items & t' & -> & He')%exec_call. destruct items as [items|why].
  2: { destruct He' as [-> ->]. split; [eauto|]. by intros e ->%list_elem_of_singleton. }
  destruct (retention_pass bc items t' r He) as (Hr & Hsub & Hdel & _). split; [done|].
  intros e Hin Hd. destruct (Hk e Hin Hd) as [b Hb]. exists b. split; [done|].
  assert (b ∈ omap deleted_backup t') as Hbt.
  { apply list_elem_of_omap. exists e. split; [|done].
    apply elem_of_cons in Hin as [->|?]; [done|done]. }
  destruct (Hdel b Hbt) as (now & th & Hnow & Hth & Hm). exists items, now, th.
  split_and!; [by left|by eapply elem_of_submseteq|by right|done|done].
Qed.

(** C9: nothing but the retention policy makes the operator delete an object.  No handler but a
    retention check ever asks the API server to delete anything; and whatever one asks to delete
    is a Backup, which some BackupConfig listed in this check owns, which the listing of its
    namespace has, not being deleted, and which the policy of that BackupConfig gives up: in a
    final or unset phase, not manual when manual ones are exempt, and older than the threshold of
    a moment within the check. *)
Theorem only_expired_deleted :
  (∀ gv eq req, emits (λ e, deletes (ev_op e) = false) (BackupCtl.Reconcile gv eq req)) ∧
  (∀ ub request, emits (λ e, deletes (ev_op e) = false) (process_request ub request)) ∧
  (∀ ub ut sh i key, emits (λ e, deletes (ev_op e) = false) (reconcileStatusByKey ub ut sh i key)) ∧
  (∀ req, emits (λ e, deletes (ev_op e) = false) (BackupConfigReconciler.Reconcile req)) ∧
  (∀ req, emits (λ e, deletes (ev_op e) = false) (SecretReconciler.Reconcile req)) ∧
  (∀ req, emits (λ e, deletes (ev_op e) = false) (ConfigMapReconciler.Reconcile req)) ∧
  (∀ group kind eq gk uc request,
     emits (λ e, deletes (ev_op e) = false) (Roles.Pre group kind eq gk uc request)) ∧
  (∀ gv gk dc dp dj cp cj request,
     emits (λ e, deletes (ev_op e) = false) (LifecycleHook gv gk dc dp dj cp cj request)) ∧
  ∀ t r, exec runBackupsRetentionCheck t r →
    r = Returned tt ∧
    ∀ e, e ∈ t → deletes (ev_op e) = true → ∃ b configs bc,
      deleted_backup e = Some b ∧
      Ev (OList KBackupConfig None) (Ok configs) ∈ t ∧ bc ∈ configs ∧ expired t bc b.
Proof.
  assert (∀ A (p : prog A), emits within p → emits (λ e, deletes (ev_op e) = false) p) as Hp.
  { intros A p. apply emits_mono, within_keeps. }
  split_and!; [intros; apply Hp..|].
  - apply reconcile_within.
  - apply request_within.
  - apply status_within.
  - apply backup_config_within.
  - apply secret_within.
  - apply config_map_within.
  - apply pre_within.
  - apply lifecycle_within.
  - intros t r (configs & t' & -> & He)%exec_call. destruct configs as [configs|why].
    2: { destruct He as [-> ->]. split; [done|]. by intros e ->%list_elem_of_singleton. }
    apply exec_for_each in He as [-> (ts & -> & Hts)].
    + split; [done|]. intros e [->|Hin]%elem_of_cons Hd; [done|].
      apply elem_of_concat in Hin as (u & Hu & Hin).
      apply list_elem_of_lookup in Hin as [i Hi].
      destruct (Forall2_lookup_r _ _ _ _ _ Hts Hi) as (bc & Hbc & Hx).
      destruct (String.eqb _ _); [destruct Hx as [-> _]; by apply elem_of_nil in Hu|].
      apply exec_bind in Hx as [(t1 & t2 & x & -> & Hx & [-> _])|(why & _ & [=])].
      rewrite app_nil_r in Hu, Hi. destruct (pass_deletes bc t1 _ Hx) as [_ Hdel].
      destruct (Hdel e Hu Hd) as (b & Hb & Hexp). exists b, configs, bc.
      split_and!; [done|by left|by eapply list_elem_of_lookup_2|].
      eapply expired_mono; [|exact Hexp]. intros e' He'. right.
      apply elem_of_concat. exists t1. split; [done|by eapply list_elem_of_lookup_2].
    + intros bc u r' _ Hx. destruct (String.eqb _ _); [by destruct Hx as [_ ->]|].
      apply exec_bind in Hx as [(t1 & t2 & x & -> & _ & [_ ->])|(why & Hx & ->)]; [done|].
      destruct (pass_deletes bc u _ Hx) as [[? [=]] _].
Qed.
End handlers.

(** The role of [Roles.cluster_role], and a verb that neither it nor the operator has. *)
Lemma operator_permitted_witness :
  exec (BuildRoleForBackupConfigs "postgresql.cnpg.io/v1" "Cluster" (new_role plugin_cluster)
          plugin_cluster [s3_backup_config]) [] (Returned cluster_role) ∧
  grants manager_role "" "secrets" "watch" "keys" ∧
  allows manager_role "" "configmaps" "delete" = false.
Proof.
  assert (exec (BuildRoleForBackupConfigs "postgresql.cnpg.io/v1" "Cluster" (new_role plugin_cluster)
            plugin_cluster [s3_backup_config]) [] (Returned cluster_role)) as He by (by vm_compute).
  split; [exact He|]. split; [|reflexivity].
  destruct (@operator_permitted canonical_map_range insertion_go_sort finalizer_util string_sets
    place_status_conditions four_attempts)
    as (_ & _ & _ & _ & _ & _ & _ & _ & _ & Hrole).
  apply (Hrole _ _ _ _ _ _ _ He). eexists. split; [right; right; left|].
  split; [left|]. split; [left|]. split; [left|]. right. left.
Defined.

(** A check that deletes the oldest of two backups. *)
Definition check_trace : list event :=
  Ev (OList KBackupConfig None) (Ok [two_hours_keep_one]) ::
  Ev (OList KBackup (Some "ns")) (Ok old_backups) :: pass_trace.

Lemma only_expired_deleted_witness :
  ∃ b configs bc,
    deleted_backup (Ev (ODelete KBackup (Retention.completed "b1" (1 * hour))) None) = Some b ∧
    Ev (OList KBackupConfig None) (Ok configs) ∈ check_trace ∧ bc ∈ configs ∧
    expired check_trace bc b.
Proof.
  destruct (@only_expired_deleted canonical_map_range insertion_go_sort finalizer_util string_sets
    place_status_conditions four_attempts) as (_ & _ & _ & _ & _ & _ & _ & _ & Hcheck).
  destruct (Hcheck check_trace (Returned tt)) as [_ Hdel].
  - eexists _, _. split; [reflexivity|]. eexists _, _. split; [reflexivity|].
    eexists _, _. split; [reflexivity|]. eexists _, _. split; [reflexivity|]. split; reflexivity.
  - apply Hdel; [|reflexivity]. do 3 right. left.
Defined.
