(* ===== verification/World.v ===== *)
(** World: the API server and the object storage that the handlers share.

    The API server keeps objects by kind and key: an update needs the resource version of the
    object it changes, a patch does not, a deleted object with finalizers stays until they are
    gone.  Reads may be served from a cache and answer any version that was ever stored; a
    write that was made may be answered with an error.  The storage is the set of the backups
    in it, by location and name.  What wal-g and the server do is given by relations ([calls],
    [others]), as their documentation allows it; [serve] is one server and storage that can be
    run. *)
From stdpp Require Import base list strings gmap relations.
From S2P Require Import Prelude GoStrings GoTime Api Effects Backups Secrets Config Client BackupCtl Deletion Threads Promises.
Local Open Scope string_scope.
Local Open Scope list_scope.

(** ** The world *)

#[export] Instance kind_countable : Countable kind.
Proof.
  refine (inj_countable' (λ k, match k with
    | KBackup => 0%nat | KBackupConfig => 1%nat | KCluster => 2%nat | KSecret => 3%nat
    | KConfigMap => 4%nat | KRole => 5%nat | KRoleBinding => 6%nat end)
    (λ n, match n with
    | 0%nat => KBackup | 1%nat => KBackupConfig | 2%nat => KCluster | 3%nat => KSecret
    | 4%nat => KConfigMap | 5%nat => KRole | _ => KRoleBinding end) _).
  by intros [].
Defined.

(** An object as the API server stored it once. *)
Inductive version := Version (k : kind) (o : obj k).

Lemma version_inj k (o o' : obj k) : Version k o = Version k o' → o = o'.
Proof.
  intros Heq. injection Heq as Heq. by apply (Eqdep_dec.inj_pair2_eq_dec _ kind_eq_dec) in Heq.
Qed.

Lemma version_kind k k' (o : obj k) (o' : obj k') : Version k o = Version k' o' → k = k'.
Proof. congruence. Qed.

(** The key of an object. *)
Definition name_of {k : kind} (o : obj k) : ObjectKey := key_of (obj_meta o).

Section system.
(** The storage that wal-g uses when run in an environment. *)
Context {L : Type} `{Countable L} (location : gmap string string → L).

(** [objects] are the objects there are, [stored] every version of every object so far,
    [not_found] what reads found missing, [requests] the accepted deletion requests with their
    queues; [data] are the names of the backups in the storage, [gone] those that wal-g has
    deleted or reported missing, [emptied] the locations from which it has deleted everything,
    [ran] the arguments and environments the handlers ran it with. *)
Record world := mkWorld {
  objects : gmap (kind * ObjectKey) version;
  stored : list version;
  not_found : list (kind * ObjectKey);
  requests : list (string * DeletionRequest);
  data : gset (L * string);
  gone : gset (L * string);
  emptied : gset L;
  ran : list (list string * gmap string string);
}.

Definition empty_world : world := mkWorld ∅ [] [] [] ∅ ∅ ∅ [].

Definition set_objects (w : world) (m : gmap (kind * ObjectKey) version) : world :=
  mkWorld m (stored w) (not_found w) (requests w) (data w) (gone w) (emptied w) (ran w).
Definition store (w : world) (v : version) : world :=
  mkWorld (objects w) (v :: stored w) (not_found w) (requests w) (data w) (gone w) (emptied w)
    (ran w).
Definition miss (w : world) (k : kind) (key : ObjectKey) : world :=
  mkWorld (objects w) (stored w) ((k, key) :: not_found w) (requests w) (data w) (gone w)
    (emptied w) (ran w).
Definition accept (w : world) (queueKey : string) (r : DeletionRequest) : world :=
  mkWorld (objects w) (stored w) (not_found w) ((queueKey, r) :: requests w) (data w) (gone w)
    (emptied w) (ran w).
Definition set_data (w : world) (d g : gset (L * string)) (e : gset L)
    (l : list (list string * gmap string string)) : world :=
  mkWorld (objects w) (stored w) (not_found w) (requests w) d g e l.

(** The object that there is of a kind under a key. *)
Definition present (w : world) (k : kind) (key : ObjectKey) (o : obj k) : Prop :=
  objects w !! (k, key) = Some (Version k o).

Definition drop (w : world) (k : kind) (key : ObjectKey) : world :=
  set_objects w (delete (k, key) (objects w)).

(** An object is stored; one that is being deleted and has no finalizers left is removed. *)
Definition save (w : world) {k : kind} (o : obj k) : world :=
  let w := store w (Version k o) in
  if negb (is_zero_ptr (DeletionTimestamp (obj_meta o))) && bool_decide (Finalizers (obj_meta o) = [])
  then drop w k (name_of o)
  else set_objects w (<[(k, name_of o) := Version k o]> (objects w)).

(** Resource versions are never reused. *)
Definition fresh_version (w : world) {k : kind} (o : obj k) : Prop :=
  ResourceVersion (obj_meta o) ≠ "" ∧
  ∀ o' : obj k, Version k o' ∈ stored w → ResourceVersion (obj_meta o') ≠ ResourceVersion (obj_meta o).

(** [new] is a later state of the object [cur]; a write without effect leaves it as it is. *)
Definition replaces (w : world) {k : kind} (cur new : obj k) : Prop :=
  name_of new = name_of cur ∧ UID (obj_meta new) = UID (obj_meta cur) ∧
  (new = cur ∨ fresh_version w new).

(** No write but a deletion makes an object one that is being deleted, and none takes it back. *)
Definition same_fate {k : kind} (cur new : obj k) : Prop :=
  DeletionTimestamp (obj_meta new) = DeletionTimestamp (obj_meta cur).

Definition same_finalizers {k : kind} (cur new : obj k) : Prop :=
  Finalizers (obj_meta new) = Finalizers (obj_meta cur).

(** ** Answers and effects of the calls *)

(** The answer to a write that was made; it may get lost. *)
Definition wrote {A} (a : res A) (new : A) : Prop := a = Ok new ∨ ∃ e, a = Err e.

Definition refused {A} (w : world) (a : res A) (w' : world) : Prop := (∃ e, a = Err e) ∧ w' = w.

(** The object [o] is sent under the resource version of the present one, or under none. *)
Definition not_outdated {k : kind} (o cur : obj k) : Prop :=
  ResourceVersion (obj_meta o) ∈ [""; ResourceVersion (obj_meta cur)].

Definition update_object (w : world) {k : kind} (o : obj k) (a : res (obj k)) (w' : world) : Prop :=
  refused w a w' ∨
  ∃ cur new, present w k (name_of o) cur ∧ not_outdated o cur ∧ replaces w cur new ∧
    same_fate cur new ∧ same_finalizers o new ∧ wrote a new ∧ w' = save w new.

(** An update of the status leaves the metadata alone. *)
Definition update_status (w : world) {k : kind} (o : obj k) (a : res (obj k)) (w' : world) : Prop :=
  refused w a w' ∨
  ∃ cur new, present w k (name_of o) cur ∧ not_outdated o cur ∧ replaces w cur new ∧
    same_fate cur new ∧ same_finalizers cur new ∧ wrote a new ∧ w' = save w new.

(** A merge patch carries the differences between two states of the object. *)
Definition patch_object (w : world) {k : kind} (old new : obj k) (a : res (obj k)) (w' : world)
    : Prop :=
  refused w a w' ∨
  ∃ cur x, present w k (name_of new) cur ∧ replaces w cur x ∧ same_fate cur x ∧
    (same_finalizers old new → same_finalizers cur x) ∧ wrote a x ∧ w' = save w x.

(** A new object, with an identity of its own. *)
Definition new_object (w : world) {k : kind} (o : obj k) : Prop :=
  objects w !! (k, name_of o) = None ∧ fresh_version w o ∧ DeletionTimestamp (obj_meta o) = None ∧
  ∀ o' : obj k, Version k o' ∈ stored w → UID (obj_meta o') ≠ UID (obj_meta o).

Definition create_object (w : world) {k : kind} (o : obj k) (a : res (obj k)) (w' : world) : Prop :=
  refused w a w' ∨
  ∃ new : obj k, name_of new = name_of o ∧ new_object w new ∧ wrote a new ∧ w' = save w new.

(** A deletion removes the object, or marks it if it has finalizers. *)
Definition delete_object (w : world) (k : kind) (key : ObjectKey) (w' : world) : Prop :=
  ∃ cur, present w k key cur ∧
    (Finalizers (obj_meta cur) = [] ∧ w' = drop w k key ∨
     ∃ new, replaces w cur new ∧ same_finalizers cur new ∧ deleting (obj_meta new) ∧
       w' = save w new).

(** This run of wal-g deleted the backup [id], or reported that it is not there; it deleted
    everything. *)
Definition reports_gone (name : string) (args : list string) (a : RunResult * option err)
    (id : string) : Prop :=
  name = "wal-g" ∧ args = delete_target id ∧ (a.2 = None ∨ backup_missing id a.1 = true).

Definition reports_empty (name : string) (args : list string) (a : RunResult * option err) : Prop :=
  name = "wal-g" ∧ args = delete_everything ∧ a.2 = None.

(** What was deleted is not in the storage then, and the names of backups, which come from the
    position in the WAL, are not used again. *)
Definition run_walg (w : world) (name : string) (args : list string) (env : gmap string string)
    (a : RunResult * option err) (w' : world) : Prop :=
  ∃ d g e, w' = set_data w d g e ((args, env) :: ran w) ∧ d ## g ∧
    ((∃ id, reports_gone name args a id ∧ g = {[(location env, id)]} ∪ gone w) ∨
     (∀ id, ¬ reports_gone name args a id) ∧ g = gone w) ∧
    (reports_empty name args a ∧ e = {[location env]} ∪ emptied w ∧
       (∀ id, (location env, id) ∉ d) ∨
     ¬ reports_empty name args a ∧ e = emptied w).

Definition calls (w : world) (o : op) : ans o → world → Prop :=
  match o return ans o → world → Prop with
  | OGet k key => λ a w',
      match a with
      | Ok x => Version k x ∈ stored w ∧ name_of x = key ∧ w' = w
      | Err e => w' = if is_not_found e then miss w k key else w
      end
  | OList k _ => λ a w', w' = w ∧ ∀ l, a = Ok l → Forall (λ x, Version k x ∈ stored w) l
  | OCreate _ x => create_object w x
  | OUpdate _ x => update_object w x
  | OPatch _ old new => patch_object w old new
  | OStatusUpdate x => update_status (k := KBackupConfig) w x
  | ODelete k x => λ a w', a ≠ None ∧ w' = w ∨ delete_object w k (name_of x) w'
  | OExec name args env => run_walg w name args env
  | OEnqueue queueKey r => λ a w', w' = match a with None => accept w queueKey r | Some _ => w end
  | _ => λ _ w', w' = w
  end.

(** What users, other controllers and other processes do.  They may change objects as they
    like, but leave the cleanup finalizers of the plugin alone. *)
Inductive others (w : world) : world → Prop :=
| others_create k (o : obj k) : new_object w o → others w (save w o)
| others_change k key (cur new : obj k) :
    present w k key cur → replaces w cur new → same_fate cur new →
    (protected cur → protected new) → others w (save w new)
| others_delete k key w' : delete_object w k key w' → others w w'
| others_data d : d ## gone w → others w (set_data w d (gone w) (emptied w) (ran w)).
End system.

(** ** An executable server *)

Section server.
Context {L : Type} `{Countable L} (location : gmap string string → L).
Implicit Types w : world (L := L).

(** One way the API server and the storage may behave: reads answer the newest version, objects
    are written as sent, under a new resource version, and wal-g succeeds.  What the handlers
    create or delete is refused. *)
Definition version_of (k : kind) (key : ObjectKey) (v : version) : option (obj k) :=
  match v with
  | Version k' o =>
      match decide (k' = k) with
      | left Hk => if decide (name_of o = key) then Some (eq_rect k' obj o k Hk) else None
      | right _ => None
      end
  end.

Definition newest (k : kind) (key : ObjectKey) (l : list version) : option (obj k) :=
  head (omap (version_of k key) l).

Definition version_text (v : version) : string :=
  match v with Version k o => ResourceVersion (obj_meta o) end.

(** Longer than all before. *)
Definition next_version (w : world (L := L)) : string :=
  "1" +:+ foldr (λ v s, version_text v +:+ s) "" (stored w).

(** An object with other metadata. *)
Definition set_meta {k : kind} : obj k → ObjectMeta → obj k :=
  match k with
  | KBackup => with_bk_meta
  | KBackupConfig => with_bc_meta
  | KCluster => λ c m, mkCluster m (cl_Plugins c) (cl_Recovery c) (cl_ExternalClusters c)
                         (cl_ImageName c) (cl_ImagePullPolicy c)
  | KSecret => λ s m, mkSecret m (sec_Type s) (sec_Data s)
  | KConfigMap => λ c m, mkConfigMap m (cm_Data c)
  | KRole => λ r m, mkRole m (Rules r)
  | KRoleBinding => λ r m, mkRoleBinding m (Subjects r) (rb_RoleRef r)
  end.

Lemma set_meta_meta {k} (o : obj k) m : obj_meta (set_meta o m) = m.
Proof. by destruct k. Qed.

Definition meta_version (m : ObjectMeta) (v : string) : ObjectMeta :=
  mkMeta (Name m) (Namespace m) (UID m) v (Generation m) (Labels m) (Annotations m)
    (Finalizers m) (OwnerReferences m) (CreationTimestamp m) (DeletionTimestamp m).

(** The object as it is stored next. *)
Definition next {k : kind} (w : world (L := L)) (o : obj k) : obj k :=
  set_meta o (meta_version (obj_meta o) (next_version w)).

Definition not_served : err := errorf "not served".

(** The present object [o] names, if it is of the same version, identity and fate. *)
Definition current_for {k : kind} (w : world (L := L)) (o : obj k) : option (obj k) :=
  match objects w !! (k, name_of o) with
  | Some v =>
      match version_of k (name_of o) v with
      | Some cur =>
          if bool_decide (ResourceVersion (obj_meta o) = ResourceVersion (obj_meta cur) ∧
               UID (obj_meta o) = UID (obj_meta cur) ∧
               DeletionTimestamp (obj_meta o) = DeletionTimestamp (obj_meta cur))
          then Some cur else None
      | None => None
      end
  | None => None
  end.

Definition serve_update {k : kind} (w : world (L := L)) (o : obj k) : res (obj k) * world (L := L) :=
  match current_for w o with
  | Some cur => (Ok (next w o), save w (next w o))
  | None => (Err not_served, w)
  end.

(** Patches are those of labels and annotations. *)
Definition serve_patch {k : kind} (w : world (L := L)) (new : obj k) : res (obj k) * world (L := L) :=
  match objects w !! (k, name_of new) ≫= version_of k (name_of new) with
  | Some cur =>
      let x := next w (set_meta cur (with_marks (obj_meta cur) (Labels (obj_meta new))
                 (Annotations (obj_meta new)))) in
      (Ok x, save w x)
  | None => (Err not_served, w)
  end.

(** The id of a deletion of one backup. *)
Definition deletion_target (name : string) (args : list string) : option string :=
  match args with
  | [a; b; id; c] =>
      if String.eqb name "wal-g" && String.eqb a "delete" && String.eqb b "target" &&
         String.eqb c "--confirm" then Some id else None
  | _ => None
  end.

Definition serve_walg (w : world (L := L)) (name : string) (args : list string)
    (env : gmap string string) : world (L := L) :=
  let l := location env in
  let g := match deletion_target name args with
           | Some id => {[(l, id)]} ∪ gone w
           | None => gone w
           end in
  if bool_decide (name = "wal-g" ∧ args = delete_everything)
  then set_data w (filter (λ x, x.1 ≠ l) (data w ∖ g)) g ({[l]} ∪ emptied w) ((args, env) :: ran w)
  else set_data w (data w ∖ g) g (emptied w) ((args, env) :: ran w).

(** The objects of a namespace. *)
Definition serve_list (k : kind) (w : world (L := L)) (ns : option string) : list (obj k) :=
  filter_by (λ o, match ns with Some n => String.eqb (Namespace (obj_meta o)) n | None => true end)
    (omap (λ kv, if decide (kv.1.1 = k) then newest k kv.1.2 (stored w) else None)
       (map_to_list (objects w))).

Definition serve : handler (world (L := L)) := λ o w,
  match o return ans o * world (L := L) with
  | OGet k key =>
      match newest k key (stored w) with
      | Some x => (Ok x, w)
      | None => (Err (mkErr ENotFound "not found"), miss w k key)
      end
  | OList k ns => (Ok (serve_list k w ns), w)
  | OUpdate _ o => serve_update w o
  | OPatch _ _ new => serve_patch w new
  | OExec name args env => ((mkRun "" "" (Some 0%Z), None), serve_walg w name args env)
  | OEnqueue queueKey r => (None, accept w queueKey r)
  | ODelete _ _ => (Some not_served, w)
  | o => (default_ans o, w)
  end.

Lemma version_of_spec k key v x : version_of k key v = Some x → v = Version k x ∧ name_of x = key.
Proof.
  destruct v as [k' o]. simpl. destruct (decide (k' = k)) as [->|]; [|done].
  case_decide; [|done]. by intros [= ->].
Qed.

Lemma newest_stored k key l x : newest k key l = Some x → Version k x ∈ l ∧ name_of x = key.
Proof.
  intros Hx%head_Some_elem_of. apply list_elem_of_omap in Hx as (v & Hin & Ho).
  by apply version_of_spec in Ho as [-> ?].
Qed.

Lemma version_text_length k (o : obj k) l :
  Version k o ∈ l →
  (String.length (ResourceVersion (obj_meta o)) ≤
   String.length (foldr (λ v s, version_text v +:+ s) "" l))%nat.
Proof.
  induction l as [|v l IH]; [by intros ?%elem_of_nil|]. simpl. rewrite length_append.
  intros [<-|Hb]%elem_of_cons; simpl; [lia|]. specialize (IH Hb). lia.
Qed.

Lemma next_fresh {k} w (o : obj k) : fresh_version w (next w o).
Proof.
  unfold fresh_version, next. rewrite set_meta_meta. split; [done|].
  intros o' Hb%version_text_length Heq. simpl in Heq.
  rewrite Heq in Hb. unfold next_version in Hb. rewrite length_append in Hb. simpl in Hb. lia.
Qed.

Lemma next_replaces {k} w (cur o : obj k) :
  name_of o = name_of cur → UID (obj_meta o) = UID (obj_meta cur) → replaces w cur (next w o).
Proof.
  intros Hn Hu. split_and!; [| |right; apply next_fresh]; unfold name_of, next in *;
    by rewrite set_meta_meta.
Qed.

Lemma deletion_target_spec name args id :
  deletion_target name args = Some id ↔
  name = "wal-g" ∧ args = ["delete"; "target"; id; "--confirm"].
Proof.
  unfold deletion_target. split.
  - destruct args as [|x [|y [|i [|z []]]]]; try done. destruct (_ && _) eqn:Hb; [|done].
    intros [= ->]. bool_to_prop. by subst.
  - by intros (-> & ->).
Qed.

(** The server keeps to the rules. *)
Lemma serve_update_rules {k} w (o : obj k) :
  update_object w o (fst (serve_update w o)) (snd (serve_update w o)).
Proof.
  unfold serve_update, current_for.
  destruct (objects w !! _) as [v|] eqn:Hl; [|left; split; [by eexists|done]].
  destruct (version_of _ _ v) as [cur|] eqn:Hv; [|left; split; [by eexists|done]].
  apply version_of_spec in Hv as [-> Hn].
  case_bool_decide as Hb; [|left; split; [by eexists|done]]. destruct Hb as (Hrv & Hu & Hd).
  right. exists cur, (next w o). split_and!; [done| | | | |by left|done].
  - unfold not_outdated. rewrite Hrv. set_solver.
  - by apply next_replaces.
  - unfold same_fate, next. by rewrite set_meta_meta.
  - unfold same_finalizers, next. by rewrite set_meta_meta.
Qed.

Lemma serve_patch_rules {k} w (old new : obj k) :
  patch_object w old new (fst (serve_patch w new)) (snd (serve_patch w new)).
Proof.
  unfold serve_patch. destruct (objects w !! _) as [v|] eqn:Hl; [|left; split; [by eexists|done]].
  simpl. destruct (version_of _ _ v) as [cur|] eqn:Hv; [|left; split; [by eexists|done]].
  apply version_of_spec in Hv as [-> Hn].
  right. exists cur, (next w (set_meta cur (with_marks (obj_meta cur) (Labels (obj_meta new))
                               (Annotations (obj_meta new))))).
  split_and!; [done| | |intros _|by left|done].
  - apply next_replaces; unfold name_of; by rewrite set_meta_meta.
  - unfold same_fate, next. by rewrite !set_meta_meta.
  - unfold same_finalizers, next. by rewrite !set_meta_meta.
Qed.

Lemma serve_walg_rules w name args env a :
  a.2 = None → run_walg location w name args env a (serve_walg w name args env).
Proof.
  intros Ha. unfold serve_walg. cbv zeta.
  assert (∀ g, g = match deletion_target name args with
                   | Some id => {[(location env, id)]} ∪ gone w | None => gone w end →
    (∃ id, reports_gone name args a id ∧ g = {[(location env, id)]} ∪ gone w) ∨
    (∀ id, ¬ reports_gone name args a id) ∧ g = gone w) as Hg.
  { intros g ->. destruct (deletion_target name args) as [id|] eqn:Hd.
    - left. exists id. split; [|done]. apply deletion_target_spec in Hd as [? ?].
      split_and!; [done|done|by left].
    - right. split; [|done]. intros id (? & ? & _).
      assert (deletion_target name args = Some id); [|congruence]. by apply deletion_target_spec. }
  case_bool_decide as Hw; eexists _, _, _; (split; [done|]; split; [|split; [by apply Hg|]]).
  - set_solver.
  - left. destruct Hw. split_and!; [done..|]. intros id. set_solver.
  - set_solver.
  - right. split; [|done]. intros (? & ? & _). by apply Hw.
Qed.

Lemma serve_calls w o : calls location w o (fst (serve o w)) (snd (serve o w)).
Proof.
  destruct o; simpl; try done.
  - destruct (newest k key (stored w)) as [x|] eqn:Hx; simpl; [|done].
    by apply newest_stored in Hx as [? ?].
  - split; [done|]. intros l [= <-]. apply Forall_forall.
    intros o [(kv & _ & Hb)%list_elem_of_omap _]%elem_of_filter_by. case_decide; [|done].
    by apply newest_stored in Hb as [? _].
  - left. split; [by eexists|done].
  - apply serve_update_rules.
  - apply serve_patch_rules.
  - left. split; [by eexists|done].
  - by left.
  - by apply serve_walg_rules.
Qed.
End server.
