(* ===== verification/Completion.v ===== *)
(** Completion: deletions that nothing stands in the way of come to an end.

    On the server of [World] that answers every read with the newest version and on which wal-g
    succeeds, the handlers are run from any world in which a Backup, or a BackupConfig, that
    can be deleted ([deletable], [config_deletable]) is marked as being deleted: the object and its
    data go.  [System] makes runs of the whole system of these runs. *)
From stdpp Require Import base list strings gmap.
From S2P Require Import Prelude GoStrings GoTime Api Effects Backups Secrets Config Client BackupCtl Deletion Protection Promises World.
Local Open Scope string_scope.
Local Open Scope list_scope.
Local Open Scope go_scope.

Section completion.
Context {L : Type} `{Countable L} (location : gmap string string → L).
Implicit Types w : world (L := L).

(** ** Runs on the server *)

Definition serves {A} (p : prog A) w (a : A) w' : Prop :=
  ∃ t, run (serve location) p w = (Returned a, t, w').

Lemma serves_ret {A} (a : A) w : serves (Ret a) w a w.
Proof. by eexists. Qed.

Lemma serves_run {A} (p : prog A) w a :
  fst (fst (run (serve location) p w)) = Returned a → snd (run (serve location) p w) = w →
  serves p w a w.
Proof.
  unfold serves. destruct (run (serve location) p w) as [[r t] w']. simpl. intros -> ->. by eexists.
Qed.

Lemma serves_vis {A} o (k : ans o → prog A) w b w2 :
  serves (k (fst (serve location o w))) (snd (serve location o w)) b w2 → serves (Vis o k) w b w2.
Proof.
  intros [t Ht]. unfold serves. simpl. destruct (serve location o w) as [a w1]. simpl in Ht.
  rewrite Ht. by eexists.
Qed.

Lemma serves_bind {A B} (p : prog A) (f : A → prog B) w a w1 b w2 :
  serves p w a w1 → serves (f a) w1 b w2 → serves (p ≫= f) w b w2.
Proof.
  intros [t1 H1] [t2 H2]. exists (t1 ++ t2). by rewrite run_bind, H1, H2.
Qed.

Lemma serves_try {A B} (p : prog (res A)) (f : A → prog (res B)) w a w1 b w2 :
  serves p w (Ok a) w1 → serves (f a) w1 b w2 → serves (a ←? p; f a) w b w2.
Proof. intros H1 H2. by eapply serves_bind. Qed.

Lemma serves_wrap {A} s (p : prog (res A)) w a w1 :
  serves p w (Ok a) w1 → serves (wrap_err s p) w (Ok a) w1.
Proof. intros H1. eapply serves_bind; [done|apply serves_ret]. Qed.

Lemma serves_exec {A} (p : prog A) w a w' : serves p w a w' → ∃ t, exec p t (Returned a).
Proof. intros [t Ht]. exists t. pose proof (run_exec (serve location) p w) as He. by rewrite Ht in He. Qed.

(** The objects are as they were. *)
Record same_objects w w' : Prop := {
  same_current : objects w' = objects w;
  same_stored : stored w' = stored w;
}.

#[export] Instance same_objects_preorder : PreOrder same_objects.
Proof. split; [by split|]. intros w1 w2 w3 [] []. split; congruence. Qed.

(** The program only looks at the objects, and finds what it needs. *)
Definition reads_as {A} (p : prog A) w (a : A) : Prop :=
  ∀ w', same_objects w w' → serves p w' a w'.

Lemma reads_as_same {A} (p : prog A) w w' a : same_objects w w' → reads_as p w a → reads_as p w' a.
Proof. intros Hs Hp w2 Hs2. apply Hp. by etrans. Qed.

(** Where the rest of the world does not matter. *)
Lemma reads_as_rest {A} (p : prog A) w a :
  (∀ nf rq d g e l, let w' := mkWorld (objects w) (stored w) nf rq d g e l in
     fst (fst (run (serve location) p w')) = Returned a ∧ snd (run (serve location) p w') = w') →
  reads_as p w a.
Proof.
  intros Hp [? ? nf rq d g e l] [Ho Hs]. simpl in Ho, Hs. subst.
  apply serves_run; apply (Hp nf rq d g e l).
Qed.

Lemma serves_get {k key} w (o : obj k) :
  newest k key (stored w) = Some o → serves (call (OGet k key)) w (Ok o) w.
Proof. intros Hn. apply serves_vis. simpl. rewrite Hn. apply serves_ret. Qed.

Lemma serves_for_backup w b bc :
  key_name (backup_config_owner b) ≠ "" →
  newest KBackupConfig (backup_config_owner b) (stored w) = Some bc →
  serves (GetBackupConfigForBackup b) w (Ok bc) w.
Proof.
  intros Hk Hn. unfold GetBackupConfigForBackup. cbv zeta.
  rewrite (proj2 (String.eqb_neq _ _) Hk). apply serves_wrap. exact (serves_get (k := KBackupConfig) w bc Hn).
Qed.

(** ** Wal-g *)

(** Programs that only run wal-g: the objects stay, the data can only get less. *)
Definition shrinks w w' : Prop := same_objects w w' ∧ data w' ⊆ data w.

#[export] Instance shrinks_preorder : PreOrder shrinks.
Proof.
  split; [by split|]. intros w1 w2 w3 [] []. split; by etrans.
Qed.

Definition tame {A} (p : prog A) : Prop := ∀ w, ∃ a w', serves p w a w' ∧ shrinks w w'.

Lemma serve_walg_shrinks w name args env : shrinks w (serve_walg location w name args env).
Proof.
  unfold serve_walg. cbv zeta. destruct (bool_decide _); (split; [by split|]); simpl.
  - intros x [_ Hx]%elem_of_filter. set_solver.
  - destruct (deletion_target _ _); set_solver.
Qed.

Lemma serves_walg c args w :
  serves (walg c args) w (mkRun "" "" (Some 0%Z), None)
    (serve_walg location w "wal-g" args (ToEnvMap (client_config c))).
Proof. apply serves_vis, serves_ret. Qed.

Lemma tame_ret {A} (a : A) : tame (Ret a).
Proof. intros w. exists a, w. split; [apply serves_ret|done]. Qed.

Lemma tame_bind {A B} (p : prog A) (f : A → prog B) :
  tame p → (∀ a, tame (f a)) → tame (p ≫= f).
Proof.
  intros Hp Hf w. destruct (Hp w) as (a & w1 & H1 & S1), (Hf a w1) as (b & w2 & H2 & S2).
  exists b, w2. split; [by eapply serves_bind|by etrans].
Qed.

Lemma tame_walg c args : tame (walg c args).
Proof. intros w. eexists _, _. split; [apply serves_walg|apply serve_walg_shrinks]. Qed.

Lemma tame_for_each {A} (f : A → prog ()) l : (∀ x, tame (f x)) → tame (for_each f l).
Proof. intros Hf. induction l; [apply tame_ret|]. apply tame_bind; [done|intros _; done]. Qed.

(** Deleting a backup. *)
Lemma serves_delete c id w :
  ∃ result w', serves (DeleteBackup c id) w (result, None) w' ∧ shrinks w w' ∧
    (location (ToEnvMap (client_config c)), id) ∉ data w'.
Proof.
  unfold DeleteBackup, unmarkBackupPermanent. eexists _, _. split_and!.
  - eapply serves_bind; [apply serves_walg|]. eapply serves_bind; [apply serves_walg|].
    cbv beta iota zeta.
    eapply serves_bind; [apply serves_walg|apply serves_ret].
  - etrans; [|apply serve_walg_shrinks]. etrans; apply serve_walg_shrinks.
  - intros Hin. apply (proj2 (serve_walg_shrinks _ _ _ _)) in Hin. revert Hin.
    unfold serve_walg at 1. simpl. set_solver.
Qed.

Section everything.
Variable unmarshal_backups : string → res (list BackupMetadata).

(** Deleting everything. *)
Lemma serves_delete_all c w :
  ∃ result w', serves (DeleteAllBackupsAndWALsInStorage unmarshal_backups c) w (result, None) w' ∧
    shrinks w w' ∧ ∀ id, (location (ToEnvMap (client_config c)), id) ∉ data w'.
Proof.
  assert (tame (GetBackupsList unmarshal_backups c)) as H1.
  { apply tame_bind; [apply tame_walg|]. intros [r [e|]]; apply tame_ret. }
  destruct (H1 w) as (l & w1 & S1 & Hw1).
  assert (tame (match l with
      | Err _ => Ret tt
      | Ok backupsList =>
          for_each (λ b, if IsPermanent b
                         then _ ← UnmarkBackupPermanent c (BackupName b); Ret tt
                         else Ret tt) (reverse backupsList)
      end)) as H2.
  { destruct l as [l|e]; [|apply tame_ret]. apply tame_for_each. intros b.
    destruct (IsPermanent b); [|apply tame_ret].
    repeat (apply tame_bind; [|intros ?; apply tame_ret]). apply tame_walg. }
  destruct (H2 w1) as ([] & w2 & S2 & Hw2). eexists _, _. split_and!.
  - eapply serves_bind; [exact S1|]. eapply serves_bind; [exact S2|apply serves_walg].
  - etrans; [exact Hw1|]. etrans; [exact Hw2|apply serve_walg_shrinks].
  - intros id. unfold serve_walg. rewrite bool_decide_eq_true_2 by done. simpl.
    rewrite elem_of_filter. simpl. tauto.
Qed.

Lemma serves_clean_versions ws client vs w :
  (∀ v, v ∈ vs → reads_as (NewClientFromBackupConfig ws v) w (client v)) →
  ∃ w', serves (clean_versions unmarshal_backups ws vs) w None w' ∧ shrinks w w' ∧
    ∀ v id, v ∈ vs → (location (ToEnvMap (client_config (client v))), id) ∉ data w'.
Proof.
  revert w. induction vs as [|v vs IH]; intros w Hc.
  { exists w. split_and!; [apply serves_ret|done|]. by intros v id ?%elem_of_nil. }
  destruct (serves_delete_all (client v) w) as (result & w1 & S1 & Hw1 & H1).
  destruct (IH w1) as (w2 & S2 & Hw2 & H2).
  { intros v' Hv'. eapply reads_as_same; [apply Hw1|]. apply Hc. by right. }
  exists w2. split_and!; [|by etrans|].
  - eapply serves_bind; [apply Hc; [by left|done]|]. by eapply serves_bind.
  - intros v' id [->|Hv']%elem_of_cons; [|by apply H2]. intros Hin. by apply Hw2, H1 in Hin.
Qed.
End everything.

(** ** The last finalizer *)

Lemma save_last {k} w (o : obj k) :
  is_zero_ptr (DeletionTimestamp (obj_meta o)) = false → Finalizers (obj_meta o) = [] →
  objects (save w (next w o)) !! (k, name_of o) = None.
Proof.
  intros Hd Hf. unfold save, next, name_of. cbv zeta. rewrite !set_meta_meta. simpl.
  rewrite Hd, Hf. apply lookup_delete_eq.
Qed.

Lemma save_data {k} w (o : obj k) : data (save w o) = data w.
Proof. unfold save. cbv zeta. by destruct (_ && _). Qed.

(** Writing an object that is being deleted without finalizers removes it. *)
Lemma serves_last_update {k} w (o o' : obj k) :
  present w k (name_of o) o → name_of o' = name_of o →
  ResourceVersion (obj_meta o') = ResourceVersion (obj_meta o) →
  UID (obj_meta o') = UID (obj_meta o) →
  DeletionTimestamp (obj_meta o') = DeletionTimestamp (obj_meta o) →
  is_zero_ptr (DeletionTimestamp (obj_meta o)) = false → Finalizers (obj_meta o') = [] →
  ∃ x w', serves (call (OUpdate k o')) w (Ok x) w' ∧ objects w' !! (k, name_of o) = None ∧
    data w' = data w.
Proof.
  intros Hp Hn Hr Hu Hd Hz Hf.
  assert (current_for w o' = Some o) as Hc.
  { unfold current_for. rewrite Hn, Hp. unfold version_of.
    rewrite decide_True_pi with (HP := eq_refl), decide_True by done. simpl.
    by rewrite bool_decide_eq_true_2. }
  exists (next w o'), (save w (next w o')). split_and!.
  - apply serves_vis. simpl. unfold serve_update. rewrite Hc. apply serves_ret.
  - rewrite <-Hn. apply save_last; [by rewrite Hd|done].
  - by rewrite save_data.
Qed.

(** ** A Backup *)

(** Nothing stands in the way of deleting [b]: it is marked, the cleanup finalizer is the last
    one, its labels and annotations are up to date and name no dependents, and the client [c]
    for its storage can be made. *)
Record deletable (related : Backup → prog (res Backup)) w (b : Backup) (bc : BackupConfig)
    (ws : BackupConfigWithSecrets) (v : Z) (c : Client) : Prop := {
  d_present : present w KBackup (key_of (bk_meta b)) b;
  d_newest : newest KBackup (key_of (bk_meta b)) (stored w) = Some b;
  d_deleting : is_zero_ptr (DeletionTimestamp (bk_meta b)) = false;
  d_finalizers : Finalizers (bk_meta b) = [BackupFinalizerName];
  d_managed : managed b = true;
  d_id : bk_BackupID b ≠ "";
  d_annotated : Annotations (bk_meta b) ≠ None;
  d_free : no_dependents b;
  d_version : pg_version b v;
  d_owner : key_name (backup_config_owner b) ≠ "";
  d_config : newest KBackupConfig (backup_config_owner b) (stored w) = Some bc;
  d_writable : storage_unwritable bc = false;
  d_wanted : IgnoreForBackupDeletion (Retention (bc_Spec bc)) = false;
  d_related : reads_as (related b) w (Ok b);
  d_secrets : reads_as (PrefetchSecretsData bc) w (Ok ws);
  d_client : reads_as (NewClientFromBackupConfig ws v) w c;
}.

Lemma deletable_same related w w' b bc ws v c :
  same_objects w w' → deletable related w b bc ws v c → deletable related w' b bc ws v c.
Proof.
  intros Hs []. pose proof Hs as [Ho Hst]. split; try done; unfold present; rewrite ?Ho, ?Hst;
    try done; by eapply reads_as_same.
Qed.

Lemma serves_delete_backup related w b bc ws v c :
  deletable related w b bc ws v c →
  ∃ w', serves (deleteWALGBackup (key_of (bk_meta b))) w None w' ∧
    objects w' !! (KBackup, key_of (bk_meta b)) = None ∧
    (location (ToEnvMap (client_config c)), bk_BackupID b) ∉ data w'.
Proof.
  intros [].
  destruct (serves_delete c (bk_BackupID b) w) as (result & w1 & S1 & [[Ho Hst] _] & Hgone).
  set (b' := set_finalizers b (removeString (Finalizers (bk_meta b)) BackupFinalizerName)).
  destruct (serves_last_update (k := KBackup) w1 b b') as (x & w2 & S2 & H2 & Hd); try done.
  { unfold present. by rewrite Ho. }
  { unfold b'. simpl. by rewrite d_finalizers0. }
  exists w2. split_and!; [|done|by rewrite Hd].
  assert (containsString (Finalizers (bk_meta b)) BackupFinalizerName = true) as Hc.
  { rewrite d_finalizers0. by apply containsString_elem; left. }
  apply serves_vis. cbn [fst snd serve default_ans]. eapply serves_bind; [|apply serves_vis, serves_ret].
  eapply serves_bind; [exact (serves_get (k := KBackup) w b d_newest0)|]. cbv beta iota.
  unfold no_dependents, str_map_get in d_free0. unfold pg_version, str_map_get in d_version0.
  destruct (Labels (bk_meta b)) as [labels|]; [|done].
  destruct (Annotations (bk_meta b)) as [annotations|]; [|done].
  cbn [mbind option_bind] in d_free0, d_version0.
  rewrite d_free0, Hc, (proj2 (String.eqb_neq _ _) d_id0), d_version0. cbn [negb String.eqb].
  eapply serves_bind; [by apply serves_for_backup|]. cbv beta iota. unfold delete_from_storage.
  rewrite d_writable0. eapply serves_bind; [by apply d_secrets0|]. cbv beta iota.
  destruct (serves_exec _ _ _ _ (d_secrets0 w ltac:(done))) as [t Ht].
  rewrite (prefetch_config _ _ _ Ht), d_wanted0.
  eapply serves_bind; [by apply d_client0|]. eapply serves_bind; [exact S1|]. cbv beta iota.
  unfold removeBackupFinalizer. rewrite Hc. cbn [negb].
  eapply serves_bind; [exact S2|apply serves_ret].
Qed.

(** The reconciler of a marked Backup requests its deletion. *)
Lemma serves_reconcile_backup `{GoMapRange} `{GoSort} gv se w b bc ws v c :
  deletable (reconcileRelatedBackupsMetadata gv se) w b bc ws v c →
  ∃ q w', serves (BackupCtl.Reconcile gv se (key_of (bk_meta b))) w done_ok w' ∧ same_objects w w' ∧
    (q, mkRequest ResourceTypeBackup (key_of (bk_meta b))) ∈ requests w'.
Proof.
  intros []. eexists _, _. split_and!.
  - eapply serves_bind; [exact (serves_get (k := KBackup) w b d_newest0)|]. cbv beta iota.
    rewrite d_managed0, d_deleting0. cbn [negb].
    eapply serves_bind; [by apply d_related0|]. cbv beta iota. eapply serves_bind.
    + eapply serves_bind; [by apply serves_for_backup|]. apply serves_vis, serves_ret.
    + apply serves_ret.
  - by split.
  - by left.
Qed.

(** ** A BackupConfig *)

(** The same for a BackupConfig, with clients for every version of PostgreSQL: it owns no
    Backup. *)
Record config_deletable w (bc : BackupConfig) (ws : BackupConfigWithSecrets) (client : Z → Client)
    : Prop := {
  cd_present : present w KBackupConfig (key_of (bc_meta bc)) bc;
  cd_newest : newest KBackupConfig (key_of (bc_meta bc)) (stored w) = Some bc;
  cd_deleting : is_zero_ptr (DeletionTimestamp (bc_meta bc)) = false;
  cd_finalizers : Finalizers (bc_meta bc) = [BackupConfigFinalizerName];
  cd_childless :
    contains_by (BackupConfigReconciler.child_of bc)
      (serve_list KBackup w (Some (Namespace (bc_meta bc)))) = false;
  cd_writable : storage_unwritable bc = false;
  cd_wanted : IgnoreForBackupConfigDeletion (Retention (bc_Spec bc)) = false;
  cd_secrets : reads_as (PrefetchSecretsData bc) w (Ok ws);
  cd_client v : (11 ≤ v ≤ 19)%Z → reads_as (NewClientFromBackupConfig ws v) w (client v);
}.

Lemma config_deletable_same w w' bc ws client :
  same_objects w w' → config_deletable w bc ws client → config_deletable w' bc ws client.
Proof.
  intros Hs []. pose proof Hs as [Ho Hst].
  split; try done; unfold present, serve_list; rewrite ?Ho, ?Hst; try done;
    intros; eapply reads_as_same; eauto.
Qed.

Lemma serves_reconcile_config `{FinalizerUtil} w bc ws client :
  config_deletable w bc ws client →
  ∃ q r w', serves (BackupConfigReconciler.Reconcile (key_of (bc_meta bc))) w r w' ∧
    same_objects w w' ∧ (q, mkRequest ResourceTypeBackupConfig (key_of (bc_meta bc))) ∈ requests w'.
Proof.
  intros []. eexists _, _, _. split_and!.
  - eapply serves_bind; [exact (serves_get (k := KBackupConfig) w bc cd_newest0)|]. cbv beta iota.
    rewrite cd_deleting0. cbn [negb]. unfold BackupConfigReconciler.reconcile_deleting.
    rewrite (proj2 (containsString_elem _ _)) by (rewrite cd_finalizers0; by left). cbn [negb].
    apply serves_vis. cbn [fst snd serve]. cbv beta iota. cbn [key_ns key_of].
    rewrite cd_childless0. eapply serves_bind; [apply serves_vis, serves_ret|apply serves_ret].
  - by split.
  - by left.
Qed.

Lemma serves_delete_config unmarshal_backups w bc ws client :
  config_deletable w bc ws client →
  ∃ w', serves (deleteBackupConfig unmarshal_backups (key_of (bc_meta bc))) w None w' ∧
    objects w' !! (KBackupConfig, key_of (bc_meta bc)) = None ∧
    ∀ v id, (11 ≤ v ≤ 19)%Z →
      (location (ToEnvMap (client_config (client v))), id) ∉ data w'.
Proof.
  intros [].
  destruct (serves_clean_versions unmarshal_backups ws client pg_versions w) as
    (w1 & S1 & [[Ho Hst] _] & Hgone).
  { intros v Hv%elem_of_seqZ. apply cd_client0. lia. }
  set (bc' := with_bc_meta bc (with_finalizers (bc_meta bc)
                (removeString (Finalizers (bc_meta bc)) BackupConfigFinalizerName))).
  destruct (serves_last_update (k := KBackupConfig) w1 bc bc') as (x & w2 & S2 & H2 & Hd); try done.
  { unfold present. by rewrite Ho. }
  { unfold bc'. simpl. by rewrite cd_finalizers0. }
  exists w2. split_and!; [|done|].
  - eapply serves_bind; [exact (serves_get (k := KBackupConfig) w bc cd_newest0)|]. cbv beta iota.
    eapply serves_bind.
    { unfold clean_storage. rewrite cd_wanted0, cd_writable0.
      eapply serves_bind; [by apply cd_secrets0|exact S1]. }
    cbv beta iota zeta. rewrite (proj2 (containsString_elem _ _)) by (rewrite cd_finalizers0; by left).
    eapply serves_bind; [exact S2|apply serves_ret].
  - intros v id Hv. rewrite Hd. apply Hgone, elem_of_seqZ. lia.
Qed.
End completion.
