(* ===== verification/System.v ===== *)
(** System: the handlers of the operator and of the sidecar together.

    Every handler runs as a thread of [Threads] in the [World], any number of each at a time,
    one call after the other, while users and other controllers change the objects and wal-g
    runs of other processes change the storage.  Only the workers of the deletion controller
    wait for something: a request that was accepted.

    Three theorems hold in every state reached by any interleaving.  The cleanup finalizers do
    their work: that of a Backup is not taken off before its data is gone, that of a
    BackupConfig not before its storage is wiped, unless the policy says so.  And data is only
    deleted when that was asked for, in the storage it was asked for.  Two more say that this
    safety does not come from never deleting anything: in every state the deletion of a Backup
    or BackupConfig that nothing stands in the way of can complete. *)
From stdpp Require Import base list strings gmap relations.
From S2P Require Import Prelude GoStrings GoTime Api Effects Backups Secrets Config Client BackupCtl Deletion Retention Status Protection Roles Lifecycle Instance Threads Promises World Completion.
Local Open Scope string_scope.
Local Open Scope list_scope.

Section system.
Context {L : Type} `{Countable L} (location : gmap string string → L).
Implicit Types w : world (L := L).

(** ** The handlers *)
Context `{GoMapRange, GoSort, FinalizerUtil, StringSets, StatusConditions, ConflictRetry}.
Context (GetPostgresqlMajorVersion : Cluster → Z * option err)
  (semantic_equal : Backup → Backup → bool) (semantic_role_equal : Role → Role → bool)
  (unmarshal_backups : string → res (list BackupMetadata))
  (unmarshal_timelines : string → res (list Storage.WALTimelineInfo))
  (spec_hash : BackupConfigWithSecrets → res string) (archiveInterval : Z)
  (SchemeGroupVersion ClusterKind : string) (GetKind : string → res string)
  (unmarshal_cluster : string → Cluster * option err)
  (unmarshal_backup : string → Backup * option err)
  (lsn_parse : string → res Z) (Int64ToLSN : Z → string) (ToCompactISO8601 : time → string)
  (lsn_target : string → option Z) (lsn_less : Z → string → bool)
  (parse_target_time : string → option time) (LogPath LogFileName : string).

(** A thread runs a handler and drops its result. *)
Definition run_handler {A} (p : prog A) : prog () := p ≫= λ _, Ret tt.

(** Handlers start on nothing, but a worker of the deletion controller on a request that was
    accepted. *)
Inductive handlers (w : world (L := L)) : list event → prog () → Prop :=
| run_backup req : handlers w []
    (run_handler (BackupCtl.Reconcile GetPostgresqlMajorVersion semantic_equal req))
| run_deletion queueKey request :
    (queueKey, request) ∈ requests w →
    handlers w [Ev (OEnqueue queueKey request) None]
      (run_handler (process_request unmarshal_backups request))
| run_retention : handlers w [] runBackupsRetentionCheck
| run_status key : handlers w [] (run_handler
    (reconcileStatusByKey unmarshal_backups unmarshal_timelines spec_hash archiveInterval key))
| run_backup_config req : handlers w [] (run_handler (BackupConfigReconciler.Reconcile req))
| run_secret req : handlers w [] (run_handler (SecretReconciler.Reconcile req))
| run_config_map req : handlers w [] (run_handler (ConfigMapReconciler.Reconcile req))
| run_pre request : handlers w [] (run_handler
    (Roles.Pre SchemeGroupVersion ClusterKind semantic_role_equal GetKind unmarshal_cluster request))
| run_lifecycle dc dp dj cp cj request : handlers w [] (run_handler
    (LifecycleHook GetPostgresqlMajorVersion GetKind dc dp dj cp cj request))
| run_archive request : handlers w [] (run_handler (WALService.Archive unmarshal_cluster request))
| run_wal_restore request : handlers w [] (run_handler (WALService.Restore unmarshal_cluster request))
| run_backup_push request : handlers w [] (run_handler
    (BackupService.Backup unmarshal_cluster unmarshal_backup unmarshal_backups lsn_parse
       Int64ToLSN ToCompactISO8601 request))
| run_restore request : handlers w [] (run_handler
    (RestoreJobHooks.Restore unmarshal_cluster unmarshal_backups lsn_target lsn_less
       parse_target_time LogPath LogFileName request))
| run_metrics cluster : handlers w [] (run_handler (MetricsServer.Collect unmarshal_cluster cluster)).

(** Every handler keeps the promise. *)
Lemma handlers_justified w t p : handlers w t p → justified may t p.
Proof.
  assert (∀ A (q : prog A) t, justified may t q → justified may t (run_handler q)) as Hr.
  { intros A q u Hq. by apply justified_bind. }
  intros [ ]; [apply Hr, reconcile_justified|apply Hr, request_justified|
    apply justified_harmless|apply Hr|apply Hr, backup_config_justified|apply Hr..];
    try apply justified_harmless.
  - apply retention_harmless.
  - eapply status_harmless, emits_reconcileStatus.
  - apply secret_harmless.
  - apply config_map_harmless.
  - apply pre_harmless.
  - apply lifecycle_harmless.
  - apply archive_harmless.
  - apply wal_restore_harmless.
  - apply backup_harmless.
  - apply restore_harmless.
  - apply metrics_harmless.
Qed.

(** ** What threads know, and why a finalizer may be gone *)

Definition knows (w : world (L := L)) (e : event) : Prop :=
  match e with
  | Ev o a =>
      match o return ans o → Prop with
      | OGet k key => λ a,
          match a with
          | Ok x => Version k x ∈ stored w ∧ name_of x = key
          | Err e => is_not_found e = true → (k, key) ∈ not_found w
          end
      | OUpdate k _ => λ a, ∀ x, a = Ok x → Version k x ∈ stored w
      | OPatch k _ new => λ a, ∀ x, a = Ok x → Version k x ∈ stored w ∧ name_of x = name_of new
      | OExec name args env => λ a,
          (∀ id, reports_gone name args a id → (location env, id) ∈ gone w) ∧
          (reports_empty name args a → location env ∈ emptied w)
      | OEnqueue queueKey r => λ a, a = None → (queueKey, r) ∈ requests w
      | _ => λ _, True
      end a
  end.

(** The Backup has no physical backup; or a read of the BackupConfig that owns it found
    none; or that BackupConfig, in some version of it, leaves the data of its Backups alone or
    had a storage known to be unwritable; or wal-g has removed the backup from, or missed it
    in, the storage that this BackupConfig and the version of PostgreSQL stand for. *)
Definition backup_reason (w : world (L := L)) (b : Backup) : Prop :=
  bk_BackupID b = "" ∨
  (KBackupConfig, backup_config_owner b) ∈ not_found w ∨
  ∃ bc, Version KBackupConfig bc ∈ stored w ∧ name_of (k := KBackupConfig) bc = backup_config_owner b ∧
    (IgnoreForBackupDeletion (Retention (bc_Spec bc)) = true ∨ known_unwritable bc ∨
     ∃ v c, pg_version b v ∧ client_for (knows w) bc v c ∧
       (location (ToEnvMap (client_config c)), bk_BackupID b) ∈ gone w).

(** The BackupConfig keeps its data, or its storage was known to be unwritable, or wal-g has
    deleted everything from it, for every version of PostgreSQL. *)
Definition config_reason (w : world (L := L)) (bc : BackupConfig) : Prop :=
  IgnoreForBackupConfigDeletion (Retention (bc_Spec bc)) = true ∨ known_unwritable bc ∨
  ∀ v, (11 ≤ v ≤ 19)%Z →
    ∃ c, client_for (knows w) bc v c ∧ location (ToEnvMap (client_config c)) ∈ emptied w.

Definition reason (w : world (L := L)) {k : kind} : obj k → Prop :=
  match k with
  | KBackup => backup_reason w
  | KBackupConfig => config_reason w
  | _ => λ _, False
  end.

Lemma released_reason w {k} (o : obj k) : released (knows w) o → reason w o.
Proof.
  destruct k; simpl; try done.
  - intros [?|[(e & Hk & Hn)|(bc & [? ?] & Hr)]]; [by left|right; left; by apply Hk|].
    right. right. exists bc. split_and!; [done..|].
    destruct Hr as [?|[?|(v & c & Hv & Hc & (result & e & [Hk _] & Hg))]]; [by left|by right; left|].
    right. right. exists v, c. split_and!; [done..|]. by apply (Hk (bk_BackupID o)).
  - intros [?|[?|Hw]]; [by left|by right; left|]. right. right. intros v Hv.
    destruct (Hw v Hv) as (c & result & Hc & [_ He]). exists c. split; [done|]. by apply He.
Qed.

(** What was stored, found missing, accepted or deleted stays so. *)
Record extends (w w' : world (L := L)) : Prop := {
  ext_stored : stored w ⊆ stored w';
  ext_missing : not_found w ⊆ not_found w';
  ext_requests : requests w ⊆ requests w';
  ext_gone : gone w ⊆ gone w';
  ext_emptied : emptied w ⊆ emptied w';
}.

#[global] Instance extends_preorder : PreOrder extends.
Proof. split; [by split|]. intros w1 w2 w3 [] []. split; by etrans. Qed.

Lemma knows_mono w w' e : extends w w' → knows w e → knows w' e.
Proof.
  intros [Hs Hm Hr Hg He]. destruct e as [[] a]; simpl; try done.
  - destruct a as [x|e]; [intros [? ?]; split; [by apply Hs|done]|]. intros Hx Hn. by apply Hm, Hx.
  - intros Hx x Ha. by apply Hs, Hx.
  - intros Hx x Ha. destruct (Hx x Ha). split; [by apply Hs|done].
  - intros [Hx Hy]. split; [intros id Hid; by apply Hg, Hx|intros Ha; by apply He, Hy].
  - intros Hx Ha. by apply Hr, Hx.
Qed.

Lemma client_known_mono w w' bc v c :
  extends w w' → client_for (knows w) bc v c → client_for (knows w') bc v c.
Proof. intros Hx. apply client_for_mono. intros e. by apply knows_mono. Qed.

Lemma reason_mono w w' {k} (o : obj k) : extends w w' → reason w o → reason w' o.
Proof.
  intros Hx. destruct k; simpl; try done.
  - intros [?|[?|(bc & Hbc & Hk & Hr)]]; [by left|right; left; by apply Hx|].
    right. right. exists bc. split_and!; [by apply Hx|done|].
    destruct Hr as [?|[?|(v & c & Hv & Hc & Hg)]]; [by left|by right; left|].
    right. right. exists v, c. split_and!; [done|by eapply client_known_mono|by apply Hx].
  - intros [?|[?|Hw]]; [by left|by right; left|]. right. right. intros v Hv.
    destruct (Hw v Hv) as (c & Hc & He). exists c. split; [by eapply client_known_mono|by apply Hx].
Qed.

(** ** The invariant *)

(** The object is still there, with its finalizer. *)
Definition held (w : world (L := L)) {k : kind} (o : obj k) : Prop :=
  ∃ cur, present w k (name_of o) cur ∧ UID (obj_meta cur) = UID (obj_meta o) ∧ protected cur.

(** It was there with its finalizer when there was a reason to take it off. *)
Definition let_go (w : world (L := L)) {k : kind} (o : obj k) : Prop :=
  ∃ o' : obj k, Version k o' ∈ stored w ∧ name_of o' = name_of o ∧
    UID (obj_meta o') = UID (obj_meta o) ∧ protected o' ∧ reason w o'.

Definition guarded (w : world (L := L)) : Prop :=
  ∀ k (o : obj k), Version k o ∈ stored w → protected o → held w o ∨ let_go w o.

(** The object that a request names was marked as being deleted. *)
Definition doomed (w : world (L := L)) (ty : ResourceType) (key : ObjectKey) : Prop :=
  let k := match ty with
           | ResourceTypeBackup => KBackup
           | ResourceTypeBackupConfig => KBackupConfig
           end in
  ∃ o : obj k, Version k o ∈ stored w ∧ name_of o = key ∧ deleting (obj_meta o).

Record inv (w : world (L := L)) : Prop := {
  inv_current k key v : objects w !! (k, key) = Some v →
    ∃ o : obj k, v = Version k o ∧ name_of o = key ∧ Version k o ∈ stored w;
  inv_versions k (o o' : obj k) : Version k o ∈ stored w → Version k o' ∈ stored w →
    ResourceVersion (obj_meta o) = ResourceVersion (obj_meta o') → o = o';
  inv_set k (o : obj k) : Version k o ∈ stored w → ResourceVersion (obj_meta o) ≠ "";
  inv_data : data w ## gone w;
  inv_guarded : guarded w;
  inv_requests q r : (q, r) ∈ requests w → doomed w (dr_Type r) (dr_Key r);
  inv_ran args env : (args, env) ∈ ran w → run_due (knows w) args env;
}.

Lemma present_stored w k key (o : obj k) :
  inv w → present w k key o → name_of o = key ∧ Version k o ∈ stored w.
Proof.
  intros HI Hp. destruct (inv_current w HI _ _ _ Hp) as (o' & Heq & ? & ?).
  by apply version_inj in Heq as <-.
Qed.

Lemma let_go_mono w w' {k} (o : obj k) : extends w w' → let_go w o → let_go w' o.
Proof.
  intros Hx (b' & ? & ? & ? & ? & ?). exists b'.
  split_and!; [by apply Hx|done..|by eapply reason_mono].
Qed.

Lemma doomed_mono w w' ty key : extends w w' → doomed w ty key → doomed w' ty key.
Proof. intros Hx (o & ? & ? & ?). exists o. split_and!; [by apply Hx|done..]. Qed.

Lemma run_due_mono w w' args env :
  extends w w' → run_due (knows w) args env → run_due (knows w') args env.
Proof.
  intros Hx [Ht Hw]. split.
  - intros id Hid. eapply target_due_mono; [|by apply Ht]. intros e. by apply knows_mono.
  - intros Ha. eapply wipe_due_mono; [|by apply Hw]. intros e. by apply knows_mono.
Qed.

(** The requests and the runs of wal-g of a step keep to the promise. *)
Lemma inv_rest w w' :
  inv w → extends w w' →
  (∀ q r, (q, r) ∈ requests w' → (q, r) ∈ requests w ∨ doomed w (dr_Type r) (dr_Key r)) →
  (∀ args env, (args, env) ∈ ran w' → (args, env) ∈ ran w ∨ run_due (knows w) args env) →
  (∀ q r, (q, r) ∈ requests w' → doomed w' (dr_Type r) (dr_Key r)) ∧
  (∀ args env, (args, env) ∈ ran w' → run_due (knows w') args env).
Proof.
  intros HI Hx Hr Hn. split.
  - intros q r [Hq|Hd]%Hr; eapply doomed_mono; [done| |done|done]. by eapply inv_requests.
  - intros args env [Hq|Hd]%Hn; eapply run_due_mono; [done| |done|done]. by eapply inv_ran.
Qed.

(** Steps that leave the objects alone. *)
Lemma inv_frame w w' :
  inv w → objects w' = objects w → stored w' = stored w → extends w w' → data w' ## gone w' →
  (∀ q r, (q, r) ∈ requests w' → (q, r) ∈ requests w ∨ doomed w (dr_Type r) (dr_Key r)) →
  (∀ args env, (args, env) ∈ ran w' → (args, env) ∈ ran w ∨ run_due (knows w) args env) →
  inv w'.
Proof.
  intros HI Hb Hst Hx Hd Hr Hn. destruct (inv_rest w w' HI Hx Hr Hn).
  destruct HI as [Hc Hv Hs _ Hg _ _]. split; rewrite ?Hb, ?Hst; try done.
  intros k o Hin Hf. rewrite Hst in Hin. destruct (Hg k o Hin Hf) as [Hh|Hl].
  - left. unfold held, present. by rewrite Hb.
  - right. by eapply let_go_mono.
Qed.

(** Saving changes the objects and their versions only. *)
Lemma save_rest w {k} (o : obj k) :
  stored (save w o) = Version k o :: stored w ∧ not_found (save w o) = not_found w ∧
  requests (save w o) = requests w ∧ data (save w o) = data w ∧ gone (save w o) = gone w ∧
  emptied (save w o) = emptied w ∧ ran (save w o) = ran w.
Proof. unfold save. cbv zeta. by destruct (_ && _). Qed.

Lemma extends_save w {k} (o : obj k) : extends w (save w o).
Proof.
  destruct (save_rest w o) as (Hs & Hm & Hr & _ & Hg & He & _).
  split; rewrite ?Hs, ?Hm, ?Hr, ?Hg, ?He; set_solver.
Qed.

Lemma save_stored w {k} (o : obj k) v : v ∈ stored (save w o) ↔ v = Version k o ∨ v ∈ stored w.
Proof. destruct (save_rest w o) as (-> & _). by rewrite elem_of_cons. Qed.

(** What there is under a key after an object was stored. *)
Lemma save_current w {k} (o : obj k) i v :
  objects (save w o) !! i = Some v →
  i = (k, name_of o) ∧ v = Version k o ∨ objects w !! i = Some v.
Proof.
  unfold save. cbv zeta. destruct (_ && _); simpl.
  - rewrite lookup_delete_Some. tauto.
  - rewrite lookup_insert_Some. naive_solver.
Qed.

Lemma save_other w {k} (o : obj k) i :
  i ≠ (k, name_of o) → objects (save w o) !! i = objects w !! i.
Proof.
  intros Hk. unfold save. cbv zeta.
  destruct (_ && _); simpl; [by rewrite lookup_delete_ne|by rewrite lookup_insert_ne].
Qed.

Lemma save_kept w {k} (o : obj k) : protected o → present (save w o) k (name_of o) o.
Proof.
  intros Hf%protected_some. unfold save, present. cbv zeta.
  destruct (_ && _) eqn:Hb; simpl; [|apply lookup_insert_eq].
  by apply andb_true_iff in Hb as [_ Hnil%bool_decide_eq_true].
Qed.

(** Storing a new state of an object. *)
Lemma inv_save w {k} (new : obj k) :
  inv w → Version k new ∈ stored w ∨ fresh_version w new →
  (∀ cur, present w k (name_of new) cur → UID (obj_meta new) = UID (obj_meta cur) ∧
     (protected cur → protected new ∨ reason w cur)) →
  inv (save w new).
Proof.
  intros HI Hnew Hcur. pose proof (extends_save w new) as Hx.
  destruct (save_rest w new) as (_ & _ & Hrq & Hda & Hgo & _ & Hra).
  destruct (inv_rest w (save w new) HI Hx) as [Hreq Hran]; [rewrite Hrq; auto|rewrite Hra; auto|].
  destruct HI as [Hc Hv Hs Hd Hg _ _].
  assert (∀ v, v ∈ stored (save w new) → v = Version k new ∨ v ∈ stored w)
    as Hold by (by intros v ?%save_stored).
  split; [..|done|done].
  - intros k' key v [[Heq ->]|Hl]%save_current.
    + injection Heq as -> ->. exists new. split_and!; [done..|]. apply save_stored. by left.
    + destruct (Hc _ _ _ Hl) as (o & ? & ? & ?). exists o. split_and!; [done..|by apply Hx].
  - intros k' o o' [Ho|Ho]%Hold [Ho'|Ho']%Hold Heq.
    + rewrite <-Ho' in Ho. by apply version_inj in Ho.
    + pose proof (version_kind _ _ _ _ Ho) as ->. apply version_inj in Ho as ->.
      destruct Hnew as [Hn|[_ Hn]]; [by apply Hv|]. by destruct (Hn _ Ho').
    + pose proof (version_kind _ _ _ _ Ho') as ->. apply version_inj in Ho' as ->.
      destruct Hnew as [Hn|[_ Hn]]; [by apply Hv|]. by destruct (Hn _ Ho).
    + by apply Hv.
  - intros k' o [Ho|Ho]%Hold; [|by apply Hs].
    pose proof (version_kind _ _ _ _ Ho) as ->. apply version_inj in Ho as ->.
    destruct Hnew as [Hn|[Hn _]]; [by apply Hs|done].
  - by rewrite Hda, Hgo.
  - intros k' o [Ho|Ho]%Hold Hf.
    { pose proof (version_kind _ _ _ _ Ho) as ->. apply version_inj in Ho as ->.
      left. exists new. split; [by apply save_kept|done]. }
    destruct (Hg k' o Ho Hf) as [(cur & Hl & Hu & Hcf)|Hlet]; [|right; by eapply let_go_mono].
    destruct (decide ((k', name_of o) = (k, name_of new))) as [Heq|Hne];
      [|left; exists cur; unfold present; by rewrite save_other].
    assert (k' = k) as -> by congruence. assert (name_of o = name_of new) as Hname by congruence.
    unfold present in Hl. rewrite Hname in Hl.
    destruct (Hcur cur Hl) as [Huid Hkeep], (Hkeep Hcf) as [Hnf|Hr].
    + left. exists new. rewrite Hname. split_and!; [by apply save_kept|congruence|done].
    + right. exists cur. destruct (Hc _ _ _ Hl) as (o' & ->%version_inj & Hkc & Hst).
      split_and!; [by apply Hx|congruence|done|done|by eapply reason_mono].
Qed.

Lemma inv_replace w {k} key (cur new : obj k) :
  inv w → present w k key cur → replaces w cur new →
  (protected cur → protected new ∨ reason w cur) → inv (save w new).
Proof.
  intros HI Hl (Hkey & Hu & Hnew) Hf. destruct (present_stored w _ _ _ HI Hl) as [<- Hst].
  apply inv_save; [done| |].
  - destruct Hnew as [->|?]; [by left|by right].
  - intros cur'. unfold present in *. rewrite Hkey. intros Heq.
    assert (cur' = cur) as -> by (apply version_inj; congruence). done.
Qed.

(** A new state with the finalizers of the old one. *)
Lemma inv_replace_same w {k} key (cur new : obj k) :
  inv w → present w k key cur → replaces w cur new → same_finalizers cur new → inv (save w new).
Proof.
  intros HI Hl Hr Hf. eapply inv_replace; [done..|]. intros Hp. left. by eapply protected_same.
Qed.

Lemma inv_create w {k} (o : obj k) : inv w → new_object w o → inv (save w o).
Proof.
  intros HI (Hn & Hf & _). apply inv_save; [done|by right|]. intros cur. unfold present.
  by rewrite Hn.
Qed.

Lemma inv_drop w {k} key (cur : obj k) :
  inv w → present w k key cur → Finalizers (obj_meta cur) = [] → inv (drop w k key).
Proof.
  intros [Hc Hv Hs Hd Hg Hr Hn] Hl Hnil. split; [| | |done| |exact Hr|exact Hn].
  - intros k' key' v. simpl. rewrite lookup_delete_Some. intros [_ Hb]. by apply Hc.
  - exact Hv.
  - exact Hs.
  - intros k' o Ho Hf. destruct (Hg k' o Ho Hf) as [(cur' & Hl' & Hu & Hcf)|Hlet]; [|by right].
    left. exists cur'. split; [|done]. unfold present in *. simpl.
    rewrite lookup_delete_ne; [done|]. intros [= -> ->].
    assert (cur' = cur) as -> by (apply version_inj; congruence).
    by apply protected_some in Hcf.
Qed.

Lemma delete_inv w k key w' : delete_object w k key w' → inv w → inv w' ∧ extends w w'.
Proof.
  intros (cur & Hl & [[Hnil ->]|(new & Hr & Hf & _ & ->)]) HI.
  - split; [by eapply inv_drop|by split].
  - split; [by eapply inv_replace_same|apply extends_save].
Qed.

Lemma create_inv w {k} (o : obj k) a w' :
  create_object w o a w' → inv w → inv w' ∧ extends w w'.
Proof.
  intros [[[e ->] ->]|(new & _ & Hn & _ & ->)] HI; [done|].
  split; [by apply inv_create|apply extends_save].
Qed.

(** An object that a thread was answered is a stored version. *)
Lemma answered_stored w {k} (o : obj k) : answered (knows w) o → Version k o ∈ stored w.
Proof. intros [(key & ? & _)|[(x & Hk)|(old & new & Hk)]]; [done|by apply Hk|by apply Hk]. Qed.

Lemma known_due w t e : Forall (knows w) t → e ∈ t → knows w e.
Proof. rewrite Forall_forall. auto. Qed.

(** Where the promise of the handlers about the objects they update is needed. *)
Lemma update_inv w t {k} (o : obj k) a w' :
  inv w → Forall (knows w) t → (guarded_kind k = true → keeps_or_released k t o) →
  update_object w o a w' → inv w' ∧ extends w w' ∧ ∀ x, a = Ok x → Version k x ∈ stored w'.
Proof.
  intros HI Ht HJ [[[e ->] ->]|(cur & new & Hl & Hv & Hr & _ & Hf & Ha & ->)]; [done|].
  split_and!; [|apply extends_save|].
  2: { intros x ->. destruct Ha as [[= ->]|[? [=]]]. apply save_stored. by left. }
  eapply inv_replace; [done..|]. intros Hp.
  destruct (HJ (protected_guarded _ Hp)) as (b & Hb & [Hkey Hrv] & Hkeep).
  assert (Version k b ∈ stored w) as Hst.
  { apply answered_stored. eapply answered_mono; [|exact Hb]. intros e. by apply known_due. }
  destruct (present_stored w _ _ _ HI Hl) as [Hck Hcs].
  assert (cur = b) as ->.
  { apply (inv_versions w HI); [done|done|]. unfold not_outdated in Hv.
    rewrite !elem_of_cons in Hv. destruct Hv as [Hv|[Hv|Hv%elem_of_nil]]; [|congruence|done].
    exfalso. apply (inv_set w HI _ _ Hst). congruence. }
  destruct (Hkeep Hp) as [Ho|Hrel]; [left; by eapply protected_same|right].
  apply released_reason. eapply released_mono; [|exact Hrel]. intros e. by apply known_due.
Qed.

Lemma patch_inv w {k} (old new : obj k) a w' :
  inv w → (guarded_kind k = true → Finalizers (obj_meta new) = Finalizers (obj_meta old)) →
  patch_object w old new a w' →
  inv w' ∧ extends w w' ∧ ∀ x, a = Ok x → Version k x ∈ stored w' ∧ name_of x = name_of new.
Proof.
  intros HI Hf [[[e ->] ->]|(cur & y & Hl & Hr & _ & Hk & Ha & ->)]; [done|]. split_and!.
  - eapply inv_replace; [done..|]. intros Hc. left.
    eapply protected_same; [|exact Hc]. by apply Hk, Hf, (protected_guarded cur).
  - apply extends_save.
  - intros x ->. destruct Ha as [[= ->]|[? [=]]]. split; [apply save_stored; by left|].
    destruct (present_stored w _ _ _ HI Hl) as [<- _]. by destruct Hr.
Qed.

Lemma status_inv w {k} (o : obj k) a w' :
  inv w → update_status w o a w' → inv w' ∧ extends w w'.
Proof.
  intros HI [[[e ->] ->]|(cur & new & Hl & _ & Hr & _ & Hf & _ & ->)]; [done|].
  split; [by eapply inv_replace_same|apply extends_save].
Qed.

Lemma walg_inv w name args env a w' :
  inv w → run_due (knows w) args env → run_walg location w name args env a w' →
  inv w' ∧ extends w w' ∧ knows w' (Ev (OExec name args env) a).
Proof.
  intros HI Hdue (d & g & em & -> & Hd & Hg & He).
  assert (extends w (set_data w d g em ((args, env) :: ran w))) as Hx.
  { split; simpl; [done..| |].
    - destruct Hg as [(id & _ & ->)|[_ ->]]; set_solver.
    - destruct He as [(_ & -> & _)|[_ ->]]; set_solver. }
  split_and!; [|done|].
  - apply (inv_frame w); [done|done|done|done|done|auto|].
    intros args' env' [[= -> ->]|?]%elem_of_cons; auto.
  - simpl. split.
    + intros id Hid. destruct Hg as [(id' & Hid' & ->)|[Hno _]]; [|by destruct (Hno id)].
      destruct Hid as (_ & -> & _), Hid' as (_ & [= ->] & _). set_solver.
    + intros Hall. destruct He as [(_ & -> & _)|[Hno _]]; [set_solver|done].
Qed.

(** The object of a request was answered as being deleted, so it was. *)
Lemma names_doomed_doomed w r : names_doomed (knows w) r → doomed w (dr_Type r) (dr_Key r).
Proof.
  unfold names_doomed, doomed. destruct (dr_Type r).
  - intros (key & b & [Hb _] & Hd & Hk). exists b. split_and!; [done| |done].
    destruct Hk as [->|(old & new & u & Hu & Hn & ->)]; [done|].
    destruct (Hu u eq_refl) as [_ Hku]. unfold name_of in *. simpl in *. congruence.
  - intros (key & bc & [Hb _] & Hd & ->). by exists bc.
Qed.

(** What every call does to the invariant and tells the thread. *)
Lemma call_inv w t o a w' :
  inv w → Forall (knows w) t → may t o → calls location w o a w' →
  inv w' ∧ extends w w' ∧ knows w' (Ev o a).
Proof.
  intros HI Ht HJ Hc. destruct o; simpl in HJ, Hc; try (by subst w').
  - destruct a as [x|e]; [by destruct Hc as (? & ? & ->)|]. subst w'. simpl.
    destruct (is_not_found e); [|done].
    assert (extends w (miss w k key)) as Hx by (split; simpl; set_solver).
    split_and!; [|done|intros _; by left].
    apply (inv_frame w); [done|done|done|done|apply HI|auto..].
  - by destruct Hc as [-> _].
  - by destruct (create_inv _ _ _ _ Hc HI).
  - by eapply update_inv.
  - by eapply patch_inv.
  - by destruct (status_inv _ _ _ _ HI Hc).
  - destruct Hc as [[_ ->]|Hd]; [done|]. by destruct (delete_inv _ _ _ _ Hd HI).
  - apply walg_inv; [done| |done]. destruct HJ as [Htg Hwp]. split.
    + intros id Hid. eapply target_due_mono; [|by apply Htg]. intros e. by apply known_due.
    + intros Ha. eapply wipe_due_mono; [|by apply Hwp]. intros e. by apply known_due.
  - destruct a as [e|]; [by subst w'|]. subst w'.
    assert (extends w (accept w queueKey request)) as Hx by (split; simpl; set_solver).
    split_and!; [|done|intros _; by left].
    apply (inv_frame w); [done|done|done|done|apply HI| |auto].
    intros q r [[= -> ->]|?]%elem_of_cons; [right|by left].
    apply names_doomed_doomed. eapply names_doomed_mono; [|exact HJ]. intros e. by apply known_due.
Qed.

Lemma others_inv w w' : others w w' → inv w → inv w' ∧ extends w w'.
Proof.
  intros [k o Ho|k key cur new Hl Hr _ Hf|k key w1 Hd|d Hd] HI.
  - split; [by apply inv_create|apply extends_save].
  - split; [|apply extends_save]. eapply inv_replace; [done..|]. by left; apply Hf.
  - by eapply delete_inv.
  - assert (extends w (set_data w d (gone w) (emptied w) (ran w))) as Hx by by split.
    split; [by apply (inv_frame w); auto|done].
Qed.

#[local] Instance system_guarantee : Guarantee handlers (calls location) others inv knows may.
Proof.
  split.
  - intros w t p HI Hp. split; [|by eapply handlers_justified].
    destruct Hp; try by constructor. constructor; [|done]. by intros _.
  - intros w t o a w' HI Ht HJ Hc. destruct (call_inv _ _ _ _ _ HI Ht HJ Hc) as (? & Hx & ?).
    split_and!; [done..|]. intros e. by apply knows_mono.
  - intros w w' HI Ho. destruct (others_inv _ _ Ho HI) as [? Hx]. split; [done|].
    intros e. by apply knows_mono.
Qed.

Definition start : config (world (L := L)) := mkConfig empty_world ∅.

Lemma system_start_inv : inv (shared start).
Proof.
  split; try done; try (by intros ? ? ?%elem_of_nil); try (by intros ? ? ? ?%elem_of_nil).
Qed.

Lemma system_reachable_inv s : rtc (step handlers (calls location) others) start s → inv (shared s).
Proof. intros Hr. eapply threads_reach; [apply system_guarantee|exact Hr|apply system_start_inv]. Qed.

(** C1: the finalizer guards the data, in the whole system.  In every reachable state of
    the system, whatever interleaving of the handlers of operator and sidecar with each other,
    with users and with a stale cache led to it: a Backup that was ever stored with the
    cleanup finalizer is still there with it, or it was there with it when there was a reason
    to release it: it had no physical backup, its BackupConfig was not found, was set to keep
    the data or had an unwritable storage, or wal-g had removed the backup from the storage of
    this BackupConfig (or missed it there).  And what was so removed is not in the storage. *)
Theorem finalizer_guards_data s (b : Backup) :
  rtc (step handlers (calls location) others) start s →
  Version KBackup b ∈ stored (shared s) → BackupFinalizerName ∈ Finalizers (bk_meta b) →
  (held (k := KBackup) (shared s) b ∨
   ∃ b' : Backup, Version KBackup b' ∈ stored (shared s) ∧
     key_of (bk_meta b') = key_of (bk_meta b) ∧ UID (bk_meta b') = UID (bk_meta b) ∧
     BackupFinalizerName ∈ Finalizers (bk_meta b') ∧ backup_reason (shared s) b') ∧
  data (shared s) ## gone (shared s).
Proof. intros [_ _ _ Hd Hg _ _]%system_reachable_inv Hb Hf. split; [by apply (Hg KBackup b)|done]. Qed.

(** C3: and that of a BackupConfig its storage.  In every reachable state of the system, a
    BackupConfig that was ever stored with the cleanup finalizer is still there with it, or it
    was there with it when it was set to keep its data, or its storage was known to be
    unwritable, or wal-g had deleted everything, successfully, from the storage that it and
    each version of PostgreSQL from 11 to 19 stand for. *)
Theorem config_finalizer_guards_storage s (bc : BackupConfig) :
  rtc (step handlers (calls location) others) start s →
  Version KBackupConfig bc ∈ stored (shared s) →
  BackupConfigFinalizerName ∈ Finalizers (bc_meta bc) →
  held (k := KBackupConfig) (shared s) bc ∨
  ∃ bc' : BackupConfig, Version KBackupConfig bc' ∈ stored (shared s) ∧
    key_of (bc_meta bc') = key_of (bc_meta bc) ∧ UID (bc_meta bc') = UID (bc_meta bc) ∧
    BackupConfigFinalizerName ∈ Finalizers (bc_meta bc') ∧ config_reason (shared s) bc'.
Proof. intros [_ _ _ _ Hg _ _]%system_reachable_inv Hb Hf. by apply (Hg KBackupConfig bc). Qed.

(** A Backup of this id is in the way of nothing and was marked as being deleted, at least
    under its key; the environment is made from the BackupConfig that owns it, which does not
    keep the data. *)
Definition asked_target (w : world (L := L)) (id : string) (env : gmap string string) : Prop :=
  ∃ b bc v c,
    Version KBackup b ∈ stored w ∧ bk_BackupID b = id ∧ protected (k := KBackup) b ∧ no_dependents b ∧
    doomed w ResourceTypeBackup (key_of (bk_meta b)) ∧
    Version KBackupConfig bc ∈ stored w ∧ key_of (bc_meta bc) = backup_config_owner b ∧
    IgnoreForBackupDeletion (Retention (bc_Spec bc)) = false ∧
    pg_version b v ∧ client_for (knows w) bc v c ∧ env = ToEnvMap (client_config c).

(** A BackupConfig was marked as being deleted that does not keep the data of its storage,
    from which the environment is made. *)
Definition asked_wipe (w : world (L := L)) (env : gmap string string) : Prop :=
  ∃ bc v c,
    Version KBackupConfig bc ∈ stored w ∧
    doomed w ResourceTypeBackupConfig (key_of (bc_meta bc)) ∧
    IgnoreForBackupConfigDeletion (Retention (bc_Spec bc)) = false ∧
    client_for (knows w) bc v c ∧ env = ToEnvMap (client_config c).

(** C2: nothing is deleted that nobody asked to delete.  In every reachable state of the
    system, every deletion of a backup that a handler made wal-g run was that of a stored
    Backup with the cleanup finalizer and without dependents, under whose key a Backup was
    being deleted, run in the environment that its own BackupConfig and version stand for; and
    every deletion of everything was run for a BackupConfig that was being deleted. *)
Theorem deletions_asked_for s args env :
  rtc (step handlers (calls location) others) start s → (args, env) ∈ ran (shared s) →
  (∀ id, args = delete_target id → asked_target (shared s) id env) ∧
  (args = delete_everything → asked_wipe (shared s) env).
Proof.
  intros HI%system_reachable_inv Hran. destruct (inv_ran _ HI _ _ Hran) as [Ht Hw]. split.
  - intros id Hid. destruct (Ht id Hid) as (key & b & bc & v & c & [q Hq] & [? <-] & ? & _ & ? & ? &
      [? ?] & ? & ? & ? & ?).
    exists b, bc, v, c. split_and!; try done.
    exact (inv_requests _ HI q _ (Hq eq_refl)).
  - intros Ha. destruct (Hw Ha) as (key & bc & v & c & [q Hq] & [? <-] & ? & ? & ?).
    exists bc, v, c. split_and!; try done. exact (inv_requests _ HI q _ (Hq eq_refl)).
Qed.

(** ** Deletions complete *)

Abbreviation run_steps := (rtc (step handlers (calls location) others)).

(** One more handler runs while the others wait. *)
Lemma system_serves {A} (p : prog A) s t a w' :
  handlers (shared s) t (run_handler p) → serves location p (shared s) a w' →
  run_steps s (mkConfig w' (pool s)).
Proof.
  intros Hp [t' Ht]. destruct s as [w ths]. simpl in *.
  assert (snd (run (serve location) (run_handler p) w) = w') as <-.
  { unfold run_handler. by rewrite run_bind, Ht. }
  apply (handler_served _ _ _ (serve location) t _ _ _ (fresh (dom ths))); [apply serve_calls|done|].
  apply not_elem_of_dom, is_fresh.
Qed.

(** C4: the deletion of a Backup can always complete.  From every state of the system in
    which a Backup is marked as being deleted that nothing stands in the way of deleting, and
    whatever the handlers that are running are in the middle of, the reconciler and the worker
    that serves its request can bring the system, while all others wait, to a state in which
    the Backup is gone and its physical backup is not in the storage. *)
Theorem deletion_completes s (b : Backup) bc ws v c :
  deletable location (reconcileRelatedBackupsMetadata GetPostgresqlMajorVersion semantic_equal)
    (shared s) b bc ws v c →
  ∃ s', run_steps s s' ∧ pool s' = pool s ∧
    objects (shared s') !! (KBackup, key_of (bk_meta b)) = None ∧
    (location (ToEnvMap (client_config c)), bk_BackupID b) ∉ data (shared s').
Proof.
  intros Hd. destruct (serves_reconcile_backup _ _ _ _ _ _ _ _ _ Hd) as (q & w1 & S1 & Hs & Hq).
  destruct (serves_delete_backup _ _ _ _ _ _ _ _ (deletable_same _ _ _ _ _ _ _ _ _ Hs Hd))
    as (w2 & S2 & Hw2).
  exists (mkConfig w2 (pool s)). split; [|split; [done|exact Hw2]].
  etrans; [eapply system_serves; [apply run_backup|exact S1]|].
  apply (system_serves _ (mkConfig w1 (pool s)) _ _ _ (run_deletion _ q _ Hq) S2).
Qed.

(** C5: and that of a BackupConfig.  From every state of the system in which a BackupConfig is
    marked as being deleted that owns no Backup, and whose storages can be reached, the
    reconciler and the worker can bring the system to a state in which the BackupConfig is
    gone and its storage is empty for every version of PostgreSQL from 11 to 19. *)
Theorem config_deletion_completes s (bc : BackupConfig) ws client :
  config_deletable location (shared s) bc ws client →
  ∃ s', run_steps s s' ∧ pool s' = pool s ∧
    objects (shared s') !! (KBackupConfig, key_of (bc_meta bc)) = None ∧
    ∀ v id, (11 ≤ v ≤ 19)%Z →
      (location (ToEnvMap (client_config (client v))), id) ∉ data (shared s').
Proof.
  intros Hd. destruct (serves_reconcile_config _ _ _ _ _ Hd) as (q & r & w1 & S1 & Hs & Hq).
  destruct (serves_delete_config _ unmarshal_backups _ _ _ _
              (config_deletable_same _ _ _ _ _ _ Hs Hd)) as (w2 & S2 & Hw2).
  exists (mkConfig w2 (pool s)). split; [|split; [done|exact Hw2]].
  etrans; [eapply system_serves; [apply run_backup_config|exact S1]|].
  apply (system_serves _ (mkConfig w1 (pool s)) _ _ _ (run_deletion _ q _ Hq) S2).
Qed.
End system.
