(* ===== verification/Scenario.v ===== *)
(** Scenario: a run of the whole system, from an empty world to the removal of everything.

    A Secret, a Cluster and a BackupConfig are created and the BackupConfig reconciler runs; a
    Backup is made and its reconciler runs; a user deletes the Backup, its reconciler and a
    worker of the deletion controller run; then the same for the BackupConfig.  Every state is
    computed on the server of [World] and reached in the sense of [System], so that the
    theorems of [System] apply to it. *)
From stdpp Require Import base list strings gmap relations.
From S2P Require Import Prelude GoStrings GoTime Api Effects Backups Secrets Config Client BackupCtl Deletion Retention Status Protection Roles Lifecycle Instance Threads Promises World Completion System.
Local Open Scope string_scope.
Local Open Scope list_scope.

(** ** The handlers and the states *)

(** Some instances of what the handlers leave open. *)
Definition same_marks (b b' : Backup) : bool :=
  bool_decide (Labels (bk_meta b) = Labels (bk_meta b') ∧
               Annotations (bk_meta b) = Annotations (bk_meta b')).

Definition sample_handlers : world (L := string) → list event → prog () → Prop :=
  @handlers string _ _ canonical_map_range insertion_go_sort finalizer_util string_sets
    place_status_conditions four_attempts (λ _, (17%Z, None)) same_marks (λ _ _, false)
    (λ _, Ok []) (λ _, Ok []) (λ _, Ok "") 60 "v1" "Cluster" (λ _, Ok "Cluster")
    (λ _, (empty_cluster, None)) (λ _, (labelled "", None)) (λ _, Ok 0%Z) (λ _, "") (λ _, "")
    (λ _, None) (λ _ _, false) (λ _, None) "" "".

(** The storage is where the prefix of S3 points. *)
Definition s3_location (env : gmap string string) : string := default "" (env !! "WALE_S3_PREFIX").

Definition served (p : prog ()) (w : world (L := string)) : world (L := string) :=
  snd (run (serve s3_location) p w).

(** Users create an object, or mark one with finalizers as being deleted. *)
Definition mark {k : kind} (w : world (L := string)) (o : obj k) : obj k :=
  let m := obj_meta o in
  next w (set_meta o (mkMeta (Name m) (Namespace m) (UID m) "" (Generation m) (Labels m)
    (Annotations m) (Finalizers m) (OwnerReferences m) (CreationTimestamp m) (Some 5%Z))).

(** A Secret, a Cluster, a BackupConfig and a Backup. *)
Definition sample_cluster : Cluster :=
  mkCluster (mkMeta "cluster" "ns" "c" "1" 1 None None [] [] zero_time None) [] None [] "" "".
Definition live_backup : Backup :=
  mkBackup (mkMeta "a" "ns" "u" "1" 1 None None [] [bc_owner] zero_time None)
    "cluster" BackupMethodPlugin (Some wal_g_plugin) BackupPhaseCompleted None "base_1".
Definition with_cluster : world (L := string) :=
  save (k := KCluster) (save (k := KSecret) empty_world keys_secret) sample_cluster.
Definition with_config : world (L := string) := save (k := KBackupConfig) with_cluster s3_backup_config.

(** The BackupConfig reconciler sets the finalizer. *)
Definition config_key : ObjectKey := mkKey "ns" "bc".
Definition config_reconciliation : prog () := run_handler (BackupConfigReconciler.Reconcile config_key).
Definition configured : world (L := string) := served config_reconciliation with_config.

(** A backup is made; the Backup reconciler sets labels, annotations and finalizer. *)
Definition filled : world (L := string) :=
  let w := save (k := KBackup) configured live_backup in
  set_data w {[("s3://bucket/pg/17", "base_1")]} (gone w) (emptied w) (ran w).
Definition backup_key : ObjectKey := mkKey "ns" "a".
Definition backup_reconciliation : prog () :=
  run_handler (@BackupCtl.Reconcile canonical_map_range insertion_go_sort (λ _, (17%Z, None))
    same_marks backup_key).
Definition reconciled : world (L := string) := served backup_reconciliation filled.
Definition labelled_backup : Backup :=
  default live_backup (newest KBackup backup_key (stored reconciled)).

(** A user deletes the Backup; its reconciler runs, then a worker on the request it made. *)
Definition doomed_backup : Backup := mark (k := KBackup) reconciled labelled_backup.
Definition backup_marked : world (L := string) := save (k := KBackup) reconciled doomed_backup.
Definition backup_enqueued : world (L := string) := served backup_reconciliation backup_marked.
Definition deletion (ty : ResourceType) (key : ObjectKey) : prog () :=
  run_handler (process_request (λ _, Ok []) (mkRequest ty key)).
Definition backup_deleted : world (L := string) :=
  served (deletion ResourceTypeBackup backup_key) backup_enqueued.

(** Then the BackupConfig, in the same way. *)
Definition config : BackupConfig :=
  default s3_backup_config (newest KBackupConfig config_key (stored configured)).
Definition doomed_config : BackupConfig := mark (k := KBackupConfig) backup_deleted config.
Definition config_marked : world (L := string) := save (k := KBackupConfig) backup_deleted doomed_config.
Definition config_enqueued : world (L := string) := served config_reconciliation config_marked.
Definition config_deleted : world (L := string) :=
  served (deletion ResourceTypeBackupConfig config_key) config_enqueued.

(** What prefetching and making a client end with. *)
Definition answer_of {A} (p : prog A) (w : world (L := string)) (d : A) : A :=
  match run (serve s3_location) p w with (Returned a, _, _) => a | _ => d end.
Definition sample_secrets : BackupConfigWithSecrets :=
  match answer_of (PrefetchSecretsData config) configured (Err not_served) with
  | Ok ws => ws
  | Err _ => s3_with_secrets
  end.
Definition sample_client (v : Z) : Client :=
  answer_of (NewClientFromBackupConfig sample_secrets v) configured (NewClient default_config).

(** ** They are reached *)

Abbreviation sample_step := (step sample_handlers (calls s3_location) others).
Abbreviation reached w := (rtc sample_step start (mkConfig w ∅)).

Lemma reached_others w w' : others w w' → reached w → reached w'.
Proof. intros Ho Hr. eapply rtc_r; [exact Hr|by apply (step_others _ _ _ (mkConfig w ∅))]. Qed.

Lemma reached_served w t p : sample_handlers w t p → reached w → reached (served p w).
Proof.
  intros Hp Hr. etrans; [exact Hr|].
  apply (handler_served _ _ _ (serve s3_location) t p _ _ 0); [apply serve_calls|done|done].
Qed.

Lemma reached_mark {k} w key (o : obj k) :
  present w k key o → Finalizers (obj_meta o) ≠ [] → reached w → reached (save w (mark w o)).
Proof.
  intros Hp Hf. apply reached_others, (others_delete _ k key). exists o. split; [done|]. right.
  exists (mark w o). split_and!; [|by unfold same_finalizers, mark, next; rewrite !set_meta_meta| |done].
  - split_and!; [| |right; apply next_fresh]; unfold name_of, mark, next; by rewrite !set_meta_meta.
  - unfold deleting, mark, next. by rewrite !set_meta_meta.
Qed.

Lemma stored_all (w : world (L := string)) (f : version → bool) :
  forallb f (stored w) = true → ∀ v, v ∈ stored w → f v = true.
Proof. intros Hf v Hv%list_elem_of_In. by apply (proj1 (forallb_forall _ _) Hf). Qed.

(** The first object of its kind is a new one. *)
Lemma reached_first {k} w (o : obj k) :
  objects w !! (k, name_of o) = None → ResourceVersion (obj_meta o) ≠ "" →
  DeletionTimestamp (obj_meta o) = None →
  forallb (λ v, match v with Version k' _ => negb (bool_decide (k' = k)) end) (stored w) = true →
  reached w → reached (save w o).
Proof.
  intros Hn Hv Hd Hk. apply reached_others, others_create.
  assert (∀ o' : obj k, Version k o' ∉ stored w) as Hno.
  { intros o' Ho%(stored_all _ _ Hk). by rewrite bool_decide_eq_true_2 in Ho. }
  split_and!; [done|split; [done|]|done|]; intros o' Ho; by destruct (Hno o').
Qed.

Lemma configured_reached : reached configured.
Proof.
  apply (reached_served _ []); [apply run_backup_config|].
  apply (reached_first (k := KBackupConfig)); [done..|].
  apply (reached_first (k := KCluster)); [done..|].
  apply (reached_first (k := KSecret)); [done..|apply rtc_refl].
Qed.

Lemma backup_marked_reached : reached backup_marked.
Proof.
  apply (reached_mark _ backup_key); [vm_compute; reflexivity|by vm_compute|].
  apply (reached_served _ []); [apply run_backup|].
  apply (reached_others (save (k := KBackup) configured live_backup));
    [apply others_data, disjoint_empty_r|].
  apply (reached_first (k := KBackup)); [done..|apply configured_reached].
Qed.

Lemma backup_deleted_reached : reached backup_deleted.
Proof.
  apply (reached_served _ [Ev (OEnqueue "ns/bc" (mkRequest ResourceTypeBackup backup_key)) None]).
  { apply run_deletion. vm_compute. left. }
  apply (reached_served _ []); [apply run_backup|].
  apply backup_marked_reached.
Qed.

Lemma config_deleted_reached : reached config_deleted.
Proof.
  apply (reached_served _
    [Ev (OEnqueue "ns/bc" (mkRequest ResourceTypeBackupConfig config_key)) None]).
  { apply run_deletion. vm_compute. left. }
  apply (reached_served _ []); [apply run_backup_config|].
  apply (reached_mark _ config_key); [vm_compute; reflexivity|by vm_compute|].
  apply backup_deleted_reached.
Qed.

(** ** The theorems of the system there *)

(** Wal-g deletes the data, then the finalizer goes, and the Backup with it. *)
Lemma finalizer_guards_data_witness :
  objects backup_deleted !! (KBackup, backup_key) = None ∧ data backup_deleted = ∅ ∧
  ∃ b' : Backup, Version KBackup b' ∈ stored backup_deleted ∧
    key_of (bk_meta b') = backup_key ∧ UID (bk_meta b') = "u" ∧
    BackupFinalizerName ∈ Finalizers (bk_meta b') ∧ backup_reason s3_location backup_deleted b'.
Proof.
  split; [vm_compute; reflexivity|]. split; [vm_compute; reflexivity|].
  destruct (finalizer_guards_data s3_location _ _ _ _ _ _ _ _ _ _ _ _ _ _ _ _ _ _ _ _
    (mkConfig backup_deleted ∅) doomed_backup backup_deleted_reached) as [[(cur & Hl & _)|Hgo] _].
  - apply (list_elem_of_lookup_2 _ 1). vm_compute. reflexivity.
  - vm_compute. left.
  - vm_compute in Hl. done.
  - destruct Hgo as (b' & Hs & Hk & Hu & Hf & Hr). exists b'.
    split; [exact Hs|]. split; [rewrite Hk; vm_compute; reflexivity|].
    split; [rewrite Hu; vm_compute; reflexivity|]. split; [exact Hf|exact Hr].
Defined.

(** Wal-g deletes everything, then the BackupConfig goes. *)
Lemma config_finalizer_guards_storage_witness :
  objects config_deleted !! (KBackupConfig, config_key) = None ∧
  ∃ bc' : BackupConfig, Version KBackupConfig bc' ∈ stored config_deleted ∧
    key_of (bc_meta bc') = config_key ∧ UID (bc_meta bc') = "uid" ∧
    BackupConfigFinalizerName ∈ Finalizers (bc_meta bc') ∧
    config_reason s3_location config_deleted bc'.
Proof.
  split; [vm_compute; reflexivity|].
  destruct (config_finalizer_guards_storage s3_location _ _ _ _ _ _ _ _ _ _ _ _ _ _ _ _ _ _ _ _
    (mkConfig config_deleted ∅) doomed_config config_deleted_reached) as [(cur & Hl & _)|Hgo].
  - apply (list_elem_of_lookup_2 _ 1). vm_compute. reflexivity.
  - vm_compute. left.
  - vm_compute in Hl. done.
  - destruct Hgo as (bc' & Hs & Hk & Hu & Hf & Hr). exists bc'.
    split; [exact Hs|]. split; [rewrite Hk; vm_compute; reflexivity|].
    split; [rewrite Hu; vm_compute; reflexivity|]. split; [exact Hf|exact Hr].
Defined.

Lemma deletions_asked_for_witness :
  ∃ env, (delete_target "base_1", env) ∈ ran config_deleted ∧
    asked_target s3_location config_deleted "base_1" env.
Proof.
  assert (existsb (λ r, bool_decide (r.1 = delete_target "base_1")) (ran config_deleted) = true) as Hr
    by (vm_compute; reflexivity).
  apply existsb_exists in Hr as ([args env] & Hin%list_elem_of_In & Ha%bool_decide_eq_true).
  simpl in Ha. subst args. exists env. split; [exact Hin|].
  destruct (deletions_asked_for s3_location _ _ _ _ _ _ _ _ _ _ _ _ _ _ _ _ _ _ _ _
    (mkConfig config_deleted ∅) (delete_target "base_1") env config_deleted_reached Hin) as [H _].
  by apply H.
Defined.

Lemma doomed_deletable :
  deletable s3_location
    (@reconcileRelatedBackupsMetadata canonical_map_range insertion_go_sort (λ _, (17%Z, None))
       same_marks)
    backup_marked doomed_backup config sample_secrets 17 (sample_client 17).
Proof.
  split.
  1-5, 8-9, 11-13: vm_compute; reflexivity.
  1, 3: apply String.eqb_neq; vm_compute; reflexivity.
  1: apply not_eq_None_Some; eexists; vm_compute; reflexivity.
  - apply reads_as_rest. intros *. split; vm_compute; reflexivity.
  - apply reads_as_rest. intros *. split; vm_compute; reflexivity.
  - apply reads_as_rest. intros *. split; vm_compute; reflexivity.
Qed.

Lemma deletion_completes_witness :
  ∃ s', rtc sample_step (mkConfig backup_marked ∅) s' ∧
    objects (shared s') !! (KBackup, backup_key) = None ∧
    ("s3://bucket/pg/17", "base_1") ∉ data (shared s').
Proof.
  assert (∀ k l i, key_of (bk_meta doomed_backup) = k → bk_BackupID doomed_backup = i →
    s3_location (ToEnvMap (client_config (sample_client 17))) = l →
    ∃ s', rtc sample_step (mkConfig backup_marked ∅) s' ∧
      objects (shared s') !! (KBackup, k) = None ∧ (l, i) ∉ data (shared s')) as Hd.
  { intros k l i <- <- <-.
    enough (∃ s', rtc sample_step (mkConfig backup_marked ∅) s' ∧ pool s' = ∅ ∧
      objects (shared s') !! (KBackup, key_of (bk_meta doomed_backup)) = None ∧
      (s3_location (ToEnvMap (client_config (sample_client 17))), bk_BackupID doomed_backup)
        ∉ data (shared s')) as (s' & Hs & _ & Ho & Hd) by (exists s'; exact (conj Hs (conj Ho Hd))).
    exact (deletion_completes s3_location _ _ _ _ _ _ _ _ _ _ _ _ _ _ _ _ _ _ _ _
      (mkConfig backup_marked ∅) doomed_backup config sample_secrets 17 (sample_client 17)
      doomed_deletable). }
  apply Hd; vm_compute; reflexivity.
Defined.

Lemma doomed_config_deletable :
  config_deletable s3_location config_marked doomed_config
    (mkWithSecrets doomed_config (ws_Storage sample_secrets) (ws_Encryption sample_secrets))
    sample_client.
Proof.
  split.
  1-7: vm_compute; reflexivity.
  - apply reads_as_rest. intros *. split; vm_compute; reflexivity.
  - intros v Hv. apply reads_as_rest. intros *. split; vm_compute; reflexivity.
Qed.

Lemma config_deletion_completes_witness :
  ∃ s', rtc sample_step (mkConfig config_marked ∅) s' ∧
    objects (shared s') !! (KBackupConfig, config_key) = None ∧
    ∀ id, ("s3://bucket/pg/17", id) ∉ data (shared s').
Proof.
  assert (∀ k l, key_of (bc_meta doomed_config) = k →
    s3_location (ToEnvMap (client_config (sample_client 17))) = l →
    ∃ s', rtc sample_step (mkConfig config_marked ∅) s' ∧
      objects (shared s') !! (KBackupConfig, k) = None ∧ ∀ id, (l, id) ∉ data (shared s')) as Hd.
  { intros k l <- <-.
    enough (∃ s', rtc sample_step (mkConfig config_marked ∅) s' ∧ pool s' = ∅ ∧
      objects (shared s') !! (KBackupConfig, key_of (bc_meta doomed_config)) = None ∧
      ∀ v id, (11 ≤ v ≤ 19)%Z →
        (s3_location (ToEnvMap (client_config (sample_client v))), id) ∉ data (shared s'))
      as (s' & Hs & _ & Ho & Hd)
      by (exists s'; split; [exact Hs|]; split; [exact Ho|]; intros id; apply Hd; lia).
    exact (config_deletion_completes s3_location _ _ _ _ _ _ _ _ _ _ _ _ _ _ _ _ _ _ _ _
      (mkConfig config_marked ∅) doomed_config _ sample_client doomed_config_deletable). }
  apply Hd; vm_compute; reflexivity.
Defined.

(** ** A request that outlives its Backup

    Requests name a Backup by its key alone, and the reconciler makes one each time it sees the
    mark.  When the first of two has been served and a user makes a Backup of the same name,
    the second has its data deleted, which nobody asked for. *)
Definition requested_twice : world (L := string) := served backup_reconciliation backup_enqueued.
Definition deleted_once : world (L := string) :=
  served (deletion ResourceTypeBackup backup_key) requested_twice.
Definition namesake : Backup :=
  next (k := KBackup) deleted_once
    (mkBackup (mkMeta "a" "ns" "u2" "" 1 None None [] [bc_owner] zero_time None)
       "cluster" BackupMethodPlugin (Some wal_g_plugin) BackupPhaseCompleted None "base_2").
Definition recreated : world (L := string) :=
  let w := save (k := KBackup) deleted_once namesake in
  served backup_reconciliation
    (set_data w {[("s3://bucket/pg/17", "base_2")]} (gone w) (emptied w) (ran w)).
Definition bereft : world (L := string) :=
  served (deletion ResourceTypeBackup backup_key) recreated.

(** A version is not one of a Backup of this id that is being deleted. *)
Definition not_doomed (id : string) (v : version) : bool :=
  match v with
  | Version k o =>
      match k return obj k → bool with
      | KBackup => λ b, negb (String.eqb (bk_BackupID b) id) ||
                        is_zero_ptr (DeletionTimestamp (bk_meta b))
      | _ => λ _, true
      end o
  end.

Lemma not_doomed_spec id (b : Backup) :
  not_doomed id (Version KBackup b) = true → bk_BackupID b = id →
  is_zero_ptr (DeletionTimestamp (bk_meta b)) = true.
Proof. simpl. intros Hb <-. by rewrite String.eqb_refl in Hb. Qed.

Lemma bereft_reached : reached bereft.
Proof.
  assert (∀ w, (("ns/bc", mkRequest ResourceTypeBackup backup_key) ∈ requests w) →
    reached w → reached (served (deletion ResourceTypeBackup backup_key) w)) as Hdel.
  { intros w Hin. apply (reached_served w
      [Ev (OEnqueue "ns/bc" (mkRequest ResourceTypeBackup backup_key)) None]). by apply run_deletion. }
  apply Hdel; [vm_compute; left|]. apply (reached_served _ []); [apply run_backup|].
  apply (reached_others (save (k := KBackup) deleted_once namesake)).
  { apply others_data, disjoint_singleton_l. refine (bool_decide_unpack _ _). vm_compute. exact I. }
  apply (reached_others deleted_once).
  { apply others_create. split_and!; [vm_compute; reflexivity|apply next_fresh|reflexivity|].
    intros o' Ho Hu.
    assert (forallb (λ v, match v with Version k o => negb (String.eqb (UID (obj_meta o)) "u2") end)
      (stored deleted_once) = true) as Hall by (vm_compute; reflexivity).
    pose proof (stored_all _ _ Hall _ Ho) as Hn. cbv beta iota in Hn. rewrite Hu in Hn.
    vm_compute in Hn. discriminate Hn. }
  apply Hdel; [vm_compute; left|]. apply (reached_served _ []); [apply run_backup|].
  apply (reached_served _ []); [apply run_backup|]. apply backup_marked_reached.
Qed.

(** Both requests were made for the first Backup, and each is served once; the data of the
    second, of which no version is being deleted, is gone. *)
Theorem stale_request_deletes :
  reached bereft ∧ length (requests bereft) = 2%nat ∧
  ("s3://bucket/pg/17", "base_2") ∈ data recreated ∧
  ¬ ("s3://bucket/pg/17", "base_2") ∈ data bereft ∧
  (∀ b : Backup, Version KBackup b ∈ stored bereft → bk_BackupID b = "base_2" →
     is_zero_ptr (DeletionTimestamp (bk_meta b)) = true).
Proof.
  split_and!.
  - apply bereft_reached.
  - vm_compute. reflexivity.
  - refine (bool_decide_unpack _ _). vm_compute. exact I.
  - refine (bool_decide_unpack _ _). vm_compute. exact I.
  - intros b Hb. apply not_doomed_spec.
    assert (forallb (not_doomed "base_2") (stored bereft) = true) as Hall by (vm_compute; reflexivity).
    exact (stored_all _ _ Hall _ Hb).
Qed.
